(* ===== verification/_CoqProject ===== *)
-Q . S2P
Prelude.v
Double.v
DoubleExact.v
Numbers.v
Streams.v
FrameCodec.v
FrameStream.v
AoiWorld.v
GridCells.v
DataTypes.v
MemoryStores.v
MySqlApi.v
MySqlSim.v
MySqlRepository.v
RedisStore.v
ThreadPool.v
CompletionQueue.v
ProtobufCodec.v
AsyncData.v
DataOrder.v
GameTransport.v
Mt19937.v
GameService.v
GameFrame.v
GameScenario.v
GameLogic.v
GameServiceInv.v
GameNotify.v
GameLogin.v
GameLockout.v
GameTokens.v
GameLinked.v
DatabaseScenario.v
Kernel.v
Sockets.v
TcpConnection.v
BlockingClient.v
ClientProperties.v
ClientMain.v
EventLoop.v
RunStop.v
GameServer.v
GameServerInv.v
GameServerLoop.v
ServerDescriptors.v
ServerStart.v
ServerProperties.v
ServerLife.v
ServerMain.v
Bench.v
BenchAoi.v
BenchTimes.v
BenchReport.v
