(* ===== verification/Prelude.v ===== *)
(** * A verification library for the epoll MMO game server

    The program is a single-threaded epoll server of a small game (login, chat,
    movement with an area of interest, heartbeat) with a pool of worker threads for
    its storage, a blocking client for it, and a benchmark. This library models it
    file by file and proves what makes it correct. Paths below are under [src/].

    ** How the parts interact

    The event-loop thread waits in [EventLoop::PollOnce] and calls the callback of each
    ready descriptor: the listening socket ([GameServer::AcceptReady]), a client
    ([ClientReady]: read, decode, [GameService::HandleFrame] for every frame,
    flush) or the completion eventfd ([CompletionQueue::Drain]). The game service talks
    to clients through [GameTransport], which [GameServer] implements, and to the
    storage through [AsyncDataService]: a request is a task of [BoundedThreadPool]; a
    worker runs it against the repository and the session store and pushes a completion
    to [CompletionQueue], whose eventfd wakes the loop, which runs the callback of the
    game service. [GameTransport::Disconnect] re-enters the game service
    ([OnDisconnected]).

    ** How the code is translated

    - [std::uint32_t], [std::uint64_t], [std::size_t] and [long long] are integers of
      [Z]; their conversions ([u32], [u64], [s64]) are written wherever a value could
      leave its range. [double] is the Standard Library's executable binary64; the
      conversion of a [double] that does not fit [std::size_t], undefined in C++, is a
      parameter of the platform.
    - Bytes are [Byte.byte]; containers are lists, [gmap] and [gset]. A [unique_ptr] or
      [UniqueFd] is the resource it owns, and its destruction is the call that releases
      it, on the paths of exceptions too.
    - Code that may throw is a function from a state to an [Outcome] and a state ([M],
      below); what was done before the exception stays done, as in C++. [wp] and [wpx]
      are its weakest preconditions, without and with exceptions. Code that returns its
      errors is a state monad [St], with [sp].
    - A lambda is a value that lists what it captured, with a function that runs it.
    - What a statement needs of the past is kept in a field that the code does not have
      and that nothing reads: the tasks accepted, started and finished of
      [BoundedThreadPool], the requests of [GameServer].
    - What one thread does under a lock, or one atomic access, is one step; the
      interleavings of threads are inductive step relations.
    - System calls, the MySQL and Redis client libraries and the Protobuf runtime are
      not under [src/]. Each is a type class over the state behind it ([Kernel],
      [SocketApi], [EventFd], [MySql], [Redis], [Protobuf]) with a class of laws that
      states its documented behaviour, and an executable instance that satisfies the
      laws and on which the concrete runs are evaluated. Where time matters
      ([ClientTimeLaws]) the class says how long a call may take.

    ** The files

    Shared: [Prelude] (integers, bytes, lists, the monads), [Double] and its exact
    values [DoubleExact], [Mt19937] ([std::mt19937_64] as the standard specifies it),
    [Numbers] ([std::stoul], [std::stoi]), [Streams] ([>>] of words and numbers).

    Protocol. [FrameCodec]: [src/protocol/frame_codec.cpp], with read offset and
    compaction; [FrameStream]: the abstract stream parser it implements, round trip,
    independence of how the stream is cut into reads. [ProtobufCodec]:
    [proto/game_messages.proto], [src/protocol/protobuf_codec.cpp].

    AOI. [AoiWorld]: [src/game/aoi_world.cpp]; its invariant, [VisiblePlayers] as the
    players of the nine cells around, and what [MovePlayer] reports. [GridCells]: the
    cells its rounded arithmetic computes are the exact ones.

    Storage. [DataTypes]: the results, records and the two storage interfaces of
    [include/mmo/data/] as type classes with laws. [MemoryStores]:
    [src/data/memory_stores.cpp]. [MySqlApi], [MySqlSim], [MySqlRepository]:
    [src/data/mysql_player_repository.cpp], which implements a table of players on every
    path and leaves no handle open. [RedisStore]: [src/data/redis_session_store.cpp],
    which implements a table of expiring sessions.

    Concurrency. [ThreadPool]: [src/concurrency/bounded_thread_pool.cpp] (bounded, first
    in first out, no lost wake-up, shutdown drains). [CompletionQueue]:
    [completion_queue.cpp], [event_fd_wakeup.cpp] (a queued completion always has a
    wake-up on its way). [AsyncData]: [src/data/async_data_service.cpp] (each accepted
    request is answered once). [DataOrder]: in which order the stores see the requests.

    Game. [GameTransport] and [GameService]: [src/game/game_service.cpp] and
    [include/mmo/game/game_service.h], every handler and every lambda. [GameLogic] is the
    program logic of its calls, [GameServiceInv] the invariant of its tables,
    [GameFrame] what it leaves to the transport, [GameLinked] that its connections are
    open, [GameNotify] who is told what by each handler, [GameLogin] the login protocol
    across the asynchronous storage, [GameLockout] what keeps an account locked,
    [GameTokens] ids and tokens, [GameScenario] and [DatabaseScenario] concrete runs.

    Network. [Kernel] and [Sockets]: the system calls, and [include/mmo/net/unique_fd.h].
    [TcpConnection]: [src/net/tcp_connection.cpp]. [EventLoop]: [src/net/event_loop.cpp].
    [RunStop]: [Run] and [Stop] across threads and signal handlers.

    Server. [GameServer]: [src/server/game_server.cpp]; [GameServerInv]: its tables, the
    streams of its clients as what [Send] was asked, and the proof that it satisfies the
    laws the game service relies on; [GameServerLoop]: every callback keeps the whole
    server consistent; [ServerDescriptors]: the descriptors of the process, whatever the
    game service does; [ServerStart]: the constructors
    with their unwinding; [ServerProperties]: the properties of the whole server from
    its construction; [ServerLife]: construction, [Run] and destruction as one run.
    [ServerMain]: [apps/mmo_server_main.cpp], with the pointer of its signal handler.

    Client and tools. [BlockingClient]: [src/client/blocking_client.cpp];
    [ClientProperties]: its contract, and the composition of a server's connection with
    a client across the wire. [ClientMain]: [apps/mmo_client_main.cpp], its commands and
    its two threads. [tools/mmo_bench.cpp]: [Bench] (options, protocol benchmark),
    [BenchAoi] (AOI benchmark), [BenchTimes] (the clock readings it makes its numbers of)
    and [BenchReport] (report and [main]).

    ** What the theorems show

    - Invariants, over every reachable state: the AOI world, the game service (which
      never throws), the whole server ([server_invariant]), the thread pool.
    - The server's life: its descriptors are its own four and one per client; what goes
      out to a client is the encodings of all messages [Send] was asked to send it, in
      order, and a client program is given the first of them; and after the destructor,
      on the path of an exception too, every descriptor it opened is closed.
    - Functional behaviour on every branch: reading, sending, moving, chatting, login,
      disconnection, starting up and shutting down; the benchmark ends, its numbers are
      those of its clock readings, and what it writes reads back as their JSON.
    - Equivalence: the rounded grid with the exact one; the data service with one worker
      with running the requests in place.
    - Refinement: the decoder of a stream parser, the MySQL repository of a table of
      players, the Redis store of a table of sessions, [BlockingClient::Receive] of
      reading the next frame of what the socket delivered, by its deadline.
    - Safety and liveness under interleaving: the queue, the wake-ups, answers to
      requests, [Stop], the client program's relaying and its end.
    - Round trips: frames, Protobuf messages, the client's commands, saved players.
    - Defects, as concrete runs: an account online twice, a [Stop] that is lost, an
      account spelled differently that is locked out in every run from then on, an earlier
      save that overwrites a later one, a signal handler's pointer to a destroyed server.

    ** Fuel

    Loops over a system call ([recv_loop], [flush_loop], [accept_loop],
    [client_send_loop], [receive_loop]) run as long as the kernel, or the clock, has
    something to give; the classes give a budget that the kernel's laws make decrease, and
    it is the fuel. Lemmas show that with the budget only the kernel or the code's own
    conditions end the loop, or that more changes nothing ([recv_trace_fuel],
    [flush_loop_spec], [accept_loop_fuel], [client_send_loop_spec], [receive_loop_spec]). [drain_fuel] takes
    the number of buffered bytes, since each frame uses some; [close_marked] the numbers
    of open and of marked connections, since each round that does anything closes one
    ([close_marked_fuel]); [Drain] the
    length of the queue ([drain_runs_all_in_order]); the reader of the report the
    length of the text, since each value uses a character.

    ** Not modelled

    - Algorithms that are the platform's: the distributions of [<random>], the
      conversion of a [double] that does not fit, clocks, and what the benchmark asks
      the system for (time stamp, names, memory). They are parameters.
    - What [apps/mmo_server_main.cpp] prints, memory exhaustion ([std::bad_alloc]),
      failures of mutexes and threads to be created, [mysql_library_end] at exit.
    - The two threads of the client program interleave at the readings of [running] and
      the turns of [Receive]'s loop; what is inside one turn is one step.

    ** Next

    The exact cells of [GridCells] carried through the game service, as a statement on
    the positions players are shown when no client sends a NaN; finer steps of the
    client's receiver. *)

From Stdlib Require Export ZArith Lia Ascii String.
From stdpp Require Export base gmap strings list fin_maps sets sorting.
#[global] Open Scope Z_scope.

(** ** Machine integers *)

(** [uint32_t], [uint64_t]/[size_t] and [long long] as integers of [Z] with
    their conversions written out. *)
Definition u8 (z : Z) : Z := z mod 2 ^ 8.
Definition u32 (z : Z) : Z := z mod 2 ^ 32.
Definition u64 (z : Z) : Z := z mod 2 ^ 64.
Definition s64 (z : Z) : Z := (z + 2 ^ 63) mod 2 ^ 64 - 2 ^ 63.

Definition is_u32 (z : Z) : Prop := 0 <= z < 2 ^ 32.
Definition is_u64 (z : Z) : Prop := 0 <= z < 2 ^ 64.

(** [std::numeric_limits<...>::max()] *)
Definition UINT32_MAX : Z := 2 ^ 32 - 1.
Definition INT_MAX : Z := 2 ^ 31 - 1.
Definition SIZE_MAX : Z := 2 ^ 64 - 1.

Lemma u32_small z : is_u32 z → u32 z = z.
Proof. intros; by apply Z.mod_small. Qed.

Lemma u64_small z : is_u64 z → u64 z = z.
Proof. intros; by apply Z.mod_small. Qed.

Lemma u64_range z : is_u64 (u64 z).
Proof. by apply Z.mod_pos_bound. Qed.

Lemma s64_small z : - 2 ^ 63 <= z < 2 ^ 63 → s64 z = z.
Proof. intros; unfold s64; rewrite Z.mod_small; lia. Qed.

(** The container sizes of the source, as integers. *)
Definition size_of {A} (l : list A) : Z := Z.of_nat (length l).

(** ** Bits *)

(** [bits_by_cases] proves an equality of integers built from shifts, masks and
    disjunctions bit by bit. *)
Lemma testbit_high p z i : 0 <= p <= i → 0 <= z < 2 ^ p → Z.testbit z i = false.
Proof.
  intros Hp Hz. rewrite <- (Z.mod_small z (2 ^ p)) by done.
  apply Z.mod_pow2_bits_high; lia.
Qed.

(** A shifted value and a value below the shift do not overlap. *)
Lemma lor_shiftl_add a b n :
  0 <= n → 0 <= b < 2 ^ n → Z.lor (Z.shiftl a n) b = a * 2 ^ n + b.
Proof.
  intros Hn Hb. rewrite <- Z.shiftl_mul_pow2 by lia.
  rewrite <- Z.lxor_lor, Z.add_nocarry_lxor; try done;
    apply Z.bits_inj'; intros i Hi; rewrite Z.land_spec, Z.bits_0;
    (destruct (decide (i < n)) as [Hlt|Hge];
     [by rewrite Z.shiftl_spec_low | rewrite (testbit_high n b i) by lia;
                                     by rewrite andb_false_r]).
Qed.

(** ** Exceptions *)

(** What the translated C++ functions throw, with the message they give. *)
Inductive exn :=
| invalid_argument (what : string)
| length_error (what : string)
| runtime_error (what : string)
| system_error (what : string)
| out_of_range (what : string)
| bad_optional_access.

#[export] Instance exn_eq_dec : EqDecision exn.
Proof. solve_decision. Defined.

(** A call either returns or throws. *)
Inductive Outcome (A : Type) :=
| Returns (a : A)
| Throws (e : exn).
Arguments Returns {A} a.
Arguments Throws {A} e.

#[export] Instance Outcome_eq_dec {A} `{EqDecision A} : EqDecision (Outcome A).
Proof. solve_decision. Defined.

#[export] Instance Outcome_ret : MRet Outcome := λ A a, Returns a.
#[export] Instance Outcome_bind : MBind Outcome := λ A B f m,
  match m with Returns a => f a | Throws e => Throws e end.

(** [std::optional::value()] *)
Definition optional_value {A} (o : option A) : Outcome A :=
  match o with Some a => Returns a | None => Throws bad_optional_access end.

(** ** Stateful calls *)

(** A call over a mutable state: an outcome and the state it leaves, which a
    thrown exception does not undo. *)
Definition M (S A : Type) : Type := S → Outcome A * S.

#[export] Instance M_ret {S} : MRet (M S) := λ A a s, (Returns a, s).
#[export] Instance M_bind {S} : MBind (M S) := λ A B f m s,
  match m s with
  | (Returns a, s') => f a s'
  | (Throws e, s') => (Throws e, s')
  end.

Definition gets {S A} (f : S → A) : M S A := λ s, (Returns (f s), s).
Definition modify {S} (f : S → S) : M S unit := λ s, (Returns tt, f s).
Definition lift_outcome {S A} (o : Outcome A) : M S A := λ s, (o, s).

(** [for (x : xs) body(x)] *)
Fixpoint for_each {S A} (xs : list A) (body : A → M S unit) : M S unit :=
  match xs with
  | [] => mret tt
  | x :: xs => body x ;; for_each xs body
  end.

(** Weakest preconditions: the call returns (it does not throw) and its result
    and final state satisfy [Q]. *)
Definition wp {S A} (m : M S A) (Q : A → S → Prop) (s : S) : Prop :=
  match m s with
  | (Returns a, s') => Q a s'
  | (Throws _, _) => False
  end.

Section wp_rules.
Context {S : Type}.

Lemma wp_ret {A} (a : A) Q (s : S) : Q a s → wp (mret a) Q s.
Proof. done. Qed.

Lemma wp_gets {A} (f : S → A) Q (s : S) : Q (f s) s → wp (gets f) Q s.
Proof. done. Qed.

Lemma wp_modify (f : S → S) Q (s : S) : Q tt (f s) → wp (modify f) Q s.
Proof. done. Qed.

Lemma wp_bind {A B} (m : M S A) (f : A → M S B) Q s :
  wp m (λ a s', wp (f a) Q s') s → wp (m ≫= f) Q s.
Proof. unfold wp, mbind, M_bind. destruct (m s) as [[a|e] s']; done. Qed.

Lemma wp_wand {A} (m : M S A) (Q Q' : A → S → Prop) s :
  wp m Q s → (∀ a s', Q a s' → Q' a s') → wp m Q' s.
Proof. unfold wp. destruct (m s) as [[a|e] s']; naive_solver. Qed.

Lemma wp_and {A} (m : M S A) (Q1 Q2 : A → S → Prop) s :
  wp m Q1 s → wp m Q2 s → wp m (λ a s', Q1 a s' ∧ Q2 a s') s.
Proof. unfold wp. destruct (m s) as [[a|e] s']; naive_solver. Qed.

Lemma wp_for_each {A} (I : S → Prop) (xs : list A) (body : A → M S unit) s :
  I s → (∀ x s', x ∈ xs → I s' → wp (body x) (λ _, I) s') →
  wp (for_each xs body) (λ _, I) s.
Proof.
  revert s. induction xs as [|x xs IH]; intros s HI Hb; [done|].
  apply wp_bind. eapply wp_wand; [apply Hb; [set_solver|done]|].
  intros [] s1 HI1. apply IH; [done|]. intros y s2 Hy. apply Hb. set_solver.
Qed.
End wp_rules.

(** The same for calls that may throw: [E] of the exception and the state it leaves. *)
Definition wpx {S A} (m : M S A) (Q : A → S → Prop) (E : exn → S → Prop) (s : S) : Prop :=
  match m s with
  | (Returns a, s') => Q a s'
  | (Throws e, s') => E e s'
  end.

Section wpx_rules.
Context {S : Type}.

Lemma wp_wpx {A} (m : M S A) Q E (s : S) : wp m Q s → wpx m Q E s.
Proof. unfold wp, wpx. by destruct (m s) as [[a|e] s']. Qed.

Lemma wpx_bind {A B} (m : M S A) (f : A → M S B) Q E s :
  wpx m (λ a s', wpx (f a) Q E s') E s → wpx (m ≫= f) Q E s.
Proof. unfold wpx, mbind, M_bind. by destruct (m s) as [[a|e] s']. Qed.

Lemma wpx_wand {A} (m : M S A) (Q Q' : A → S → Prop) (E E' : exn → S → Prop) s :
  wpx m Q E s → (∀ a s', Q a s' → Q' a s') → (∀ e s', E e s' → E' e s') → wpx m Q' E' s.
Proof. unfold wpx. destruct (m s) as [[a|e] s']; naive_solver. Qed.

Lemma wpx_for_each {A} (I : S → Prop) E (xs : list A) (body : A → M S unit) s :
  I s → (∀ x s', I s' → wpx (body x) (λ _, I) E s') → wpx (for_each xs body) (λ _, I) E s.
Proof.
  intros HI Hb. revert s HI. induction xs as [|x xs IH]; intros s HI; [done|].
  apply wpx_bind. eapply wpx_wand; [by apply Hb|intros [] s1 HI1; by apply IH|done].
Qed.
End wpx_rules.

(** The run of a sequence, from the run of its first call. *)
Lemma bind_run {S A B} (m : M S A) (f : A → M S B) s a s' :
  m s = (Returns a, s') → (m ≫= f) s = f a s'.
Proof. unfold mbind, M_bind. by intros ->. Qed.

(** Calls that cannot throw: a result and the state it leaves. *)
Definition St (S A : Type) : Type := S → A * S.

#[export] Instance St_ret {S} : MRet (St S) := λ A a s, (a, s).
#[export] Instance St_bind {S} : MBind (St S) := λ A B f m s, let '(a, s) := m s in f a s.

Definition st_gets {S A} (f : S → A) : St S A := λ s, (f s, s).
Definition st_modify {S} (f : S → S) : St S unit := λ s, (tt, f s).

Lemma st_bind_eq {S A B} (m : St S A) (f : A → St S B) s : (m ≫= f) s = f (m s).1 (m s).2.
Proof. unfold mbind, St_bind. by destruct (m s). Qed.

(** [sp m Q s]: the call, run from [s], ends with a result and a state in [Q]. *)
Definition sp {S A} (m : St S A) (Q : A → S → Prop) (s : S) : Prop := Q (m s).1 (m s).2.

Section sp_rules.
Context {S : Type}.

Lemma sp_ret {A} (a : A) Q (s : S) : Q a s → sp (mret a) Q s.
Proof. done. Qed.

Lemma sp_bind {A B} (m : St S A) (f : A → St S B) Q s :
  sp m (λ a s', sp (f a) Q s') s → sp (m ≫= f) Q s.
Proof. unfold sp. by rewrite st_bind_eq. Qed.

Lemma sp_wand {A} (m : St S A) (Q Q' : A → S → Prop) s :
  sp m Q s → (∀ a s', Q a s' → Q' a s') → sp m Q' s.
Proof. unfold sp. auto. Qed.
End sp_rules.

(** A scope that ends with the destruction of its object. *)
Definition destroying {S A} (destroy : S → S) (m : St S A) : St S A := λ s,
  let '(a, s) := m s in (a, destroy s).

Lemma sp_destroying {S A} (destroy : S → S) (m : St S A) Q s :
  sp m (λ a s', Q a (destroy s')) s → sp (destroying destroy m) Q s.
Proof. unfold sp, destroying. by destruct (m s). Qed.

(** A message that is read before its object is destroyed. *)
Lemma sp_error {S A B} (f : S → B) (g : B → A) (destroy : S → S) Q s :
  Q (g (f s)) (destroy s) → sp (destroying destroy (error ← st_gets f; mret (g error))) Q s.
Proof. done. Qed.

Lemma sp_call {S A} (f : St S A) Q s : (let '(a, s') := f s in Q a s') → sp f Q s.
Proof. unfold sp. by destruct (f s). Qed.

(** ** Lists updated in one place *)

Section list_update.
Context {A : Type}.
Implicit Types (l : list A).

Lemma elem_of_insert_new l i old new : l !! i = Some old → new ∈ <[i := new]> l.
Proof. intros Hi. apply list_elem_of_lookup. exists i. apply list_lookup_insert_eq. by eapply lookup_lt_Some. Qed.

Lemma elem_of_insert_inv l i new x : x ∈ <[i := new]> l → x = new ∨ x ∈ l.
Proof.
  intros (j & Hj)%list_elem_of_lookup. apply list_lookup_insert_Some in Hj as [(_ & <- & _)|[_ Hj]];
    [by left|right; apply list_elem_of_lookup; eauto].
Qed.

(** Replacing an element other than [x] keeps [x] in the list. *)
Lemma elem_of_insert_keep l i old new x :
  l !! i = Some old → x ≠ old → x ∈ l → x ∈ <[i := new]> l.
Proof.
  intros Hi Hne (j & Hj)%list_elem_of_lookup. apply list_elem_of_lookup. exists j.
  rewrite list_lookup_insert_ne; [done|]. intros <-. congruence.
Qed.
End list_update.

(** ** Ordered iteration *)

(** The elements of a [std::set<std::uint64_t>] in iteration order. *)
Definition set_iter (s : gset Z) : list Z := merge_sort Z.le (elements s).

Lemma set_iter_perm s : set_iter s ≡ₚ elements s.
Proof. apply merge_sort_Permutation. Qed.

Lemma elem_of_set_iter s x : x ∈ set_iter s ↔ x ∈ s.
Proof. rewrite set_iter_perm. apply elem_of_elements. Qed.

Lemma NoDup_set_iter s : NoDup (set_iter s).
Proof. rewrite set_iter_perm. apply NoDup_elements. Qed.

(** ** Automation *)

Create HintDb mmo.
Create Rewrite HintDb mmo.
#[export] Hint Resolve u64_range : mmo.
#[export] Hint Resolve u32_small u64_small s64_small : mmo.
#[export] Hint Rewrite elem_of_set_iter : mmo.

(** Splits every boolean test of the goal and of the hypotheses. *)
Ltac case_ifs :=
  repeat match goal with
  | |- context [if ?b then _ else _] => destruct b eqn:?
  end.

(** Turns boolean comparisons of [Z] into propositions and calls [lia]. *)
Ltac bool_lia :=
  repeat match goal with
  | H : context [negb _] |- _ => rewrite negb_true_iff in H || rewrite negb_false_iff in H
  | H : (_ || _) = true |- _ => apply orb_true_iff in H
  | H : (_ || _) = false |- _ => apply orb_false_iff in H; destruct H
  | H : (_ && _) = true |- _ => apply andb_true_iff in H; destruct H
  | H : (_ && _) = false |- _ => apply andb_false_iff in H
  | H : (_ <? _) = true |- _ => apply Z.ltb_lt in H
  | H : (_ <? _) = false |- _ => apply Z.ltb_ge in H
  | H : (_ <=? _) = true |- _ => apply Z.leb_le in H
  | H : (_ <=? _) = false |- _ => apply Z.leb_gt in H
  | H : (_ =? _) = true |- _ => apply Z.eqb_eq in H
  | H : (_ =? _) = false |- _ => apply Z.eqb_neq in H
  end; lia.
