(* ===== verification/Double.v ===== *)
(** * IEEE 754 binary64 arithmetic

    The [double] of the source: the Standard Library's executable binary64
    specification (no payload on NaN), the operators the server uses, and the
    conversions between [double] and [std::size_t].

    Converting a [double] whose truncated value does not fit [std::size_t]
    (NaN, an infinity, a negative or too large value) has no defined result in
    C++; [Platform] is the value the target machine leaves there. *)

From Stdlib Require Import SpecFloat.
From S2P Require Import Prelude.

Definition double : Type := spec_float.

Definition prec : Z := 53.
Definition emax : Z := 1024.

#[export] Instance spec_float_eq_dec : EqDecision spec_float.
Proof. solve_decision. Defined.

(** The values a [double] object can hold: canonical mantissas only. *)
Definition is_double (d : double) : Prop := valid_binary prec emax d = true.

Definition dadd (x y : double) : double := SFadd prec emax x y.
Definition dsub (x y : double) : double := SFsub prec emax x y.
Definition ddiv (x y : double) : double := SFdiv prec emax x y.

(** [x < y], [x >= y]: false as soon as an operand is NaN. *)
Definition dlt (x y : double) : bool := SFltb x y.
Definition dge (x y : double) : bool := SFleb y x.

(** [x == y], with [NaN != NaN] and [-0.0 == 0.0]. *)
Definition deq (x y : double) : bool := SFeqb x y.

Definition dnan : double := S754_nan.
Definition dzero : double := S754_zero false.

(** [static_cast<double>(z)] for an integer [z], and the literals [z.0]. *)
Definition double_of (z : Z) : double := binary_normalize prec emax z 0 false.

(** The value truncated toward zero; [None] for NaN and the infinities. *)
Definition dtrunc (d : double) : option Z :=
  match d with
  | S754_zero _ => Some 0
  | S754_finite false m e => Some (Z.shiftl (Zpos m) e)
  | S754_finite true m e => Some (- Z.shiftl (Zpos m) e)
  | S754_infinity _ | S754_nan => None
  end.

(** The truncated value, when [std::size_t] represents it. *)
Definition size_t_value (d : double) : option Z :=
  match dtrunc d with
  | Some z => if (0 <=? z) && (z <? 2 ^ 64) then Some z else None
  | None => None
  end.

(** What the target computes where the standard leaves the conversion
    undefined. *)
Class Platform := {
  undefined_to_size_t : double → Z;
  undefined_to_size_t_range d : is_u64 (undefined_to_size_t d)
}.

(** [static_cast<std::size_t>(d)] *)
Definition to_size_t `{Platform} (d : double) : Z :=
  match size_t_value d with
  | Some z => z
  | None => undefined_to_size_t d
  end.

Lemma to_size_t_range `{Platform} d : is_u64 (to_size_t d).
Proof.
  unfold to_size_t, size_t_value, is_u64.
  destruct (dtrunc d) as [z|]; [|apply undefined_to_size_t_range].
  destruct ((0 <=? z) && (z <? 2 ^ 64)) eqn:E; [bool_lia|].
  apply undefined_to_size_t_range.
Qed.

(** Two targets: the x86-64 conversion leaves 2^63 on NaN (the "integer
    indefinite" value), the AArch64 one saturates and maps NaN to 0. *)
#[local] Lemma two63_u64 : is_u64 (2 ^ 63).
Proof. done. Qed.
Definition x86_64 : Platform :=
  {| undefined_to_size_t _ := 2 ^ 63; undefined_to_size_t_range _ := two63_u64 |}.

Definition aarch64_saturate (d : double) : Z :=
  match d with
  | S754_nan => 0
  | S754_infinity s | S754_zero s | S754_finite s _ _ =>
      if s then 0 else SIZE_MAX
  end.
#[local] Lemma aarch64_saturate_u64 d : is_u64 (aarch64_saturate d).
Proof. by destruct d as [[]|[]| |[]]. Qed.
Definition aarch64 : Platform :=
  {| undefined_to_size_t := aarch64_saturate;
     undefined_to_size_t_range := aarch64_saturate_u64 |}.

(** NaN is unordered: no bound check of the form [x < lo || x >= hi] rejects
    it. *)
Lemma dlt_nan_l y : dlt dnan y = false.
Proof. done. Qed.
Lemma dge_nan_l y : dge dnan y = false.
Proof. by destruct y as [[]|[]| |[]]. Qed.
Lemma size_t_value_nan : size_t_value dnan = None.
Proof. done. Qed.

#[export] Hint Resolve to_size_t_range : mmo.

(** Small checks against known binary64 results. *)
Example double_check_quotient :
  ddiv (double_of 1) (double_of 3)
  = S754_finite false 6004799503160661 (-54).
Proof. reflexivity. Qed.
Example double_check_trunc :
  size_t_value (ddiv (double_of 999) (double_of 100)) = Some 9.
Proof. reflexivity. Qed.
