(* ===== verification/DoubleExact.v ===== *)
(** * Exact values of [double]s

    A finite [double] is an integer number of units of 2^-1074. In these units the
    comparisons of [SpecFloat] are those of integers, and a rounded operation gives an
    integer within half of one unit of the last place of the exact result. *)

From Stdlib Require Import SpecFloat.
From S2P Require Import Prelude Double.

Definition unit_exponent : Z := 1074.

(** The value in units of 2^-1074; zero for what is not finite. *)
Definition units (d : double) : Z :=
  match d with
  | S754_finite s m e => let v := Z.pos m * 2 ^ (e + unit_exponent) in if s then - v else v
  | _ => 0
  end.

Definition finite (d : double) : Prop :=
  match d with S754_zero _ | S754_finite _ _ _ => True | _ => False end.

(** A number [z] in units. *)
Definition whole (z : Z) : Z := z * 2 ^ unit_exponent.

(** ** Digits *)

Lemma digits_bounds p : 2 ^ (Z.pos (digits2_pos p) - 1) <= Z.pos p < 2 ^ Z.pos (digits2_pos p).
Proof.
  induction p as [p IH|p IH|]; [| |by vm_compute]; cbn [digits2_pos]; rewrite Pos2Z.inj_succ;
    replace (Z.succ (Z.pos (digits2_pos p)) - 1) with (Z.pos (digits2_pos p) - 1 + 1) by lia;
    replace (Z.succ (Z.pos (digits2_pos p))) with (Z.pos (digits2_pos p) + 1) by lia;
    rewrite !Z.pow_add_r by lia; lia.
Qed.

Lemma digits_lt p n : 0 <= n → Z.pos p < 2 ^ n → Z.pos (digits2_pos p) <= n.
Proof.
  intros Hn Hp. destruct (digits_bounds p) as [Hl _]. apply Z.nlt_ge. intros H.
  assert (2 ^ n <= 2 ^ (Z.pos (digits2_pos p) - 1)) by (apply Z.pow_le_mono_r; lia). lia.
Qed.

Lemma digits_ge p n : 0 <= n → 2 ^ n <= Z.pos p → n + 1 <= Z.pos (digits2_pos p).
Proof.
  intros Hn Hp. destruct (digits_bounds p) as [_ Hu]. apply Z.nlt_ge. intros H.
  assert (2 ^ Z.pos (digits2_pos p) <= 2 ^ n) by (apply Z.pow_le_mono_r; lia). lia.
Qed.

(** What [bounded] says: at most 53 bits, exactly 53 above the least exponent. *)
Lemma bounded_canonical m e :
  bounded prec emax m e = true →
  -1074 <= e <= 971 ∧ Z.pos m < 2 ^ 53 ∧ (-1074 < e → 2 ^ 52 <= Z.pos m).
Proof.
  unfold bounded, canonical_mantissa, fexp, SpecFloat.emin, prec, emax. intros [H1%Z.eqb_eq H2%Z.leb_le]%andb_true_iff.
  destruct (digits_bounds m) as [Hl Hu]. split; [lia|]. split.
  - assert (2 ^ Z.pos (digits2_pos m) <= 2 ^ 53) by (apply Z.pow_le_mono_r; lia). lia.
  - intros He. assert (Z.pos (digits2_pos m) = 53) as E by lia. by rewrite E in Hl.
Qed.

Lemma bounded_min m e : bounded prec emax m e = true → -1074 <= e.
Proof. intros H%bounded_canonical. lia. Qed.

(** ** Comparisons *)

Lemma units_compare m1 e1 m2 e2 :
  bounded prec emax m1 e1 = true → bounded prec emax m2 e2 = true →
  Z.compare (units (S754_finite false m1 e1)) (units (S754_finite false m2 e2)) =
  match Z.compare e1 e2 with Eq => Pos.compare m1 m2 | c => c end.
Proof.
  intros (H1 & M1 & C1)%bounded_canonical (H2 & M2 & C2)%bounded_canonical. unfold units, unit_exponent.
  assert (∀ m1 e1 m2 e2, -1074 <= e1 → e1 < e2 → Z.pos m1 < 2 ^ 53 → (-1074 < e2 → 2 ^ 52 <= Z.pos m2) →
    Z.pos m1 * 2 ^ (e1 + 1074) < Z.pos m2 * 2 ^ (e2 + 1074)) as Hlt.
  { clear. intros m1 e1 m2 e2 He1 He2 Hm1 Hm2. specialize (Hm2 ltac:(lia)).
    replace (e2 + 1074) with ((e1 + 1074) + (e2 - e1 - 1) + 1) by lia. set (a := e1 + 1074).
    assert (0 <= a) as Ha by (unfold a; lia). rewrite !Z.pow_add_r by lia.
    assert (0 < 2 ^ a) by lia. assert (1 <= 2 ^ (e2 - e1 - 1)) by lia.
    assert (Z.pos m1 * 2 ^ a < 2 ^ 53 * 2 ^ a) by (apply Z.mul_lt_mono_pos_r; lia).
    assert (2 ^ 52 * (2 ^ a * 1) <= Z.pos m2 * (2 ^ a * 2 ^ (e2 - e1 - 1))) by (apply Z.mul_le_mono_nonneg; nia). lia. }
  destruct (Z.compare_spec e1 e2) as [->|Hlt12|Hgt].
  - change (Pos.compare m1 m2) with (Z.compare (Z.pos m1) (Z.pos m2)).
    assert (0 < 2 ^ (e2 + 1074)) as Hp by lia.
    destruct (Z.compare_spec (Z.pos m1) (Z.pos m2)) as [E|L|G].
    + rewrite E. apply Z.compare_refl.
    + apply Z.compare_lt_iff. nia.
    + apply Z.compare_gt_iff. nia.
  - apply Z.compare_lt_iff. by apply Hlt; [lia| | |].
  - apply Z.compare_gt_iff. by apply Hlt; [lia|lia| |].
Qed.

Lemma units_pos m e : -1074 <= e → 0 < units (S754_finite false m e).
Proof. intros He. unfold units, unit_exponent. assert (0 < 2 ^ (e + 1074)) by lia. nia. Qed.

Lemma finite_compare x y :
  finite x → finite y → is_double x → is_double y → SFcompare x y = Some (Z.compare (units x) (units y)).
Proof.
  unfold is_double. destruct x as [sx| | |sx mx ex], y as [sy| | |sy my ey]; try done; intros _ _ Hx Hy; cbn [valid_binary] in *.
  - destruct sy; cbn [SFcompare]; f_equal; symmetry.
    + pose proof (units_pos my ey (bounded_min _ _ Hy)). unfold units in *. apply Z.compare_gt_iff. lia.
    + pose proof (units_pos my ey (bounded_min _ _ Hy)). unfold units in *. apply Z.compare_lt_iff. lia.
  - destruct sx; cbn [SFcompare]; f_equal; symmetry.
    + pose proof (units_pos mx ex (bounded_min _ _ Hx)). unfold units in *. apply Z.compare_lt_iff. lia.
    + pose proof (units_pos mx ex (bounded_min _ _ Hx)). unfold units in *. apply Z.compare_gt_iff. lia.
  - pose proof (units_compare mx ex my ey Hx Hy) as Hc.
    pose proof (units_pos mx ex (bounded_min _ _ Hx)) as Px.
    pose proof (units_pos my ey (bounded_min _ _ Hy)) as Py.
    destruct sx, sy; cbn [SFcompare]; f_equal; symmetry.
    + unfold units in *. rewrite Z.compare_opp, Z.compare_antisym, Hc.
      by destruct (Z.compare ex ey).
    + unfold units in *. apply Z.compare_lt_iff. lia.
    + unfold units in *. apply Z.compare_gt_iff. lia.
    + rewrite Hc. by destruct (Z.compare ex ey).
Qed.

Lemma dlt_units x y : finite x → finite y → is_double x → is_double y → dlt x y = (units x <? units y).
Proof. intros. unfold dlt, SFltb. rewrite finite_compare by done. unfold Z.ltb. by destruct (_ ?= _). Qed.

Lemma dge_units x y : finite x → finite y → is_double x → is_double y → dge x y = (units y <=? units x).
Proof. intros. unfold dge, SFleb. rewrite finite_compare by done. unfold Z.leb. by destruct (_ ?= _). Qed.

(** Truncation, of what is not negative. *)
Lemma dtrunc_units x : finite x → is_double x → 0 <= units x → dtrunc x = Some (units x / whole 1).
Proof.
  unfold is_double. destruct x as [s| | |s m e]; try done. intros _ Hx. cbn [valid_binary] in Hx.
  pose proof (units_pos m e (bounded_min _ _ Hx)) as Hp. apply bounded_canonical in Hx as (He & _).
  destruct s; [unfold units in *; lia|]. intros _. cbn [dtrunc]. f_equal. unfold units, whole, unit_exponent.
  rewrite Z.mul_1_l. destruct (Z.le_gt_cases 0 e) as [H0|H0].
  - rewrite Z.shiftl_mul_pow2 by done. rewrite Z.pow_add_r, Z.mul_assoc, Z.div_mul by lia. done.
  - rewrite Z.shiftl_div_pow2 by lia.
    replace 1074 with ((e + 1074) + - e) at 2 by lia. rewrite (Z.pow_add_r 2 (e + 1074) (- e)) by lia.
    rewrite Z.mul_comm, Z.div_mul_cancel_l by lia. done.
Qed.

(** ** Rounding *)

(** A record of [shr] stands for the exact [N / D]: its mantissa is the floor, and its
    two bits say where in the unit above it the value lies. *)
Definition stands_for (mrs : shr_record) (N D : Z) : Prop :=
  0 < D ∧ 0 <= shr_m mrs ∧ shr_m mrs * D <= N < (shr_m mrs + 1) * D ∧
  let part := 2 * (N - shr_m mrs * D) in
  match shr_r mrs, shr_s mrs with
  | false, false => part = 0
  | false, true => 0 < part < D
  | true, false => part = D
  | true, true => D < part
  end.

Lemma stands_for_shr_1 mrs N D : stands_for mrs N D → stands_for (shr_1 mrs) N (2 * D).
Proof.
  destruct mrs as [m r s]. unfold stands_for. cbn [shr_m shr_r shr_s]. intros (HD & Hm & Hf & Hp).
  destruct m as [|p|p]; [| |lia].
  - cbn [shr_1 shr_m shr_r shr_s]. destruct r, s; cbn [orb]; lia.
  - destruct p as [p|p|]; cbn [shr_1 shr_m shr_r shr_s]; destruct r, s; cbn [orb];
      rewrite ?(Pos2Z.inj_xI p), ?(Pos2Z.inj_xO p) in *; lia.
Qed.

Lemma stands_for_iter n : ∀ mrs N D, stands_for mrs N D → stands_for (SpecFloat.iter_pos shr_1 n mrs) N (2 ^ Z.pos n * D).
Proof.
  induction n as [n IH|n IH|]; intros mrs N D H; cbn [SpecFloat.iter_pos].
  - rewrite (Pos2Z.inj_xI n). replace (2 * Z.pos n + 1) with (1 + Z.pos n + Z.pos n) by lia. rewrite !Z.pow_add_r by lia.
    apply stands_for_shr_1, IH, IH in H.
    by replace (2 ^ 1 * 2 ^ Z.pos n * 2 ^ Z.pos n * D) with (2 ^ Z.pos n * (2 ^ Z.pos n * (2 * D))) by ring.
  - rewrite (Pos2Z.inj_xO n). replace (2 * Z.pos n) with (Z.pos n + Z.pos n) by lia. rewrite Z.pow_add_r by lia.
    apply IH, IH in H. by rewrite <- Z.mul_assoc.
  - by apply stands_for_shr_1.
Qed.

(** The quotient and its location. *)
Lemma stands_for_quotient m d : 0 <= m → 0 < d →
  let '(q, r) := Z.div_eucl m d in stands_for (shr_record_of_loc q (new_location d r)) m d.
Proof.
  intros Hm Hd. pose proof (Z_div_mod m d ltac:(lia)) as Hq. destruct (Z.div_eucl m d) as [q r]. destruct Hq as [E Hr].
  assert (0 <= q) as Hq by nia. unfold new_location, new_location_even, new_location_odd.
  destruct (Z.even d) eqn:Ev; destruct (r =? 0) eqn:Er.
  1, 3: apply Z.eqb_eq in Er; unfold stands_for; cbn [shr_record_of_loc shr_m shr_r shr_s]; lia.
  - apply Z.eqb_neq in Er. unfold stands_for.
    destruct (Z.compare_spec (2 * r) d); cbn [shr_record_of_loc shr_m shr_r shr_s]; lia.
  - apply Z.eqb_neq in Er. unfold stands_for.
    assert (2 * r ≠ d) as Hodd.
    { intros <-. by rewrite Z.even_mul in Ev. }
    destruct (Z.compare_spec (2 * r + 1) d); cbn [shr_record_of_loc shr_m shr_r shr_s]; lia.
Qed.

Lemma stands_for_exact m : 0 <= m → stands_for (shr_record_of_loc m loc_Exact) m 1.
Proof. intros Hm. unfold stands_for. cbn. lia. Qed.

(** Rounding to nearest is off by half a unit at most. *)
Lemma round_nearest mrs N D :
  stands_for mrs N D →
  let R := round_nearest_even (shr_m mrs) (loc_of_shr_record mrs) in
  shr_m mrs <= R <= shr_m mrs + 1 ∧ Z.abs (2 * R * D - 2 * N) <= D.
Proof.
  destruct mrs as [m r s]. unfold stands_for. cbn [shr_m shr_r shr_s]. intros (HD & Hm & Hf & Hp).
  destruct r, s; cbn [loc_of_shr_record round_nearest_even]; try destruct (Z.even m); lia.
Qed.

(** The exponent of a rounded value. *)
Definition rounded_exponent (m e : Z) : Z := Z.max e (fexp prec emax (Zdigits2 m + e)).

Lemma shr_fexp_stands_for m e l N D :
  stands_for (shr_record_of_loc m l) N D →
  let '(mrs, e') := shr_fexp prec emax m e l in
  e' = rounded_exponent m e ∧ stands_for mrs N (2 ^ (e' - e) * D).
Proof.
  intros H. unfold shr_fexp, shr, rounded_exponent. destruct (fexp prec emax (Zdigits2 m + e) - e) as [|p|p] eqn:E.
  - split; [lia|]. by rewrite Z.sub_diag, Z.mul_1_l.
  - split; [lia|]. replace (e + Z.pos p - e) with (Z.pos p) by lia. by apply stands_for_iter.
  - split; [lia|]. by rewrite Z.sub_diag, Z.mul_1_l.
Qed.

Lemma mantissa_of_loc m l : shr_m (shr_record_of_loc m l) = m.
Proof. by destruct l as [|[]]. Qed.

(** The mantissa fits once it is shifted. *)
Lemma shifted_fits m e l N D mrs e' :
  stands_for (shr_record_of_loc m l) N D → shr_fexp prec emax m e l = (mrs, e') → shr_m mrs < 2 ^ 53.
Proof.
  intros H E. pose proof (shr_fexp_stands_for m e l N D H) as Hs. rewrite E in Hs. destruct Hs as [-> (HD' & _ & [Hl _] & _)].
  destruct H as (HD & Hm & [_ Hu] & _). rewrite mantissa_of_loc in *.
  unfold rounded_exponent in *. set (n := Z.max e _ - e) in *. assert (0 <= n) as Hn by (unfold n; lia).
  assert (m < 2 ^ (n + 53)) as Hmn.
  { destruct m as [|p|p]; [lia| |lia]. destruct (digits_bounds p) as [_ Hp]. cbn [Zdigits2] in *.
    assert (Z.pos (digits2_pos p) <= n + 53) by (unfold n, fexp, prec; lia).
    assert (2 ^ Z.pos (digits2_pos p) <= 2 ^ (n + 53)) by (apply Z.pow_le_mono_r; lia). lia. }
  rewrite Z.pow_add_r in Hmn by lia. assert (0 < 2 ^ n) by lia.
  assert (shr_m mrs * (2 ^ n * D) < 2 ^ n * 2 ^ 53 * D) by nia. nia.
Qed.

(** The truncation of a rounded value that is not large: an integer [R] of units of the
    last place, half a unit away from the exact value at most. *)
Lemma round_aux_trunc m e l N D :
  stands_for (shr_record_of_loc m l) N D → rounded_exponent m e <= -2 →
  let E := rounded_exponent m e in
  ∃ R, 0 <= R <= 2 ^ 53 ∧ Z.abs (2 * R * (2 ^ (E - e) * D) - 2 * N) <= 2 ^ (E - e) * D ∧
    dtrunc (binary_round_aux prec emax false m e l) = Some (R / 2 ^ (- E)).
Proof.
  intros H HE E. unfold binary_round_aux. pose proof (shr_fexp_stands_for m e l N D H) as Hs.
  destruct (shr_fexp prec emax m e l) as [mrs e'] eqn:Es. destruct Hs as [-> Hs]. fold E in Hs, Es |- *.
  pose proof (shifted_fits m e l N D mrs E H Es) as Hfit. pose proof (round_nearest mrs N _ Hs) as Hr. cbn zeta in Hr.
  set (R := round_nearest_even _ _) in *. destruct Hr as [HR Habs]. exists R.
  destruct Hs as (_ & Hm0 & _). split; [lia|]. split; [done|].
  pose proof (shr_fexp_stands_for R E loc_Exact R 1 (stands_for_exact R ltac:(lia))) as Hs2.
  destruct (shr_fexp prec emax R E loc_Exact) as [mrs2 e2]. destruct Hs2 as [He2 (_ & Hm2 & Hf2 & _)].
  rewrite Z.mul_1_r in Hf2.
  assert (-1074 <= E) as Hmin by (unfold E, rounded_exponent, fexp, SpecFloat.emin, emax, prec; lia).
  assert (E <= e2 <= E + 1) as He.
  { rewrite He2. unfold rounded_exponent. split; [lia|]. apply Z.max_lub; [lia|].
    assert (Zdigits2 R <= 54) as Hd.
    { destruct R as [|p|p]; [done| |lia]. cbn [Zdigits2]. apply digits_lt; [done|]. lia. }
    unfold fexp, SpecFloat.emin, emax, prec. lia. }
  assert (shr_m mrs2 = R / 2 ^ (e2 - E)) as Hq.
  { apply Z.div_unique with (R - 2 ^ (e2 - E) * shr_m mrs2); lia. }
  assert (R / 2 ^ (- E) = shr_m mrs2 / 2 ^ (- e2)) as ->.
  { rewrite Hq, Z.div_div by lia. rewrite <- Z.pow_add_r by lia. f_equal. f_equal. lia. }
  destruct (shr_m mrs2) as [|p|p]; [by rewrite Z.div_0_l by lia| |lia].
  rewrite (proj2 (Z.leb_le e2 _)) by (unfold emax, prec; lia). cbn [dtrunc]. f_equal.
  rewrite Z.shiftl_div_pow2 by lia. done.
Qed.

(** ** Division by a hundred *)

Definition hundred : double := S754_finite false 7036874417766400 (-46).

Lemma double_of_hundred : double_of 100 = hundred.
Proof. vm_compute. reflexivity. Qed.

(** Its loop-free form. *)
Lemma SFdiv_positive m1 e1 m2 e2 :
  let e' := Z.min (fexp prec emax (Z.pos (digits2_pos m1) + e1 - (Z.pos (digits2_pos m2) + e2))) (e1 - e2) in
  let s := e1 - e2 - e' in
  ∃ q l, ddiv (S754_finite false m1 e1) (S754_finite false m2 e2) = binary_round_aux prec emax false q e' l ∧
    0 <= s ∧ stands_for (shr_record_of_loc q l) (Z.pos m1 * 2 ^ s) (Z.pos m2).
Proof.
  intros e' s. assert (0 <= s) as Hs by (unfold s, e'; lia). unfold ddiv, SFdiv, SFdiv_core_binary.
  cbn [Zdigits2 xorb]. fold e'. fold s.
  assert (match s with 0 => Z.pos m1 | Z.pos _ => Z.shiftl (Z.pos m1) s | Z.neg _ => 0 end = Z.pos m1 * 2 ^ s) as ->.
  { destruct s as [|p|p]; [by rewrite Z.mul_1_r|by rewrite Z.shiftl_mul_pow2|lia]. }
  pose proof (stands_for_quotient (Z.pos m1 * 2 ^ s) (Z.pos m2) ltac:(lia) ltac:(lia)) as Hq.
  destruct (Z.div_eucl _ _) as [q r]. by exists q, (new_location (Z.pos m2) r).
Qed.

(** The arithmetic of [div_hundred_trunc], in units [A] of the last place of an integer
    [100 * K / A] plus a rest: half a unit of the quotient is less than a unit of it. *)
Lemma nearest_floor R c A K m :
  0 < c → 100 < 2 * c → 100 * A * K <= m → m < 100 * A * (K + 1) → 0 < A →
  Z.abs (200 * R - 2 * c * m) <= 100 → c * A * K <= R < c * A * (K + 1).
Proof.
  intros Hc H100 Hl Hu HA Habs.
  assert (2 * c * (100 * A * K) <= 2 * c * m) by (apply Z.mul_le_mono_nonneg_l; lia).
  assert (2 * c * m <= 2 * c * (100 * A * (K + 1) - 1)) by (apply Z.mul_le_mono_nonneg_l; lia).
  set (P := c * A * K) in *. replace (2 * c * (100 * A * K)) with (200 * P) in * by (unfold P; ring).
  replace (c * A * (K + 1)) with (P + c * A) by (unfold P; ring).
  replace (2 * c * (100 * A * (K + 1) - 1)) with (200 * (P + c * A) - 2 * c) in * by (unfold P; ring). lia.
Qed.

Lemma units_floor m e : -1074 <= e <= 0 → units (S754_finite false m e) / whole 100 = Z.pos m / (100 * 2 ^ (- e)).
Proof.
  intros He. unfold units, whole, unit_exponent. replace 1074 with ((e + 1074) + - e) at 2 by lia.
  rewrite (Z.pow_add_r 2 (e + 1074) (- e)) by lia.
  replace (100 * (2 ^ (e + 1074) * 2 ^ (- e))) with (100 * 2 ^ (- e) * 2 ^ (e + 1074)) by ring.
  apply Z.div_mul_cancel_r; lia.
Qed.

Lemma digits_53 p : 2 ^ 52 <= Z.pos p < 2 ^ 53 → Z.pos (digits2_pos p) = 53.
Proof. intros [H1 H2]. pose proof (digits_lt p 53 ltac:(done) H2). pose proof (digits_ge p 52 ltac:(done) H1). lia. Qed.

(** The quotient of a [double] by a hundred, rounded, is on the same side of every
    integer as the exact quotient. *)
Lemma div_hundred_trunc x :
  finite x → is_double x → 0 <= units x < whole (2 ^ 40) →
  dtrunc (ddiv x (double_of 100)) = Some (units x / whole 100).
Proof.
  rewrite double_of_hundred. intros Hf Hd Hx. destruct x as [s| | |[] m e]; try done.
  { pose proof (units_pos m e (bounded_min _ _ Hd)). unfold units in *. lia. }
  apply bounded_canonical in Hd as (He & Hm & Hn).
  assert (e < -12) as Hsmall.
  { apply Z.nle_gt. intros H. specialize (Hn ltac:(lia)). destruct Hx as [_ Hx]. unfold units, whole, unit_exponent in Hx.
    assert (2 ^ (1074 - 12) <= 2 ^ (e + 1074)) by (apply Z.pow_le_mono_r; lia).
    assert (2 ^ 52 * 2 ^ (1074 - 12) <= Z.pos m * 2 ^ (e + 1074)) by (apply Z.mul_le_mono_nonneg; lia).
    change (2 ^ 40 * 2 ^ 1074) with (2 ^ 52 * 2 ^ (1074 - 12)) in Hx. lia. }
  rewrite units_floor by lia. unfold hundred.
  destruct (SFdiv_positive m e 7036874417766400 (-46)) as (q & l & -> & Hs & Hst).
  change (Z.pos (digits2_pos 7036874417766400)) with 53 in *.
  set (e' := Z.min _ _) in *. set (s := e - -46 - e') in *.
  destruct (Z.le_gt_cases e (-53)) as [Htiny|Hbig].
  - assert (Z.pos (digits2_pos m) <= 53) as Hdig by (by apply digits_lt).
    assert (-1074 <= e' <= -60) as He' by (unfold e', fexp, SpecFloat.emin, prec, emax; lia).
    assert (rounded_exponent q e' <= -59) as HE.
    { unfold rounded_exponent. apply Z.max_lub; [lia|]. destruct Hst as (_ & Hq0 & [Hq _] & _). rewrite mantissa_of_loc in *.
      destruct q as [|p|p]; [cbn; unfold fexp, SpecFloat.emin, prec, emax; lia| |lia]. cbn [Zdigits2].
      assert (Z.pos (digits2_pos p) <= - e' - 6) as Hpd.
      { apply digits_lt; [lia|].
        assert (Z.pos m * 2 ^ s < 2 ^ 53 * 2 ^ s) by (apply Z.mul_lt_mono_pos_r; lia).
        assert (2 ^ 53 * 2 ^ s <= 2 ^ (- e' - 6) * 7036874417766400).
        { rewrite <- Z.pow_add_r by lia. replace (53 + s) with ((- e' - 6) + (105 + e)) by (unfold s; lia).
          transitivity (2 ^ (- e' - 6 + 52)); [apply Z.pow_le_mono_r; lia|]. rewrite Z.pow_add_r by lia.
          apply Z.mul_le_mono_nonneg_l; lia. }
        nia. }
      unfold fexp, SpecFloat.emin, prec, emax. lia. }
    destruct (round_aux_trunc q e' l _ _ Hst ltac:(lia)) as (R & HR & _ & ->). f_equal.
    rewrite (Z.div_small R), (Z.div_small (Z.pos m)); [done| |].
    + split; [lia|]. assert (2 ^ 53 <= 2 ^ (- e)) by (apply Z.pow_le_mono_r; lia). lia.
    + split; [lia|]. assert (2 ^ 54 <= 2 ^ (- rounded_exponent q e')) by (apply Z.pow_le_mono_r; lia). lia.
  - specialize (Hn ltac:(lia)). assert (Z.pos (digits2_pos m) = 53) as Hdig by (by apply digits_53).
    assert (e' = e - 7) as Ee' by (unfold e', fexp, SpecFloat.emin, prec, emax; rewrite Hdig; lia).
    assert (s = 53) as Es by (unfold s; lia). rewrite Es in Hst. clearbody e' s. subst e'.
    assert (rounded_exponent q (e - 7) = e - 7 ∨ rounded_exponent q (e - 7) = e - 6) as HE.
    { unfold rounded_exponent. destruct Hst as (_ & Hq0 & [Hq _] & _). rewrite mantissa_of_loc in *.
      assert (Zdigits2 q <= 54) as Hqd.
      { destruct q as [|p|p]; [done| |lia]. cbn [Zdigits2]. apply digits_lt; [done|]. lia. }
      unfold fexp, SpecFloat.emin, prec, emax. lia. }
    destruct (round_aux_trunc q (e - 7) l _ _ Hst ltac:(lia)) as (R & HR & Habs & ->). f_equal.
    set (A := 2 ^ (- e)). assert (0 < A) as HA by (unfold A; lia). set (K := Z.pos m / (100 * A)).
    pose proof (Z.mul_div_le (Z.pos m) (100 * A) ltac:(lia)) as Hl.
    pose proof (Z.mul_succ_div_gt (Z.pos m) (100 * A) ltac:(lia)) as Hu. fold K in Hl, Hu.
    assert (∀ c, 100 < 2 * c → 2 ^ (- rounded_exponent q (e - 7)) = c * A →
      Z.abs (200 * R - 2 * c * Z.pos m) <= 100 → R / 2 ^ (- rounded_exponent q (e - 7)) = K) as Hfin.
    { intros c Hc -> Hr. destruct (nearest_floor R c A K (Z.pos m)) as [H1 H2]; [lia..|].
      symmetry. apply Z.div_unique with (R - c * A * K). { left. lia. } lia. }
    destruct HE as [HE|HE]; rewrite HE in Habs.
    + apply (Hfin 128); [done| |].
      * rewrite HE. unfold A. replace (- (e - 7)) with (7 + - e) by lia. by rewrite Z.pow_add_r by lia.
      * replace (e - 7 - (e - 7)) with 0 in Habs by lia. lia.
    + apply (Hfin 64); [done| |].
      * rewrite HE. unfold A. replace (- (e - 6)) with (6 + - e) by lia. by rewrite Z.pow_add_r by lia.
      * replace (e - 6 - (e - 7)) with 1 in Habs by lia. lia.
Qed.

(** ** Results are [double]s *)

Lemma digits_nearly_54 p : Z.pos p <= 2 ^ 53 → 54 <= Z.pos (digits2_pos p) → Z.pos p = 2 ^ 53.
Proof.
  intros H1 H2. destruct (digits_bounds p) as [H3 _].
  assert (2 ^ 53 <= 2 ^ (Z.pos (digits2_pos p) - 1)) by (apply Z.pow_le_mono_r; lia). lia.
Qed.

Lemma round_exact_valid s m e :
  0 <= m → e <= fexp prec emax (Zdigits2 m + e) → is_double (binary_round_aux prec emax s m e loc_Exact).
Proof.
  intros Hm He. unfold is_double, binary_round_aux. pose proof (stands_for_exact m Hm) as H.
  pose proof (shr_fexp_stands_for m e loc_Exact m 1 H) as Hs.
  destruct (shr_fexp prec emax m e loc_Exact) as [mrs E] eqn:Es. destruct Hs as [HE Hs].
  pose proof (shifted_fits m e _ m 1 mrs E H Es) as Hfit. pose proof (round_nearest mrs m _ Hs) as [HR _].
  set (R := round_nearest_even _ _) in *. unfold rounded_exponent in HE. rewrite Z.max_r in HE by done.
  destruct Hs as (_ & Hm0 & [_ Hf] & _).
  assert (-1074 <= E) as Hmin by (rewrite HE; unfold fexp, SpecFloat.emin, emax, prec; lia).
  assert (R ≠ 0 → E <= fexp prec emax (Zdigits2 R + E)) as Hcan.
  { intros HR0. destruct (decide (E = -1074)) as [->|Hne]; [unfold fexp, SpecFloat.emin, emax, prec; lia|].
    assert (E = Zdigits2 m + e - 53) as HE' by (rewrite HE in Hne |- *; unfold fexp, SpecFloat.emin, emax, prec in *; lia).
    assert (53 <= Zdigits2 R) as HdR; [|unfold fexp, prec; lia].
    destruct m as [|p|p]; [cbn in HE'; lia| |lia]. cbn [Zdigits2] in HE'.
    destruct (digits_bounds p) as [Hl _].
    replace (Z.pos (digits2_pos p) - 1) with ((E - e) + 52) in Hl by lia. rewrite Z.pow_add_r in Hl by lia.
    assert (2 ^ 52 <= shr_m mrs) by nia.
    destruct R as [|q|q]; [done| |lia]. cbn [Zdigits2]. pose proof (digits_ge q 52 ltac:(done) ltac:(lia)). lia. }
  pose proof (shr_fexp_stands_for R E loc_Exact R 1 (stands_for_exact R ltac:(lia))) as Hs2.
  destruct (shr_fexp prec emax R E loc_Exact) as [mrs2 F]. destruct Hs2 as [HF (_ & Hm2 & Hf2 & _)].
  rewrite Z.mul_1_r in Hf2. destruct (shr_m mrs2) as [|q|q] eqn:Eq; [done| |lia].
  destruct (F <=? emax - prec) eqn:Eb; [|done]. cbn [valid_binary]. unfold bounded. rewrite Eb, andb_true_r.
  unfold canonical_mantissa. apply Z.eqb_eq. assert (0 < 2 ^ (F - E)) as Hpow by (rewrite HF; unfold rounded_exponent; lia).
  assert (R ≠ 0) as HR0 by nia. specialize (Hcan HR0). unfold rounded_exponent in HF. rewrite Z.max_r in HF by done.
  destruct R as [|p|p]; [done| |lia]. cbn [Zdigits2] in *.
  destruct (decide (F = E)) as [->|Hne].
  { rewrite Z.sub_diag in Hf2. assert (q = p) as -> by lia. by symmetry. }
  assert (54 <= Z.pos (digits2_pos p)) as Hd by (unfold fexp, SpecFloat.emin, emax, prec in *; lia).
  pose proof (digits_nearly_54 p ltac:(lia) Hd) as Ep. assert (p = (2 ^ 53)%positive) as -> by lia.
  change (Z.pos (digits2_pos (2 ^ 53))) with 54 in *.
  assert (F = E + 1) as -> by (unfold fexp, SpecFloat.emin, emax, prec in *; lia).
  replace (E + 1 - E) with 1 in Hf2 by lia. assert (q = (2 ^ 52)%positive) as -> by lia.
  change (Z.pos (digits2_pos (2 ^ 52))) with 53. unfold fexp, SpecFloat.emin, emax, prec in *. lia.
Qed.

Lemma digits_shift p d : Z.pos (digits2_pos (Pos.iter xO p d)) = Z.pos (digits2_pos p) + Z.pos d.
Proof.
  induction d as [|d IH] using Pos.peano_ind; [cbn; lia|]. rewrite Pos.iter_succ. cbn [digits2_pos]. lia.
Qed.

Lemma normalize_valid m e s : is_double (binary_normalize prec emax m e s).
Proof.
  assert (∀ s p, is_double (binary_round prec emax s p e)) as H.
  { clear. intros s p. unfold binary_round, shl_align. destruct (fexp prec emax (Z.pos (digits2_pos p) + e) - e) as [|d|d] eqn:E;
      apply round_exact_valid; try done; cbn [Zdigits2]; [lia..|]. rewrite digits_shift.
    replace (Z.pos (digits2_pos p) + Z.pos d + fexp prec emax (Z.pos (digits2_pos p) + e)) with (Z.pos (digits2_pos p) + e) by lia.
    lia. }
  by destruct m as [|p|p]; [|apply H..].
Qed.

Lemma dadd_valid x y : is_double x → is_double y → is_double (dadd x y).
Proof. intros Hx Hy. destruct x as [[]|[]| |sx mx ex], y as [[]|[]| |sy my ey]; try done; apply normalize_valid. Qed.

Lemma double_of_valid z : is_double (double_of z).
Proof. apply normalize_valid. Qed.
