(* ===== verification/Numbers.v ===== *)
(** * Numbers of the command line and the environment

    [std::stoul]/[std::stoull] and [std::stoi] as the C++ standard defines them over
    [strtoul] and [strtol] (64-bit [long]), and the fact that they read back what
    [std::to_string] writes. *)

From stdpp Require Import pretty.
From S2P Require Import Prelude.

(** [isspace] in the C locale, and a decimal digit. *)
Definition is_space (c : ascii) : bool :=
  let n := Ascii.nat_of_ascii c in (n =? 32)%nat || ((9 <=? n)%nat && (n <=? 13)%nat).

Definition digit (c : ascii) : option Z :=
  let n := Z.of_nat (Ascii.nat_of_ascii c) in
  if (48 <=? n) && (n <=? 57) then Some (n - 48) else None.

(** White space skipped, with the number of characters. *)
Fixpoint skip_space (s : string) (n : Z) : string * Z :=
  match s with
  | String c s' => if is_space c then skip_space s' (n + 1) else (s, n)
  | EmptyString => (s, n)
  end.

(** An optional sign: whether it is a minus. *)
Definition scan_sign (s : string) (n : Z) : bool * string * Z :=
  match s with
  | String "-" s' => (true, s', n + 1)
  | String "+" s' => (false, s', n + 1)
  | _ => (false, s, n)
  end.

(** The digits: their value and the position after them. *)
Fixpoint scan_digits (acc n : Z) (s : string) : Z * Z :=
  match s with
  | String c s' =>
      match digit c with
      | Some d => scan_digits (acc * 10 + d) (n + 1) s'
      | None => (acc, n)
      end
  | EmptyString => (acc, n)
  end.

(** The sign, the magnitude and the position of the first character not read;
    nothing when no digit is found. *)
Definition scan_number (s : string) : option (bool * Z * Z) :=
  let '(s1, n1) := skip_space s 0 in
  let '(minus, s2, n2) := scan_sign s1 n1 in
  let '(v, n3) := scan_digits 0 n2 s2 in
  if n3 =? n2 then None else Some (minus, v, n3).

(** [std::stoul], [std::stoull]: the value and [*pos]; a negated value wraps. *)
Definition stoul (name : string) (s : string) : Outcome (Z * Z) :=
  match scan_number s with
  | None => Throws (invalid_argument name)
  | Some (minus, v, pos) =>
      if SIZE_MAX <? v then Throws (out_of_range name)
      else Returns (if minus then u64 (- v) else v, pos)
  end.

(** [static_cast<std::uint16_t>] of an integer. *)
Definition u16 (z : Z) : Z := z mod 2 ^ 16.

(** [std::stoi] *)
Definition stoi (s : string) : Outcome Z :=
  match scan_number s with
  | None => Throws (invalid_argument "stoi")
  | Some (minus, v, _) =>
      let z := if minus then - v else v in
      if (z <? - (INT_MAX + 1)) || (INT_MAX <? z) then Throws (out_of_range "stoi") else Returns z
  end.

(** ** Reading back a decimal text *)

Lemma digit_pretty x : (x < 10)%N → digit (pretty_N_char x) = Some (Z.of_N x).
Proof.
  intros Hx. assert (x = 0 ∨ x = 1 ∨ x = 2 ∨ x = 3 ∨ x = 4 ∨ x = 5 ∨ x = 6 ∨ x = 7 ∨ x = 8 ∨ x = 9)%N as H by lia.
  by repeat destruct H as [->|H]; subst.
Qed.

Lemma length_String c s : Z.of_nat (String.length (String c s)) = Z.of_nat (String.length s) + 1.
Proof. cbn [String.length]. lia. Qed.

Lemma scan_pretty_go x :
  ∃ d, 0 <= d ∧ ∀ s, Z.of_nat (String.length (pretty_N_go x s)) = d + Z.of_nat (String.length s) ∧
    ∀ acc n, scan_digits acc n (pretty_N_go x s) = scan_digits (acc * 10 ^ d + Z.of_N x) (n + d) s.
Proof.
  induction (N.lt_wf_0 x) as [x _ IH]. destruct (decide (x = 0)%N) as [->|Hx].
  { exists 0. split; [done|]. intros s. rewrite pretty_N_go_0. split; [lia|]. intros. f_equal; cbn; lia. }
  destruct (IH (x `div` 10)%N) as (d & Hd & H); [by apply N.div_lt; lia|]. exists (d + 1). split; [lia|].
  intros s. rewrite pretty_N_go_step by lia. destruct (H (String (pretty_N_char (x `mod` 10)) s)) as [Hl Hs].
  rewrite length_String in Hl. split; [lia|]. intros acc n. rewrite Hs. cbn [scan_digits].
  rewrite digit_pretty by (by apply N.mod_lt). rewrite Z.pow_add_r by lia. f_equal; [|lia].
  pose proof (N.div_mod x 10 ltac:(done)). lia.
Qed.

(** The number is the whole text, which starts with a digit. *)
Lemma scan_pretty z : 0 <= z →
  ∃ d, 0 < d ∧ Z.of_nat (String.length (pretty z)) = d ∧ ∀ n, scan_digits 0 n (pretty z) = (z, n + d).
Proof.
  destruct z as [|p|p]; intros Hz; [|change (pretty (Z.pos p)) with (pretty_N_go (N.pos p) EmptyString)|lia].
  { by exists 1. }
  destruct (scan_pretty_go (N.pos p)) as (d & Hd & H). destruct (H EmptyString) as [Hl Hs].
  change (String.length EmptyString) with 0%nat in Hl.
  exists d. split; [|split; [lia|intros n; rewrite Hs; unfold scan_digits; f_equal; lia]].
  enough (d ≠ 0) by lia. intros ->. specialize (Hs 0 0). rewrite pretty_N_go_step in Hl by done.
  destruct (scan_pretty_go (N.pos p `div` 10)) as (d & Hd' & H').
  destruct (H' (String (pretty_N_char (N.pos p `mod` 10)) EmptyString)) as [Hl' _]. rewrite length_String in Hl'. lia.
Qed.

Lemma scan_number_pretty z : 0 <= z →
  scan_number (pretty z) = Some (false, z, Z.of_nat (String.length (pretty z))).
Proof.
  intros Hz. destruct (scan_pretty z Hz) as (d & Hd & Hl & Hs). unfold scan_number.
  assert (∃ c s, pretty z = String c s ∧ is_Some (digit c)) as (c & s & E & Hc).
  { destruct (pretty z) as [|c s] eqn:E; [cbn in Hl; lia|]. exists c, s. split; [done|].
    specialize (Hs 0). cbn in Hs. destruct (digit c); [done|]. injection Hs. lia. }
  assert (skip_space (pretty z) 0 = (pretty z, 0)) as ->.
  { rewrite E. cbn. destruct Hc as [k Hc]. by destruct c as [[] [] [] [] [] [] [] []]. }
  assert (scan_sign (pretty z) 0 = (false, pretty z, 0)) as ->.
  { rewrite E. destruct Hc as [k Hc]. destruct c as [[] [] [] [] [] [] [] []]; try done. }
  rewrite Hs, Hl, Z.add_0_l. by rewrite (proj2 (Z.eqb_neq d 0)) by lia.
Qed.

Lemma stoul_pretty name z : is_u64 z →
  stoul name (pretty z) = Returns (z, Z.of_nat (String.length (pretty z))).
Proof.
  unfold is_u64, stoul. intros Hz. rewrite scan_number_pretty by lia.
  by rewrite (proj2 (Z.ltb_ge SIZE_MAX z)) by (unfold SIZE_MAX; lia).
Qed.

Lemma stoi_pretty z : 0 <= z <= INT_MAX → stoi (pretty z) = Returns z.
Proof.
  unfold stoi, INT_MAX. intros Hz. rewrite scan_number_pretty by lia.
  by rewrite (proj2 (Z.ltb_ge z _)), (proj2 (Z.ltb_ge _ z)) by lia.
Qed.
