(* ===== verification/Streams.v ===== *)
(** * Formatted input

    The extractions [>>] of words and of [double]s that [apps/mmo_client_main.cpp] makes
    from an [std::istringstream], in the C locale. The text is a list of characters, and
    what is left of it is part of the result. The characters of a number are those the
    GNU library collects: an optional sign, digits with at most one point, and an
    exponent once there is a digit; they are converted as [strtod] does, to the nearest
    [double], ties to even. *)

From Stdlib Require Import SpecFloat.
From stdpp Require Import pretty.
From S2P Require Import Prelude Double Numbers.

Abbreviation text := (list ascii).

(** [>> std::ws] *)
Fixpoint drop_space (s : text) : text :=
  match s with
  | c :: s' => if is_space c then drop_space s' else s
  | [] => []
  end.

(** The characters up to the next white space. *)
Fixpoint span_word (s : text) : text * text :=
  match s with
  | c :: s' => if is_space c then ([], s) else let '(w, rest) := span_word s' in (c :: w, rest)
  | [] => ([], [])
  end.

(** [>> word]; the word is empty when there is none. *)
Definition extract_word (s : text) : text * text := span_word (drop_space s).

(** ** Numbers *)

Fixpoint span_digits (s : text) : list Z * text :=
  match s with
  | c :: s' =>
      match digit c with
      | Some d => let '(ds, rest) := span_digits s' in (d :: ds, rest)
      | None => ([], s)
      end
  | [] => ([], [])
  end.

Definition decimal_value (ds : list Z) : Z := foldl (λ v d, v * 10 + d) 0 ds.

Definition span_sign (s : text) : bool * text :=
  match s with
  | "-"%char :: s => (true, s)
  | "+"%char :: s => (false, s)
  | _ => (false, s)
  end.

(** The [double] nearest to [± m * 10 ^ e]. *)
Definition round_decimal (minus : bool) (m e : Z) : double :=
  if m =? 0 then S754_zero minus
  else if 0 <=? e then binary_normalize prec emax (if minus then - (m * 10 ^ e) else m * 10 ^ e) 0 minus
  else SFdiv prec emax (S754_finite minus (Z.to_pos m) 0) (S754_finite false (Z.to_pos (10 ^ (- e))) 0).

(** The exponent after the digits of the mantissa: nothing if it has no digits. *)
Definition span_exponent (s : text) : option (Z * text) :=
  match s with
  | c :: s' =>
      if decide (c = "e"%char ∨ c = "E"%char) then
        let '(minus, s') := span_sign s' in
        let '(ds, s') := span_digits s' in
        match ds with
        | [] => None
        | _ => Some ((if minus then - decimal_value ds else decimal_value ds), s')
        end
      else Some (0, s)
  | [] => Some (0, [])
  end.

(** [>> d]: nothing when the extraction fails, also by a value out of range. *)
Definition extract_double (s : text) : option (double * text) :=
  let '(minus, s) := span_sign (drop_space s) in
  let '(whole, s) := span_digits s in
  let '(fraction, s) := match s with "."%char :: s => span_digits s | _ => ([], s) end in
  match whole ++ fraction with
  | [] => None
  | ds =>
      '(e, s) ← span_exponent s;
      match round_decimal minus (decimal_value ds) (e - size_of fraction) with
      | S754_infinity _ => None
      | d => Some (d, s)
      end
  end.

(** Known conversions. *)
Example extract_tenth :
  extract_double (list_ascii_of_string " 0.1 x") = Some (S754_finite false 7205759403792794 (-56), [" "; "x"]%char).
Proof. vm_compute. reflexivity. Qed.
Example extract_exponent :
  fst <$> extract_double (list_ascii_of_string "-12.5e-1") = Some (S754_finite true 5629499534213120 (-52)).
Proof. vm_compute. reflexivity. Qed.
Example extract_range : extract_double (list_ascii_of_string "1e400") = None.
Proof. vm_compute. reflexivity. Qed.
Example extract_subnormal :
  fst <$> extract_double (list_ascii_of_string "5e-324") = Some (S754_finite false 1 (-1074)).
Proof. vm_compute. reflexivity. Qed.
Example extract_no_exponent : extract_double (list_ascii_of_string "1e+ 2") = None.
Proof. vm_compute. reflexivity. Qed.

(** ** Reading back what was written *)

Lemma drop_space_id c s : is_space c = false → drop_space (c :: s) = c :: s.
Proof. intros E. cbn. by rewrite E. Qed.

Lemma drop_space_single s : drop_space (" "%char :: s) = drop_space s.
Proof. done. Qed.

Lemma span_word_app w s : Forall (λ c, is_space c = false) w → span_word (w ++ " "%char :: s) = (w, " "%char :: s).
Proof. induction 1 as [|c w Hc Hw IH]; [done|]. cbn [app span_word]. by rewrite Hc, IH. Qed.

Lemma span_word_all w : Forall (λ c, is_space c = false) w → span_word w = (w, []).
Proof. induction 1 as [|c w Hc Hw IH]; [done|]. cbn [span_word]. by rewrite Hc, IH. Qed.

(** No digit, or a first one that is not zero. *)
Definition leading (x : N) (ds : list Z) : Prop :=
  match ds with [] => x = 0%N | d :: _ => x ≠ 0%N ∧ d ≠ 0 end.

(** The digits of a printed number, whatever follows them. *)
Lemma pretty_go_chars x :
  ∃ cs ds, mapM digit cs = Some ds ∧ (∀ v, foldl (λ v d, v * 10 + d) v ds = v * 10 ^ size_of ds + Z.of_N x) ∧
    leading x ds ∧ ∀ s, list_ascii_of_string (pretty_N_go x s) = cs ++ list_ascii_of_string s.
Proof.
  induction (N.lt_wf_0 x) as [x _ IH]. destruct (decide (x = 0)%N) as [->|Hx].
  { exists [], []. split; [done|]. split; [intros v; cbn [foldl]; change (10 ^ size_of []) with 1; lia|].
    split; [done|]. intros s. by rewrite pretty_N_go_0. }
  destruct (IH (x `div` 10)%N) as (cs & ds & Hm & Hv & Hn & Hs); [by apply N.div_lt; lia|].
  pose proof (N.div_mod x 10 ltac:(done)) as Hdm.
  exists (cs ++ [pretty_N_char (x `mod` 10)]), (ds ++ [Z.of_N (x `mod` 10)]).
  split; [|split; [|split]].
  - apply mapM_Some. apply mapM_Some in Hm. apply Forall2_app; [done|]. constructor; [|constructor].
    rewrite digit_pretty by (by apply N.mod_lt). done.
  - intros v. rewrite foldl_app, Hv. cbn [foldl]. unfold size_of. rewrite length_app. cbn [length].
    rewrite Nat2Z.inj_add, Z.pow_add_r by lia.
    assert (Z.of_N x = 10 * Z.of_N (x `div` 10) + Z.of_N (x `mod` 10)) as -> by lia.
    change (10 ^ Z.of_nat 1) with 10. ring.
  - destruct ds as [|d ds]; cbn in Hn |- *; [split; [done|]; lia|by destruct Hn as [_ Hn]; split].
  - intros s. rewrite pretty_N_go_step by lia. rewrite Hs, <- app_assoc. done.
Qed.

Definition no_digit (s : text) : Prop := match s with c :: _ => digit c = None | [] => True end.

Lemma span_digits_app cs ds s : mapM digit cs = Some ds → no_digit s → span_digits (cs ++ s) = (ds, s).
Proof.
  revert ds. induction cs as [|c cs IH]; intros ds; cbn [mapM app].
  { intros [= <-] Hs. destruct s as [|c s]; [done|]. cbn in Hs |- *. by rewrite Hs. }
  cbn [span_digits]. destruct (digit c) as [d|]; [|done]. cbn. destruct (mapM digit cs) as [ds'|]; [|done].
  intros [= <-] Hs. by rewrite (IH ds').
Qed.

Definition magnitude_text (p : positive) : text := list_ascii_of_string (pretty_N_go (N.pos p) EmptyString).

Lemma magnitude_digits p :
  ∃ c cs ds, magnitude_text p = c :: cs ∧ leading (N.pos p) ds ∧ is_Some (digit c) ∧ mapM digit (c :: cs) = Some ds ∧
    decimal_value ds = Z.pos p.
Proof.
  destruct (pretty_go_chars (N.pos p)) as (cs & ds & Hm & Hv & Hn & Hs). specialize (Hs EmptyString).
  rewrite app_nil_r in Hs. destruct cs as [|c cs].
  { cbn in Hm. by injection Hm as <-. }
  exists c, cs, ds. split; [done|]. split; [done|]. split.
  - apply mapM_Some in Hm. inversion Hm; subst. by eexists.
  - split; [done|]. unfold decimal_value. by rewrite Hv.
Qed.

Lemma leading_ne p ds : leading (N.pos p) ds → ds ≠ [].
Proof. by destruct ds. Qed.

Lemma digit_cases c : is_Some (digit c) →
  is_space c = false ∧ c ≠ "-"%char ∧ c ≠ "+"%char ∧ c ≠ "."%char ∧ c ≠ "e"%char ∧ c ≠ "E"%char.
Proof. destruct c as [[] [] [] [] [] [] [] []]; intros [d Hd]; try discriminate Hd; done. Qed.

Definition representable (d : double) : Prop := match d with S754_infinity _ => False | _ => True end.
Definition ends_word (s : text) : Prop := match s with c :: _ => is_space c = true | [] => True end.

Lemma span_exponent_none s : ends_word s → span_exponent s = Some (0, s).
Proof. destruct s as [|[[] [] [] [] [] [] [] []] s]; intros Hs; try discriminate Hs; done. Qed.

Lemma ends_word_no_digit s : ends_word s → no_digit s ∧ ∀ (A : Type) (f : text → A) (a : A),
  match s with "."%char :: s' => f s' | _ => a end = a.
Proof. destruct s as [|[[] [] [] [] [] [] [] []] s]; intros Hs; try discriminate Hs; done. Qed.

Lemma extract_digits minus cs ds s :
  mapM digit cs = Some ds → ds ≠ [] → ends_word s →
  (let '(whole, s) := span_digits (cs ++ s) in
   let '(fraction, s) := match s with "."%char :: s => span_digits s | _ => ([], s) end in
   match whole ++ fraction with
   | [] => None
   | ds =>
       '(e, s) ← span_exponent s;
       match round_decimal minus (decimal_value ds) (e - size_of fraction) with
       | S754_infinity _ => None
       | d => Some (d, s)
       end
   end) =
  match round_decimal minus (decimal_value ds) 0 with S754_infinity _ => None | d => Some (d, s) end.
Proof.
  intros Hm Hn Hs. destruct (ends_word_no_digit s Hs) as [Hd Hp]. rewrite (span_digits_app cs ds) by done.
  rewrite (Hp _ span_digits), app_nil_r. destruct ds; [done|]. rewrite span_exponent_none by done. done.
Qed.

(** A printed integer is read back as the nearest [double]. *)
Lemma extract_double_pretty n s :
  representable (double_of n) → ends_word s →
  extract_double (" "%char :: list_ascii_of_string (pretty n) ++ s) = Some (double_of n, s).
Proof.
  intros Hf Hs. unfold extract_double. rewrite drop_space_single.
  destruct n as [|p|p].
  - change (list_ascii_of_string (pretty 0)) with ["0"%char]. cbn [app]. rewrite drop_space_id by done.
    change (span_sign ("0"%char :: s)) with (false, "0"%char :: s). cbv beta iota.
    change ("0"%char :: s) with (["0"%char] ++ s). by rewrite (extract_digits false ["0"%char] [0]).
  - change (list_ascii_of_string (pretty (Z.pos p))) with (magnitude_text p).
    destruct (magnitude_digits p) as (c & cs & ds & -> & Hn%leading_ne & Hc & Hm & Hv).
    destruct (digit_cases c Hc) as (H1 & H2 & H3 & _). cbn [app]. rewrite drop_space_id by done.
    assert (span_sign (c :: cs ++ s) = (false, c :: cs ++ s)) as ->.
    { clear Hm. by destruct c as [[] [] [] [] [] [] [] []]. }
    cbv beta iota. change (c :: cs ++ s) with ((c :: cs) ++ s). rewrite (extract_digits false (c :: cs) ds), Hv by done.
    change (round_decimal false (Z.pos p) 0) with (binary_normalize prec emax (Z.pos p * 10 ^ 0) 0 false).
    rewrite Z.mul_1_r. fold (double_of (Z.pos p)). by destruct (double_of (Z.pos p)).
  - change (list_ascii_of_string (pretty (Z.neg p))) with ("-"%char :: magnitude_text p).
    destruct (magnitude_digits p) as (c & cs & ds & -> & Hn%leading_ne & Hc & Hm & Hv). cbn [app]. rewrite drop_space_id by done.
    cbn [span_sign]. change (c :: cs ++ s) with ((c :: cs) ++ s). rewrite (extract_digits true (c :: cs) ds), Hv by done.
    change (round_decimal true (Z.pos p) 0) with (binary_normalize prec emax (- (Z.pos p * 10 ^ 0)) 0 true).
    rewrite Z.mul_1_r. change (binary_normalize prec emax (- Z.pos p) 0 true) with (double_of (Z.neg p)).
    by destruct (double_of (Z.neg p)).
Qed.

Lemma span_word_ends w s : Forall (λ c, is_space c = false) w → ends_word s → span_word (w ++ s) = (w, s).
Proof.
  intros Hw Hs. destruct s as [|c s]; [by rewrite app_nil_r, span_word_all|]. cbn in Hs.
  induction Hw as [|x w Hx Hw IH]; cbn [app span_word]; [by rewrite Hs|]. by rewrite Hx, IH.
Qed.
