(* ===== verification/FrameCodec.v ===== *)
(** * The length-prefixed frame codec

    [src/protocol/frame_codec.cpp] and [include/mmo/protocol/frame_codec.h]: the
    message table, the encoder, and the incremental decoder of a TCP byte
    stream.

    Bytes are [Byte.byte]; a [std::vector<std::uint8_t>] is a list of them, and
    the out-parameter of [FrameDecoder::Next] is part of its result. *)

From Stdlib Require Import Strings.Byte.
From S2P Require Import Prelude.

Abbreviation byte := Byte.byte.

#[export] Instance byte_eq_dec : EqDecision byte := Byte.byte_eq_dec.

(** The value of a byte, and [static_cast<std::uint8_t>]. *)
Definition byte_to_Z (b : byte) : Z := Z.of_N (Byte.to_N b).
Definition byte_of_Z (z : Z) : byte :=
  default x00 (Byte.of_N (Z.to_N (u8 z))).

(** ** Data *)

Definition kFrameHeaderSize : Z := 8.
Definition kDefaultMaxPayloadSize : Z := 1024 * 1024.

Inductive MessageType :=
| kLoginRequest | kChatRequest | kMoveRequest | kHeartbeat
| kLoginResponse | kPlayerEnter | kPlayerLeave | kPlayerMove
| kChatBroadcast | kNearbyPlayers.

#[export] Instance MessageType_eq_dec : EqDecision MessageType.
Proof. solve_decision. Defined.

(** [static_cast<std::uint32_t>(type)] *)
Definition message_id_of (t : MessageType) : Z :=
  match t with
  | kLoginRequest => 1 | kChatRequest => 2 | kMoveRequest => 3 | kHeartbeat => 4
  | kLoginResponse => 101 | kPlayerEnter => 102 | kPlayerLeave => 103
  | kPlayerMove => 104 | kChatBroadcast => 105 | kNearbyPlayers => 106
  end.

(** The enumerator a 32-bit value denotes: the cases of a [switch] over
    [static_cast<MessageType>(id)], [None] standing for its default. *)
Definition message_type_of (id : Z) : option MessageType :=
  if id =? 1 then Some kLoginRequest
  else if id =? 2 then Some kChatRequest
  else if id =? 3 then Some kMoveRequest
  else if id =? 4 then Some kHeartbeat
  else if id =? 101 then Some kLoginResponse
  else if id =? 102 then Some kPlayerEnter
  else if id =? 103 then Some kPlayerLeave
  else if id =? 104 then Some kPlayerMove
  else if id =? 105 then Some kChatBroadcast
  else if id =? 106 then Some kNearbyPlayers
  else None.

Definition IsKnownMessageId (message_id : Z) : bool :=
  match message_type_of message_id with
  | Some kLoginRequest | Some kChatRequest | Some kMoveRequest
  | Some kHeartbeat | Some kLoginResponse | Some kPlayerEnter
  | Some kPlayerLeave | Some kPlayerMove | Some kChatBroadcast
  | Some kNearbyPlayers => true
  | None => false
  end.

Record Frame := mkFrame { message_id : Z; payload : list byte }.

#[export] Instance Frame_eq_dec : EqDecision Frame.
Proof. solve_decision. Defined.

(** A default-constructed [Frame]. *)
Definition empty_frame : Frame := {| message_id := 0; payload := [] |}.

Inductive DecodeStatus :=
| kFrameReady | kNeedMoreData | kPayloadTooLarge | kUnknownMessageId
| kDecoderFailed.

#[export] Instance DecodeStatus_eq_dec : EqDecision DecodeStatus.
Proof. solve_decision. Defined.

(** ** Network byte order *)

Definition ReadNetworkUint32 (data : list byte) : Z :=
  let at_ i := byte_to_Z (nth i data x00) in
  Z.lor (Z.lor (Z.lor (u32 (Z.shiftl (at_ 0%nat) 24)) (u32 (Z.shiftl (at_ 1%nat) 16)))
               (u32 (Z.shiftl (at_ 2%nat) 8)))
        (at_ 3%nat).

Definition AppendNetworkUint32 (output : list byte) (value : Z) : list byte :=
  output ++ [byte_of_Z (Z.land (Z.shiftr value 24) 255);
             byte_of_Z (Z.land (Z.shiftr value 16) 255);
             byte_of_Z (Z.land (Z.shiftr value 8) 255);
             byte_of_Z (Z.land value 255)].

Definition EncodeFrame (message_type : MessageType) (payload : list byte)
    (max_payload_size : Z) : Outcome (list byte) :=
  let message_id := message_id_of message_type in
  if negb (IsKnownMessageId message_id) then
    Throws (invalid_argument "unknown message ID")
  else if (max_payload_size <? size_of payload) || (UINT32_MAX <? size_of payload) then
    Throws (length_error "payload exceeds configured maximum")
  else
    let encoded := AppendNetworkUint32 [] (u32 (size_of payload)) in
    let encoded := AppendNetworkUint32 encoded message_id in
    Returns (encoded ++ payload).

(** ** The incremental decoder *)

Record FrameDecoder := mkFrameDecoder {
  max_payload_size_ : Z;
  buffer_ : list byte;
  read_offset_ : nat;
  failure_status_ : DecodeStatus;
  failed_ : bool
}.

Definition FrameDecoder_new (max_payload_size : Z) : Outcome FrameDecoder :=
  if max_payload_size =? 0 then
    Throws (invalid_argument "maximum payload size must be positive")
  else
    Returns {| max_payload_size_ := max_payload_size; buffer_ := [];
               read_offset_ := 0; failure_status_ := kNeedMoreData;
               failed_ := false |}.

(** [Append(data, size)]: [None] is a null [data]. *)
Definition Append_raw (d : FrameDecoder) (data : option (list byte)) (size : Z)
    : Outcome FrameDecoder :=
  if size =? 0 then Returns d
  else match data with
       | None => Throws (invalid_argument "data must not be null when size is positive")
       | Some data =>
           Returns {| max_payload_size_ := max_payload_size_ d;
                      buffer_ := buffer_ d ++ take (Z.to_nat size) data;
                      read_offset_ := read_offset_ d;
                      failure_status_ := failure_status_ d;
                      failed_ := failed_ d |}
       end.

(** [Append(std::vector)]: an empty vector may have a null [data()]. *)
Definition Append (d : FrameDecoder) (data : list byte) : Outcome FrameDecoder :=
  Append_raw d (match data with [] => None | _ => Some data end) (size_of data).

Definition BufferedBytes (d : FrameDecoder) : nat :=
  (length (buffer_ d) - read_offset_ d)%nat.

Definition Failed (d : FrameDecoder) : bool := failed_ d.
Definition FailureStatus (d : FrameDecoder) : DecodeStatus := failure_status_ d.

Definition Fail_ (d : FrameDecoder) (status : DecodeStatus) : DecodeStatus * FrameDecoder :=
  (status,
   {| max_payload_size_ := max_payload_size_ d; buffer_ := buffer_ d;
      read_offset_ := read_offset_ d; failure_status_ := status; failed_ := true |}).

Definition Compact (d : FrameDecoder) : FrameDecoder :=
  if (read_offset_ d =? length (buffer_ d))%nat then
    {| max_payload_size_ := max_payload_size_ d; buffer_ := []; read_offset_ := 0;
       failure_status_ := failure_status_ d; failed_ := failed_ d |}
  else if (4096 <=? Z.of_nat (read_offset_ d))
          && (size_of (buffer_ d) <=? Z.of_nat (read_offset_ d) * 2) then
    {| max_payload_size_ := max_payload_size_ d;
       buffer_ := drop (read_offset_ d) (buffer_ d); read_offset_ := 0;
       failure_status_ := failure_status_ d; failed_ := failed_ d |}
  else d.

Definition Next (d : FrameDecoder) (frame : Frame)
    : DecodeStatus * Frame * FrameDecoder :=
  if failed_ d then (kDecoderFailed, frame, d)
  else
    let available := Z.of_nat (BufferedBytes d) in
    if available <? kFrameHeaderSize then (kNeedMoreData, frame, d)
    else
      let header := drop (read_offset_ d) (buffer_ d) in
      let payload_size := ReadNetworkUint32 header in
      let message_id := ReadNetworkUint32 (drop 4 header) in
      if max_payload_size_ d <? payload_size then
        let '(status, d) := Fail_ d kPayloadTooLarge in (status, frame, d)
      else if negb (IsKnownMessageId message_id) then
        let '(status, d) := Fail_ d kUnknownMessageId in (status, frame, d)
      else
        let frame_size := kFrameHeaderSize + payload_size in
        if available <? frame_size then (kNeedMoreData, frame, d)
        else
          let frame :=
            {| message_id := message_id;
               payload := take (Z.to_nat payload_size)
                            (drop (read_offset_ d + Z.to_nat kFrameHeaderSize) (buffer_ d)) |} in
          (kFrameReady, frame,
           Compact {| max_payload_size_ := max_payload_size_ d; buffer_ := buffer_ d;
                      read_offset_ := read_offset_ d + Z.to_nat frame_size;
                      failure_status_ := failure_status_ d; failed_ := failed_ d |}).

Definition Reset_ (d : FrameDecoder) : FrameDecoder :=
  {| max_payload_size_ := max_payload_size_ d; buffer_ := []; read_offset_ := 0;
     failure_status_ := kNeedMoreData; failed_ := false |}.

(** The decoding loop of the decoder's clients: [Next] until it stops being
    [kFrameReady], with the frames it gave. Each frame takes at least the eight
    header bytes, so a fuel of the buffered bytes is never exhausted
    ([drain_fuel_enough]). *)
Fixpoint drain_fuel (fuel : nat) (d : FrameDecoder) : list Frame * DecodeStatus * FrameDecoder :=
  match fuel with
  | O => ([], kNeedMoreData, d)
  | S fuel =>
      match Next d empty_frame with
      | (kFrameReady, f, d) =>
          let '(fs, status, d) := drain_fuel fuel d in (f :: fs, status, d)
      | (status, _, d) => ([], status, d)
      end
  end.

Definition DrainFrames (d : FrameDecoder) : list Frame * DecodeStatus * FrameDecoder :=
  drain_fuel (S (BufferedBytes d)) d.

(** ** Bytes and 32-bit words *)

Lemma byte_to_Z_range b : 0 <= byte_to_Z b < 256.
Proof. unfold byte_to_Z. pose proof (Byte.to_N_bounded b). lia. Qed.

Lemma byte_to_of_Z z : byte_to_Z (byte_of_Z z) = u8 z.
Proof.
  unfold byte_of_Z, byte_to_Z, u8.
  assert (0 <= z mod 2 ^ 8 < 256) as Hr by (by apply Z.mod_pos_bound).
  generalize dependent (z mod 2 ^ 8). intros y Hr.
  destruct (Byte.of_N (Z.to_N y)) as [b|] eqn:E; simpl.
  - apply Byte.to_of_N in E. rewrite E. lia.
  - apply Byte.of_N_None_iff in E. lia.
Qed.

Lemma byte_to_Z_inj b1 b2 : byte_to_Z b1 = byte_to_Z b2 → b1 = b2.
Proof.
  unfold byte_to_Z. intros E%N2Z.inj.
  pose proof (Byte.of_to_N b1) as E1. pose proof (Byte.of_to_N b2) as E2.
  rewrite E in E1. congruence.
Qed.

Lemma byte_of_to_Z b : byte_of_Z (byte_to_Z b) = b.
Proof.
  apply byte_to_Z_inj. rewrite byte_to_of_Z. apply Z.mod_small, byte_to_Z_range.
Qed.

Lemma land_255 z : Z.land z 255 = z mod 2 ^ 8.
Proof. change 255 with (Z.ones 8). by apply Z.land_ones. Qed.

(** The word read is the big-endian value of its first four bytes. *)
Lemma ReadNetworkUint32_value b0 b1 b2 b3 rest :
  ReadNetworkUint32 (b0 :: b1 :: b2 :: b3 :: rest)
  = byte_to_Z b0 * 2 ^ 24 + byte_to_Z b1 * 2 ^ 16 + byte_to_Z b2 * 2 ^ 8 + byte_to_Z b3.
Proof.
  pose proof (byte_to_Z_range b0). pose proof (byte_to_Z_range b1).
  pose proof (byte_to_Z_range b2). pose proof (byte_to_Z_range b3).
  unfold ReadNetworkUint32; cbn [nth].
  rewrite (u32_small (Z.shiftl (byte_to_Z b0) 24)),
    (u32_small (Z.shiftl (byte_to_Z b1) 16)), (u32_small (Z.shiftl (byte_to_Z b2) 8))
    by (unfold is_u32; rewrite Z.shiftl_mul_pow2 by lia; lia).
  rewrite !(Z.shiftl_mul_pow2 (byte_to_Z b1)), !(Z.shiftl_mul_pow2 (byte_to_Z b2)) by lia.
  rewrite (lor_shiftl_add (byte_to_Z b0) (byte_to_Z b1 * 2 ^ 16) 24) by lia.
  replace (byte_to_Z b0 * 2 ^ 24 + byte_to_Z b1 * 2 ^ 16)
    with (Z.shiftl (byte_to_Z b0 * 2 ^ 8 + byte_to_Z b1) 16)
    by (rewrite Z.shiftl_mul_pow2 by lia; lia).
  rewrite lor_shiftl_add by lia.
  replace ((byte_to_Z b0 * 2 ^ 8 + byte_to_Z b1) * 2 ^ 16 + byte_to_Z b2 * 2 ^ 8)
    with (Z.shiftl ((byte_to_Z b0 * 2 ^ 8 + byte_to_Z b1) * 2 ^ 8 + byte_to_Z b2) 8)
    by (rewrite Z.shiftl_mul_pow2 by lia; lia).
  rewrite lor_shiftl_add by lia. rewrite ?Z.shiftl_mul_pow2 by lia. lia.
Qed.

Lemma ReadNetworkUint32_range l : is_u32 (ReadNetworkUint32 l).
Proof.
  assert (ReadNetworkUint32 l =
    ReadNetworkUint32 [nth 0 l x00; nth 1 l x00; nth 2 l x00; nth 3 l x00]) as -> by done.
  rewrite ReadNetworkUint32_value. unfold is_u32.
  pose proof (byte_to_Z_range (nth 0 l x00)). pose proof (byte_to_Z_range (nth 1 l x00)).
  pose proof (byte_to_Z_range (nth 2 l x00)). pose proof (byte_to_Z_range (nth 3 l x00)).
  lia.
Qed.

Lemma AppendNetworkUint32_app out v :
  AppendNetworkUint32 out v = out ++ AppendNetworkUint32 [] v.
Proof. done. Qed.

Lemma length_AppendNetworkUint32 v : length (AppendNetworkUint32 [] v) = 4%nat.
Proof. done. Qed.

Lemma Read_Append_uint32 v rest :
  is_u32 v → ReadNetworkUint32 (AppendNetworkUint32 [] v ++ rest) = v.
Proof.
  intros Hv. unfold is_u32 in Hv. cbn [AppendNetworkUint32 app].
  rewrite ReadNetworkUint32_value, !byte_to_of_Z, !land_255. unfold u8.
  rewrite !Zmod_mod, !Z.shiftr_div_pow2 by lia.
  change (2 ^ 24) with 16777216; change (2 ^ 16) with 65536; change (2 ^ 8) with 256.
  Z.div_mod_to_equations. lia.
Qed.

Lemma Append_Read_uint32 b0 b1 b2 b3 rest :
  AppendNetworkUint32 [] (ReadNetworkUint32 (b0 :: b1 :: b2 :: b3 :: rest)) = [b0; b1; b2; b3].
Proof.
  rewrite ReadNetworkUint32_value. cbn [AppendNetworkUint32 app].
  pose proof (byte_to_Z_range b0). pose proof (byte_to_Z_range b1).
  pose proof (byte_to_Z_range b2). pose proof (byte_to_Z_range b3).
  rewrite !land_255, !Z.shiftr_div_pow2 by lia.
  assert (∀ z b, z mod 2 ^ 8 = byte_to_Z b → byte_of_Z (z mod 2 ^ 8) = b) as Hb.
  { intros z b ->. apply byte_of_to_Z. }
  change (2 ^ 24) with 16777216; change (2 ^ 16) with 65536; change (2 ^ 8) with 256.
  change (2 ^ 8) with 256 in Hb.
  repeat f_equal; apply Hb; Z.div_mod_to_equations; lia.
Qed.
