(* ===== verification/FrameStream.v ===== *)
(** * The frame decoder as a stream parser

    The contract of [FrameDecoder]: an abstract stream of pending bytes with no
    read offset and no compaction, its operations, and the proofs that the
    concrete decoder implements it, that decoding inverts encoding, and that
    the frames delivered do not depend on how the byte stream was cut into
    reads (partial frames, several frames in one read). *)

From Stdlib Require Import Strings.Byte.
From S2P Require Import Prelude FrameCodec.

(** ** Specification *)

(** The bytes not yet consumed, and the error the stream failed with. *)
Record Stream := mkStream {
  limit : Z;
  pending : list byte;
  failure : option DecodeStatus
}.

Definition stream_append (s : Stream) (bs : list byte) : Stream :=
  {| limit := limit s; pending := pending s ++ bs; failure := failure s |}.

Definition stream_fail (s : Stream) (e : DecodeStatus) : Stream :=
  {| limit := limit s; pending := pending s; failure := Some e |}.

(** What the first bytes of a stream mean. *)
Inductive Parsed :=
| Incomplete
| Malformed (e : DecodeStatus)
| Parsed_frame (f : Frame) (rest : list byte).

Definition parse_frame (max : Z) (bs : list byte) : Parsed :=
  if size_of bs <? 8 then Incomplete
  else
    let n := ReadNetworkUint32 bs in
    let id := ReadNetworkUint32 (drop 4 bs) in
    if max <? n then Malformed kPayloadTooLarge
    else if negb (IsKnownMessageId id) then Malformed kUnknownMessageId
    else if size_of bs <? 8 + n then Incomplete
    else Parsed_frame {| message_id := id; payload := take (Z.to_nat n) (drop 8 bs) |}
                      (drop (8 + Z.to_nat n) bs).

Definition stream_next (s : Stream) (frame : Frame) : DecodeStatus * Frame * Stream :=
  match failure s with
  | Some _ => (kDecoderFailed, frame, s)
  | None =>
      match parse_frame (limit s) (pending s) with
      | Incomplete => (kNeedMoreData, frame, s)
      | Malformed e => (e, frame, stream_fail s e)
      | Parsed_frame f rest =>
          (kFrameReady, f, {| limit := limit s; pending := rest; failure := None |})
      end
  end.

(** All the frames at the front of a stream, and what is left. *)
Fixpoint stream_drain (fuel : nat) (s : Stream) : list Frame * Stream :=
  match fuel with
  | O => ([], s)
  | S fuel =>
      match stream_next s empty_frame with
      | (kFrameReady, f, s) => let '(fs, s) := stream_drain fuel s in (f :: fs, s)
      | (_, _, s) => ([], s)
      end
  end.

(** The wire form of a frame, and the frames the encoder accepts. *)
Definition frame_wire (f : Frame) : list byte :=
  AppendNetworkUint32 (AppendNetworkUint32 [] (u32 (size_of (payload f)))) (message_id f)
    ++ payload f.

Definition encodable (max : Z) (f : Frame) : Prop :=
  IsKnownMessageId (message_id f) = true ∧
  size_of (payload f) <= max ∧ size_of (payload f) <= UINT32_MAX.

#[global] Arguments frame_wire : simpl never.
#[global] Arguments parse_frame : simpl never.

(** ** The concrete decoder against the specification *)

Definition unread (d : FrameDecoder) : list byte := drop (read_offset_ d) (buffer_ d).

Definition stream_of (d : FrameDecoder) : Stream :=
  {| limit := max_payload_size_ d; pending := unread d;
     failure := if failed_ d then Some (failure_status_ d) else None |}.

(** The representation invariant. *)
Record DecoderInv (d : FrameDecoder) : Prop := {
  inv_offset : (read_offset_ d <= length (buffer_ d))%nat;
  inv_status : failed_ d = false → failure_status_ d = kNeedMoreData;
  inv_failure : failed_ d = true →
    failure_status_ d = kPayloadTooLarge ∨ failure_status_ d = kUnknownMessageId;
  inv_waste : Z.of_nat (read_offset_ d) < 4096 ∨ Z.of_nat (read_offset_ d) < size_of (unread d)
}.

(** One read: the bytes of a [recv] appended, then the frames drained, the frames
    being collected over the reads. *)
Fixpoint feed (d : FrameDecoder) (chunks : list (list byte)) : Outcome (list Frame * FrameDecoder) :=
  match chunks with
  | [] => Returns ([], d)
  | c :: chunks =>
      d ← Append d c;
      let '(fs, _, d) := DrainFrames d in
      '(fs', d) ← feed d chunks;
      Returns (fs ++ fs', d)
  end.

(** ** Facts *)

Lemma BufferedBytes_unread d : BufferedBytes d = length (unread d).
Proof. unfold BufferedBytes, unread. by rewrite length_drop. Qed.

Lemma Append_returns d bs :
  Append d bs = Returns {| max_payload_size_ := max_payload_size_ d;
                           buffer_ := buffer_ d ++ bs;
                           read_offset_ := read_offset_ d;
                           failure_status_ := failure_status_ d;
                           failed_ := failed_ d |}.
Proof.
  unfold Append, Append_raw, size_of. destruct bs as [|b bs].
  - rewrite app_nil_r. by destruct d.
  - simpl (Z.of_nat _ =? 0). rewrite Nat2Z.id, firstn_all. done.
Qed.

Lemma Append_refines d bs d' :
  DecoderInv d → Append d bs = Returns d' →
  DecoderInv d' ∧ stream_of d' = stream_append (stream_of d) bs.
Proof.
  intros [Ho Hs Hf Hw] E. rewrite Append_returns in E. injection E as <-.
  assert (drop (read_offset_ d) (buffer_ d ++ bs) = unread d ++ bs) as Hu.
  { unfold unread. rewrite drop_app. f_equal.
    replace (read_offset_ d - length (buffer_ d))%nat with 0%nat by lia. done. }
  split.
  - split; unfold unread in *; simpl in *; rewrite ?length_app; [lia|done..|].
    rewrite Hu. unfold size_of, unread in *. rewrite length_app. lia.
  - unfold stream_of, stream_append, unread in *; simpl. by rewrite Hu.
Qed.

Lemma Reset_refines d :
  DecoderInv (Reset_ d) ∧
  stream_of (Reset_ d) = {| limit := max_payload_size_ d; pending := []; failure := None |}.
Proof. split; [split; simpl; [lia|done|done|lia]|done]. Qed.

Lemma Compact_unread d :
  (read_offset_ d <= length (buffer_ d))%nat → unread (Compact d) = unread d.
Proof.
  intros Ho. unfold Compact. destruct (read_offset_ d =? _)%nat eqn:E1.
  - apply Nat.eqb_eq in E1. unfold unread; simpl. by rewrite E1, drop_all.
  - by destruct (_ && _).
Qed.

Lemma Compact_waste d :
  (read_offset_ d <= length (buffer_ d))%nat →
  (Z.of_nat (read_offset_ (Compact d)) < 4096
   ∨ Z.of_nat (read_offset_ (Compact d)) < size_of (unread (Compact d)))
  ∧ (read_offset_ (Compact d) <= length (buffer_ (Compact d)))%nat.
Proof.
  intros Ho. unfold Compact. destruct (read_offset_ d =? _)%nat eqn:E1; simpl; [lia|].
  destruct (_ && _) eqn:E2; simpl; [lia|].
  apply Nat.eqb_neq in E1. unfold unread, size_of in *. rewrite length_drop. bool_lia.
Qed.

Lemma Compact_stream d :
  (read_offset_ d <= length (buffer_ d))%nat → stream_of (Compact d) = stream_of d.
Proof.
  intros Ho. unfold stream_of. rewrite Compact_unread by done.
  unfold Compact. by repeat case_match.
Qed.

Lemma parse_frame_incomplete max bs :
  size_of bs < 8 → parse_frame max bs = Incomplete.
Proof. intros. unfold parse_frame. by rewrite (proj2 (Z.ltb_lt _ _)). Qed.

(** One call of [Next] is one step of the specification, and the invariant is
    kept. *)
Lemma Next_refines d f0 :
  DecoderInv d →
  let '(status, f, d') := Next d f0 in
  DecoderInv d' ∧ stream_next (stream_of d) f0 = (status, f, stream_of d').
Proof.
  intros Hinv. pose proof Hinv as [Ho Hs Hf Hw].
  unfold Next, stream_next. destruct (failed_ d) eqn:Efail; simpl.
  { by rewrite Efail. }
  rewrite Efail.
  unfold parse_frame, size_of. rewrite BufferedBytes_unread.
  change kFrameHeaderSize with 8.
  destruct (Z.of_nat (length (unread d)) <? 8) eqn:E8. { done. }
  fold (unread d).
  destruct (max_payload_size_ d <? ReadNetworkUint32 (unread d)) eqn:Emax.
  { split; [split; simpl; auto; lia|done]. }
  destruct (negb (IsKnownMessageId (ReadNetworkUint32 (drop 4 (unread d))))) eqn:Eid.
  { split; [split; simpl; auto; lia|done]. }
  destruct (Z.of_nat (length (unread d)) <? 8 + ReadNetworkUint32 (unread d)) eqn:Elen. { done. }
  pose proof (ReadNetworkUint32_range (unread d)) as Hn. unfold is_u32 in Hn.
  set (n := ReadNetworkUint32 (unread d)) in *.
  set (id := ReadNetworkUint32 (drop 4 (unread d))) in *.
  apply Z.ltb_ge in Elen.
  assert (length (unread d) = length (buffer_ d) - read_offset_ d)%nat as Hlen
    by (unfold unread; by rewrite length_drop).
  set (d1 := {| max_payload_size_ := max_payload_size_ d; buffer_ := buffer_ d;
                read_offset_ := read_offset_ d + Z.to_nat (8 + n);
                failure_status_ := failure_status_ d; failed_ := false |}).
  assert (read_offset_ d1 <= length (buffer_ d1))%nat as Ho1 by (simpl; lia).
  destruct (Compact_waste d1 Ho1) as [Hw1 Hb1].
  assert (failed_ (Compact d1) = false ∧ failure_status_ (Compact d1) = kNeedMoreData)
    as [Hf1 Hst1].
  { unfold Compact. repeat case_match; simpl; auto. }
  split; [split; [done|by rewrite Hst1|by rewrite Hf1|done]|].
  rewrite Compact_stream by done. f_equal; [f_equal; f_equal|].
  - unfold unread. by rewrite drop_drop.
  - unfold d1, stream_of, unread; simpl. rewrite drop_drop. repeat f_equal. lia.
Qed.

(** *** The specification *)

Lemma size_of_nonneg {A} (l : list A) : 0 <= size_of l.
Proof. unfold size_of. lia. Qed.

Lemma header_bytes (bs : list byte) :
  (size_of bs <? 8) = false →
  ∃ b0 b1 b2 b3 b4 b5 b6 b7 rest,
    bs = b0 :: b1 :: b2 :: b3 :: b4 :: b5 :: b6 :: b7 :: rest.
Proof.
  intros E. destruct bs as [|b0 [|b1 [|b2 [|b3 [|b4 [|b5 [|b6 [|b7 rest]]]]]]]];
    try discriminate E. by repeat eexists.
Qed.

(** A parsed frame gives back the bytes it was read from. *)
Lemma parse_frame_inv max bs f rest :
  parse_frame max bs = Parsed_frame f rest →
  bs = frame_wire f ++ rest ∧ encodable max f.
Proof.
  unfold parse_frame. intros E.
  destruct (size_of bs <? 8) eqn:E8; [done|].
  destruct (max <? ReadNetworkUint32 bs) eqn:Emax; [done|].
  destruct (negb (IsKnownMessageId (ReadNetworkUint32 (drop 4 bs)))) eqn:Eid; [done|].
  destruct (size_of bs <? 8 + ReadNetworkUint32 bs) eqn:Elen; [done|].
  apply header_bytes in E8 as (b0 & b1 & b2 & b3 & b4 & b5 & b6 & b7 & bs' & ->).
  rename bs' into bs. unfold size_of in *.
  cbn [drop] in E, Eid. rewrite !drop_0 in E. injection E as <- <-. apply negb_false_iff in Eid.
  pose proof (ReadNetworkUint32_range (b0 :: b1 :: b2 :: b3 :: b4 :: b5 :: b6 :: b7 :: bs)) as Hn.
  set (n := ReadNetworkUint32 (b0 :: _)) in *. unfold is_u32 in Hn.
  assert (size_of (take (Z.to_nat n) bs) = n) as Hsz.
  { unfold size_of. rewrite length_take. cbn [length] in *. clearbody n. bool_lia. }
  split.
  - unfold frame_wire; cbn [payload message_id]. rewrite Hsz, u32_small by done.
    rewrite AppendNetworkUint32_app. unfold n.
    rewrite !Append_Read_uint32. fold n. cbn [app].
    by rewrite take_drop.
  - split; [done|]. cbn [payload]. rewrite Hsz. unfold UINT32_MAX. bool_lia.
Qed.

(** A frame on the wire parses as itself, whatever follows it. *)
Lemma parse_frame_wire max f rest :
  encodable max f → parse_frame max (frame_wire f ++ rest) = Parsed_frame f rest.
Proof.
  intros (Hid & Hmax & Hu). unfold UINT32_MAX in Hu.
  pose proof (size_of_nonneg (payload f)) as H0.
  assert (is_u32 (size_of (payload f))) as Hu32 by (unfold is_u32; lia).
  assert (is_u32 (message_id f)) as Hid32.
  { unfold IsKnownMessageId, message_type_of in Hid. unfold is_u32.
    repeat case_match; simplify_eq; bool_lia. }
  unfold parse_frame, frame_wire. rewrite u32_small by done.
  rewrite AppendNetworkUint32_app, <- !app_assoc.
  rewrite (Read_Append_uint32 (size_of (payload f))) by done.
  change (drop 4 (AppendNetworkUint32 [] (size_of (payload f)) ++ ?l)) with l.
  rewrite Read_Append_uint32, Hid by done; simpl negb; cbv iota.
  unfold size_of. rewrite !length_app, !length_AppendNetworkUint32. unfold size_of in *.
  rewrite (proj2 (Z.ltb_ge _ 8)) by lia. rewrite (proj2 (Z.ltb_ge max _)) by lia.
  rewrite (proj2 (Z.ltb_ge _ (8 + _))) by lia. rewrite Nat2Z.id. f_equal.
  - destruct f as [id p]. f_equal. simpl payload. change (drop 8 (AppendNetworkUint32 [] ?a ++ AppendNetworkUint32 [] ?b ++ ?l)) with l. by rewrite take_app_length.
  - change (drop (8 + length (payload f)) (AppendNetworkUint32 [] ?a ++ AppendNetworkUint32 [] ?b ++ ?l))
      with (drop (length (payload f)) l).
    by rewrite drop_app_length.
Qed.

Lemma parse_frame_shorter max bs f rest :
  parse_frame max bs = Parsed_frame f rest → (length rest + 8 <= length bs)%nat.
Proof.
  intros [-> _]%parse_frame_inv. unfold frame_wire.
  rewrite AppendNetworkUint32_app, !length_app, !length_AppendNetworkUint32. lia.
Qed.

(** A verdict on a prefix is kept by every longer stream. *)
Lemma parse_frame_app max bs more :
  match parse_frame max bs with
  | Incomplete => True
  | Malformed e => parse_frame max (bs ++ more) = Malformed e
  | Parsed_frame f rest => parse_frame max (bs ++ more) = Parsed_frame f (rest ++ more)
  end.
Proof.
  destruct (parse_frame max bs) as [|e|f rest] eqn:E; [done| |].
  - revert E. unfold parse_frame.
    destruct (size_of bs <? 8) eqn:E8; [done|].
    unfold size_of in *. rewrite length_app. rewrite (proj2 (Z.ltb_ge _ 8)) by bool_lia.
    apply header_bytes in E8 as (b0 & b1 & b2 & b3 & b4 & b5 & b6 & b7 & bs' & ->).
    cbn [app drop].
    change (ReadNetworkUint32 (b0 :: b1 :: b2 :: b3 :: ?l)) with (ReadNetworkUint32 [b0; b1; b2; b3]).
    change (ReadNetworkUint32 (b4 :: b5 :: b6 :: b7 :: ?l)) with (ReadNetworkUint32 [b4; b5; b6; b7]).
    repeat case_match; congruence.
  - apply parse_frame_inv in E as [-> E]. rewrite <- app_assoc.
    by apply parse_frame_wire.
Qed.

Lemma size_frame_wire f : size_of (frame_wire f) = kFrameHeaderSize + size_of (payload f).
Proof.
  unfold frame_wire, size_of. rewrite AppendNetworkUint32_app, !length_app.
  rewrite !length_AppendNetworkUint32. change kFrameHeaderSize with 8. lia.
Qed.

Lemma EncodeFrame_Returns t p max bs :
  EncodeFrame t p max = Returns bs ↔
  size_of p <= max ∧ size_of p <= UINT32_MAX ∧
  bs = frame_wire {| message_id := message_id_of t; payload := p |}.
Proof.
  unfold EncodeFrame. assert (IsKnownMessageId (message_id_of t) = true) as -> by (by destruct t).
  simpl negb. cbv iota. destruct ((max <? size_of p) || (UINT32_MAX <? size_of p)) eqn:E.
  - split; [done|]. intros (? & ? & _). bool_lia.
  - apply orb_false_iff in E as [E1%Z.ltb_ge E2%Z.ltb_ge]. split; [by intros [= <-]|].
    by intros (_ & _ & ->).
Qed.

(** *** Draining *)

Lemma stream_drain_step fuel s :
  stream_drain (S fuel) s =
  match failure s, parse_frame (limit s) (pending s) with
  | None, Parsed_frame f rest =>
      let '(fs, s') := stream_drain fuel
        {| limit := limit s; pending := rest; failure := None |} in (f :: fs, s')
  | None, Malformed e => ([], stream_fail s e)
  | _, _ => ([], s)
  end.
Proof.
  cbn [stream_drain]. unfold stream_next. destruct (failure s); [done|].
  destruct (parse_frame (limit s) (pending s)) as [|e|f rest] eqn:E; try done.
  unfold parse_frame in E. repeat case_match; simplify_eq/=; done.
Qed.

(** The bytes bound the number of frames: more fuel changes nothing. *)
Lemma stream_drain_fuel n1 n2 s :
  (length (pending s) < n1)%nat → (length (pending s) < n2)%nat →
  stream_drain n1 s = stream_drain n2 s.
Proof.
  revert n2 s. induction n1 as [|n1 IH]; intros [|n2] s H1 H2; try lia.
  rewrite !stream_drain_step. destruct (failure s); [done|].
  destruct (parse_frame _ _) as [| |f rest] eqn:E; try done.
  apply parse_frame_shorter in E. by rewrite (IH n2) by (simpl; lia).
Qed.

Definition drain_all (s : Stream) : list Frame * Stream :=
  stream_drain (S (length (pending s))) s.
#[global] Arguments drain_all : simpl never.

Lemma drain_all_step s :
  drain_all s =
  match failure s, parse_frame (limit s) (pending s) with
  | None, Parsed_frame f rest =>
      let '(fs, s') := drain_all {| limit := limit s; pending := rest; failure := None |} in
      (f :: fs, s')
  | None, Malformed e => ([], stream_fail s e)
  | _, _ => ([], s)
  end.
Proof.
  unfold drain_all at 1. rewrite stream_drain_step. destruct (failure s); [done|].
  destruct (parse_frame _ _) as [| |f rest] eqn:E; try done.
  apply parse_frame_shorter in E. unfold drain_all.
  rewrite (stream_drain_fuel _ (S (length rest))) by (simpl; lia). done.
Qed.

(** Draining early, or only once all bytes are there: the same frames. *)
Lemma drain_all_append s more :
  drain_all (stream_append s more) =
  let '(fs1, s1) := drain_all s in
  let '(fs2, s2) := drain_all (stream_append s1 more) in
  (fs1 ++ fs2, s2).
Proof.
  remember (length (pending s)) as n eqn:Hn. revert s Hn.
  induction (lt_wf n) as [n _ IH]; intros s Hn.
  rewrite (drain_all_step s).
  destruct (failure s) as [e|] eqn:Ef; [by destruct (drain_all _)|].
  pose proof (parse_frame_app (limit s) (pending s) more) as Hp.
  destruct (parse_frame (limit s) (pending s)) as [|e|f rest] eqn:E;
    [by destruct (drain_all _)| |];
    rewrite (drain_all_step (stream_append s more)); simpl; rewrite Ef, Hp.
  - done.
  - apply parse_frame_shorter in E.
    set (s' := {| limit := limit s; pending := rest; failure := None |}).
    change {| limit := limit s; pending := rest ++ more; failure := None |}
      with (stream_append s' more).
    rewrite (IH (length rest) ltac:(lia) s' eq_refl).
    destruct (drain_all s') as [fs1 s1]. by destruct (drain_all (stream_append s1 more)).
Qed.

(** A failure met in a stream is met again whatever is appended. *)
Definition stream_failed (s : Stream) : Prop := is_Some (failure (drain_all s).2).

Lemma drain_all_failed s : is_Some (failure s) → drain_all s = ([], s).
Proof. rewrite drain_all_step. by intros [e ->]. Qed.

Lemma stream_failed_append s more : stream_failed s → stream_failed (stream_append s more).
Proof.
  unfold stream_failed. rewrite drain_all_append. destruct (drain_all s) as [fs r]. cbn [snd]. intros Hf.
  by rewrite (drain_all_failed (stream_append r more)) by done.
Qed.

(** What draining leaves has nothing more to give. *)
Lemma drain_all_idem s fs s' : drain_all s = (fs, s') → drain_all s' = ([], s').
Proof.
  remember (length (pending s)) as n eqn:Hn. revert s fs Hn.
  induction (lt_wf n) as [n _ IH]; intros s fs Hn. rewrite (drain_all_step s).
  destruct (failure s) as [e|] eqn:Ef; [intros [= <- <-]; by apply drain_all_failed; rewrite Ef|].
  destruct (parse_frame (limit s) (pending s)) as [|e|f rest] eqn:Ep.
  - intros [= <- <-]. by rewrite drain_all_step, Ef, Ep.
  - intros [= <- <-]. by apply drain_all_failed.
  - apply parse_frame_shorter in Ep. set (s1 := {| limit := limit s; pending := rest; failure := None |}).
    destruct (drain_all s1) as [fs1 s2] eqn:Ed. intros [= <- <-].
    by apply (IH (length rest) ltac:(lia) s1 fs1).
Qed.

(** Draining the wire form of a list of frames gives the frames. *)
Lemma drain_all_wire max fs rest :
  Forall (encodable max) fs →
  drain_all {| limit := max; pending := concat (frame_wire <$> fs) ++ rest; failure := None |} =
  let '(fs', s) := drain_all {| limit := max; pending := rest; failure := None |} in
  (fs ++ fs', s).
Proof.
  intros Hfs. induction Hfs as [|f fs Hf Hfs IH].
  { cbn [fmap list_fmap concat app]. by destruct (drain_all _). }
  change (concat (frame_wire <$> f :: fs)) with (frame_wire f ++ concat (frame_wire <$> fs)).
  rewrite drain_all_step. cbn [limit pending failure]. rewrite <- app_assoc, parse_frame_wire by done.
  rewrite IH. clear IH. by destruct (drain_all _).
Qed.

(** *** The decoder's loop against the specification *)

Lemma drain_refines fuel d :
  DecoderInv d →
  let '(fs, _, d') := drain_fuel fuel d in
  DecoderInv d' ∧ stream_drain fuel (stream_of d) = (fs, stream_of d').
Proof.
  revert d. induction fuel as [|fuel IH]; intros d Hd; [done|].
  cbn [drain_fuel stream_drain].
  pose proof (Next_refines d empty_frame Hd) as HN.
  destruct (Next d empty_frame) as [[st f] d1]. destruct HN as [Hd1 ->].
  destruct st; try done.
  pose proof (IH d1 Hd1) as H1. destruct (drain_fuel fuel d1) as [[fs st] d2].
  destruct H1 as [Hd2 ->]. done.
Qed.

(** A ready frame consumes its header and payload. *)
Lemma Next_ready_shorter d f0 f d' :
  DecoderInv d → Next d f0 = (kFrameReady, f, d') →
  DecoderInv d' ∧ (BufferedBytes d' + 8 <= BufferedBytes d)%nat.
Proof.
  intros Hd E. pose proof (Next_refines d f0 Hd) as HN. rewrite E in HN.
  destruct HN as [Hd' HN]. split; [done|]. revert HN. unfold stream_next.
  destruct (failure (stream_of d)); [done|].
  destruct (parse_frame _ _) as [|e|f1 rest] eqn:Ep; [done| |].
  - intros [= -> _ Hs]. revert Ep. unfold parse_frame. repeat case_match; done.
  - intros [= _ _ Hs _]. apply parse_frame_shorter in Ep.
    rewrite !BufferedBytes_unread, <- Hs. simpl in Ep. lia.
Qed.

Lemma drain_fuel_enough n1 n2 d :
  DecoderInv d → (BufferedBytes d < n1)%nat → (BufferedBytes d < n2)%nat →
  drain_fuel n1 d = drain_fuel n2 d.
Proof.
  revert n2 d. induction n1 as [|n1 IH]; intros [|n2] d Hd H1 H2; try lia.
  cbn [drain_fuel]. destruct (Next d empty_frame) as [[[] f] d'] eqn:E; try done.
  apply Next_ready_shorter in E as [Hd' Hlt]; [|done].
  by rewrite (IH n2 d' Hd') by lia.
Qed.

Lemma drain_fuel_stops n d :
  DecoderInv d → (BufferedBytes d < n)%nat →
  let '(_, status, d') := drain_fuel n d in
  status ≠ kFrameReady ∧ ∃ d0, Next d0 empty_frame = (status, empty_frame, d').
Proof.
  revert d. induction n as [|n IH]; intros d Hd Hn; [lia|].
  cbn [drain_fuel]. destruct (Next d empty_frame) as [[st f] d'] eqn:E.
  assert (st ≠ kFrameReady → f = empty_frame) as Hf.
  { revert E. unfold Next. repeat case_match; intros; simplify_eq; done. }
  destruct st; try (split; [done|]; exists d; rewrite E, Hf; done).
  apply Next_ready_shorter in E as [Hd' Hlt]; [|done].
  specialize (IH d' Hd' ltac:(lia)). by destruct (drain_fuel n d') as [[fs st] d2].
Qed.

Lemma DrainFrames_refines d :
  DecoderInv d →
  let '(fs, _, d') := DrainFrames d in
  DecoderInv d' ∧ drain_all (stream_of d) = (fs, stream_of d').
Proof.
  intros Hd. unfold DrainFrames, drain_all. simpl pending.
  rewrite BufferedBytes_unread. by apply drain_refines.
Qed.

Lemma DrainFrames_status d fs st d' :
  DecoderInv d → DrainFrames d = (fs, st, d') → (st = kNeedMoreData ↔ failed_ d' = false).
Proof.
  intros Hd E. pose proof (drain_fuel_stops (S (BufferedBytes d)) d Hd ltac:(lia)) as Hs.
  unfold DrainFrames in E. rewrite E in Hs. destruct Hs as [Hr [d0 HN]]. revert HN Hr. unfold Next.
  destruct (failed_ d0) eqn:Ef; [intros [= <- <-]; by rewrite Ef|]. unfold Fail_.
  destruct (_ <? kFrameHeaderSize); [intros [= <- <-]; by rewrite Ef|].
  destruct (max_payload_size_ d0 <? _); [by intros [= <- <-]|].
  destruct (negb _); [by intros [= <- <-]|].
  destruct (_ <? kFrameHeaderSize + _); [intros [= <- <-]; by rewrite Ef|]. by intros [= <- _ _].
Qed.

Lemma feed_refines chunks d :
  DecoderInv d →
  ∃ fs d', feed d chunks = Returns (fs, d') ∧ DecoderInv d' ∧
    (chunks ≠ [] →
     drain_all (stream_append (stream_of d) (concat chunks)) = (fs, stream_of d')).
Proof.
  revert d. induction chunks as [|c chunks IH]; intros d Hd; [by eexists _, _|].
  cbn [feed]. destruct (Append d c) as [d1|e] eqn:E1; [|by rewrite Append_returns in E1].
  destruct (Append_refines d c d1 Hd E1) as [Hd1 Hs1].
  pose proof (DrainFrames_refines d1 Hd1) as H2.
  cbn [mbind Outcome_bind]. destruct (DrainFrames d1) as [[fs st] d2].
  destruct H2 as [Hd2 Hs2].
  destruct (IH d2 Hd2) as (fs' & d' & Hf & Hd' & Hs'). rewrite Hf.
  eexists _, _; split; [done|]. split; [done|]. intros _.
  cbn [concat]. rewrite Hs1 in Hs2.
  destruct chunks as [|c' chunks].
  - injection Hf as <- <-. cbn [concat]. by rewrite !app_nil_r.
  - specialize (Hs' ltac:(done)).
    assert (stream_append (stream_of d) (c ++ concat (c' :: chunks))
            = stream_append (stream_append (stream_of d) c) (concat (c' :: chunks))) as ->
      by (unfold stream_append; simpl; by rewrite app_assoc).
    by rewrite drain_all_append, Hs2, Hs'.
Qed.

Lemma new_decoder_inv max d :
  FrameDecoder_new max = Returns d →
  DecoderInv d ∧ stream_of d = {| limit := max; pending := []; failure := None |}.
Proof.
  unfold FrameDecoder_new. case_match; [done|]. intros [= <-].
  split; [split; simpl; [lia|done|done|lia]|done].
Qed.

Lemma drain_all_nil max :
  drain_all {| limit := max; pending := []; failure := None |}
  = ([], {| limit := max; pending := []; failure := None |}).
Proof. done. Qed.

(** After draining, what is left is less than a frame. *)
Lemma drain_all_leftover s fs s' :
  drain_all s = (fs, s') → 0 <= limit s → failure s' = None →
  limit s' = limit s ∧ size_of (pending s') < 8 + limit s.
Proof.
  remember (length (pending s)) as n eqn:Hn. revert s fs Hn.
  induction (lt_wf n) as [n _ IH]; intros s fs Hn.
  rewrite (drain_all_step s). intros E Hl Hf'.
  destruct (failure s) as [e|] eqn:Ef; [by simplify_eq|].
  destruct (parse_frame (limit s) (pending s)) as [|e|f rest] eqn:Ep.
  - simplify_eq. split; [done|]. revert Ep. unfold parse_frame.
    repeat case_match; intros; simplify_eq; bool_lia.
  - by simplify_eq.
  - apply parse_frame_shorter in Ep.
    set (s1 := {| limit := limit s; pending := rest; failure := None |}) in *.
    destruct (drain_all s1) as [fs1 s2] eqn:Ed. simplify_eq.
    by apply (IH (length rest) ltac:(lia) s1 fs1).
Qed.

(** Frames on the wire, cut into reads in any way, are delivered. *)
Lemma feed_wire max d fs chunks :
  FrameDecoder_new max = Returns d →
  Forall (encodable max) fs →
  concat chunks = concat (frame_wire <$> fs) →
  ∃ d', feed d chunks = Returns (fs, d') ∧ BufferedBytes d' = 0%nat ∧ Failed d' = false.
Proof.
  intros Hnew Hfs Hc. destruct (new_decoder_inv max d Hnew) as [Hd Hs].
  destruct (feed_refines chunks d Hd) as (fs' & d' & Hfeed & Hd' & Hdrain).
  destruct chunks as [|c chunks].
  { destruct fs as [|f fs]; [|discriminate Hc]. injection Hfeed as <- <-.
    exists d. split; [done|]. rewrite BufferedBytes_unread.
    apply (f_equal pending) in Hs as Hu. simpl in Hu. rewrite Hu. split; [done|].
    unfold FrameDecoder_new in Hnew. case_match; by simplify_eq. }
  specialize (Hdrain ltac:(done)). rewrite Hs, Hc in Hdrain.
  unfold stream_append in Hdrain; cbn [limit pending failure app] in Hdrain.
  rewrite <- (app_nil_r (concat _)), drain_all_wire, drain_all_nil, app_nil_r in Hdrain by done.
  injection Hdrain as <- _ Hp Hf. exists d'. split; [done|].
  rewrite BufferedBytes_unread, <- Hp. split; [done|].
  unfold Failed. destruct (failed_ d'); done.
Qed.

(** The frame of what is given to the encoder. *)
Definition given_frame (m : MessageType * list byte) : Frame :=
  {| message_id := message_id_of m.1; payload := m.2 |}.

Lemma EncodeFrame_frames max ms wires :
  Forall2 (λ m w, EncodeFrame m.1 m.2 max = Returns w) ms wires →
  Forall (encodable max) (given_frame <$> ms) ∧ wires = frame_wire <$> (given_frame <$> ms).
Proof.
  induction 1 as [|[t p] w ms wires E Hall [IH1 IH2]]; [done|].
  apply EncodeFrame_Returns in E as (H1 & H2 & ->). cbn. split; [|by rewrite IH2].
  constructor; [|done]. split; [by destruct t|done].
Qed.

(** ** Properties *)

(** C6: Decoding inverts encoding over any segmentation of the TCP stream: what
    [EncodeFrame] returned for some messages, one after the other, and cut into reads in
    any way (partial headers, partial payloads, several frames per read), makes a new
    decoder with the same limit deliver exactly these messages, in order, with nothing
    left buffered. *)
Theorem decode_encode_stream max d ms wires chunks :
  FrameDecoder_new max = Returns d →
  Forall2 (λ m w, EncodeFrame m.1 m.2 max = Returns w) ms wires →
  concat chunks = concat wires →
  ∃ d', feed d chunks = Returns (given_frame <$> ms, d') ∧ BufferedBytes d' = 0%nat ∧ Failed d' = false.
Proof.
  intros Hnew [Henc ->]%EncodeFrame_frames Hc. by apply (feed_wire max).
Qed.

(** The frames delivered, and the state of the decoder as a stream, depend on
    the bytes received only, not on how [recv] cut them, for malformed streams
    too. *)
Theorem segmentation_independence d chunks1 chunks2 :
  DecoderInv d → chunks1 ≠ [] → chunks2 ≠ [] → concat chunks1 = concat chunks2 →
  ∃ fs d1 d2, feed d chunks1 = Returns (fs, d1) ∧ feed d chunks2 = Returns (fs, d2) ∧
    stream_of d1 = stream_of d2.
Proof.
  intros Hd H1 H2 Hc.
  destruct (feed_refines chunks1 d Hd) as (fs1 & d1 & Hf1 & _ & Hs1).
  destruct (feed_refines chunks2 d Hd) as (fs2 & d2 & Hf2 & _ & Hs2).
  specialize (Hs1 H1). specialize (Hs2 H2). rewrite Hc in Hs1. rewrite Hs1 in Hs2.
  apply pair_eq in Hs2 as [<- Hst]. by exists fs1, d1, d2.
Qed.

(** C33: The decoder with its read offset and compaction implements the abstract
    stream parser: every operation keeps the representation invariant and acts
    on the unread bytes as the specification does. *)
Theorem decoder_refines_stream d :
  DecoderInv d →
  (∀ bs, ∃ d', Append d bs = Returns d' ∧ DecoderInv d' ∧
     stream_of d' = stream_append (stream_of d) bs) ∧
  (∀ f0, let '(status, f, d') := Next d f0 in
     DecoderInv d' ∧ stream_next (stream_of d) f0 = (status, f, stream_of d')) ∧
  (DecoderInv (Reset_ d) ∧
     stream_of (Reset_ d) = {| limit := max_payload_size_ d; pending := []; failure := None |}) ∧
  Z.of_nat (BufferedBytes d) = size_of (pending (stream_of d)) ∧
  failure (stream_of d) = if Failed d then Some (FailureStatus d) else None.
Proof.
  intros Hd. split; [|split; [|split; [|split]]].
  - intros bs. pose proof (Append_returns d bs) as E. eexists. split; [exact E|].
    by apply Append_refines.
  - intros f0. by apply Next_refines.
  - apply Reset_refines.
  - by rewrite BufferedBytes_unread.
  - done.
Qed.

(** The decoding loop terminates: with the buffered bytes as fuel it always
    reaches a call of [Next] that delivers no frame, and any larger fuel gives
    the same frames, status and decoder. *)
Theorem decoding_loop_terminates d n :
  DecoderInv d → (BufferedBytes d < n)%nat →
  drain_fuel n d = DrainFrames d ∧
  (let '(_, status, d') := DrainFrames d in
   status ≠ kFrameReady ∧ ∃ d0, Next d0 empty_frame = (status, empty_frame, d')).
Proof.
  intros Hd Hn. split; [apply drain_fuel_enough; [done..|unfold DrainFrames; lia]|].
  apply drain_fuel_stops; [done|lia].
Qed.

(** A connection's receive memory is bounded: once the loop has drained a
    decoder that has not failed, fewer bytes than one maximal frame are left,
    and the vector, consumed prefix included, holds less than two of them and
    4096 bytes. *)
Theorem receive_buffer_bounded d fs status d' :
  DecoderInv d → 0 <= max_payload_size_ d →
  DrainFrames d = (fs, status, d') → Failed d' = false →
  Z.of_nat (BufferedBytes d') < kFrameHeaderSize + max_payload_size_ d ∧
  size_of (buffer_ d') < 2 * (kFrameHeaderSize + max_payload_size_ d) + 4096.
Proof.
  intros Hd Hm E Hf. pose proof (DrainFrames_refines d Hd) as Hr. rewrite E in Hr.
  destruct Hr as [[Ho _ _ Hw] Hr]. unfold Failed in Hf.
  destruct (drain_all_leftover _ _ _ Hr) as [_ Hb]; [done|by unfold stream_of; simpl; rewrite Hf|].
  change kFrameHeaderSize with 8. rewrite BufferedBytes_unread.
  simpl in Hb. unfold unread, size_of in *. rewrite !length_drop in *. lia.
Qed.

(** A decoder that met an oversized payload or an unknown message id delivers
    no further frame: whatever is appended, every later [Next] reports
    [kDecoderFailed] and leaves the caller's frame and the decoder as they are,
    until [Reset]. *)
Theorem decoder_failure_is_final d f0 status f d1 bs d2 :
  DecoderInv d → Next d f0 = (status, f, d1) →
  status ≠ kFrameReady → status ≠ kNeedMoreData →
  Append d1 bs = Returns d2 →
  Failed d2 = true ∧ f = f0 ∧ (∀ g, Next d2 g = (kDecoderFailed, g, d2)) ∧
  (FailureStatus d2 = kPayloadTooLarge ∨ FailureStatus d2 = kUnknownMessageId) ∧
  Failed (Reset_ d2) = false.
Proof.
  intros Hd E Hr Hn Ha. rewrite Append_returns in Ha. injection Ha as <-.
  pose proof (Next_refines d f0 Hd) as HN. rewrite E in HN. destruct HN as [Hd1 _].
  assert (failed_ d1 = true ∧ f = f0) as [Hf ->].
  { revert E. unfold Next, Fail_. repeat case_match; intros; simplify_eq; done. }
  unfold Failed, FailureStatus, Next; simpl. rewrite Hf.
  repeat split. by apply Hd1.
Qed.

(** What the encoder returns: for every message type, the frame's wire form
    when the payload fits both the configured and the 32-bit limit, and a
    [length_error] otherwise; the wire form of a returned frame is exactly the
    eight header bytes and the payload. *)
Theorem encode_frame_outcome t p max :
  EncodeFrame t p max =
    (if (size_of p <=? max) && (size_of p <=? UINT32_MAX)
     then Returns (frame_wire {| message_id := message_id_of t; payload := p |})
     else Throws (length_error "payload exceeds configured maximum")) ∧
  size_of (frame_wire {| message_id := message_id_of t; payload := p |})
    = kFrameHeaderSize + size_of p.
Proof.
  split; [|apply size_frame_wire].
  destruct ((size_of p <=? max) && (size_of p <=? UINT32_MAX)) eqn:E.
  - apply EncodeFrame_Returns. split; [bool_lia|]. split; [bool_lia|done].
  - unfold EncodeFrame. assert (IsKnownMessageId (message_id_of t) = true) as -> by (by destruct t).
    simpl negb. cbv iota. rewrite (proj2 (orb_true_iff _ _)); [done|]. bool_lia.
Qed.

(** ** Witnesses *)

Definition chat_hi : Frame := {| message_id := 2; payload := [x68; x69] |}.
Definition heartbeat : Frame := {| message_id := 4; payload := [] |}.
Definition wire_chat_heartbeat : list byte :=
  [x00; x00; x00; x02; x00; x00; x00; x02; x68; x69; x00; x00; x00; x00; x00; x00; x00; x04].

Definition fresh_decoder : FrameDecoder :=
  {| max_payload_size_ := kDefaultMaxPayloadSize; buffer_ := []; read_offset_ := 0;
     failure_status_ := kNeedMoreData; failed_ := false |}.

Lemma fresh_decoder_inv : DecoderInv fresh_decoder.
Proof. by apply (new_decoder_inv kDefaultMaxPayloadSize). Qed.

Definition decoder_with (bs : list byte) : FrameDecoder :=
  {| max_payload_size_ := kDefaultMaxPayloadSize; buffer_ := bs; read_offset_ := 0;
     failure_status_ := kNeedMoreData; failed_ := false |}.

Lemma decoder_with_inv bs : DecoderInv (decoder_with bs).
Proof. split; simpl; [lia|done|done|lia]. Qed.

Lemma encodable_samples : Forall (encodable kDefaultMaxPayloadSize) [chat_hi; heartbeat].
Proof. by repeat constructor. Qed.

Lemma decode_encode_stream_witness :
  ∃ d', feed fresh_decoder [take 3 wire_chat_heartbeat; drop 3 wire_chat_heartbeat]
        = Returns ([chat_hi; heartbeat], d')
        ∧ BufferedBytes d' = 0%nat ∧ Failed d' = false.
Proof.
  apply (decode_encode_stream kDefaultMaxPayloadSize _ [(kChatRequest, [x68; x69]); (kHeartbeat, [])]
    [take 10 wire_chat_heartbeat; drop 10 wire_chat_heartbeat]).
  - reflexivity.
  - repeat constructor.
  - vm_compute. reflexivity.
Defined.

Lemma segmentation_independence_witness :
  ∃ fs d1 d2,
    feed fresh_decoder [take 9 wire_chat_heartbeat; drop 9 wire_chat_heartbeat] = Returns (fs, d1) ∧
    feed fresh_decoder [wire_chat_heartbeat] = Returns (fs, d2) ∧ stream_of d1 = stream_of d2.
Proof.
  apply segmentation_independence.
  - apply fresh_decoder_inv.
  - discriminate.
  - discriminate.
  - vm_compute. reflexivity.
Defined.

Lemma decoder_refines_stream_witness :
  stream_next (stream_of (decoder_with wire_chat_heartbeat)) empty_frame
  = (kFrameReady, chat_hi, {| limit := kDefaultMaxPayloadSize;
                              pending := drop 10 wire_chat_heartbeat; failure := None |}).
Proof.
  pose proof (decoder_refines_stream (decoder_with wire_chat_heartbeat) (decoder_with_inv _))
    as (_ & HN & _).
  specialize (HN empty_frame). vm_compute in HN. vm_compute. apply HN.
Defined.

Lemma decoding_loop_terminates_witness :
  drain_fuel 100 (decoder_with wire_chat_heartbeat) = DrainFrames (decoder_with wire_chat_heartbeat).
Proof.
  refine (proj1 (decoding_loop_terminates (decoder_with wire_chat_heartbeat) 100 _ _)).
  - apply decoder_with_inv.
  - vm_compute. lia.
Defined.

Lemma receive_buffer_bounded_witness :
  size_of (buffer_ (snd (DrainFrames (decoder_with (wire_chat_heartbeat ++ [x00])))))
  < 2 * (8 + 1024 * 1024) + 4096.
Proof.
  refine (proj2 (receive_buffer_bounded (decoder_with (wire_chat_heartbeat ++ [x00]))
           [chat_hi; heartbeat] kNeedMoreData _ _ _ _ _)).
  - apply decoder_with_inv.
  - done.
  - vm_compute. reflexivity.
  - vm_compute. reflexivity.
Defined.

Definition oversized : list byte := [xff; xff; xff; xff; x00; x00; x00; x02].

Lemma decoder_failure_is_final_witness :
  let d := decoder_with oversized in
  let d1 := snd (Next d empty_frame) in
  ∃ d2, Append d1 wire_chat_heartbeat = Returns d2 ∧
    ∀ g, Next d2 g = (kDecoderFailed, g, d2).
Proof.
  intros d d1. eexists. split; [reflexivity|].
  refine (proj1 (proj2 (proj2 (decoder_failure_is_final d empty_frame kPayloadTooLarge
            empty_frame d1 wire_chat_heartbeat _ _ _ _ _ _)))).
  - apply decoder_with_inv.
  - reflexivity.
  - done.
  - done.
  - reflexivity.
Defined.
