(* ===== verification/AoiWorld.v ===== *)
(** * The grid AOI (area of interest) world

    [src/game/aoi_world.cpp] and [include/mmo/game/aoi_world.h]: players on a
    grid of cells; a player sees the players of its cell and of the eight cells
    around it.

    [grids_] is a list indexed by cell; [std::unordered_map] and
    [std::set]/[std::unordered_set] are stdpp's finite maps and sets. Positions
    are binary64 values, so that the cell computation is the source's rounding
    arithmetic. *)

From S2P Require Import Prelude Double.

Abbreviation PlayerId := Z (only parsing).

Record Position := mkPosition { pos_x : double; pos_y : double }.

#[export] Instance Position_eq_dec : EqDecision Position.
Proof. solve_decision. Defined.

Record AoiConfig := mkAoiConfig {
  min_x : double; max_x : double;
  min_y : double; max_y : double;
  columns : Z; rows : Z
}.

Record ViewDelta := mkViewDelta {
  entered : gset Z;
  left_ : gset Z;
  stayed : gset Z
}.

Record PlayerState := mkPlayerState { position : Position; grid_index : Z }.

Record AoiWorld := mkAoiWorld {
  config_ : AoiConfig;
  cell_width_ : double;
  cell_height_ : double;
  grids_ : list (gset Z);
  players_ : gmap Z PlayerState
}.

Definition set_grids (w : AoiWorld) (g : list (gset Z)) : AoiWorld :=
  {| config_ := config_ w; cell_width_ := cell_width_ w; cell_height_ := cell_height_ w;
     grids_ := g; players_ := players_ w |}.

Definition set_players (w : AoiWorld) (p : gmap Z PlayerState) : AoiWorld :=
  {| config_ := config_ w; cell_width_ := cell_width_ w; cell_height_ := cell_height_ w;
     grids_ := grids_ w; players_ := p |}.

(** [grids_[index].insert(id)] and [grids_[index].erase(id)]. The index of a
    vector is not checked; [grid_index_in_range] shows the ones used are in
    range. *)
Definition grid_insert (index id : Z) (g : list (gset Z)) : list (gset Z) :=
  alter (λ s, {[id]} ∪ s) (Z.to_nat index) g.
Definition grid_erase (index id : Z) (g : list (gset Z)) : list (gset Z) :=
  alter (λ s, s ∖ {[id]}) (Z.to_nat index) g.
Definition grid_at (index : Z) (g : list (gset Z)) : gset Z :=
  default ∅ (g !! Z.to_nat index).

(** The constructor. *)
Definition AoiWorld_new (config : AoiConfig) : Outcome AoiWorld :=
  if negb (dlt (min_x config) (max_x config))
     || negb (dlt (min_y config) (max_y config))
     || (columns config =? 0) || (rows config =? 0) then
    Throws (invalid_argument "invalid AOI world configuration")
  else
    Returns {| config_ := config;
               cell_width_ := ddiv (dsub (max_x config) (min_x config)) (double_of (columns config));
               cell_height_ := ddiv (dsub (max_y config) (min_y config)) (double_of (rows config));
               grids_ := replicate (Z.to_nat (u64 (columns config * rows config))) ∅;
               players_ := ∅ |}.

Definition Contains (w : AoiWorld) (player_id : Z) : bool :=
  bool_decide (is_Some (players_ w !! player_id)).

Definition PlayerCount (w : AoiWorld) : nat := size (players_ w).

Section operations.
Context `{Platform}.

Definition GridIndexFor (w : AoiWorld) (p : Position) : option Z :=
  let c := config_ w in
  if dlt (pos_x p) (min_x c) || dge (pos_x p) (max_x c)
     || dlt (pos_y p) (min_y c) || dge (pos_y p) (max_y c) then None
  else
    let column := to_size_t (ddiv (dsub (pos_x p) (min_x c)) (cell_width_ w)) in
    let row := to_size_t (ddiv (dsub (pos_y p) (min_y c)) (cell_height_ w)) in
    if (columns c <=? column) || (rows c <=? row) then None
    else Some (u64 (u64 (row * columns c) + column)).

Definition NeighborGridIndices (w : AoiWorld) (grid_index : Z) : list Z :=
  let c := config_ w in
  let center_row := grid_index / columns c in
  let center_column := grid_index mod columns c in
  row_offset ← [-1; 0; 1];
  let row := s64 (s64 center_row + row_offset) in
  if (row <? 0) || (s64 (rows c) <=? row) then []
  else
    column_offset ← [-1; 0; 1];
    let column := s64 (s64 center_column + column_offset) in
    if (column <? 0) || (s64 (columns c) <=? column) then []
    else [u64 (u64 (u64 row * columns c) + u64 column)].

Definition VisiblePlayersAt (w : AoiWorld) (p : Position) : gset Z :=
  match GridIndexFor w p with
  | None => ∅
  | Some grid_index =>
      foldl (λ visible neighbor, visible ∪ grid_at neighbor (grids_ w)) ∅
        (NeighborGridIndices w grid_index)
  end.

Definition VisiblePlayers (w : AoiWorld) (player_id : Z) : option (gset Z) :=
  match players_ w !! player_id with
  | None => None
  | Some player => Some (VisiblePlayersAt w (position player) ∖ {[player_id]})
  end.

Definition AddPlayer (w : AoiWorld) (player_id : Z) (p : Position) : bool * AoiWorld :=
  if Contains w player_id then (false, w)
  else
    match GridIndexFor w p with
    | None => (false, w)
    | Some grid_index =>
        let w := set_players w (<[player_id := {| position := p; grid_index := grid_index |}]> (players_ w)) in
        (true, set_grids w (grid_insert grid_index player_id (grids_ w)))
    end.

Definition RemovePlayer (w : AoiWorld) (player_id : Z) : bool * AoiWorld :=
  match players_ w !! player_id with
  | None => (false, w)
  | Some player =>
      let w := set_grids w (grid_erase (grid_index player) player_id (grids_ w)) in
      (true, set_players w (delete player_id (players_ w)))
  end.

Definition MovePlayer (w : AoiWorld) (player_id : Z) (new_position : Position)
    : Outcome (option ViewDelta * AoiWorld) :=
  match players_ w !! player_id, GridIndexFor w new_position with
  | Some player, Some new_grid_index =>
      old_visible ← optional_value (VisiblePlayers w player_id);
      let old_grid_index := grid_index player in
      let w :=
        if negb (old_grid_index =? new_grid_index) then
          let w := set_grids w (grid_erase old_grid_index player_id (grids_ w)) in
          set_grids w (grid_insert new_grid_index player_id (grids_ w))
        else w in
      let w := set_players w
        (<[player_id := {| position := new_position; grid_index := new_grid_index |}]> (players_ w)) in
      new_visible ← optional_value (VisiblePlayers w player_id);
      Returns (Some {| entered := new_visible ∖ old_visible;
                       left_ := old_visible ∖ new_visible;
                       stayed := old_visible ∩ new_visible |}, w)
  | _, _ => Returns (None, w)
  end.
End operations.

(** The default configuration of [GameConfig]. *)
Definition default_aoi : AoiConfig :=
  {| min_x := dzero; max_x := double_of 1000; min_y := dzero; max_y := double_of 2000;
     columns := 10; rows := 20 |}.

(** A call sequence on a world. *)
Inductive AoiOp :=
| OpAdd (id : Z) (p : Position)
| OpRemove (id : Z)
| OpMove (id : Z) (p : Position).

Definition run_op `{Platform} (w : AoiWorld) (op : AoiOp) : Outcome AoiWorld :=
  match op with
  | OpAdd id p => Returns (AddPlayer w id p).2
  | OpRemove id => Returns (RemovePlayer w id).2
  | OpMove id p => '(_, w) ← MovePlayer w id p; Returns w
  end.

Definition run_ops `{Platform} (w : AoiWorld) (ops : list AoiOp) : Outcome AoiWorld :=
  foldl (λ o op, w ← o; run_op w op) (Returns w) ops.

(** ** Specification *)

(** Two cells are neighbors when their rows and columns differ by at most one. *)
Definition adjacent (c : AoiConfig) (i j : Z) : Prop :=
  Z.abs (i / columns c - j / columns c) <= 1 ∧
  Z.abs (i mod columns c - j mod columns c) <= 1.

#[export] Instance adjacent_dec c i j : Decision (adjacent c i j).
Proof. unfold adjacent. apply _. Defined.

(** The players of a world and their cells, all the rest forgotten. *)
Definition cell_of (w : AoiWorld) (p : Z) : option Z := grid_index <$> players_ w !! p.

(** [q] is in the view of [p]. *)
Definition sees (w : AoiWorld) (p q : Z) : Prop :=
  p ≠ q ∧ ∃ i j, cell_of w p = Some i ∧ cell_of w q = Some j ∧ adjacent (config_ w) i j.

(** A configuration whose indices the 64-bit arithmetic holds. *)
Record ConfigOk (c : AoiConfig) : Prop := {
  ok_columns : 0 < columns c;
  ok_rows : 0 < rows c;
  ok_cells : columns c * rows c < 2 ^ 63
}.

(** The world invariant: a player is in exactly the cell its position maps to,
    and the cells hold no one else. *)
Record AoiInv `{Platform} (w : AoiWorld) : Prop := {
  inv_config : ConfigOk (config_ w);
  inv_cells : size_of (grids_ w) = columns (config_ w) * rows (config_ w);
  inv_index : ∀ p st, players_ w !! p = Some st →
    GridIndexFor w (position st) = Some (grid_index st);
  inv_grid : ∀ i p, 0 <= i < columns (config_ w) * rows (config_ w) →
    p ∈ grid_at i (grids_ w) ↔ cell_of w p = Some i
}.

(** ** Facts *)

Section facts.
Context `{Platform}.
Implicit Types w : AoiWorld.

Lemma cell_index_bounds c row col :
  ConfigOk c → 0 <= row < rows c → 0 <= col < columns c →
  0 <= row * columns c + col < columns c * rows c.
Proof. intros [Hc Hr Hs] Hrow Hcol. nia. Qed.

Lemma cell_index_div c row col :
  0 <= col < columns c →
  (row * columns c + col) / columns c = row ∧ (row * columns c + col) mod columns c = col.
Proof.
  intros Hcol. rewrite Z.add_comm. split.
  - rewrite Z.div_add, Z.div_small by lia. lia.
  - rewrite Z_mod_plus_full. by apply Z.mod_small.
Qed.

Lemma ConfigOk_small c : ConfigOk c → columns c < 2 ^ 63 ∧ rows c < 2 ^ 63.
Proof. intros [Hc Hr Hs]. nia. Qed.

(** A cell index as the code computes it, with no 64-bit wrap-around. *)
Lemma cell_index_u64 c row col :
  ConfigOk c → 0 <= row < rows c → 0 <= col < columns c →
  u64 (u64 (row * columns c) + col) = row * columns c + col.
Proof.
  intros Hok Hrow Hcol. pose proof (cell_index_bounds c row col Hok Hrow Hcol) as Hb.
  pose proof (ok_cells c Hok) as Hs.
  rewrite (u64_small (row * columns c)) by (unfold is_u64; nia).
  apply u64_small. unfold is_u64. lia.
Qed.

Lemma GridIndexFor_bounds w p i :
  ConfigOk (config_ w) → GridIndexFor w p = Some i →
  0 <= i < columns (config_ w) * rows (config_ w).
Proof.
  intros Hok. unfold GridIndexFor. case_match; [done|].
  destruct ((_ <=? _) || (_ <=? _)) eqn:E; [done|]. intros [= <-].
  apply orb_false_iff in E as [E1 E2]. apply Z.leb_gt in E1, E2.
  set (col := to_size_t _) in *. set (row := to_size_t (ddiv (dsub (pos_y p) _) _)) in *.
  assert (0 <= col) by apply to_size_t_range. assert (0 <= row) by apply to_size_t_range.
  rewrite cell_index_u64 by done. by apply cell_index_bounds.
Qed.

Lemma elem_of_offset (x : Z) : x ∈ [-1; 0; 1] ↔ -1 <= x <= 1.
Proof. rewrite !elem_of_cons, elem_of_nil. lia. Qed.

(** The neighbor loops enumerate exactly the adjacent cells of the grid. *)
Lemma elem_of_NeighborGridIndices w i j :
  ConfigOk (config_ w) → 0 <= i < columns (config_ w) * rows (config_ w) →
  j ∈ NeighborGridIndices w i ↔
  0 <= j < columns (config_ w) * rows (config_ w) ∧ adjacent (config_ w) i j.
Proof.
  intros Hok Hi. destruct (ConfigOk_small _ Hok) as [Hc63 Hr63].
  pose proof Hok as [Hc Hr Hs]. unfold NeighborGridIndices, adjacent.
  set (c := config_ w) in *. set (C := columns c) in *. set (R := rows c) in *.
  assert (0 <= i / C < R) as Hrow.
  { split; [apply Z.div_pos; lia|apply Z.div_lt_upper_bound; nia]. }
  assert (0 <= i mod C < C) as Hcol by (by apply Z.mod_pos_bound).
  rewrite list_elem_of_bind. split.
  - intros (dr & Hj & Hdr%elem_of_offset).
    rewrite !s64_small in Hj by (rewrite ?s64_small; lia).
    destruct ((_ <? _) || _) eqn:E1 in Hj; [by apply elem_of_nil in Hj|].
    apply list_elem_of_bind in Hj as (dc & Hj & Hdc%elem_of_offset).
    rewrite !s64_small in Hj by (rewrite ?s64_small; lia).
    destruct ((_ <? _) || _) eqn:E2 in Hj; [by apply elem_of_nil in Hj|].
    apply list_elem_of_singleton in Hj.
    assert (0 <= i / C + dr < R) by bool_lia. assert (0 <= i mod C + dc < C) by bool_lia.
    rewrite (u64_small (i / C + dr)), (u64_small (i mod C + dc)) in Hj by (unfold is_u64; lia).
    unfold C in Hj. rewrite cell_index_u64 in Hj by done. subst j.
    destruct (cell_index_div c (i / C + dr) (i mod C + dc)) as [E3 E4]; [done|].
    fold C in E3, E4 |- *. rewrite E3, E4.
    split; [by apply cell_index_bounds|lia].
  - intros (Hj & Hdr & Hdc).
    assert (0 <= j / C < R) as Hrow'.
    { split; [apply Z.div_pos; lia|apply Z.div_lt_upper_bound; nia]. }
    assert (0 <= j mod C < C) as Hcol' by (by apply Z.mod_pos_bound).
    exists (j / C - i / C). split; [|apply elem_of_offset; lia].
    rewrite !s64_small by (rewrite ?s64_small; lia).
    rewrite (proj2 (orb_false_iff _ _)) by lia.
    apply list_elem_of_bind. exists (j mod C - i mod C). split; [|apply elem_of_offset; lia].
    rewrite !s64_small by (rewrite ?s64_small; lia).
    rewrite (proj2 (orb_false_iff _ _)) by lia.
    apply list_elem_of_singleton.
    replace (i / C + (j / C - i / C)) with (j / C) by lia.
    replace (i mod C + (j mod C - i mod C)) with (j mod C) by lia.
    rewrite (u64_small (j / C)), (u64_small (j mod C)) by (unfold is_u64; lia).
    unfold C. rewrite cell_index_u64 by done. fold C.
    pose proof (Z.div_mod j C). lia.
Qed.

Lemma elem_of_foldl_union (f : Z → gset Z) l acc x :
  x ∈ foldl (λ v n, v ∪ f n) acc l ↔ x ∈ acc ∨ ∃ n, n ∈ l ∧ x ∈ f n.
Proof.
  revert acc. induction l as [|n l IH]; intros acc; simpl; [set_solver|].
  rewrite IH. set_solver.
Qed.

Lemma grid_at_alter f k i (g : list (gset Z)) :
  0 <= k < size_of g → 0 <= i →
  grid_at i (alter f (Z.to_nat k) g) = if decide (i = k) then f (grid_at i g) else grid_at i g.
Proof.
  intros Hk Hi. unfold grid_at, size_of in *. case_decide as E.
  - subst i. rewrite list_lookup_alter_eq.
    destruct (g !! Z.to_nat k) eqn:Hg; [done|]. apply lookup_ge_None in Hg. lia.
  - by rewrite list_lookup_alter_ne by lia.
Qed.

Lemma elem_of_grid_insert k i p q g :
  0 <= k < size_of g → 0 <= i →
  q ∈ grid_at i (grid_insert k p g) ↔ (q = p ∧ i = k) ∨ q ∈ grid_at i g.
Proof.
  intros Hk Hi. unfold grid_insert. rewrite grid_at_alter by done.
  case_decide; set_solver.
Qed.

Lemma elem_of_grid_erase k i p q g :
  0 <= k < size_of g → 0 <= i →
  q ∈ grid_at i (grid_erase k p g) ↔ q ∈ grid_at i g ∧ ¬ (q = p ∧ i = k).
Proof.
  intros Hk Hi. unfold grid_erase. rewrite grid_at_alter by done.
  case_decide; set_solver.
Qed.

Lemma size_grid_insert k p g : size_of (grid_insert k p g) = size_of g.
Proof. unfold size_of, grid_insert. by rewrite length_alter. Qed.
Lemma size_grid_erase k p g : size_of (grid_erase k p g) = size_of g.
Proof. unfold size_of, grid_erase. by rewrite length_alter. Qed.

Lemma cell_of_bounds w p i :
  AoiInv w → cell_of w p = Some i → 0 <= i < columns (config_ w) * rows (config_ w).
Proof.
  intros Hw Hp. unfold cell_of in Hp. destruct (players_ w !! p) as [st|] eqn:E; [|done].
  injection Hp as <-. eapply GridIndexFor_bounds; [apply Hw|]. by eapply inv_index.
Qed.

(** The view computed from the grid is the set of players in adjacent cells. *)
Lemma elem_of_VisiblePlayersAt w st p q :
  AoiInv w → players_ w !! p = Some st →
  q ∈ VisiblePlayersAt w (position st) ↔
  ∃ j, cell_of w q = Some j ∧ adjacent (config_ w) (grid_index st) j.
Proof.
  intros Hw Hp. pose proof (inv_index w Hw p st Hp) as Hi.
  pose proof (GridIndexFor_bounds _ _ _ (inv_config w Hw) Hi) as Hb.
  unfold VisiblePlayersAt. rewrite Hi, elem_of_foldl_union. split.
  - intros [?|(j & Hj & Hq)]; [set_solver|].
    apply elem_of_NeighborGridIndices in Hj as [Hj Ha]; [|apply Hw|done].
    apply (inv_grid w Hw) in Hq; [|done]. by exists j.
  - intros (j & Hq & Ha). pose proof (cell_of_bounds w q j Hw Hq) as Hj.
    right. exists j. rewrite elem_of_NeighborGridIndices by (apply Hw || done).
    rewrite (inv_grid w Hw) by done. done.
Qed.

Lemma VisiblePlayers_Some w p :
  AoiInv w → is_Some (players_ w !! p) →
  ∃ s, VisiblePlayers w p = Some s ∧ ∀ q, q ∈ s ↔ sees w p q.
Proof.
  intros Hw [st Hp]. unfold VisiblePlayers. rewrite Hp. eexists. split; [done|].
  intros q. rewrite elem_of_difference, elem_of_singleton, (elem_of_VisiblePlayersAt w st p) by done.
  unfold sees, cell_of at 2. rewrite Hp. simpl. naive_solver.
Qed.

Lemma adjacent_sym c i j : adjacent c i j ↔ adjacent c j i.
Proof. unfold adjacent. lia. Qed.

Lemma sees_sym w p q : sees w p q ↔ sees w q p.
Proof.
  unfold sees. split; intros (Hne & i & j & Hi & Hj & Ha);
    (split; [done|]; exists j, i; rewrite adjacent_sym; done).
Qed.

(** *** The operations *)

Lemma AddPlayer_true w p pos w' :
  AddPlayer w p pos = (true, w') ↔
  players_ w !! p = None ∧ ∃ i, GridIndexFor w pos = Some i ∧
    w' = set_grids (set_players w (<[p := {| position := pos; grid_index := i |}]> (players_ w)))
           (grid_insert i p (grids_ w)).
Proof.
  unfold AddPlayer, Contains. case_bool_decide as Hc.
  - split; [done|]. intros [Hp _]. rewrite Hp in Hc. by destruct Hc.
  - apply eq_None_not_Some in Hc. destruct (GridIndexFor w pos) as [i|]; [|naive_solver].
    split; [intros [= <-]; eauto|]. intros (_ & i' & [= <-] & ->). done.
Qed.

Lemma AddPlayer_false w p pos w' :
  AddPlayer w p pos = (false, w') ↔
  w' = w ∧ (is_Some (players_ w !! p) ∨ GridIndexFor w pos = None).
Proof.
  unfold AddPlayer, Contains. case_bool_decide as Hc; [naive_solver|].
  destruct (GridIndexFor w pos) as [i|] eqn:E; split; [done| |naive_solver|naive_solver].
  intros [_ [?|?]]; done.
Qed.

Lemma AddPlayer_inv w p pos : AoiInv w → AoiInv (AddPlayer w p pos).2.
Proof.
  intros Hw. destruct (AddPlayer w p pos) as [[] w'] eqn:E; simpl.
  2: { by apply AddPlayer_false in E as [-> _]. }
  apply AddPlayer_true in E as (Hp & i & Hi & ->).
  pose proof (GridIndexFor_bounds _ _ _ (inv_config w Hw) Hi) as Hb.
  split; simpl; [apply Hw|rewrite size_grid_insert; apply Hw| |].
  - intros q st. rewrite lookup_insert_Some. intros [[<- <-]|[_ Hq]]; [done|].
    by eapply (inv_index w Hw).
  - intros j q Hj. rewrite elem_of_grid_insert by (rewrite ?(inv_cells w Hw); lia).
    rewrite (inv_grid w Hw) by done. unfold cell_of; simpl.
    destruct (decide (p = q)) as [<-|Hne].
    + rewrite lookup_insert_eq, Hp. simpl. naive_solver.
    + rewrite lookup_insert_ne by done. naive_solver.
Qed.

Lemma RemovePlayer_inv w p : AoiInv w → AoiInv (RemovePlayer w p).2.
Proof.
  intros Hw. unfold RemovePlayer. destruct (players_ w !! p) as [st|] eqn:Hp; [|done].
  assert (cell_of w p = Some (grid_index st)) as Hcell by (unfold cell_of; by rewrite Hp).
  pose proof (cell_of_bounds w p _ Hw Hcell) as Hb.
  split; simpl; [apply Hw|rewrite size_grid_erase; apply Hw| |].
  - intros q st' [_ Hq]%lookup_delete_Some. by eapply (inv_index w Hw).
  - intros j q Hj. rewrite elem_of_grid_erase by (rewrite ?(inv_cells w Hw); lia).
    rewrite (inv_grid w Hw) by done. unfold cell_of; simpl.
    destruct (decide (p = q)) as [<-|Hne].
    + rewrite lookup_delete_eq, Hp. simpl. naive_solver.
    + rewrite lookup_delete_ne by done. naive_solver.
Qed.

(** The world a successful move leaves. *)
Definition moved (w : AoiWorld) (p : Z) (st : PlayerState) (pos : Position) (i : Z) : AoiWorld :=
  set_players
    (if negb (grid_index st =? i)
     then set_grids w (grid_insert i p (grid_erase (grid_index st) p (grids_ w))) else w)
    (<[p := {| position := pos; grid_index := i |}]> (players_ w)).

Lemma moved_fields w p st pos i :
  config_ (moved w p st pos i) = config_ w ∧
  players_ (moved w p st pos i) = <[p := {| position := pos; grid_index := i |}]> (players_ w).
Proof. unfold moved. by destruct (negb _). Qed.

Lemma moved_inv w p st pos i :
  AoiInv w → players_ w !! p = Some st → GridIndexFor w pos = Some i →
  AoiInv (moved w p st pos i).
Proof.
  intros Hw Hp Hi. pose proof (GridIndexFor_bounds _ _ _ (inv_config w Hw) Hi) as Hb.
  assert (cell_of w p = Some (grid_index st)) as Hcell by (unfold cell_of; by rewrite Hp).
  pose proof (cell_of_bounds w p _ Hw Hcell) as Hb'.
  assert (∀ q st', <[p := {| position := pos; grid_index := i |}]> (players_ w) !! q = Some st' →
            GridIndexFor w (position st') = Some (grid_index st')) as Hidx.
  { intros q st'. rewrite lookup_insert_Some. intros [[<- <-]|[_ Hq]]; [done|].
    by eapply (inv_index w Hw). }
  unfold moved. destruct (grid_index st =? i) eqn:E; simpl negb; cbv iota.
  - apply Z.eqb_eq in E. split; [apply Hw|apply Hw|exact Hidx|].
    intros j q Hj. cbn [grids_ set_players]. rewrite (inv_grid w Hw) by done.
    unfold cell_of; cbn [players_ set_players]. destruct (decide (p = q)) as [<-|Hne].
    + rewrite lookup_insert_eq, Hp. simpl. by rewrite E.
    + by rewrite lookup_insert_ne.
  - apply Z.eqb_neq in E. split; [apply Hw| |exact Hidx|].
    + cbn [grids_ set_players set_grids]. rewrite size_grid_insert, size_grid_erase. apply Hw.
    + intros j q Hj. cbn [grids_ set_players set_grids config_] in *.
      rewrite elem_of_grid_insert by (rewrite ?size_grid_erase, ?(inv_cells w Hw); lia).
      rewrite elem_of_grid_erase by (rewrite ?(inv_cells w Hw); lia).
      rewrite (inv_grid w Hw) by done.
      unfold cell_of; cbn [players_ set_players set_grids].
      destruct (decide (p = q)) as [<-|Hne].
      * rewrite lookup_insert_eq, Hp. simpl. naive_solver.
      * rewrite lookup_insert_ne by done. naive_solver.
Qed.

(** [MovePlayer] never reaches [std::bad_optional_access]. *)
Lemma MovePlayer_result w p pos :
  AoiInv w →
  MovePlayer w p pos =
  match players_ w !! p, GridIndexFor w pos with
  | Some st, Some i =>
      let old_visible := default ∅ (VisiblePlayers w p) in
      let new_visible := default ∅ (VisiblePlayers (moved w p st pos i) p) in
      Returns (Some {| entered := new_visible ∖ old_visible;
                       left_ := old_visible ∖ new_visible;
                       stayed := old_visible ∩ new_visible |}, moved w p st pos i)
  | _, _ => Returns (None, w)
  end.
Proof.
  intros Hw. unfold MovePlayer. destruct (players_ w !! p) as [st|] eqn:Hp; [|done].
  destruct (GridIndexFor w pos) as [i|] eqn:Hi; [|done].
  destruct (VisiblePlayers_Some w p Hw (mk_is_Some _ _ Hp)) as (old & Hold & _).
  pose proof (moved_inv w p st pos i Hw Hp Hi) as Hw'.
  destruct (VisiblePlayers_Some (moved w p st pos i) p Hw') as (new & Hnew & _).
  { rewrite (proj2 (moved_fields w p st pos i)), lookup_insert_eq. by eexists. }
  rewrite Hold, Hnew. simpl optional_value. cbn [mbind Outcome_bind].
  unfold moved in *. destruct (grid_index st =? i); cbn [negb] in *;
    cbn [grids_ set_grids players_ set_players] in *;
    try change (set_grids (set_grids w ?a) ?b) with (set_grids w b); by rewrite Hnew.
Qed.

Lemma MovePlayer_inv w p pos d w' :
  AoiInv w → MovePlayer w p pos = Returns (d, w') → AoiInv w'.
Proof.
  intros Hw. rewrite MovePlayer_result by done.
  destruct (players_ w !! p) as [st|] eqn:Hp; [|naive_solver].
  destruct (GridIndexFor w pos) as [i|] eqn:Hi; [|naive_solver].
  intros [= _ <-]. by apply moved_inv.
Qed.

Lemma AoiWorld_new_inv c w :
  ConfigOk c → AoiWorld_new c = Returns w → AoiInv w ∧ players_ w = ∅.
Proof.
  intros Hok. unfold AoiWorld_new. case_match; [done|]. intros [= <-].
  pose proof Hok as [Hc Hr Hs]. split; [|done].
  split; simpl; [done| |naive_solver|].
  - unfold size_of. rewrite length_replicate, u64_small by (unfold is_u64; nia). nia.
  - intros i p Hi. unfold grid_at, cell_of; simpl.
    rewrite u64_small by (unfold is_u64; nia).
    rewrite lookup_replicate_2 by lia. rewrite lookup_empty. simpl. set_solver.
Qed.
End facts.

Section sequences.
Context `{Platform}.

Lemma run_op_inv w op : AoiInv w → ∃ w', run_op w op = Returns w' ∧ AoiInv w'.
Proof.
  intros Hw. destruct op as [id p|id|id p]; simpl.
  - eexists. split; [done|]. by apply AddPlayer_inv.
  - eexists. split; [done|]. by apply RemovePlayer_inv.
  - destruct (MovePlayer w id p) as [[d w']|e] eqn:E.
    + exists w'. split; [done|]. by eapply MovePlayer_inv.
    + rewrite MovePlayer_result in E by done. by repeat case_match.
Qed.

Lemma run_ops_inv w ops : AoiInv w → ∃ w', run_ops w ops = Returns w' ∧ AoiInv w'.
Proof.
  unfold run_ops. revert w. induction ops as [|op ops IH]; intros w Hw; [by exists w|].
  cbn [foldl]. destruct (run_op_inv w op Hw) as (w' & E & Hw').
  change (Returns w ≫= _) with (run_op w op). rewrite E. by apply IH.
Qed.

Lemma grid_erase_insert k p (g : list (gset Z)) :
  p ∉ grid_at k g → grid_erase k p (grid_insert k p g) = g.
Proof.
  intros Hp. unfold grid_erase, grid_insert, grid_at in *. apply list_eq. intros i.
  destruct (decide (i = Z.to_nat k)) as [->|Hne].
  - rewrite !list_lookup_alter_eq. destruct (g !! Z.to_nat k) as [s|]; [|done].
    simpl in *. f_equal. set_solver.
  - by rewrite !list_lookup_alter_ne.
Qed.
End sequences.

(** ** Properties *)

(** C22: Every sequence of [AddPlayer], [RemovePlayer] and [MovePlayer] calls on a
    freshly constructed world runs without an exception and keeps the world
    invariant: each player is in exactly the grid cell its position maps to and
    the cells hold nobody else. *)
Theorem aoi_world_invariant `{Platform} c w ops :
  ConfigOk c → AoiWorld_new c = Returns w →
  ∃ w', run_ops w ops = Returns w' ∧ AoiInv w'.
Proof. intros Hc Hw. apply run_ops_inv. by eapply AoiWorld_new_inv. Qed.

(** [VisiblePlayers] returns exactly the other players whose cell is the
    player's cell or one of the eight around it, nothing for an unknown player,
    and visibility is symmetric. *)
Theorem visible_players_spec `{Platform} w p :
  AoiInv w →
  (VisiblePlayers w p = None ↔ Contains w p = false) ∧
  (∀ s, VisiblePlayers w p = Some s →
     p ∉ s ∧
     (∀ q, q ∈ s ↔ q ≠ p ∧ ∃ i j, cell_of w p = Some i ∧ cell_of w q = Some j ∧
                                 adjacent (config_ w) i j) ∧
     (∀ q s', VisiblePlayers w q = Some s' → q ∈ s ↔ p ∈ s')).
Proof.
  intros Hw. split.
  { unfold VisiblePlayers, Contains. rewrite bool_decide_eq_false.
    rewrite <- eq_None_not_Some. by destruct (players_ w !! p). }
  intros s Hs.
  assert (∀ p s, VisiblePlayers w p = Some s → ∀ q, q ∈ s ↔ sees w p q) as Hspec.
  { intros p' s1 Hs1.
    assert (is_Some (players_ w !! p')) as Hp'.
    { revert Hs1. unfold VisiblePlayers. by destruct (players_ w !! p'). }
    destruct (VisiblePlayers_Some w p' Hw Hp') as (s2 & Hs2 & Hv). rewrite Hs2 in Hs1. injection Hs1 as <-. exact Hv. }
  split; [|split].
  - rewrite (Hspec p s Hs). by intros [? _].
  - intros q. rewrite (Hspec p s Hs). unfold sees. naive_solver.
  - intros q s' Hs'. rewrite (Hspec p s Hs), (Hspec q s' Hs'). apply sees_sym.
Qed.

(** C27: [MovePlayer] refuses an unknown player or a position with no cell and then
    changes nothing; otherwise it moves that player alone and reports who
    entered, left and stayed in its view as the differences of the views before
    and after, the same players whose own view the mover entered or left. *)
Theorem move_player_delta `{Platform} w p pos :
  AoiInv w →
  ∃ r w', MovePlayer w p pos = Returns (r, w') ∧
  match players_ w !! p, GridIndexFor w pos with
  | Some _, Some i =>
      players_ w' = <[p := {| position := pos; grid_index := i |}]> (players_ w) ∧
      ∃ d, r = Some d ∧ ∀ q,
        (q ∈ entered d ↔ sees w' p q ∧ ¬ sees w p q) ∧
        (q ∈ left_ d ↔ sees w p q ∧ ¬ sees w' p q) ∧
        (q ∈ stayed d ↔ sees w p q ∧ sees w' p q) ∧
        (q ∈ entered d ↔ sees w' q p ∧ ¬ sees w q p) ∧
        (q ∈ left_ d ↔ sees w q p ∧ ¬ sees w' q p)
  | _, _ => r = None ∧ w' = w
  end.
Proof.
  intros Hw. rewrite MovePlayer_result by done.
  destruct (players_ w !! p) as [st|] eqn:Hp; [|by eexists _, _].
  destruct (GridIndexFor w pos) as [i|] eqn:Hi; [|by eexists _, _].
  eexists _, _. split; [done|]. split; [apply moved_fields|].
  destruct (VisiblePlayers_Some w p Hw (mk_is_Some _ _ Hp)) as (old & -> & Hold).
  destruct (VisiblePlayers_Some (moved w p st pos i) p) as (new & -> & Hnew).
  { by apply moved_inv. }
  { rewrite (proj2 (moved_fields w p st pos i)), lookup_insert_eq. by eexists. }
  eexists. split; [done|]. intros q. simpl.
  rewrite !elem_of_difference, elem_of_intersection, !Hold, !Hnew.
  rewrite (sees_sym w q p), (sees_sym (moved w p st pos i) q p). tauto.
Qed.

(** Cell arithmetic is in range on 64-bit integers: the cell of an accepted
    position and every cell the neighbor loops visit are indices of [grids_],
    the visited cells being exactly the adjacent ones. *)
Theorem grid_index_in_range `{Platform} w p i :
  AoiInv w → GridIndexFor w p = Some i →
  0 <= i < size_of (grids_ w) ∧
  ∀ j, j ∈ NeighborGridIndices w i ↔
       0 <= j < size_of (grids_ w) ∧ adjacent (config_ w) i j.
Proof.
  intros Hw Hi. rewrite (inv_cells w Hw).
  pose proof (GridIndexFor_bounds _ _ _ (inv_config w Hw) Hi) as Hb.
  split; [done|]. intros j. apply elem_of_NeighborGridIndices; [apply Hw|done].
Qed.

(** [AddPlayer] accepts a player exactly when it is new and its position has a
    cell, leaves the world unchanged when it refuses, and [RemovePlayer] of the
    player it added restores the world exactly. *)
Theorem add_remove_roundtrip `{Platform} w p pos b w' :
  AoiInv w → AddPlayer w p pos = (b, w') →
  (b = true ↔ Contains w p = false ∧ is_Some (GridIndexFor w pos)) ∧
  (b = false → w' = w) ∧
  (b = true → RemovePlayer w' p = (true, w)).
Proof.
  intros Hw E. unfold Contains. rewrite bool_decide_eq_false, <- eq_None_not_Some.
  destruct b.
  - apply AddPlayer_true in E as (Hp & i & Hi & ->). split; [by rewrite Hi; naive_solver|].
    split; [done|]. intros _. unfold RemovePlayer. cbn [players_ set_players set_grids].
    rewrite lookup_insert_eq. f_equal. unfold set_grids, set_players; simpl.
    rewrite delete_insert_eq, delete_id by done. rewrite grid_erase_insert; [by destruct w|].
    rewrite (inv_grid w Hw); [unfold cell_of; by rewrite Hp|].
    eapply GridIndexFor_bounds; [apply Hw|done].
  - apply AddPlayer_false in E as [-> Hr]. split; [|done]. split; [done|].
    intros [Hn [? ?]]. destruct Hr as [[? ?]|?]; congruence.
Qed.

(** A NaN coordinate passes every bound check of [GridIndexFor], so what
    [MovePlayer] does with it is the undefined conversion of the target: on
    x86-64 the move is refused, on AArch64 the player is moved to a NaN position
    in the first column. *)
Theorem nan_position_depends_on_platform w p :
  AoiInv (H := aarch64) w → config_ w = default_aoi →
  cell_width_ w = double_of 100 → cell_height_ w = double_of 100 →
  Contains w p = true →
  let pos := {| pos_x := dnan; pos_y := double_of 150 |} in
  MovePlayer (H := x86_64) w p pos = Returns (None, w) ∧
  ∃ d w', MovePlayer (H := aarch64) w p pos = Returns (Some d, w') ∧
    players_ w' !! p = Some {| position := pos; grid_index := 10 |}.
Proof.
  intros Hw Hc Hcw Hch Hp pos.
  assert (is_Some (players_ w !! p)) as [st Hst] by (by apply bool_decide_eq_true in Hp).
  assert (GridIndexFor (H := x86_64) w pos = None) as Hx.
  { unfold GridIndexFor. rewrite Hc, Hcw, Hch. vm_compute. reflexivity. }
  assert (GridIndexFor (H := aarch64) w pos = Some 10) as Ha.
  { unfold GridIndexFor. rewrite Hc, Hcw, Hch. vm_compute. reflexivity. }
  split.
  - unfold MovePlayer. by rewrite Hst, Hx.
  - rewrite (MovePlayer_result (H := aarch64)) by done. rewrite Hst, Ha.
    eexists _, _. split; [done|]. by rewrite (proj2 (moved_fields _ _ _ _ _)), lookup_insert_eq.
Qed.

(** ** Witnesses *)

Definition at_ (x y : Z) : Position := {| pos_x := double_of x; pos_y := double_of y |}.

Definition default_world : AoiWorld :=
  {| config_ := default_aoi;
     cell_width_ := double_of 100; cell_height_ := double_of 100;
     grids_ := replicate 200 ∅; players_ := ∅ |}.

Lemma default_config_ok : ConfigOk default_aoi.
Proof. by split. Qed.

Lemma default_world_new : AoiWorld_new default_aoi = Returns default_world.
Proof. vm_compute. reflexivity. Qed.

Lemma default_world_inv `{Platform} : AoiInv default_world.
Proof. by eapply AoiWorld_new_inv; [apply default_config_ok|apply default_world_new]. Qed.

(** Players 1 and 2 in the middle of the default map. *)
Definition two_players `{Platform} : AoiWorld :=
  (AddPlayer (AddPlayer default_world 1 (at_ 500 1000)).2 2 (at_ 500 1000)).2.

Lemma two_players_inv `{Platform} : AoiInv two_players.
Proof. apply AddPlayer_inv, AddPlayer_inv, default_world_inv. Qed.

Lemma aoi_world_invariant_witness :
  ∃ w', run_ops (H := x86_64) default_world
          [OpAdd 1 (at_ 500 1000); OpAdd 2 (at_ 10 10); OpMove 1 (at_ 20 20); OpRemove 2]
        = Returns w' ∧ AoiInv (H := x86_64) w'.
Proof.
  apply (aoi_world_invariant (H := x86_64) default_aoi).
  - apply default_config_ok.
  - apply default_world_new.
Defined.

Lemma visible_players_spec_witness :
  ∃ s, VisiblePlayers (H := x86_64) (two_players (H := x86_64)) 1 = Some s ∧ 2 ∈ s ∧ 1 ∉ s.
Proof.
  destruct (visible_players_spec (H := x86_64) (two_players (H := x86_64)) 1) as [_ Hs].
  - apply two_players_inv.
  - exists {[2]}. assert (VisiblePlayers (H := x86_64) (two_players (H := x86_64)) 1 = Some {[2]}) as E
      by (vm_compute; reflexivity).
    split; [exact E|]. split; [by apply elem_of_singleton|]. exact (proj1 (Hs _ E)).
Defined.

Lemma move_player_delta_witness :
  ∃ r w', MovePlayer (H := x86_64) (two_players (H := x86_64)) 1 (at_ 10 10) = Returns (r, w') ∧
    ∃ d, r = Some d ∧ (2 ∈ left_ d ↔ sees (two_players (H := x86_64)) 1 2 ∧ ¬ sees w' 1 2).
Proof.
  destruct (move_player_delta (H := x86_64) (two_players (H := x86_64)) 1 (at_ 10 10))
    as (r & w' & E & Hm).
  - apply two_players_inv.
  - exists r, w'. split; [exact E|].
    replace (players_ (two_players (H := x86_64)) !! 1)
      with (Some {| position := at_ 500 1000; grid_index := 105 |}) in Hm by (vm_compute; reflexivity).
    replace (GridIndexFor (H := x86_64) (two_players (H := x86_64)) (at_ 10 10))
      with (Some 0) in Hm by (vm_compute; reflexivity).
    destruct Hm as (_ & d & Hd & Hq). exists d. split; [exact Hd|]. apply Hq.
Defined.

Lemma grid_index_in_range_witness :
  GridIndexFor (H := x86_64) default_world (at_ 999 1999) = Some 199 ∧
  (188 ∈ NeighborGridIndices default_world 199 ↔
   0 <= 188 < 200 ∧ adjacent default_aoi 199 188).
Proof.
  split; [vm_compute; reflexivity|].
  refine (proj2 (grid_index_in_range (H := x86_64) default_world (at_ 999 1999) 199 _ _) 188).
  - apply default_world_inv.
  - vm_compute. reflexivity.
Defined.

Lemma add_remove_roundtrip_witness :
  RemovePlayer (AddPlayer (H := x86_64) default_world 7 (at_ 3 4)).2 7 = (true, default_world).
Proof.
  refine (proj2 (proj2 (add_remove_roundtrip (H := x86_64) default_world 7 (at_ 3 4) true _ _ _)) _).
  - apply default_world_inv.
  - vm_compute. reflexivity.
  - reflexivity.
Defined.

Lemma nan_position_depends_on_platform_witness :
  MovePlayer (H := x86_64) (two_players (H := aarch64)) 1
    {| pos_x := dnan; pos_y := double_of 150 |} = Returns (None, two_players (H := aarch64)).
Proof.
  refine (proj1 (nan_position_depends_on_platform (two_players (H := aarch64)) 1 _ _ _ _ _)).
  - apply two_players_inv.
  - vm_compute. reflexivity.
  - vm_compute. reflexivity.
  - vm_compute. reflexivity.
  - vm_compute. reflexivity.
Defined.
