(* ===== verification/GridCells.v ===== *)
(** * The cells of the default grid

    The cell [GridIndexFor] computes with rounded [double] arithmetic, against the cell
    of the exact position, for the configuration of [GameConfig] and of the benchmark:
    1000 by 2000, in cells of 100 by 100. *)

From Stdlib Require Import SpecFloat.
From S2P Require Import Prelude Double DoubleExact AoiWorld.

(** The cell of a position, computed exactly: no cell outside the map. *)
Definition exact_cell (p : Position) : option Z :=
  let x := units (pos_x p) in
  let y := units (pos_y p) in
  if (0 <=? x) && (x <? whole 1000) && (0 <=? y) && (y <? whole 2000) then
    Some (y / whole 100 * 10 + x / whole 100)
  else None.

(** A position with coordinates that are numbers. *)
Definition point (p : Position) : Prop :=
  is_double (pos_x p) ∧ is_double (pos_y p) ∧ finite (pos_x p) ∧ finite (pos_y p).

Definition default_geometry (w : AoiWorld) : Prop :=
  config_ w = default_aoi ∧ cell_width_ w = double_of 100 ∧ cell_height_ w = double_of 100.

Section cells.
Context `{Platform}.
Implicit Types (w : AoiWorld) (p : Position).

Lemma default_new w : AoiWorld_new default_aoi = Returns w → default_geometry w.
Proof. intros E. vm_compute in E. injection E as <-. split; [vm_compute; reflexivity|]. split; vm_compute; reflexivity. Qed.

Lemma add_geometry w id p : default_geometry w → default_geometry (AddPlayer w id p).2.
Proof. intros Hw. unfold AddPlayer. destruct (Contains w id); [done|]. destruct (GridIndexFor w p); exact Hw. Qed.

Lemma move_geometry w id p d w' : MovePlayer w id p = Returns (d, w') → default_geometry w → default_geometry w'.
Proof.
  unfold MovePlayer. destruct (players_ w !! id); [|by intros [= _ <-]]. destruct (GridIndexFor w p); [|by intros [= _ <-]].
  destruct (optional_value (VisiblePlayers w id)); [|done]. cbn [mbind Outcome_bind].
  destruct (optional_value (VisiblePlayers _ id)); [|done]. intros [= _ <-] Hw.
  destruct (negb _); exact Hw.
Qed.

Lemma run_op_geometry w op w' : run_op w op = Returns w' → default_geometry w → default_geometry w'.
Proof.
  destruct op as [id p|id|id p]; cbn [run_op].
  - intros [= <-]. apply add_geometry.
  - intros [= <-] Hw. unfold RemovePlayer. destruct (players_ w !! id); exact Hw.
  - destruct (MovePlayer w id p) as [[d w1]|e] eqn:E; [|done]. intros [= <-]. by eapply move_geometry.
Qed.

Lemma run_ops_geometry ops w w' : run_ops w ops = Returns w' → default_geometry w → default_geometry w'.
Proof.
  unfold run_ops. revert w. induction ops as [|op ops IH]; intros w; cbn [foldl]; [by intros [= <-]|].
  change (Returns w ≫= _) with (run_op w op). destruct (run_op w op) as [w1|e] eqn:E.
  - intros Hr Hw. eapply IH; [done|]. by eapply run_op_geometry.
  - intros Hr. exfalso. clear -Hr. induction ops as [|op ops IH]; [done|]. by apply IH.
Qed.

(** One axis. *)
Lemma dsub_zero x : is_double x → finite x → is_double (dsub x dzero) ∧ finite (dsub x dzero) ∧ units (dsub x dzero) = units x.
Proof. by destruct x as [[]| | |s m e]. Qed.

Lemma axis_exact x :
  is_double x → finite x → 0 <= units x < whole 2000 →
  to_size_t (ddiv (dsub x dzero) (double_of 100)) = units x / whole 100.
Proof.
  intros Hd Hf Hx. destruct (dsub_zero x Hd Hf) as (Hd' & Hf' & Hu). unfold to_size_t, size_t_value.
  rewrite div_hundred_trunc, Hu; [|done|done|].
  2: { rewrite Hu. split; [lia|]. unfold whole, unit_exponent in *. lia. }
  assert (0 <= units x / whole 100 < 2 ^ 64) as Hr.
  { split; [apply Z.div_pos; [lia|done]|]. apply Z.div_lt_upper_bound; [done|]. unfold whole, unit_exponent in *. lia. }
  by rewrite (proj2 (Z.leb_le _ _)), (proj2 (Z.ltb_lt _ _)) by lia.
Qed.

Lemma axis_bound x n : 0 <= units x < whole (100 * n) → 0 <= units x / whole 100 < n.
Proof.
  intros Hx. split; [apply Z.div_pos; [lia|done]|]. apply Z.div_lt_upper_bound; [done|]. unfold whole, unit_exponent in *. lia.
Qed.

Lemma literal_units : units dzero = 0 ∧ units (double_of 1000) = whole 1000 ∧ units (double_of 2000) = whole 2000 ∧
  finite dzero ∧ finite (double_of 1000) ∧ finite (double_of 2000).
Proof. split; [done|]. split; [vm_compute; reflexivity|]. split; [vm_compute; reflexivity|]. by vm_compute. Qed.

Lemma GridIndexFor_exact w p : default_geometry w → point p → GridIndexFor w p = exact_cell p.
Proof.
  intros (Hc & Hw & Hh) (Dx & Dy & Fx & Fy). unfold GridIndexFor, exact_cell. rewrite Hc, Hw, Hh.
  cbn [min_x max_x min_y max_y columns rows default_aoi].
  destruct literal_units as (U0 & U1 & U2 & F0 & F1 & F2).
  rewrite !dlt_units, !dge_units, U0, U1, U2 by (done || apply double_of_valid).
  assert (∀ a b, (a <? b) = negb (b <=? a)) as Hneg by (intros a b; apply Z.ltb_antisym).
  destruct (0 <=? units (pos_x p)) eqn:E1; rewrite (Hneg (units (pos_x p)) 0), E1; cbn [negb andb orb]; [|done].
  destruct (whole 1000 <=? units (pos_x p)) eqn:E2; rewrite (Hneg (units (pos_x p)) (whole 1000)), E2; cbn [negb andb orb]; [done|].
  destruct (0 <=? units (pos_y p)) eqn:E3; rewrite (Hneg (units (pos_y p)) 0), E3; cbn [negb andb orb]; [|done].
  destruct (whole 2000 <=? units (pos_y p)) eqn:E4; rewrite (Hneg (units (pos_y p)) (whole 2000)), E4; cbn [negb andb orb]; [done|].
  apply Z.leb_le in E1, E3. apply Z.leb_gt in E2, E4.
  assert (whole 1000 <= whole 2000) as Hle by done.
  rewrite (axis_exact (pos_x p)), (axis_exact (pos_y p)) by (done || lia).
  pose proof (axis_bound (pos_x p) 10 ltac:(split; [lia|exact E2])) as B1.
  pose proof (axis_bound (pos_y p) 20 ltac:(split; [lia|exact E4])) as B2.
  rewrite (proj2 (Z.leb_gt _ _)), (proj2 (Z.leb_gt _ _)) by lia. cbn [orb]. f_equal.
  rewrite (u64_small (units (pos_y p) / whole 100 * 10)) by (unfold is_u64; lia).
  by rewrite u64_small by (unfold is_u64; lia).
Qed.

Lemma point_inside p : point p → is_Some (exact_cell p) ↔
  (0 <= units (pos_x p) < whole 1000 ∧ 0 <= units (pos_y p) < whole 2000).
Proof.
  intros _. unfold exact_cell. destruct (_ && _) eqn:E.
  - split; [intros _|by eexists]. bool_lia.
  - split; [by intros [? [=]]|]. intros Hin. exfalso. apply not_true_iff_false in E. apply E.
    rewrite !andb_true_iff. repeat split; (apply Z.leb_le || apply Z.ltb_lt); lia.
Qed.

Lemma infinite_no_cell w p : default_geometry w →
  (∃ s, pos_x p = S754_infinity s ∨ pos_y p = S754_infinity s) → GridIndexFor w p = None.
Proof.
  intros (Hc & _) [s [E|E]]; unfold GridIndexFor; rewrite Hc, E; cbn [min_x max_x min_y max_y default_aoi]; destruct s; try done.
  - by rewrite !orb_true_r.
  - cbn [dlt dge SFltb SFleb SFcompare]. change (dge (S754_infinity false) (double_of 2000)) with true. by rewrite !orb_true_r.
Qed.
End cells.

(** ** Properties *)

(** C13: Rounding never moves a player across a border. On the map of the game, in every
    state of the world, on every machine, the cell of a position, computed by a rounded
    division, is the cell of the exact position: its row and column are the whole
    hundreds of its coordinates. So a position has a cell exactly when it is in the map,
    the last [double] before an edge included, and an infinite coordinate has none. *)
Theorem cells_are_exact `{Platform} w0 ops w p :
  AoiWorld_new default_aoi = Returns w0 → run_ops w0 ops = Returns w →
  (point p → GridIndexFor w p = exact_cell p ∧
     (is_Some (GridIndexFor w p) ↔
        (0 <= units (pos_x p) < whole 1000 ∧ 0 <= units (pos_y p) < whole 2000))) ∧
  ((∃ s, pos_x p = S754_infinity s ∨ pos_y p = S754_infinity s) → GridIndexFor w p = None).
Proof.
  intros E0 E. assert (default_geometry w) as Hw by (eapply run_ops_geometry; [done|by apply default_new]).
  split; [|by apply infinite_no_cell]. intros Hp. rewrite GridIndexFor_exact by done. split; [done|]. by apply point_inside.
Qed.

(** ** Witnesses *)

(** The last [double] before 1000, and the last before 300. *)
Definition before_1000 : double := S754_finite false 8796093022207999 (-43).
Definition before_300 : double := S754_finite false 5277655813324799 (-44).

Lemma cells_are_exact_witness :
  GridIndexFor (H := x86_64) default_world {| pos_x := before_1000; pos_y := before_300 |} = Some 29.
Proof.
  destruct (cells_are_exact (H := x86_64) default_world [] default_world {| pos_x := before_1000; pos_y := before_300 |}) as [Hp _].
  - reflexivity.
  - reflexivity.
  - destruct Hp as [E _]; [by vm_compute|]. exact (eq_trans E eq_refl).
Defined.
