(* ===== verification/DataTypes.v ===== *)
(** * Data records, results and the storage interfaces

    [include/mmo/data/data_result.h], [player_record.h], [player_repository.h]
    and [session_store.h]: the results the storage layer returns and, as type
    classes, the two abstract storage classes with the laws their clients rely
    on. Implementations: [MemoryStores], [MySqlRepository], [RedisStore]. *)

From S2P Require Import Prelude Double.

(** ** Results *)

Inductive DataStatus := kOk | kNotFound | kInvalidArgument | kUnavailable.

#[export] Instance DataStatus_eq_dec : EqDecision DataStatus.
Proof. solve_decision. Defined.

Record OperationResult := mkOperationResult { op_status : DataStatus; op_error : string }.

#[export] Instance OperationResult_eq_dec : EqDecision OperationResult.
Proof. solve_decision. Defined.

Definition op_Ok (r : OperationResult) : bool := bool_decide (op_status r = kOk).
Definition op_Success : OperationResult := {| op_status := kOk; op_error := EmptyString |}.
Definition op_Failure (status : DataStatus) (error : string) : OperationResult :=
  {| op_status := status; op_error := error |}.

Record DataResult (T : Type) := mkDataResult {
  status : DataStatus;
  value : option T;
  error : string
}.
Arguments mkDataResult {T}.
Arguments status {T}.
Arguments value {T}.
Arguments error {T}.

Definition result_Ok {T} (r : DataResult T) : bool :=
  bool_decide (status r = kOk) && bool_decide (is_Some (value r)).
Definition result_Success {T} (v : T) : DataResult T :=
  {| status := kOk; value := Some v; error := EmptyString |}.
Definition result_NotFound {T} : DataResult T :=
  {| status := kNotFound; value := None; error := EmptyString |}.
Definition result_Failure {T} (s : DataStatus) (e : string) : DataResult T :=
  {| status := s; value := None; error := e |}.

(** ** Records *)

Record PlayerRecord := mkPlayerRecord {
  player_id : Z;
  account : string;
  nickname : string;
  position_x : double;
  position_y : double;
  position_z : double;
  last_login_unix : Z
}.

#[export] Instance PlayerRecord_eq_dec : EqDecision PlayerRecord.
Proof. solve_decision. Defined.

(** [PlayerRecord::operator==], with the comparison of [double]. *)
Definition PlayerRecord_eqb (a b : PlayerRecord) : bool :=
  (player_id a =? player_id b) && bool_decide (account a = account b)
  && bool_decide (nickname a = nickname b)
  && deq (position_x a) (position_x b) && deq (position_y a) (position_y b)
  && deq (position_z a) (position_z b)
  && (last_login_unix a =? last_login_unix b).

Record SessionRecord := mkSessionRecord { session_player_id : Z; token : string }.

#[export] Instance SessionRecord_eq_dec : EqDecision SessionRecord.
Proof. solve_decision. Defined.

Definition SessionRecord_eqb (a b : SessionRecord) : bool :=
  (session_player_id a =? session_player_id b) && bool_decide (token a = token b).

(** [std::string::empty] and [std::string::size]. *)
Definition str_empty (s : string) : bool := bool_decide (s = EmptyString).
Definition str_size (s : string) : Z := Z.of_nat (String.length s).

(** ** Interfaces *)

(** [class PlayerRepository]: the implementing object's state is explicit. *)
Class PlayerRepository (R : Type) := {
  LoadByAccount : R → string → DataResult PlayerRecord * R;
  Save : R → PlayerRecord → OperationResult * R;
  DeleteByAccount : R → string → OperationResult * R
}.

(** What its clients rely on, over the records the store holds by account. *)
Class PlayerRepositoryLaws (R : Type) `{PlayerRepository R} := {
  stored : R → string → option PlayerRecord;
  load_found r a : result_Ok (LoadByAccount r a).1 = true →
    value (LoadByAccount r a).1 = stored r a;
  load_missing r a : status (LoadByAccount r a).1 = kNotFound → stored r a = None;
  load_pure r a b : stored (LoadByAccount r a).2 b = stored r b;
  save_ok r p : op_Ok (Save r p).1 = true →
    ∀ a, stored (Save r p).2 a = if decide (a = account p) then Some p else stored r a;
  save_failed r p : op_Ok (Save r p).1 = false → ∀ a, stored (Save r p).2 a = stored r a;
  delete_ok r a : op_Ok (DeleteByAccount r a).1 = true →
    ∀ b, stored (DeleteByAccount r a).2 b = if decide (b = a) then None else stored r b
}.

(** [class SessionStore]; [now] is the clock the implementation reads. *)
Class SessionStore (R : Type) := {
  Store : R → Z → SessionRecord → Z → OperationResult * R;
  Load : R → Z → Z → DataResult SessionRecord * R;
  Remove : R → Z → Z → OperationResult * R
}.

(** Its contract, over the session live at an instant: a load reports it, and a
    load never revives or drops a session, whatever the instant it is asked at. *)
Class SessionStoreLaws (R : Type) `{SessionStore R} := {
  live : R → Z → Z → option SessionRecord;
  session_load_found r now p : result_Ok (Load r now p).1 = true →
    value (Load r now p).1 = live r now p;
  session_load_missing r now p : status (Load r now p).1 = kNotFound → live r now p = None;
  session_load_pure r now p q later : now <= later →
    live (Load r now p).2 later q = live r later q;
  session_store_ok r now s ttl : op_Ok (Store r now s ttl).1 = true →
    0 <= now → now + ttl * 1000000000 < 2 ^ 63 →
    live (Store r now s ttl).2 now (session_player_id s) = Some s;
  session_remove_ok r now p later : op_Ok (Remove r now p).1 = true →
    live (Remove r now p).2 later p = None
}.

(** ** Facts *)

Lemma op_Ok_spec r : op_Ok r = true ↔ op_status r = kOk.
Proof. apply bool_decide_eq_true. Qed.

Lemma result_Ok_spec {T} (r : DataResult T) :
  result_Ok r = true ↔ status r = kOk ∧ is_Some (value r).
Proof. unfold result_Ok. by rewrite andb_true_iff, !bool_decide_eq_true. Qed.

Lemma result_Ok_value {T} (r : DataResult T) :
  result_Ok r = true → ∃ v, value r = Some v.
Proof. by intros [_ [v Hv]]%result_Ok_spec; exists v. Qed.

#[export] Hint Resolve op_Ok_spec : mmo.
