(* ===== verification/MemoryStores.v ===== *)
(** * The in-memory stores

    [src/data/memory_stores.cpp] and [include/mmo/data/memory_stores.h]: the
    player repository and the session store of the [--memory] mode. Every
    operation holds the store's mutex for its whole body, so that operations
    are atomic and each is a function of the store. [now] is
    [std::chrono::steady_clock::now()] in nanoseconds. *)

From S2P Require Import Prelude Double DataTypes.

(** ** MemoryPlayerRepository *)

Record MemoryPlayerRepository := mkMemoryPlayerRepository {
  players : gmap string PlayerRecord
}.

Definition memory_LoadByAccount (r : MemoryPlayerRepository) (account : string)
    : DataResult PlayerRecord * MemoryPlayerRepository :=
  match players r !! account with
  | None => (result_NotFound, r)
  | Some player => (result_Success player, r)
  end.

Definition memory_Save (r : MemoryPlayerRepository) (player : PlayerRecord)
    : OperationResult * MemoryPlayerRepository :=
  if (player_id player =? 0) || str_empty (account player) || str_empty (nickname player) then
    (op_Failure kInvalidArgument "invalid player record", r)
  else
    (op_Success, {| players := <[account player := player]> (players r) |}).

Definition memory_DeleteByAccount (r : MemoryPlayerRepository) (account : string)
    : OperationResult * MemoryPlayerRepository :=
  (op_Success, {| players := delete account (players r) |}).

#[export] Instance memory_player_repository : PlayerRepository MemoryPlayerRepository := {
  LoadByAccount := memory_LoadByAccount;
  Save := memory_Save;
  DeleteByAccount := memory_DeleteByAccount
}.

(** ** MemorySessionStore *)

Record Entry := mkEntry { session : SessionRecord; expires_at : Z }.

Record MemorySessionStore := mkMemorySessionStore { sessions : gmap Z Entry }.

(** [std::chrono::seconds] added to a time point in nanoseconds. *)
Definition add_seconds (now ttl : Z) : Z := s64 (now + s64 (ttl * 1000000000)).

Definition memory_Store (r : MemorySessionStore) (now : Z) (s : SessionRecord) (ttl : Z)
    : OperationResult * MemorySessionStore :=
  if (session_player_id s =? 0) || str_empty (token s) || (ttl <=? 0) then
    (op_Failure kInvalidArgument "invalid session", r)
  else
    (op_Success,
     {| sessions := <[session_player_id s := {| session := s; expires_at := add_seconds now ttl |}]>
                      (sessions r) |}).

Definition memory_Load (r : MemorySessionStore) (now : Z) (player_id : Z)
    : DataResult SessionRecord * MemorySessionStore :=
  match sessions r !! player_id with
  | None => (result_NotFound, r)
  | Some e =>
      if expires_at e <=? now then
        (result_NotFound, {| sessions := delete player_id (sessions r) |})
      else (result_Success (session e), r)
  end.

Definition memory_Remove (r : MemorySessionStore) (now : Z) (player_id : Z)
    : OperationResult * MemorySessionStore :=
  (op_Success, {| sessions := delete player_id (sessions r) |}).

#[export] Instance memory_session_store : SessionStore MemorySessionStore := {
  Store := memory_Store;
  Load := memory_Load;
  Remove := memory_Remove
}.

(** ** Specification *)

Definition valid_player (p : PlayerRecord) : Prop :=
  player_id p ≠ 0 ∧ account p ≠ EmptyString ∧ nickname p ≠ EmptyString.

Definition valid_session (s : SessionRecord) (ttl : Z) : Prop :=
  session_player_id s ≠ 0 ∧ token s ≠ EmptyString ∧ 0 < ttl.

(** The session of [p] that has not expired at [now]. *)
Definition live_session (r : MemorySessionStore) (now p : Z) : option SessionRecord :=
  match sessions r !! p with
  | Some e => if expires_at e <=? now then None else Some (session e)
  | None => None
  end.

(** Each player is stored under its own account. *)
Definition keyed_by_account (r : MemoryPlayerRepository) : Prop :=
  ∀ a p, players r !! a = Some p → account p = a ∧ valid_player p.

(** ** Facts *)

Lemma memory_Save_valid r p :
  valid_player p → memory_Save r p = (op_Success, {| players := <[account p := p]> (players r) |}).
Proof.
  intros (Hid & Ha & Hn). unfold memory_Save, str_empty.
  by rewrite (proj2 (Z.eqb_neq _ _)), !bool_decide_eq_false_2.
Qed.

Lemma memory_Save_invalid r p :
  ¬ valid_player p → memory_Save r p = (op_Failure kInvalidArgument "invalid player record", r).
Proof.
  intros Hv. unfold memory_Save, str_empty. case_match eqn:E; [done|].
  apply orb_false_iff in E as [[E1 E2]%orb_false_iff E3].
  apply bool_decide_eq_false_1 in E2, E3. destruct Hv. by split; [lia|].
Qed.

Lemma valid_player_dec p : valid_player p ∨ ¬ valid_player p.
Proof.
  unfold valid_player.
  destruct (decide (player_id p = 0)), (decide (account p = EmptyString)),
    (decide (nickname p = EmptyString)); tauto.
Qed.

Lemma memory_Save_keyed r p : keyed_by_account r → keyed_by_account (memory_Save r p).2.
Proof.
  intros Hr. destruct (valid_player_dec p) as [Hv|Hv].
  - rewrite memory_Save_valid by done. intros a q. simpl.
    rewrite lookup_insert_Some. intros [[<- <-]|[_ Hq]]; [done|by apply Hr].
  - by rewrite memory_Save_invalid.
Qed.

Lemma memory_Store_valid r now s ttl :
  valid_session s ttl →
  memory_Store r now s ttl =
  (op_Success,
   {| sessions := <[session_player_id s := {| session := s; expires_at := add_seconds now ttl |}]>
                    (sessions r) |}).
Proof.
  intros (Hid & Ht & Httl). unfold memory_Store, str_empty.
  rewrite (proj2 (Z.eqb_neq _ _)) by done. rewrite bool_decide_eq_false_2 by done.
  by rewrite (proj2 (Z.leb_gt _ _)).
Qed.

Lemma memory_Store_ok r now s ttl :
  op_Ok (memory_Store r now s ttl).1 = true → valid_session s ttl.
Proof.
  unfold memory_Store, str_empty, valid_session. case_match eqn:E; [done|]. intros _.
  apply orb_false_iff in E as [[E1 E2]%orb_false_iff E3].
  apply bool_decide_eq_false_1 in E2. split; [lia|]. split; [done|lia].
Qed.

(** Loading drops an expired entry, which changes no later observation. *)
Lemma memory_Load_live r now p later q :
  now <= later → live_session (memory_Load r now p).2 later q = live_session r later q.
Proof.
  intros Hl. unfold memory_Load. destruct (sessions r !! p) as [e|] eqn:E; [|done].
  destruct (expires_at e <=? now) eqn:Ee; [|done]. unfold live_session; simpl.
  destruct (decide (p = q)) as [<-|Hne].
  - rewrite lookup_delete_eq, E. by rewrite (proj2 (Z.leb_le _ _)) by bool_lia.
  - by rewrite lookup_delete_ne.
Qed.

Lemma add_seconds_small now ttl :
  0 <= now → 0 <= ttl → now + ttl * 1000000000 < 2 ^ 63 →
  add_seconds now ttl = now + ttl * 1000000000.
Proof. intros. unfold add_seconds. by rewrite !s64_small by (rewrite ?s64_small; lia). Qed.

(** ** The interfaces *)

#[export] Instance memory_player_repository_laws : PlayerRepositoryLaws MemoryPlayerRepository.
Proof.
  refine {| stored r a := players r !! a |}; simpl.
  - intros r a. unfold memory_LoadByAccount. by destruct (players r !! a).
  - intros r a. unfold memory_LoadByAccount. by destruct (players r !! a).
  - intros r a b. unfold memory_LoadByAccount. by destruct (players r !! a).
  - intros r p Hok a. destruct (valid_player_dec p) as [Hv|Hv].
    + rewrite memory_Save_valid by done. simpl. case_decide as E.
      * by rewrite E, lookup_insert_eq.
      * by rewrite lookup_insert_ne.
    + by rewrite memory_Save_invalid in Hok.
  - intros r p Hf a. destruct (valid_player_dec p) as [Hv|Hv].
    + by rewrite memory_Save_valid in Hf.
    + by rewrite memory_Save_invalid.
  - intros r a _ b. case_decide as E.
    + by rewrite E, lookup_delete_eq.
    + by rewrite lookup_delete_ne.
Defined.

#[export] Instance memory_session_store_laws : SessionStoreLaws MemorySessionStore.
Proof.
  refine {| live := live_session |}; simpl.
  - intros r now p. unfold memory_Load, live_session. by repeat case_match.
  - intros r now p. unfold memory_Load, live_session. by repeat case_match.
  - intros r now p q later. apply memory_Load_live.
  - intros r now s ttl Hok Hn Hr. apply memory_Store_ok in Hok as Hv.
    rewrite memory_Store_valid by done. unfold live_session; simpl.
    rewrite lookup_insert_eq. destruct Hv as (_ & _ & Httl).
    rewrite add_seconds_small by lia. by rewrite (proj2 (Z.leb_gt _ _)) by (simpl; lia).
  - intros r now p later _. unfold live_session; simpl. by rewrite lookup_delete_eq.
Defined.

(** ** Properties *)

(** The in-memory player repository stores valid records under their account
    and nothing else: a save is refused with [kInvalidArgument] and no effect
    exactly when the id is zero or the account or nickname is empty, otherwise the
    next load of the account returns that record and other accounts are
    untouched; a delete makes the account [kNotFound]. *)
Theorem memory_repository_roundtrip r p a :
  (op_Ok (memory_Save r p).1 = true ↔ valid_player p) ∧
  (valid_player p →
     (memory_LoadByAccount (memory_Save r p).2 (account p)).1 = result_Success p ∧
     (a ≠ account p → (memory_LoadByAccount (memory_Save r p).2 a).1
                      = (memory_LoadByAccount r a).1)) ∧
  (¬ valid_player p →
     memory_Save r p = (op_Failure kInvalidArgument "invalid player record", r)) ∧
  (memory_LoadByAccount (memory_DeleteByAccount r a).2 a).1 = result_NotFound ∧
  (keyed_by_account r → keyed_by_account (memory_Save r p).2).
Proof.
  split; [|split; [|split; [|split]]].
  - destruct (valid_player_dec p) as [Hv|Hv].
    + by rewrite memory_Save_valid.
    + by rewrite memory_Save_invalid.
  - intros Hv. rewrite memory_Save_valid by done. unfold memory_LoadByAccount; simpl.
    split; [by rewrite lookup_insert_eq|]. intros Ha. rewrite lookup_insert_ne by done.
    by destruct (players r !! a).
  - apply memory_Save_invalid.
  - unfold memory_LoadByAccount; simpl. by rewrite lookup_delete_eq.
  - apply memory_Save_keyed.
Qed.

(** A session stored with a TTL is returned by every load strictly before
    [now + ttl] and by none from that instant on; the expired entry is erased by
    the load that finds it, which changes no later answer. *)
Theorem memory_session_ttl r now s ttl t :
  valid_session s ttl → 0 <= now → now + ttl * 1000000000 < 2 ^ 63 →
  let r1 := (memory_Store r now s ttl).2 in
  let '(res, r2) := memory_Load r1 t (session_player_id s) in
  (t < now + ttl * 1000000000 → res = result_Success s ∧ r2 = r1) ∧
  (now + ttl * 1000000000 <= t →
     res = result_NotFound ∧ sessions r2 !! session_player_id s = None ∧
     ∀ later q, t <= later → live_session r2 later q = live_session r1 later q).
Proof.
  intros Hv Hn Hr. rewrite memory_Store_valid by done. destruct Hv as (_ & _ & Httl).
  set (r1 := {| sessions := _ |}). simpl snd. cbv zeta.
  pose proof (memory_Load_live r1 t (session_player_id s)) as Hlive.
  unfold memory_Load in *. simpl sessions in *. rewrite lookup_insert_eq in *. simpl expires_at in *.
  rewrite add_seconds_small in * by lia.
  destruct (now + ttl * 1000000000 <=? t) eqn:E.
  - split; [lia|]. intros _. split; [done|]. split; [simpl; by rewrite lookup_delete_eq|].
    intros later q Hl. by apply Hlive.
  - split; [done|lia].
Qed.

(** ** Witnesses *)

Definition alice : PlayerRecord :=
  {| player_id := 7; account := "alice"; nickname := "Nova-7";
     position_x := double_of 500; position_y := double_of 1000; position_z := dzero;
     last_login_unix := 0 |}.

Definition alice_session : SessionRecord := {| session_player_id := 7; token := "t" |}.

Lemma memory_session_ttl_witness :
  memory_Load (memory_Store {| sessions := ∅ |} 5 alice_session 300).2 300000000005 7
  = (result_NotFound, {| sessions := delete 7 (sessions (memory_Store {| sessions := ∅ |} 5 alice_session 300).2) |}).
Proof.
  pose proof (memory_session_ttl {| sessions := ∅ |} 5 alice_session 300 300000000005) as Ht.
  destruct Ht as [_ Ht].
  - by split.
  - lia.
  - lia.
  - destruct (Ht ltac:(simpl; lia)) as [_ _]. vm_compute. reflexivity.
Defined.
