(* ===== verification/MySqlApi.v ===== *)
(** * The MySQL client library

    The calls of [libmysqlclient] that [src/data/mysql_player_repository.cpp] makes,
    as a type class over the state of the library and the server, and what the
    manual documents of them ([MySqlLaws]): which handles are open, and what the
    three statements of the repository do to the table [players]. [SimMySql] is an
    instance for concrete runs, with calls that can be made to fail. *)

From S2P Require Import Prelude Double DataTypes.

Record MySqlConfig := mkMySqlConfig {
  mysql_host : string;
  mysql_port : Z;
  mysql_user : string;
  mysql_password : string;
  mysql_database : string;
  connect_timeout_seconds : Z
}.

(** The [MYSQL_BIND] of a parameter, with the value it points to. *)
Inductive SqlValue := SqlInt (z : Z) | SqlText (s : string) | SqlDouble (d : double).

(** The [MYSQL_BIND] of a result column. *)
Inductive OutBind := OutInt | OutText (buffer_length : Z) | OutDouble.

(** What a fetch leaves in the buffer of a column, and in its [length]. *)
Inductive Cell := CellInt (z : Z) | CellText (buffer : string) (length : Z) | CellDouble (d : double).

(** [mysql_stmt_fetch]: 0, [MYSQL_NO_DATA], [MYSQL_DATA_TRUNCATED] or another error. *)
Inductive FetchResult := Fetched (row : list Cell) | FetchNoData | FetchTruncated (row : list Cell) | FetchError.

(** A call returns whether it succeeded (the C result being 0, or not null). *)
Class MySql (Q : Type) := {
  mysql_library_init : Q → bool * Q;
  mysql_init : Q → option Z * Q;
  mysql_options_connect_timeout : Q → Z → Z → Q;
  mysql_real_connect : Q → Z → MySqlConfig → bool * Q;
  mysql_set_character_set : Q → Z → string → bool * Q;
  mysql_query : Q → Z → string → bool * Q;
  mysql_error : Q → Z → string;
  mysql_close : Z → Q → Q;
  mysql_stmt_init : Q → Z → option Z * Q;
  mysql_stmt_prepare : Q → Z → string → bool * Q;
  mysql_stmt_bind_param : Q → Z → list SqlValue → bool * Q;
  mysql_stmt_execute : Q → Z → bool * Q;
  mysql_stmt_bind_result : Q → Z → list OutBind → bool * Q;
  mysql_stmt_store_result : Q → Z → bool * Q;
  mysql_stmt_fetch : Q → Z → FetchResult * Q;
  mysql_stmt_error : Q → Z → string;
  mysql_stmt_close : Z → Q → Q
}.

(** ** The statements *)

Definition kCreateTable : string :=
  ("CREATE TABLE IF NOT EXISTS players (" +:+
   "player_id BIGINT UNSIGNED NOT NULL PRIMARY KEY," +:+
   "account VARCHAR(64) NOT NULL UNIQUE," +:+
   "nickname VARCHAR(64) NOT NULL," +:+
   "position_x DOUBLE NOT NULL," +:+
   "position_y DOUBLE NOT NULL," +:+
   "position_z DOUBLE NOT NULL," +:+
   "last_login_unix BIGINT NOT NULL" +:+
   ") ENGINE=InnoDB DEFAULT CHARSET=utf8mb4")%string.

Definition kSelect : string :=
  ("SELECT player_id, account, nickname, position_x, position_y, " +:+
   "position_z, last_login_unix FROM players WHERE account = ?")%string.

Definition kUpsert : string :=
  ("INSERT INTO players (player_id, account, nickname, position_x, " +:+
   "position_y, position_z, last_login_unix) VALUES (?, ?, ?, ?, ?, ?, ?) " +:+
   "ON DUPLICATE KEY UPDATE player_id=VALUES(player_id), " +:+
   "nickname=VALUES(nickname), position_x=VALUES(position_x), " +:+
   "position_y=VALUES(position_y), position_z=VALUES(position_z), " +:+
   "last_login_unix=VALUES(last_login_unix)")%string.

Definition kDelete : string := "DELETE FROM players WHERE account = ?"%string.

(** The record a parameter list of [kUpsert] describes. *)
Definition upsert_record (params : list SqlValue) : option PlayerRecord :=
  match params with
  | [SqlInt id; SqlText a; SqlText n; SqlDouble x; SqlDouble y; SqlDouble z; SqlInt l] =>
      Some {| player_id := id; account := a; nickname := n; position_x := x; position_y := y;
              position_z := z; last_login_unix := l |}
  | _ => None
  end.

Section table.
(** The collation: two texts are equal to the server when their keys are. *)
Context (collation : string → string).
Implicit Types rows : list PlayerRecord.

Definition same_account (a : string) (r : PlayerRecord) : bool :=
  bool_decide (collation (account r) = collation a).

Definition sql_select (a : string) rows : list PlayerRecord := filter (λ r, same_account a r = true) rows.
Definition sql_delete (a : string) rows : list PlayerRecord := filter (λ r, same_account a r = false) rows.

(** The update of [ON DUPLICATE KEY UPDATE]: everything but the account. *)
Definition overwrite (p r : PlayerRecord) : PlayerRecord :=
  {| player_id := player_id p; account := account r; nickname := nickname p;
     position_x := position_x p; position_y := position_y p; position_z := position_z p;
     last_login_unix := last_login_unix p |}.

Fixpoint update_first (P : PlayerRecord → bool) (f : PlayerRecord → PlayerRecord) rows
    : list PlayerRecord :=
  match rows with
  | [] => []
  | r :: rows => if P r then f r :: rows else r :: update_first P f rows
  end.

(** A duplicate of the primary key is found first, then one of the unique account (the
    manual does not say which when there are both; what is loaded back does not depend
    on it);
    one row is updated. *)
Definition sql_upsert (p : PlayerRecord) rows : list PlayerRecord :=
  if existsb (λ r, player_id r =? player_id p) rows then
    update_first (λ r, player_id r =? player_id p) (overwrite p) rows
  else if existsb (same_account (account p)) rows then
    update_first (same_account (account p)) (overwrite p) rows
  else rows ++ [p].

(** What a successful execution does to the table, and the rows it answers. *)
Definition sql_effect (sql : string) (params : list SqlValue) rows : list PlayerRecord :=
  if decide (sql = kUpsert) then
    match upsert_record params with Some p => sql_upsert p rows | None => rows end
  else if decide (sql = kDelete) then
    match params with [SqlText a] => sql_delete a rows | _ => rows end
  else rows.

Definition sql_answer (sql : string) (params : list SqlValue) rows : list PlayerRecord :=
  if decide (sql = kSelect) then
    match params with [SqlText a] => sql_select a rows | _ => [] end
  else [].

(** The keys of the table: the primary key and the unique account. *)
Definition table_ok rows : Prop :=
  NoDup (player_id <$> rows) ∧ NoDup ((collation ∘ account) <$> rows).

(** *** The keys *)

Lemma same_account_spec a r : same_account a r = true ↔ collation (account r) = collation a.
Proof. apply bool_decide_eq_true. Qed.

Lemma table_ok_key {B} (key : PlayerRecord → B) rows r1 r2 :
  NoDup (key <$> rows) → r1 ∈ rows → r2 ∈ rows → key r1 = key r2 → r1 = r2.
Proof.
  intros Hn [i1 H1]%list_elem_of_lookup [i2 H2]%list_elem_of_lookup E.
  assert (i1 = i2) as <-; [|congruence].
  apply (NoDup_lookup (key <$> rows) i1 i2 (key r1)); [done|by rewrite list_lookup_fmap, H1|].
  rewrite list_lookup_fmap, H2. cbn. by rewrite E.
Qed.

(** Updating the first row that matches is updating the rows that match, when at
    most one does. *)
Definition update_all (P : PlayerRecord → bool) (f : PlayerRecord → PlayerRecord) (r : PlayerRecord)
    : PlayerRecord := if P r then f r else r.

Lemma update_first_all {B} (key : PlayerRecord → B) P f rows :
  NoDup (key <$> rows) → (∀ r1 r2, P r1 = true → P r2 = true → key r1 = key r2) →
  update_first P f rows = update_all P f <$> rows.
Proof.
  intros Hn HP. induction rows as [|r rows IH]; [done|]. cbn. apply NoDup_cons in Hn as [Hr Hn].
  unfold update_all at 1. destruct (P r) eqn:E; [|by rewrite IH]. f_equal. symmetry.
  rewrite <- (list_fmap_id rows) at 2. apply list_fmap_ext. intros i r2 Hi. unfold update_all.
  destruct (P r2) eqn:E2; [|done]. exfalso. apply Hr. rewrite (HP r r2) by done. apply list_elem_of_fmap.
  exists r2. split; [done|]. by eapply list_elem_of_lookup_2.
Qed.

Lemma existsb_false P rows : existsb P rows = false → ∀ r, r ∈ rows → P r = false.
Proof.
  induction rows as [|r rows IH]; cbn; [set_solver|]. intros [E1 E2]%orb_false_iff r'.
  rewrite elem_of_cons. intros [->|]; [done|by apply IH].
Qed.

(** The three cases of an upsert. *)
Lemma sql_upsert_cases p rows :
  table_ok rows →
  (∃ r, r ∈ rows ∧ player_id r = player_id p ∧
     sql_upsert p rows = update_all (λ r, player_id r =? player_id p) (overwrite p) <$> rows) ∨
  ((∀ r, r ∈ rows → player_id r ≠ player_id p) ∧ ∃ r, r ∈ rows ∧ same_account (account p) r = true ∧
     sql_upsert p rows = update_all (same_account (account p)) (overwrite p) <$> rows) ∨
  ((∀ r, r ∈ rows → player_id r ≠ player_id p ∧ same_account (account p) r = false) ∧
     sql_upsert p rows = rows ++ [p]).
Proof.
  intros [Hid Hacc]. unfold sql_upsert. destruct (existsb _ rows) eqn:E1.
  - left. apply existsb_exists in E1 as (r & Hr%list_elem_of_In & E%Z.eqb_eq). exists r. split; [done|].
    split; [done|]. apply (update_first_all player_id); [done|]. intros r1 r2 E3%Z.eqb_eq E4%Z.eqb_eq. congruence.
  - right. assert (∀ r, r ∈ rows → player_id r ≠ player_id p) as Hno.
    { intros r Hr. apply Z.eqb_neq. by apply (existsb_false _ _ E1). }
    destruct (existsb (same_account (account p)) rows) eqn:E2.
    + left. split; [done|]. apply existsb_exists in E2 as (r & Hr%list_elem_of_In & E). exists r.
      split; [done|]. split; [done|]. apply (update_first_all (collation ∘ account)); [done|].
      intros r1 r2 E3%same_account_spec E4%same_account_spec. cbn. congruence.
    + right. split; [|done]. intros r Hr. split; [by apply Hno|]. by apply (existsb_false _ _ E2).
Qed.

Lemma update_all_account P p r : account (update_all P (overwrite p) r) = account r.
Proof. unfold update_all. by destruct (P r). Qed.

Lemma sql_select_update a P p rows :
  sql_select a (update_all P (overwrite p) <$> rows) = update_all P (overwrite p) <$> sql_select a rows.
Proof.
  unfold sql_select. induction rows as [|r rows IH]; [done|]. rewrite fmap_cons, !filter_cons, IH.
  assert (same_account a (update_all P (overwrite p) r) = same_account a r) as ->
    by (unfold same_account; by rewrite update_all_account). by case_decide.
Qed.

(** Another account's row has the id of [p]. *)
Definition id_taken p rows : bool :=
  existsb (λ r, (player_id r =? player_id p) && negb (same_account (account p) r)) rows.

Lemma id_taken_true p rows :
  id_taken p rows = true ↔ ∃ r, r ∈ rows ∧ player_id r = player_id p ∧ same_account (account p) r = false.
Proof.
  unfold id_taken. rewrite existsb_exists. setoid_rewrite <- list_elem_of_In. setoid_rewrite andb_true_iff.
  setoid_rewrite Z.eqb_eq. by setoid_rewrite negb_true_iff.
Qed.

Lemma elem_of_sql_select a r rows : r ∈ sql_select a rows ↔ r ∈ rows ∧ same_account a r = true.
Proof. unfold sql_select. rewrite list_elem_of_filter. tauto. Qed.

(** A selection that contains [r] has [r] as its first row. *)
Lemma head_sql_select a r rows : table_ok rows → r ∈ sql_select a rows → head (sql_select a rows) = Some r.
Proof.
  intros [_ Hacc] Hr. destruct (sql_select a rows) as [|r0 l] eqn:E; [set_solver|]. cbn. f_equal.
  assert (r0 ∈ sql_select a rows) as H0 by (rewrite E; set_solver).
  rewrite <- E in Hr. apply elem_of_sql_select in Hr as [Hr Ha%same_account_spec].
  apply elem_of_sql_select in H0 as [H0 Ha0%same_account_spec].
  apply (table_ok_key (collation ∘ account) rows); [done..|cbn; congruence].
Qed.

Lemma overwrite_self p r : overwrite p (overwrite p r) = overwrite p r.
Proof. done. Qed.

(** What a selection of the saved account finds after an upsert. *)
Lemma select_upsert p rows :
  table_ok rows →
  if id_taken p rows then sql_select (account p) rows = [] → sql_select (account p) (sql_upsert p rows) = []
  else ∃ v, head (sql_select (account p) (sql_upsert p rows)) = Some v ∧ v = overwrite p v ∧
            collation (account v) = collation (account p) ∧ (sql_select (account p) rows = [] → v = p).
Proof.
  intros Hok.
  assert (∀ P r, r ∈ rows → same_account (account p) r = true → P r = true →
    ∃ v, head (sql_select (account p) (update_all P (overwrite p) <$> rows)) = Some v ∧ v = overwrite p v ∧
         collation (account v) = collation (account p) ∧ (sql_select (account p) rows = [] → v = p)) as Hfound.
  { intros P r Hr Ha HP. assert (r ∈ sql_select (account p) rows) as Hs by (by apply elem_of_sql_select).
    exists (overwrite p r). rewrite sql_select_update. split.
    { pose proof (head_sql_select _ r rows Hok Hs) as Hh.
      destruct (sql_select (account p) rows) as [|r0 l]; [done|]. cbn in *. injection Hh as ->.
      unfold update_all. by rewrite HP. } split; [done|].
    split; [by apply same_account_spec|]. intros E. rewrite E in Hs. set_solver. }
  destruct (sql_upsert_cases p rows Hok) as [(r & Hr & Hid & ->)|[(Hno & r & Hr & Ha & ->)|(Hno & ->)]];
    destruct (id_taken p rows) eqn:Et.
  - intros E. by rewrite sql_select_update, E.
  - apply (Hfound _ r); [done| |by apply Z.eqb_eq].
    destruct (same_account (account p) r) eqn:E; [done|]. apply not_true_iff_false in Et.
    destruct Et. apply id_taken_true. by exists r.
  - apply id_taken_true in Et as (r' & Hr' & Hid' & _). by destruct (Hno r').
  - by apply (Hfound _ r).
  - apply id_taken_true in Et as (r' & Hr' & Hid' & _). by destruct (Hno r').
  - exists p. unfold sql_select. rewrite filter_app.
    assert (filter (λ r, same_account (account p) r = true) rows = []) as ->.
    { apply elem_of_nil_inv. intros r [Ha Hr]%list_elem_of_filter. destruct (Hno r Hr) as [_ E]. congruence. }
    rewrite filter_cons_True by by apply same_account_spec. by destruct p.
Qed.

Lemma sql_upsert_ok p rows : table_ok rows → table_ok (sql_upsert p rows).
Proof.
  intros Hok. pose proof Hok as [Hid Hacc].
  assert (∀ P, (collation ∘ account) <$> (update_all P (overwrite p) <$> rows) = (collation ∘ account) <$> rows)
    as Hsame.
  { intros P. rewrite <- list_fmap_compose. apply list_fmap_ext. intros i r _. cbn. by rewrite update_all_account. }
  destruct (sql_upsert_cases p rows Hok) as [(r & _ & _ & ->)|[(Hno & r & Hr & Hs & ->)|(Hno & ->)]].
  - split; [|by rewrite Hsame]. replace (player_id <$> _) with (player_id <$> rows); [done|].
    rewrite <- list_fmap_compose. apply list_fmap_ext. intros i r2 _. cbn. unfold update_all.
    destruct (player_id r2 =? player_id p) eqn:E; [|done]. by apply Z.eqb_eq in E.
  - split; [|by rewrite Hsame]. rewrite <- list_fmap_compose.
    apply NoDup_fmap_2_strong; [|by eapply NoDup_fmap_1]. intros r1 r2 H1 H2. cbn. unfold update_all.
    destruct (same_account (account p) r1) eqn:E1, (same_account (account p) r2) eqn:E2; cbn; intros E.
    + apply same_account_spec in E1, E2. apply (table_ok_key (collation ∘ account) rows); [done..|cbn; congruence].
    + by destruct (Hno r2 H2).
    + by destruct (Hno r1 H1).
    + by apply (table_ok_key player_id rows).
  - split; rewrite fmap_app; apply NoDup_app; (split; [done|]); (split; [|apply NoDup_singleton]);
      intros x (r & -> & Hr)%list_elem_of_fmap Hx%list_elem_of_singleton; destruct (Hno r Hr) as [H1 H2]; [done|].
    cbn in Hx. by apply same_account_spec in Hx; rewrite H2 in Hx.
Qed.

Lemma sql_delete_ok a rows : table_ok rows → table_ok (sql_delete a rows).
Proof.
  intros [H1 H2]. assert (sublist (sql_delete a rows) rows) as Hs by apply sublist_filter.
  split; (eapply sublist_NoDup; [|by apply fmap_sublist]); done.
Qed.
End table.

(** One column into its buffer. *)
Definition fetch_cell (b : OutBind) (v : SqlValue) : option Cell :=
  match b, v with
  | OutInt, SqlInt z => Some (CellInt z)
  | OutText n, SqlText s => Some (CellText (String.substring 0 (Z.to_nat n) s) (str_size s))
  | OutDouble, SqlDouble d => Some (CellDouble d)
  | _, _ => None
  end.

Definition columns_of (r : PlayerRecord) : list SqlValue :=
  [SqlInt (player_id r); SqlText (account r); SqlText (nickname r); SqlDouble (position_x r);
   SqlDouble (position_y r); SqlDouble (position_z r); SqlInt (last_login_unix r)].

Definition fetch_row (outs : list OutBind) (r : PlayerRecord) : list Cell :=
  omap (λ '(b, v), fetch_cell b v) (zip outs (columns_of r)).

(** A statement, as the library keeps it. *)
Record StmtView := mkStmtView {
  stmt_sql : option string;
  stmt_params : list SqlValue;
  stmt_outs : list OutBind;
  stmt_answer : list PlayerRecord
}.
Definition no_stmt : StmtView := {| stmt_sql := None; stmt_params := []; stmt_outs := []; stmt_answer := [] |}.

(** [handles]: the connections and the statements that are open; [rows]: the table. *)
Class MySqlLaws (Q : Type) `{MySql Q} := {
  collation : string → string;
  handles : Q → gset Z;
  rows : Q → list PlayerRecord;
  stmt_view : Q → Z → StmtView;
  library_init_law q : handles (mysql_library_init q).2 = handles q ∧ rows (mysql_library_init q).2 = rows q;
  init_law q : match mysql_init q with
    | (Some c, q') => c ∉ handles q ∧ handles q' = {[c]} ∪ handles q ∧ rows q' = rows q
    | (None, q') => handles q' = handles q ∧ rows q' = rows q
    end;
  options_law q c t : handles (mysql_options_connect_timeout q c t) = handles q ∧
    rows (mysql_options_connect_timeout q c t) = rows q;
  connect_law q c cfg : handles (mysql_real_connect q c cfg).2 = handles q ∧
    rows (mysql_real_connect q c cfg).2 = rows q;
  charset_law q c s : handles (mysql_set_character_set q c s).2 = handles q ∧
    rows (mysql_set_character_set q c s).2 = rows q;
  query_law q c s : handles (mysql_query q c s).2 = handles q ∧
    (s = kCreateTable → rows (mysql_query q c s).2 = rows q);
  close_law q c : handles (mysql_close c q) = handles q ∖ {[c]} ∧ rows (mysql_close c q) = rows q;
  stmt_init_law q c : match mysql_stmt_init q c with
    | (Some s, q') => s ∉ handles q ∧ handles q' = {[s]} ∪ handles q ∧ rows q' = rows q
    | (None, q') => handles q' = handles q ∧ rows q' = rows q
    end;
  prepare_law q s sql : match mysql_stmt_prepare q s sql with
    | (b, q') => handles q' = handles q ∧ rows q' = rows q ∧
        (b = true → stmt_view q' s = {| stmt_sql := Some sql; stmt_params := []; stmt_outs := []; stmt_answer := [] |})
    end;
  bind_param_law q s ps : match mysql_stmt_bind_param q s ps with
    | (b, q') => handles q' = handles q ∧ rows q' = rows q ∧
        (b = true → stmt_view q' s = {| stmt_sql := stmt_sql (stmt_view q s); stmt_params := ps;
                                        stmt_outs := stmt_outs (stmt_view q s); stmt_answer := [] |})
    end;
  execute_law q s sql : stmt_sql (stmt_view q s) = Some sql →
    let ps := stmt_params (stmt_view q s) in
    match mysql_stmt_execute q s with
    | (true, q') => handles q' = handles q ∧ rows q' = sql_effect collation sql ps (rows q) ∧
        stmt_view q' s = {| stmt_sql := Some sql; stmt_params := ps; stmt_outs := stmt_outs (stmt_view q s);
                            stmt_answer := sql_answer collation sql ps (rows q) |}
    | (false, q') => handles q' = handles q ∧
        (rows q' = rows q ∨ rows q' = sql_effect collation sql ps (rows q))
    end;
  bind_result_law q s outs : match mysql_stmt_bind_result q s outs with
    | (b, q') => handles q' = handles q ∧ rows q' = rows q ∧
        (b = true → stmt_view q' s = {| stmt_sql := stmt_sql (stmt_view q s); stmt_params := stmt_params (stmt_view q s);
                                        stmt_outs := outs; stmt_answer := stmt_answer (stmt_view q s) |})
    end;
  store_result_law q s : match mysql_stmt_store_result q s with
    | (b, q') => handles q' = handles q ∧ rows q' = rows q ∧ (b = true → stmt_view q' s = stmt_view q s)
    end;
  fetch_law q s : match mysql_stmt_fetch q s with
    | (r, q') => handles q' = handles q ∧ rows q' = rows q ∧
        match r with
        | FetchNoData => stmt_answer (stmt_view q s) = []
        | Fetched cells | FetchTruncated cells =>
            ∃ row, head (stmt_answer (stmt_view q s)) = Some row ∧ cells = fetch_row (stmt_outs (stmt_view q s)) row
        | FetchError => True
        end
    end;
  stmt_close_law q s : handles (mysql_stmt_close s q) = handles q ∖ {[s]} ∧ rows (mysql_stmt_close s q) = rows q
}.
