(* ===== verification/MySqlSim.v ===== *)
(** * A simulated MySQL server

    An instance of [MySql] that satisfies [MySqlLaws], for concrete runs: the table
    in memory, an ASCII case-insensitive collation, and a list of faults: one entry
    per call that can fail, [true] to make it fail. *)

From S2P Require Import Prelude Double DataTypes MySqlApi.

Record SimMySql := mkSimMySql {
  sim_rows : list PlayerRecord;
  sim_handles : gset Z;
  sim_stmts : gmap Z StmtView;
  sim_faults : list bool
}.

Definition sim_lower (c : ascii) : ascii :=
  let n := Ascii.nat_of_ascii c in
  if (65 <=? n)%nat && (n <=? 90)%nat then Ascii.ascii_of_nat (n + 32) else c.

Definition sim_collation (s : string) : string :=
  string_of_list_ascii (sim_lower <$> list_ascii_of_string s).

Definition sim_set (r : list PlayerRecord) (h : gset Z) (s : gmap Z StmtView) (q : SimMySql) : SimMySql :=
  {| sim_rows := r; sim_handles := h; sim_stmts := s; sim_faults := sim_faults q |}.
Definition sim_set_handles (h : gset Z) (q : SimMySql) : SimMySql := sim_set (sim_rows q) h (sim_stmts q) q.
Definition sim_set_stmt (s : Z) (v : StmtView) (q : SimMySql) : SimMySql :=
  sim_set (sim_rows q) (sim_handles q) (<[s := v]> (sim_stmts q)) q.
Definition sim_view (q : SimMySql) (s : Z) : StmtView := default no_stmt (sim_stmts q !! s).

(** Whether the next call fails, and the state without its fault. *)
Definition sim_pop (q : SimMySql) : bool * SimMySql :=
  (default false (head (sim_faults q)),
   {| sim_rows := sim_rows q; sim_handles := sim_handles q; sim_stmts := sim_stmts q;
      sim_faults := tail (sim_faults q) |}).

Definition sim_try (f : SimMySql → SimMySql) (q : SimMySql) : bool * SimMySql :=
  let '(fails, q) := sim_pop q in
  if fails : bool then (false, q) else (true, f q).

Definition sim_open (q : SimMySql) : option Z * SimMySql :=
  let '(fails, q) := sim_pop q in
  if fails : bool then (None, q)
  else let h := fresh (sim_handles q) in (Some h, sim_set_handles ({[h]} ∪ sim_handles q) q).

Definition sim_close (h : Z) (q : SimMySql) : SimMySql := sim_set_handles (sim_handles q ∖ {[h]}) q.

Definition sim_prepare (s : Z) (sql : string) : SimMySql → SimMySql :=
  sim_set_stmt s {| stmt_sql := Some sql; stmt_params := []; stmt_outs := []; stmt_answer := [] |}.

Definition sim_bind_param (s : Z) (ps : list SqlValue) (q : SimMySql) : SimMySql :=
  let v := sim_view q s in
  sim_set_stmt s {| stmt_sql := stmt_sql v; stmt_params := ps; stmt_outs := stmt_outs v; stmt_answer := [] |} q.

Definition sim_bind_result (s : Z) (outs : list OutBind) (q : SimMySql) : SimMySql :=
  let v := sim_view q s in
  sim_set_stmt s {| stmt_sql := stmt_sql v; stmt_params := stmt_params v; stmt_outs := outs;
                    stmt_answer := stmt_answer v |} q.

Definition sim_execute (s : Z) (q : SimMySql) : SimMySql :=
  let v := sim_view q s in
  let sql := default EmptyString (stmt_sql v) in
  let v' := {| stmt_sql := stmt_sql v; stmt_params := stmt_params v; stmt_outs := stmt_outs v;
               stmt_answer := sql_answer sim_collation sql (stmt_params v) (sim_rows q) |} in
  sim_set (sql_effect sim_collation sql (stmt_params v) (sim_rows q)) (sim_handles q)
    (<[s := v']> (sim_stmts q)) q.

Definition sim_fetch (q : SimMySql) (s : Z) : FetchResult * SimMySql :=
  let '(fails, q) := sim_pop q in
  if fails : bool then (FetchError, q)
  else
    match stmt_answer (sim_view q s) with
    | [] => (FetchNoData, q)
    | row :: _ => (Fetched (fetch_row (stmt_outs (sim_view q s)) row), q)
    end.

#[export] Instance sim_mysql : MySql SimMySql := {
  mysql_library_init := sim_try id;
  mysql_init := sim_open;
  mysql_options_connect_timeout q _ _ := q;
  mysql_real_connect q _ _ := sim_try id q;
  mysql_set_character_set q _ _ := sim_try id q;
  mysql_query q _ _ := sim_try id q;
  mysql_error _ _ := "simulated failure"%string;
  mysql_close := sim_close;
  mysql_stmt_init q _ := sim_open q;
  mysql_stmt_prepare q s sql := sim_try (sim_prepare s sql) q;
  mysql_stmt_bind_param q s ps := sim_try (sim_bind_param s ps) q;
  mysql_stmt_execute q s := sim_try (sim_execute s) q;
  mysql_stmt_bind_result q s outs := sim_try (sim_bind_result s outs) q;
  mysql_stmt_store_result q s := sim_try id q;
  mysql_stmt_fetch := sim_fetch;
  mysql_stmt_error _ _ := "simulated failure"%string;
  mysql_stmt_close := sim_close
}.

Lemma sim_view_set s v q : sim_view (sim_set_stmt s v q) s = v.
Proof. unfold sim_view. cbn. by rewrite lookup_insert_eq. Qed.

Lemma sim_open_law q :
  match sim_open q with
  | (Some c, q') => c ∉ sim_handles q ∧ sim_handles q' = {[c]} ∪ sim_handles q ∧ sim_rows q' = sim_rows q
  | (None, q') => sim_handles q' = sim_handles q ∧ sim_rows q' = sim_rows q
  end.
Proof. unfold sim_open, sim_pop. destruct (default false _); [done|]. split; [apply is_fresh|done]. Qed.

#[export] Instance sim_mysql_laws : MySqlLaws SimMySql.
Proof.
  refine {| collation := sim_collation; handles := sim_handles; rows := sim_rows; stmt_view := sim_view |};
    cbn [mysql_library_init mysql_init mysql_options_connect_timeout mysql_real_connect mysql_set_character_set mysql_query
         mysql_close mysql_stmt_init mysql_stmt_prepare mysql_stmt_bind_param mysql_stmt_execute
         mysql_stmt_bind_result mysql_stmt_store_result mysql_stmt_fetch mysql_stmt_close sim_mysql];
    try done; try (intros; apply sim_open_law); unfold sim_try, sim_pop.
  - intros q. by destruct (default false _).
  - intros q c cfg. by destruct (default false _).
  - intros q c s. by destruct (default false _).
  - intros q c s. by destruct (default false _).
  - intros q s sql. destruct (default false _); [done|]. split; [done|]. split; [done|]. intros _. apply sim_view_set.
  - intros q s ps. destruct (default false _); [done|]. split; [done|]. split; [done|]. intros _. apply sim_view_set.
  - intros q s sql Hsql. destruct (default false _); [by split; [|left]|]. unfold sim_execute.
    change (sim_view {| sim_rows := sim_rows q; sim_handles := sim_handles q; sim_stmts := sim_stmts q;
                        sim_faults := tail (sim_faults q) |} s) with (sim_view q s).
    rewrite Hsql. split; [done|]. split; [done|]. unfold sim_view at 1. cbn. by rewrite lookup_insert_eq.
  - intros q s outs. destruct (default false _); [done|]. split; [done|]. split; [done|]. intros _. apply sim_view_set.
  - intros q s. by destruct (default false _).
  - intros q s. unfold sim_fetch, sim_pop. destruct (default false _); [done|].
    change (sim_view {| sim_rows := sim_rows q; sim_handles := sim_handles q; sim_stmts := sim_stmts q;
                        sim_faults := tail (sim_faults q) |} s) with (sim_view q s).
    destruct (stmt_answer (sim_view q s)) as [|row answer] eqn:E; [done|]. split; [done|]. split; [done|].
    by exists row.
Defined.
