(* ===== verification/MySqlRepository.v ===== *)
(** * The MySQL player repository

    [src/data/mysql_player_repository.cpp]. Every operation opens its own connection
    and statement; the [std::unique_ptr]s that own them are scopes ([destroying]), so
    that a statement is closed before its connection on every path. *)

From S2P Require Import Prelude Double DataTypes MySqlApi MySqlSim.

Section repository.
Context {Q : Type} `{!MySql Q}.
Implicit Types config : MySqlConfig.

(** A call with its result. *)
Definition call {A} (f : Q → A * Q) : St Q A := f.

(** [EnsureMySqlLibraryInitialized], over the function's static object: whether it
    has been constructed. *)
Definition EnsureMySqlLibraryInitialized : M (bool * Q) unit := λ '(initialized, q),
  if initialized : bool then (Returns tt, (initialized, q))
  else
    let '(ok, q) := mysql_library_init q in
    if negb ok then (Throws (runtime_error "mysql_library_init failed"), (false, q))
    else (Returns tt, (true, q)).

(** [Connect]: the connection, or null and the [error] it leaves. *)
Definition Connect config : St Q (option Z * string) :=
  connection ← call mysql_init;
  match connection with
  | None => mret (None, "mysql_init failed"%string)
  | Some connection =>
      st_modify (λ q, mysql_options_connect_timeout q connection (connect_timeout_seconds config)) ;;
      connected ← call (λ q, mysql_real_connect q connection config);
      if negb connected then
        destroying (mysql_close connection)
          (error ← st_gets (λ q, mysql_error q connection); mret (None, error))
      else
        set ← call (λ q, mysql_set_character_set q connection "utf8mb4"%string);
        if negb set then
          destroying (mysql_close connection)
            (error ← st_gets (λ q, mysql_error q connection); mret (None, error))
        else mret (Some connection, EmptyString)
  end.

(** [Prepare] *)
Definition Prepare (connection : Z) (sql : string) : St Q (option Z * string) :=
  statement ← call (λ q, mysql_stmt_init q connection);
  match statement with
  | None => mret (None, "mysql_stmt_init failed"%string)
  | Some statement =>
      prepared ← call (λ q, mysql_stmt_prepare q statement sql);
      if negb prepared then
        destroying (mysql_stmt_close statement)
          (error ← st_gets (λ q, mysql_stmt_error q statement); mret (None, error))
      else mret (Some statement, EmptyString)
  end.

Definition Invalid (message : string) : OperationResult := op_Failure kInvalidArgument message.
Definition Unavailable (message : string) : OperationResult := op_Failure kUnavailable message.

(** A body with a connection of its own, and one with a statement on it; [fail] is
    what the operation returns when there is none. *)
Definition with_connection {A} config (fail : string → A) (body : Z → St Q A) : St Q A :=
  '(connection, error) ← Connect config;
  match connection with
  | None => mret (fail error)
  | Some connection => destroying (mysql_close connection) (body connection)
  end.

Definition with_statement {A} (connection : Z) (sql : string) (fail : string → A) (body : Z → St Q A)
    : St Q A :=
  '(statement, error) ← Prepare connection sql;
  match statement with
  | None => mret (fail error)
  | Some statement => destroying (mysql_stmt_close statement) (body statement)
  end.

(** [f != 0 || g != 0] *)
Definition both (f g : St Q bool) : St Q bool :=
  ok ← f;
  if ok : bool then g else mret false.

Definition bind_and_execute (statement : Z) (params : list SqlValue) : St Q bool :=
  both (call (λ q, mysql_stmt_bind_param q statement params)) (call (λ q, mysql_stmt_execute q statement)).

Definition EnsureSchema config : St Q OperationResult :=
  if str_empty (mysql_database config) then mret (Invalid "MySQL database must not be empty")
  else
    with_connection config Unavailable (λ connection,
      created ← call (λ q, mysql_query q connection kCreateTable);
      if negb created then error ← st_gets (λ q, mysql_error q connection); mret (Unavailable error)
      else mret op_Success).

(** The output buffers after a fetch. A buffer nothing was written to keeps its
    initial value; [assign] reads [length] bytes of a 65-byte buffer. *)
Definition cell_int (row : list Cell) (i : nat) : Z :=
  match row !! i with Some (CellInt z) => z | _ => 0 end.
Definition cell_double (row : list Cell) (i : nat) : double :=
  match row !! i with Some (CellDouble d) => d | _ => dzero end.
Definition cell_length (row : list Cell) (i : nat) : Z :=
  match row !! i with Some (CellText _ l) => l | _ => 0 end.
Definition zeros : string := string_of_list_ascii (replicate 65 "000"%char).
Definition cell_assign (row : list Cell) (i : nat) : string :=
  match row !! i with
  | Some (CellText buffer l) => String.substring 0 (Z.to_nat l) (buffer +:+ zeros)
  | _ => EmptyString
  end.

Definition player_outs : list OutBind :=
  [OutInt; OutText 65; OutText 65; OutDouble; OutDouble; OutDouble; OutInt].

Definition player_of_row (row : list Cell) : PlayerRecord :=
  {| player_id := cell_int row 0; account := cell_assign row 1; nickname := cell_assign row 2;
     position_x := cell_double row 3; position_y := cell_double row 4; position_z := cell_double row 5;
     last_login_unix := cell_int row 6 |}.

Definition account_invalid (account : string) : bool := str_empty account || (64 <? str_size account).

Definition mysql_LoadByAccount config (account : string) : St Q (DataResult PlayerRecord) :=
  if account_invalid account then
    mret (result_Failure kInvalidArgument "account length must be between 1 and 64 bytes")
  else
    with_connection config (result_Failure kUnavailable) (λ connection,
    with_statement connection kSelect (result_Failure kUnavailable) (λ statement,
      let failure := error ← st_gets (λ q, mysql_stmt_error q statement);
                     mret (result_Failure kUnavailable error) in
      executed ← bind_and_execute statement [SqlText account];
      if negb executed then failure
      else
        stored ← both (call (λ q, mysql_stmt_bind_result q statement player_outs))
                      (call (λ q, mysql_stmt_store_result q statement));
        if negb stored then failure
        else
          fetched ← call (λ q, mysql_stmt_fetch q statement);
          match fetched with
          | FetchNoData => mret result_NotFound
          | FetchError => failure
          | Fetched row | FetchTruncated row =>
              if (64 <? cell_length row 1) || (64 <? cell_length row 2) then
                mret (result_Failure kUnavailable "stored player text exceeds schema limit")
              else mret (result_Success (player_of_row row))
          end)).

Definition mysql_Save config (player : PlayerRecord) : St Q OperationResult :=
  if player_id player =? 0 then mret (Invalid "player_id must be greater than zero")
  else if account_invalid (account player) then
    mret (Invalid "account length must be between 1 and 64 bytes")
  else if str_empty (nickname player) || (64 <? str_size (nickname player)) then
    mret (Invalid "nickname length must be between 1 and 64 bytes")
  else
    with_connection config Unavailable (λ connection,
    with_statement connection kUpsert Unavailable (λ statement,
      executed ← bind_and_execute statement (columns_of player);
      if negb executed then error ← st_gets (λ q, mysql_stmt_error q statement); mret (Unavailable error)
      else mret op_Success)).

Definition mysql_DeleteByAccount config (account : string) : St Q OperationResult :=
  if account_invalid account then mret (Invalid "account length must be between 1 and 64 bytes")
  else
    with_connection config Unavailable (λ connection,
    with_statement connection kDelete Unavailable (λ statement,
      executed ← bind_and_execute statement [SqlText account];
      if negb executed then error ← st_gets (λ q, mysql_stmt_error q statement); mret (Unavailable error)
      else mret op_Success)).

(** [class MySqlPlayerRepository : public PlayerRepository] *)
Definition mysql_player_repository config : PlayerRepository Q :=
  {| LoadByAccount q a := mysql_LoadByAccount config a q;
     Save q p := mysql_Save config p q;
     DeleteByAccount q a := mysql_DeleteByAccount config a q |}.
End repository.

(** ** The columns round trip *)

Lemma substring_all s n : (String.length s <= n)%nat → String.substring 0 n s = s.
Proof.
  revert n. induction s as [|a s IH]; intros [|n] Hn; cbn in *; try done; [lia|]. f_equal. apply IH. lia.
Qed.

Lemma substring_app_length s t : String.substring 0 (String.length s) (s +:+ t) = s.
Proof.
  induction s as [|a s IH]; [by destruct t|]. change (String a s +:+ t) with (String a (s +:+ t)).
  cbn. f_equal. exact IH.
Qed.

Lemma assign_fetched s :
  str_size s <= 64 → String.substring 0 (Z.to_nat (str_size s)) (String.substring 0 65 s +:+ zeros) = s.
Proof.
  intros Hs. rewrite (substring_all s 65) by (unfold str_size in Hs; lia).
  unfold str_size. rewrite Nat2Z.id. apply substring_app_length.
Qed.

(** A fetched row is the record, as long as the texts are within the schema. *)
Lemma player_of_fetched r :
  str_size (account r) <= 64 → str_size (nickname r) <= 64 → player_of_row (fetch_row player_outs r) = r.
Proof.
  intros Ha Hn. destruct r as [id a n x y z l]. unfold player_of_row, fetch_row, player_outs, columns_of.
  cbn -[zeros String.substring Z.to_nat str_size] in *. change (Z.to_nat 65) with 65%nat.
  by rewrite !assign_fetched.
Qed.

Section laws.
Context {Q : Type} `{!MySql Q} `{!MySqlLaws Q}.
Implicit Types q : Q.

(** The same handles and the same table. *)
Definition same_db q q' : Prop := handles q' = handles q ∧ rows q' = rows q.

#[export] Instance same_db_preorder : PreOrder same_db.
Proof. split; [done|]. intros q1 q2 q3 [] []. split; congruence. Qed.

Lemma sp_api {A} (f : Q → A * Q) (P : A → Q → Prop) q :
  (let '(a, q') := f q in P a q') → sp (call f) P q.
Proof. apply sp_call. Qed.

Lemma Connect_spec config q :
  sp (Connect config) (λ r q', rows q' = rows q ∧
    match r.1 with
    | Some c => c ∉ handles q ∧ handles q' = {[c]} ∪ handles q
    | None => handles q' = handles q
    end) q.
Proof.
  unfold Connect. apply sp_bind, sp_api. pose proof (init_law q) as Hi.
  destruct (mysql_init q) as [[c|] q1]; cbn; [|by unfold sp; cbn; destruct Hi]. destruct Hi as (Hc & Hh & Hr).
  apply sp_bind. unfold sp at 1, st_modify. cbn.
  pose proof (options_law q1 c (connect_timeout_seconds config)) as [Hh2 Hr2].
  set (q2 := mysql_options_connect_timeout _ _ _) in *.
  apply sp_bind, sp_api. pose proof (connect_law q2 c config) as [Hh3 Hr3].
  destruct (mysql_real_connect q2 c config) as [ok q3]. cbn in *.
  assert (∀ q', handles q' = handles q3 → rows q' = rows q3 →
    sp (destroying (mysql_close c) (error ← st_gets (λ q, mysql_error q c); mret (@None Z, error)))
      (λ r q', rows q' = rows q ∧
        match r.1 with Some c => c ∉ handles q ∧ handles q' = {[c]} ∪ handles q | None => handles q' = handles q end) q')
    as Hfail.
  { intros q' Eh Er. apply sp_error. destruct (close_law q' c) as [-> ->].
    rewrite Eh, Er, Hh3, Hr3, Hh2, Hr2, Hh, Hr. split; [done|]. set_solver. }
  destruct ok; cbn [negb]; [|by apply Hfail].
  apply sp_bind, sp_api. pose proof (charset_law q3 c "utf8mb4"%string) as [Hh4 Hr4].
  destruct (mysql_set_character_set _ _ _) as [ok q4]. cbn in *.
  destruct ok; cbn [negb]; [|by apply Hfail]. unfold sp. cbn. rewrite Hh4, Hr4, Hh3, Hr3, Hh2, Hr2, Hh, Hr. done.
Qed.

Lemma with_connection_spec {A} config fail (body : Z → St Q A) (P : A → list PlayerRecord → Prop) q :
  (∀ e, P (fail e) (rows q)) →
  (∀ c q1, rows q1 = rows q → sp (body c) (λ a q', handles q' = handles q1 ∧ P a (rows q')) q1) →
  sp (with_connection config fail body) (λ a q', handles q' = handles q ∧ P a (rows q')) q.
Proof.
  intros Hf Hb. apply sp_bind. eapply sp_wand; [apply Connect_spec|]. intros [[c|] e] q1 [Hr Hh]; cbn in *.
  - destruct Hh as [Hc Hh]. specialize (Hb c q1 Hr). unfold sp, destroying in *.
    destruct (body c q1) as [a q2]. cbn in *. destruct Hb as [Hh2 HP]. destruct (close_law q2 c) as [-> ->].
    split; [|done]. rewrite Hh2, Hh. set_solver.
  - unfold sp. cbn. split; [done|]. rewrite Hr. apply Hf.
Qed.

Lemma with_statement_spec {A} c sql fail (body : Z → St Q A) (P : A → list PlayerRecord → Prop) q :
  (∀ e, P (fail e) (rows q)) →
  (∀ s q1, rows q1 = rows q →
     stmt_view q1 s = {| stmt_sql := Some sql; stmt_params := []; stmt_outs := []; stmt_answer := [] |} →
     sp (body s) (λ a q', handles q' = handles q1 ∧ P a (rows q')) q1) →
  sp (with_statement c sql fail body) (λ a q', handles q' = handles q ∧ P a (rows q')) q.
Proof.
  intros Hf Hb. unfold with_statement, Prepare. apply sp_bind, sp_bind, sp_api.
  pose proof (stmt_init_law q c) as Hi. destruct (mysql_stmt_init q c) as [[s|] q1]; cbn.
  2: { unfold sp. cbn. destruct Hi as [Hh Hr]. split; [done|]. rewrite Hr. apply Hf. }
  destruct Hi as (Hs & Hh & Hr). apply sp_bind, sp_api.
  pose proof (prepare_law q1 s sql) as Hp. destruct (mysql_stmt_prepare q1 s sql) as [ok q2]. cbn.
  destruct Hp as (Hh2 & Hr2 & Hv). destruct ok; cbn [negb].
  - specialize (Hb s q2 ltac:(congruence) (Hv eq_refl)). unfold sp, destroying in *. cbn.
    destruct (body s q2) as [a q3]. cbn in *. destruct Hb as [Hh3 HP].
    destruct (stmt_close_law q3 s) as [-> ->]. split; [|done]. rewrite Hh3, Hh2, Hh. set_solver.
  - apply sp_error. unfold sp. cbn. destruct (stmt_close_law q2 s) as [-> ->].
    rewrite Hh2, Hr2, Hh, Hr. split; [set_solver|apply Hf].
Qed.

Lemma bind_and_execute_spec s sql params outs0 q :
  stmt_view q s = {| stmt_sql := Some sql; stmt_params := []; stmt_outs := outs0; stmt_answer := [] |} →
  sp (bind_and_execute s params) (λ ok q', handles q' = handles q ∧
    if ok then rows q' = sql_effect collation sql params (rows q) ∧
               stmt_view q' s = {| stmt_sql := Some sql; stmt_params := params; stmt_outs := outs0;
                                   stmt_answer := sql_answer collation sql params (rows q) |}
    else rows q' = rows q ∨ rows q' = sql_effect collation sql params (rows q)) q.
Proof.
  intros Hv. unfold bind_and_execute, both. apply sp_bind, sp_api.
  pose proof (bind_param_law q s params) as Hb. destruct (mysql_stmt_bind_param q s params) as [ok q1].
  destruct Hb as (Hh & Hr & Hv1). destruct ok; cbn; [|unfold sp; cbn; by split; [|left]].
  specialize (Hv1 eq_refl). rewrite Hv in Hv1. cbn in Hv1. apply sp_api.
  pose proof (execute_law q1 s sql) as He. rewrite Hv1 in He. specialize (He eq_refl). cbn in He.
  destruct (mysql_stmt_execute q1 s) as [[] q2]; cbn.
  - destruct He as (Hh2 & Hr2 & Hv2). rewrite Hh2, Hr2, Hv2, Hh, Hr. done.
  - destruct He as [Hh2 Hr2]. rewrite Hh2, Hh. split; [done|]. by rewrite <- Hr.
Qed.

(** ** The operations *)

(** What a load may answer, given the table. *)
Definition load_answer (a : string) (r : DataResult PlayerRecord) (table : list PlayerRecord) : Prop :=
  match status r with
  | kOk => value r = head (sql_select collation a table) ∧ is_Some (value r)
  | kNotFound => sql_select collation a table = []
  | kUnavailable => value r = None
  | kInvalidArgument => False
  end.

Lemma effect_select params t : sql_effect collation kSelect params t = t.
Proof. reflexivity. Qed.

Lemma answer_select a t : sql_answer collation kSelect [SqlText a] t = sql_select collation a t.
Proof. reflexivity. Qed.

Lemma effect_upsert p t : sql_effect collation kUpsert (columns_of p) t = sql_upsert collation p t.
Proof. unfold sql_effect. destruct p. reflexivity. Qed.

Lemma effect_delete a t : sql_effect collation kDelete [SqlText a] t = sql_delete collation a t.
Proof. reflexivity. Qed.

Lemma mysql_LoadByAccount_spec config a q :
  account_invalid a = false →
  sp (mysql_LoadByAccount config a) (λ r q', handles q' = handles q ∧ rows q' = rows q ∧
     load_answer a r (rows q)) q.
Proof.
  intros Ha. unfold mysql_LoadByAccount. rewrite Ha. set (t := rows q).
  apply (with_connection_spec config _ _ (λ r t', t' = t ∧ load_answer a r t)); [done|]. intros c q1 Hr1.
  apply (with_statement_spec c kSelect _ _ (λ r t', t' = t ∧ load_answer a r t)); [done|]. intros s q2 Hr2 Hv2.
  apply sp_bind. eapply sp_wand; [by apply bind_and_execute_spec|]. intros executed q3 [Hh3 Hq3].
  assert (∀ q', handles q' = handles q2 → rows q' = t →
    sp (error ← st_gets (λ q, mysql_stmt_error q s); mret (result_Failure kUnavailable error))
      (λ r q', handles q' = handles q2 ∧ rows q' = t ∧ load_answer a r t) q') as Hfail by done.
  assert (rows q3 = t) as Hr3.
  { destruct executed; [destruct Hq3 as [-> _]|destruct Hq3 as [->| ->]]; rewrite ?effect_select; by rewrite Hr2, Hr1. }
  destruct executed; cbn [negb]; [|by apply Hfail]. destruct Hq3 as [_ Hv3].
  apply sp_bind. unfold both. apply sp_bind, sp_api.
  pose proof (bind_result_law q3 s player_outs) as Hb. destruct (mysql_stmt_bind_result q3 s player_outs) as [ok q4].
  destruct Hb as (Hh4 & Hr4 & Hv4). destruct ok; [|apply Hfail; [exact (eq_trans Hh4 Hh3)|exact (eq_trans Hr4 Hr3)]].
  specialize (Hv4 eq_refl). rewrite Hv3 in Hv4. cbn in Hv4.
  apply sp_api. pose proof (store_result_law q4 s) as Hst. destruct (mysql_stmt_store_result q4 s) as [ok q5].
  destruct Hst as (Hh5 & Hr5 & Hv5). destruct ok; [|apply Hfail; [exact (eq_trans Hh5 (eq_trans Hh4 Hh3))|exact (eq_trans Hr5 (eq_trans Hr4 Hr3))]].
  specialize (Hv5 eq_refl). rewrite Hv4 in Hv5. cbn [negb].
  apply sp_bind, sp_api. pose proof (fetch_law q5 s) as Hf. rewrite Hv5 in Hf. cbn in Hf.
  destruct (mysql_stmt_fetch q5 s) as [fetched q6]. destruct Hf as (Hh6 & Hr6 & Hf).
  assert (handles q6 = handles q2 ∧ rows q6 = t) as [Hh Hr] by (split; [congruence|by rewrite Hr6, Hr5, Hr4]).
  replace (sql_answer collation kSelect [SqlText a] (rows q2)) with (sql_select collation a t) in Hf
    by (by rewrite answer_select, Hr2, Hr1).
  assert (∀ cells, (∃ row, head (sql_select collation a t) = Some row ∧ cells = fetch_row player_outs row) →
    sp (if (64 <? cell_length cells 1) || (64 <? cell_length cells 2)
        then mret (result_Failure kUnavailable "stored player text exceeds schema limit")
        else mret (result_Success (player_of_row cells)))
      (λ r q', handles q' = handles q2 ∧ rows q' = t ∧ load_answer a r t) q6) as Hrow.
  { intros cells (row & Hhd & ->). destruct (_ || _) eqn:E; [done|]. apply orb_false_iff in E as [E1 E2].
    unfold sp. split; [done|]. split; [done|]. unfold load_answer. cbn [status value result_Success mret St_ret fst].
    rewrite Hhd, player_of_fetched; [split; [done|by eexists]| |].
    - change (cell_length (fetch_row player_outs row) 1) with (str_size (account row)) in E1. bool_lia.
    - change (cell_length (fetch_row player_outs row) 2) with (str_size (nickname row)) in E2. bool_lia. }
  destruct fetched as [cells| |cells|]; [by apply Hrow|done|by apply Hrow|by apply Hfail].
Qed.

(** An operation that runs one statement. *)
Lemma run_statement_spec config sql params (effect : list PlayerRecord → list PlayerRecord) q :
  (∀ t, sql_effect collation sql params t = effect t) →
  sp (with_connection config Unavailable (λ connection,
      with_statement connection sql Unavailable (λ statement,
        executed ← bind_and_execute statement params;
        if negb executed then error ← st_gets (λ q, mysql_stmt_error q statement); mret (Unavailable error)
        else mret op_Success)))
    (λ r q', handles q' = handles q ∧
       ((op_status r = kOk ∧ rows q' = effect (rows q)) ∨
        (op_status r = kUnavailable ∧ (rows q' = rows q ∨ rows q' = effect (rows q))))) q.
Proof.
  intros He. set (t := rows q).
  set (P := λ (r : OperationResult) t', (op_status r = kOk ∧ t' = effect t) ∨
        (op_status r = kUnavailable ∧ (t' = t ∨ t' = effect t))).
  assert (∀ e, P (Unavailable e) t) as Hf by (intros e; right; split; [done|by left]).
  apply (with_connection_spec config _ _ P); [done|]. intros c q1 Hr1.
  apply (with_statement_spec c sql _ _ P); [by rewrite Hr1|]. intros s q2 Hr2 Hv2.
  apply sp_bind. eapply sp_wand; [by apply bind_and_execute_spec|]. intros executed q3 [Hh3 Hq3].
  rewrite He, Hr2, Hr1 in Hq3. destruct executed; unfold sp; cbn; (split; [done|]).
  - left. split; [done|]. apply Hq3.
  - right. by split.
Qed.

(** What [Save] checks before it opens a connection. *)
Definition storable (p : PlayerRecord) : bool :=
  negb (player_id p =? 0) && negb (account_invalid (account p))
  && negb (str_empty (nickname p) || (64 <? str_size (nickname p))).

(** What an operation that changes the table by [effect] may do to it. *)
Definition applied (r : OperationResult) (effect : list PlayerRecord → list PlayerRecord) (t t' : list PlayerRecord)
    : Prop :=
  (op_status r = kOk ∧ t' = effect t) ∨ (op_status r = kUnavailable ∧ (t' = t ∨ t' = effect t)).

Lemma mysql_load_run config a q :
  let '(r, q') := mysql_LoadByAccount config a q in
  if account_invalid a then status r = kInvalidArgument ∧ q' = q
  else handles q' = handles q ∧ rows q' = rows q ∧ load_answer a r (rows q).
Proof.
  destruct (account_invalid a) eqn:Ea; [unfold mysql_LoadByAccount; by rewrite Ea|].
  pose proof (mysql_LoadByAccount_spec config a q Ea) as Hl. unfold sp in Hl. by destruct (mysql_LoadByAccount _ _ _).
Qed.

Lemma mysql_save_run config p q :
  let '(r, q') := mysql_Save config p q in
  if storable p then handles q' = handles q ∧ applied r (sql_upsert collation p) (rows q) (rows q')
  else op_status r = kInvalidArgument ∧ q' = q.
Proof.
  unfold mysql_Save, storable. destruct (player_id p =? 0); [done|].
  destruct (account_invalid (account p)); [done|]. destruct (_ || _); [done|]. cbn [negb andb].
  pose proof (run_statement_spec config kUpsert (columns_of p) (sql_upsert collation p) q (effect_upsert p)) as Hr.
  unfold sp in Hr. by destruct (with_connection _ _ _ q).
Qed.

Lemma mysql_delete_run config a q :
  let '(r, q') := mysql_DeleteByAccount config a q in
  if account_invalid a then op_status r = kInvalidArgument ∧ q' = q
  else handles q' = handles q ∧ applied r (sql_delete collation a) (rows q) (rows q').
Proof.
  unfold mysql_DeleteByAccount. destruct (account_invalid a); [done|].
  pose proof (run_statement_spec config kDelete [SqlText a] (sql_delete collation a) q (effect_delete a)) as Hr.
  unfold sp in Hr. by destruct (with_connection _ _ _ q).
Qed.
End laws.

(** ** Properties *)

(** C19: The repository implements a table of players keyed by account: whatever the
    library and the server do, a load reports the row of the account or that there is
    none, or an error; a save or a deletion that reports success has changed the
    table exactly so, and one that reports an error, if at all, exactly so; invalid
    arguments are refused without any call; ids and accounts stay unique; and every
    connection and statement opened is closed again, on every path. *)
Theorem mysql_refines_table `{MySqlLaws Q} config (q : Q) :
  (∀ a, let '(r, q') := mysql_LoadByAccount config a q in
     if account_invalid a then status r = kInvalidArgument ∧ q' = q
     else handles q' = handles q ∧ rows q' = rows q ∧ load_answer a r (rows q)) ∧
  (∀ p, let '(r, q') := mysql_Save config p q in
     if storable p then handles q' = handles q ∧ applied r (sql_upsert collation p) (rows q) (rows q')
     else op_status r = kInvalidArgument ∧ q' = q) ∧
  (∀ a, let '(r, q') := mysql_DeleteByAccount config a q in
     if account_invalid a then op_status r = kInvalidArgument ∧ q' = q
     else handles q' = handles q ∧ applied r (sql_delete collation a) (rows q) (rows q')) ∧
  (table_ok collation (rows q) →
     (∀ p, table_ok collation (rows (mysql_Save config p q).2)) ∧
     (∀ a, table_ok collation (rows (mysql_DeleteByAccount config a q).2))).
Proof.
  split; [intros a; apply mysql_load_run|]. split; [intros p; apply mysql_save_run|].
  split; [intros a; apply mysql_delete_run|]. intros Hok. split; [intros p|intros a].
  - pose proof (mysql_save_run config p q) as Hr. destruct (mysql_Save config p q) as [r q'].
    destruct (storable p); [|by destruct Hr as [_ ->]].
    destruct Hr as [_ [[_ Hr]|[_ [Hr|Hr]]]]; cbn; rewrite Hr; by try apply sql_upsert_ok.
  - pose proof (mysql_delete_run config a q) as Hr. destruct (mysql_DeleteByAccount config a q) as [r q'].
    destruct (account_invalid a); [by destruct Hr as [_ ->]|].
    destruct Hr as [_ [[_ Hr]|[_ [Hr|Hr]]]]; cbn; rewrite Hr; by try apply sql_delete_ok.
Qed.

(** C31: What is saved is what is loaded, with two exceptions the table makes: a
    successful save of a new account is loaded back exactly; one of an account that
    exists under another spelling keeps the stored spelling and takes every other
    field; and one whose id another account has overwrites that account's record
    instead, so that loading its own account finds nothing although the save
    succeeded. *)
Theorem mysql_save_then_load `{MySqlLaws Q} config p (q q1 : Q) r :
  table_ok collation (rows q) → mysql_Save config p q = (r, q1) → op_Ok r = true →
  let l := (mysql_LoadByAccount config (account p) q1).1 in
  if id_taken collation p (rows q) then
    sql_select collation (account p) (rows q) = [] → result_Ok l = false
  else
    status l ≠ kNotFound ∧
    (result_Ok l = true → ∃ v, value l = Some v ∧ v = overwrite p v ∧
       collation (account v) = collation (account p) ∧
       (sql_select collation (account p) (rows q) = [] → v = p)).
Proof.
  intros Hok Hsave Hr%op_Ok_spec. cbv zeta. pose proof (mysql_save_run config p q) as Hs. rewrite Hsave in Hs.
  destruct (storable p) eqn:Est; [|destruct Hs; congruence]. destruct Hs as [_ [[_ Hrows]|[E _]]]; [|congruence].
  assert (account_invalid (account p) = false) as Ha.
  { unfold storable in Est. apply andb_true_iff in Est as [[_ E]%andb_true_iff _]. by apply negb_true_iff. }
  pose proof (mysql_load_run config (account p) q1) as Hl. rewrite Ha in Hl.
  destruct (mysql_LoadByAccount config (account p) q1) as [l q2]. cbn [fst]. destruct Hl as (_ & _ & Hl).
  unfold load_answer in Hl. rewrite Hrows in Hl. pose proof (select_upsert collation p (rows q) Hok) as Hsel.
  destruct (id_taken collation p (rows q)).
  - intros E. rewrite (Hsel E) in Hl. apply not_true_iff_false. intros [Hk Hv]%result_Ok_spec.
    rewrite Hk in Hl. destruct Hl as [Hl _]. rewrite Hl in Hv. by destruct Hv.
  - destruct Hsel as (v & Hhd & Hv & Hacc & Hnew). split.
    + intros Hn. rewrite Hn in Hl. by rewrite Hl in Hhd.
    + intros [Hk _]%result_Ok_spec. rewrite Hk in Hl. exists v. destruct Hl as [-> _]. done.
Qed.

(** ** Witnesses *)

Definition local_mysql : MySqlConfig :=
  {| mysql_host := "127.0.0.1"; mysql_port := 3306; mysql_user := "mmo"; mysql_password := EmptyString;
     mysql_database := "mmo"; connect_timeout_seconds := 3 |}.

Definition player_row (id : Z) (a : string) : PlayerRecord :=
  {| player_id := id; account := a; nickname := "Nova-7"; position_x := double_of 500;
     position_y := double_of 1000; position_z := dzero; last_login_unix := 1700000000 |}.

Definition sim_with (t : list PlayerRecord) (faults : list bool) : SimMySql :=
  {| sim_rows := t; sim_handles := ∅; sim_stmts := ∅; sim_faults := faults |}.

(** The statement cannot be prepared: both handles are closed again. *)
Lemma mysql_refines_table_witness :
  let '(r, q') := mysql_LoadByAccount local_mysql "ada" (sim_with [player_row 7 "ada"] [false; false; false; false; true]) in
  status r = kUnavailable ∧ handles q' = ∅.
Proof.
  pose proof (mysql_refines_table local_mysql
    (sim_with [player_row 7 "ada"] [false; false; false; false; true])) as [H _].
  specialize (H "ada"%string). destruct (mysql_LoadByAccount _ _ _) as [r q'] eqn:E.
  assert (status (mysql_LoadByAccount local_mysql "ada"
    (sim_with [player_row 7 "ada"] [false; false; false; false; true])).1 = kUnavailable) as Hr
    by (vm_compute; reflexivity).
  rewrite E in Hr. split; [exact Hr|]. destruct H as [Hh _]. exact Hh.
Defined.

(** The save of a player whose id another account has is lost. *)
Lemma mysql_save_then_load_witness :
  let q1 := (mysql_Save local_mysql (player_row 7 "bob") (sim_with [player_row 7 "ada"] [])).2 in
  op_Ok (mysql_Save local_mysql (player_row 7 "bob") (sim_with [player_row 7 "ada"] [])).1 = true ∧
  result_Ok (mysql_LoadByAccount local_mysql "bob" q1).1 = false.
Proof.
  destruct (mysql_Save local_mysql (player_row 7 "bob") (sim_with [player_row 7 "ada"] [])) as [r q1] eqn:E.
  assert (op_Ok (mysql_Save local_mysql (player_row 7 "bob") (sim_with [player_row 7 "ada"] [])).1 = true) as Hr
    by (vm_compute; reflexivity).
  rewrite E in Hr. split; [exact Hr|].
  pose proof (mysql_save_then_load local_mysql (player_row 7 "bob") (sim_with [player_row 7 "ada"] []) q1 r) as H.
  assert (id_taken collation (player_row 7 "bob") (rows (sim_with [player_row 7 "ada"] [])) = true) as Ht
    by (vm_compute; reflexivity).
  cbv zeta in H. rewrite Ht in H. apply H.
  - split; vm_compute; repeat constructor; set_solver.
  - exact E.
  - exact Hr.
  - vm_compute. reflexivity.
Defined.
