(* ===== verification/RedisStore.v ===== *)
(** * The Redis session store

    [src/data/redis_session_store.cpp] over the calls of [hiredis] it makes: a type
    class with what its documentation and that of the commands [SET ... EX], [GET] and
    [DEL] say ([RedisLaws]), and a simulated server for concrete runs. A command is
    the list of its arguments after formatting; [now] is the instant the server
    executes it. *)

From stdpp Require Import pretty.
From S2P Require Import Prelude Double Numbers DataTypes.

Record RedisConfig := mkRedisConfig {
  redis_host : string;
  redis_port : Z;
  key_prefix : string;
  connect_timeout : Z
}.

(** The values [RedisConfig] is created with. *)
Definition redis_defaults : RedisConfig :=
  {| redis_host := "127.0.0.1"; redis_port := 6379; key_prefix := "mmo:session:"; connect_timeout := 1000 |}.

Inductive ReplyType :=
| REDIS_REPLY_STRING | REDIS_REPLY_ARRAY | REDIS_REPLY_INTEGER
| REDIS_REPLY_NIL | REDIS_REPLY_STATUS | REDIS_REPLY_ERROR.

#[export] Instance ReplyType_eq_dec : EqDecision ReplyType.
Proof. solve_decision. Defined.

(** A reply; [reply_str] is [str] and its [len] bytes, absent when null. *)
Record redisReply := mkReply { reply_type : ReplyType; reply_str : option string }.

Class Redis (Q : Type) := {
  redisConnectWithTimeout : Q → string → Z → Z * Z → option Z * Q;
  redis_err : Q → Z → Z;
  redis_errstr : Q → Z → string;
  redisCommand : Q → Z → Z → list string → option redisReply * Q;
  redisFree : Z → Q → Q
}.

Section store.
Context {Q : Type} `{!Redis Q}.
Implicit Types config : RedisConfig.

(** [Connect]: the context, or null and the [error] it leaves. *)
Definition redis_Connect config : St Q (option Z * string) :=
  let timeout := (Z.quot (connect_timeout config) 1000, Z.rem (connect_timeout config) 1000 * 1000) in
  connection ← (λ q, redisConnectWithTimeout q (redis_host config) (redis_port config) timeout) : St Q _;
  match connection with
  | None => mret (None, "redisConnectWithTimeout failed"%string)
  | Some connection =>
      err ← st_gets (λ q, redis_err q connection);
      if negb (err =? 0) then
        destroying (redisFree connection)
          (error ← st_gets (λ q, redis_errstr q connection); mret (None, error))
      else mret (Some connection, EmptyString)
  end.

Definition redis_Unavailable (message : string) : OperationResult := op_Failure kUnavailable message.

Definition KeyFor config (player_id : Z) : string := key_prefix config +:+ pretty player_id.

(** A command on a connection of its own, and what its reply (or its absence, with
    the connection's error) makes of the operation. *)
Definition with_reply {A} config now (command : list string) (fail : string → A)
    (body : redisReply → A) : St Q A :=
  '(connection, error) ← redis_Connect config;
  match connection with
  | None => mret (fail error)
  | Some connection =>
      destroying (redisFree connection)
        (reply ← (λ q, redisCommand q connection now command) : St Q _;
         match reply with
         | None => error ← st_gets (λ q, redis_errstr q connection); mret (fail error)
         | Some reply => mret (body reply)
         end)
  end.

Definition redis_Store config now (s : SessionRecord) (ttl : Z) : St Q OperationResult :=
  if (session_player_id s =? 0) || str_empty (token s) || (ttl <=? 0) then
    mret (op_Failure kInvalidArgument "player_id, token and positive ttl are required")
  else
    with_reply config now ["SET"; KeyFor config (session_player_id s); token s; "EX"; pretty ttl]%string
      redis_Unavailable (λ reply,
        if decide (reply_type reply = REDIS_REPLY_ERROR) then
          redis_Unavailable (default "Redis SET failed"%string (reply_str reply))
        else if negb (bool_decide (reply_type reply = REDIS_REPLY_STATUS))
                || negb (bool_decide (reply_str reply = Some "OK"%string)) then
          redis_Unavailable "Redis SET returned an unexpected reply"
        else op_Success).

Definition redis_Load config now (player_id : Z) : St Q (DataResult SessionRecord) :=
  if player_id =? 0 then mret (result_Failure kInvalidArgument "player_id must be greater than zero")
  else
    with_reply config now ["GET"; KeyFor config player_id]%string (result_Failure kUnavailable) (λ reply,
      if decide (reply_type reply = REDIS_REPLY_NIL) then result_NotFound
      else if decide (reply_type reply = REDIS_REPLY_ERROR) then
        result_Failure kUnavailable (default "Redis GET failed"%string (reply_str reply))
      else
        match reply_type reply, reply_str reply with
        | REDIS_REPLY_STRING, Some str => result_Success {| session_player_id := player_id; token := str |}
        | _, _ => result_Failure kUnavailable "Redis GET returned an unexpected reply"
        end).

Definition redis_Remove config now (player_id : Z) : St Q OperationResult :=
  if player_id =? 0 then mret (op_Failure kInvalidArgument "player_id must be greater than zero")
  else
    with_reply config now ["DEL"; KeyFor config player_id]%string redis_Unavailable (λ reply,
      if decide (reply_type reply = REDIS_REPLY_ERROR) then
        redis_Unavailable (default "Redis DEL failed"%string (reply_str reply))
      else if negb (bool_decide (reply_type reply = REDIS_REPLY_INTEGER)) then
        redis_Unavailable "Redis DEL returned an unexpected reply"
      else op_Success).

(** [class RedisSessionStore : public SessionStore] *)
Definition redis_session_store config : SessionStore Q :=
  {| Store q now s ttl := redis_Store config now s ttl q;
     Load q now p := redis_Load config now p q;
     Remove q now p := redis_Remove config now p q |}.
End store.

(** ** What the store relies on *)

(** [contexts]: the open contexts; [binding q t key]: the value of a key at the
    instant [t] if nothing more is executed. *)
Class RedisLaws (Q : Type) `{Redis Q} := {
  contexts : Q → gset Z;
  binding : Q → Z → string → option string;
  redis_connect_law q host port timeout :
    match redisConnectWithTimeout q host port timeout with
    | (Some c, q') => c ∉ contexts q ∧ contexts q' = {[c]} ∪ contexts q ∧ binding q' = binding q
    | (None, q') => contexts q' = contexts q ∧ binding q' = binding q
    end;
  redis_free_law q c : contexts (redisFree c q) = contexts q ∖ {[c]} ∧ binding (redisFree c q) = binding q;
  command_contexts q c now command : contexts (redisCommand q c now command).2 = contexts q;
  set_law q c now key val ttl : 0 < ttl →
    match redisCommand q c now ["SET"; key; val; "EX"; pretty ttl]%string with
    | (Some {| reply_type := REDIS_REPLY_STATUS |}, q') => ∀ t k, now <= t →
        binding q' t k = if decide (k = key) then if t <? now + ttl * 1000000000 then Some val else None
                         else binding q t k
    | (_, q') => ∀ t k, now <= t → k ≠ key → binding q' t k = binding q t k
    end;
  get_law q c now key :
    match redisCommand q c now ["GET"; key]%string with
    | (reply, q') => binding q' = binding q ∧
        match reply with
        | Some {| reply_type := REDIS_REPLY_NIL |} => binding q now key = None
        | Some {| reply_type := REDIS_REPLY_STRING; reply_str := s |} => binding q now key = s
        | _ => True
        end
    end;
  del_law q c now key :
    match redisCommand q c now ["DEL"; key]%string with
    | (Some {| reply_type := REDIS_REPLY_INTEGER |}, q') => ∀ t k,
        binding q' t k = if decide (k = key) then None else binding q t k
    | (_, q') => ∀ t k, k ≠ key → binding q' t k = binding q t k
    end
}.

Lemma KeyFor_inj config p1 p2 : KeyFor config p1 = KeyFor config p2 → p1 = p2.
Proof. unfold KeyFor. by intros E%(inj _)%(inj _). Qed.

Section laws.
Context {Q : Type} `{!Redis Q} `{!RedisLaws Q}.
Implicit Types q : Q.

Lemma redis_Connect_spec config q :
  sp (redis_Connect config) (λ r q', binding q' = binding q ∧
    match r.1 with
    | Some c => c ∉ contexts q ∧ contexts q' = {[c]} ∪ contexts q
    | None => contexts q' = contexts q
    end) q.
Proof.
  unfold redis_Connect. apply sp_bind. unfold sp at 1.
  match goal with |- context [redisConnectWithTimeout q ?h ?p ?t] =>
    pose proof (redis_connect_law q h p t) as Hc; destruct (redisConnectWithTimeout q h p t) as [[c|] q1] end;
    cbn [fst snd].
  - destruct Hc as (Hc & Hh & Hb). apply sp_bind. unfold sp at 1, st_gets. cbn [fst snd].
    destruct (negb _).
    + apply sp_error. cbn. destruct (redis_free_law q1 c) as [-> ->]. rewrite Hh, Hb. split; [done|]. set_solver.
    + by unfold sp.
  - unfold sp. cbn. by destruct Hc.
Qed.

(** The command is executed at most once, on a context that is freed again. *)
Lemma with_reply_spec {A} config now command fail (body : redisReply → A)
    (P : A → (Z → string → option string) → Prop) q :
  (∀ e, P (fail e) (binding q)) →
  (∀ c q1 reply q2, binding q1 = binding q → redisCommand q1 c now command = (reply, q2) →
     match reply with
     | None => ∀ e, P (fail e) (binding q2)
     | Some r => P (body r) (binding q2)
     end) →
  sp (with_reply config now command fail body) (λ a q', contexts q' = contexts q ∧ P a (binding q')) q.
Proof.
  intros Hf Hb. apply sp_bind. eapply sp_wand; [apply redis_Connect_spec|].
  intros [[c|] e] q1 [Hq1 Hh]; cbn in *.
  - destruct Hh as [Hc Hh]. pose proof (command_contexts q1 c now command) as Hk.
    specialize (Hb c q1). apply sp_destroying, sp_bind, sp_call.
    destruct (redisCommand q1 c now command) as [reply q2]. cbn in Hk. specialize (Hb _ _ Hq1 eq_refl).
    assert (contexts (redisFree c q2) = contexts q ∧ binding (redisFree c q2) = binding q2) as [Ec Eb].
    { destruct (redis_free_law q2 c) as [-> ->]. rewrite Hk, Hh. set_solver. }
    destruct reply as [r|]; [|apply sp_bind]; unfold sp; cbn; rewrite Eb; by split.
  - unfold sp. cbn. split; [done|]. rewrite Hq1. apply Hf.
Qed.
End laws.

(** ** The contract of the store *)

Section contract.
Context {Q : Type} `{!Redis Q} `{!RedisLaws Q}.
Implicit Types (q : Q) (config : RedisConfig).

(** The session of a player at the instant [t]. *)
Definition redis_live config q (t p : Z) : option SessionRecord :=
  (λ v, {| session_player_id := p; token := v |}) <$> binding q t (KeyFor config p).

Definition store_guard (s : SessionRecord) (ttl : Z) : bool :=
  (session_player_id s =? 0) || str_empty (token s) || (ttl <=? 0).

Lemma redis_live_ne config (b1 b2 : Z → string → option string) t p p0 :
  p ≠ p0 → (KeyFor config p ≠ KeyFor config p0 → b1 t (KeyFor config p) = b2 t (KeyFor config p)) →
  (λ v, {| session_player_id := p; token := v |}) <$> b1 t (KeyFor config p) =
  (λ v, {| session_player_id := p; token := v |}) <$> b2 t (KeyFor config p).
Proof. intros Hp Hb. rewrite Hb; [done|]. by intros ?%KeyFor_inj. Qed.

Lemma redis_Store_spec config now s ttl q :
  sp (redis_Store config now s ttl) (λ r q', contexts q' = contexts q ∧
    (op_status r = kInvalidArgument ↔ store_guard s ttl = true) ∧
    (store_guard s ttl = true → binding q' = binding q) ∧
    (∀ t p, now <= t → p ≠ session_player_id s → redis_live config q' t p = redis_live config q t p) ∧
    (op_Ok r = true → ∀ t, now <= t → redis_live config q' t (session_player_id s) =
       if t <? now + ttl * 1000000000 then Some s else None)) q.
Proof.
  unfold redis_Store. fold (store_guard s ttl). destruct (store_guard s ttl) eqn:Eg; [by unfold sp|].
  apply (with_reply_spec config now _ _ _ (λ r b, (op_status r = kInvalidArgument ↔ false = true) ∧
    (false = true → b = binding q) ∧
    (∀ t p, now <= t → p ≠ session_player_id s →
      (λ v, {| session_player_id := p; token := v |}) <$> b t (KeyFor config p) = redis_live config q t p) ∧
    (op_Ok r = true → ∀ t, now <= t →
      (λ v, {| session_player_id := session_player_id s; token := v |}) <$> b t (KeyFor config (session_player_id s)) =
      if t <? now + ttl * 1000000000 then Some s else None))); [done|].
  assert (0 < ttl) as Httl by (unfold store_guard in Eg; bool_lia).
  intros c q1 reply q2 Hq1 E. pose proof (set_law q1 c now (KeyFor config (session_player_id s)) (token s) ttl Httl) as Hs.
  rewrite E, Hq1 in Hs.
  assert (∀ t p, now <= t → p ≠ session_player_id s →
      (λ v, {| session_player_id := p; token := v |}) <$> binding q2 t (KeyFor config p) = redis_live config q t p) as Hf.
  { intros t p Ht Hp. apply (redis_live_ne _ _ _ _ _ _ Hp). intros Hk.
    destruct reply as [[[] str]|]; try by apply Hs. rewrite Hs by done. by rewrite decide_False. }
  destruct reply as [[ty str]|]; [|done]. cbn. case_decide as H1; [done|].
  destruct (bool_decide (ty = _)) eqn:E1; [|done]. destruct (bool_decide (str = _)) eqn:E2; [|done].
  cbn. apply bool_decide_eq_true in E1 as ->. split; [done|]. split; [done|]. split; [done|]. intros _ t Ht.
  rewrite (Hs t _ Ht), decide_True by done. destruct s. by destruct (t <? _).
Qed.

Lemma redis_Load_spec config now p q :
  sp (redis_Load config now p) (λ r q', contexts q' = contexts q ∧ binding q' = binding q ∧
    (status r = kInvalidArgument ↔ p = 0) ∧
    (status r = kOk → ∃ s, r = result_Success s ∧ redis_live config q now p = Some s) ∧
    (status r = kNotFound → r = result_NotFound ∧ redis_live config q now p = None)) q.
Proof.
  unfold redis_Load. destruct (Z.eqb_spec p 0) as [->|Hp]; [done|].
  apply (with_reply_spec config now _ _ _ (λ r b, b = binding q ∧ (status r = kInvalidArgument ↔ p = 0) ∧
    (status r = kOk → ∃ s, r = result_Success s ∧ redis_live config q now p = Some s) ∧
    (status r = kNotFound → r = result_NotFound ∧ redis_live config q now p = None))); [done|].
  intros c q1 reply q2 Hq1 E. pose proof (get_law q1 c now (KeyFor config p)) as Hg. rewrite E, Hq1 in Hg.
  destruct Hg as [Hb Hg]. destruct reply as [[ty str]|]; [|done]. unfold redis_live. rewrite Hb. cbn.
  repeat case_decide; subst; cbn; [by rewrite Hg|done|]. destruct ty; try done. rewrite Hg. destruct str; [|done].
  cbn. split; [done|]. split; [done|]. split; [|done]. intros _. eexists. by split.
Qed.

Lemma redis_Remove_spec config now p q :
  sp (redis_Remove config now p) (λ r q', contexts q' = contexts q ∧
    (op_status r = kInvalidArgument ↔ p = 0) ∧ (p = 0 → binding q' = binding q) ∧
    (∀ t p', p' ≠ p → redis_live config q' t p' = redis_live config q t p') ∧
    (op_Ok r = true → ∀ t, redis_live config q' t p = None)) q.
Proof.
  unfold redis_Remove. destruct (Z.eqb_spec p 0) as [->|Hp]; [by unfold sp|].
  apply (with_reply_spec config now _ _ _ (λ r b, (op_status r = kInvalidArgument ↔ p = 0) ∧
    (p = 0 → b = binding q) ∧
    (∀ t p', p' ≠ p →
      (λ v, {| session_player_id := p'; token := v |}) <$> b t (KeyFor config p') = redis_live config q t p') ∧
    (op_Ok r = true → ∀ t, (λ v, {| session_player_id := p; token := v |}) <$> b t (KeyFor config p) = None))); [done|].
  intros c q1 reply q2 Hq1 E. pose proof (del_law q1 c now (KeyFor config p)) as Hd. rewrite E, Hq1 in Hd.
  assert (∀ t p', p' ≠ p →
      (λ v, {| session_player_id := p'; token := v |}) <$> binding q2 t (KeyFor config p') = redis_live config q t p') as Hf.
  { intros t p' Hne. apply (redis_live_ne _ _ _ _ _ _ Hne). intros Hk.
    destruct reply as [[[] str]|]; try by apply Hd. rewrite Hd. by rewrite decide_False. }
  destruct reply as [[ty str]|]; [|done]. cbn. case_decide as H1; [done|].
  destruct (bool_decide (ty = _)) eqn:E1; [|done]. cbn. apply bool_decide_eq_true in E1 as ->.
  split; [done|]. split; [done|]. split; [done|]. intros _ t. by rewrite Hd, decide_True.
Qed.

(** The interface the data service is written against. *)
Definition redis_session_laws config :
  SessionStoreLaws Q (H := redis_session_store config).
Proof.
  refine (@Build_SessionStoreLaws Q (redis_session_store config) (redis_live config) _ _ _ _ _); cbn.
  - intros q now p [H _]%result_Ok_spec. pose proof (redis_Load_spec config now p q) as (_ & _ & _ & Hl & _).
    destruct (Hl H) as (s & -> & ->). done.
  - intros q now p H. pose proof (redis_Load_spec config now p q) as (_ & _ & _ & _ & Hl). by apply Hl.
  - intros q now p p' t _. pose proof (redis_Load_spec config now p q) as (_ & Hb & _).
    unfold redis_live. by rewrite Hb.
  - intros q now s ttl H H0 _. pose proof (redis_Store_spec config now s ttl q) as (_ & Hg & _ & _ & Hs).
    rewrite (Hs H) by lia. apply op_Ok_spec in H.
    assert (0 < ttl) as Httl.
    { destruct (store_guard s ttl) eqn:E; [destruct Hg as [_ Hg]; rewrite Hg in H by done; done|].
      unfold store_guard in E. bool_lia. }
    by rewrite (proj2 (Z.ltb_lt _ _)) by lia.
  - intros q now p t H. pose proof (redis_Remove_spec config now p q) as (_ & _ & _ & _ & Hs). by apply Hs.
Defined.
End contract.

(** ** A simulated server *)

(** The keys with their values and the instants they expire at; a list of faults,
    one for each call that can fail. *)
Inductive RedisFault := NoContext | ContextError | NoReply | ErrorReply.

#[export] Instance RedisFault_eq_dec : EqDecision RedisFault.
Proof. solve_decision. Defined.

Record SimRedis := mkSimRedis {
  sim_keys : gmap string (string * Z);
  sim_contexts : gset Z;
  sim_redis_faults : list (option RedisFault);
  sim_last : option RedisFault
}.

Definition sim_redis_set (k : gmap string (string * Z)) (c : gset Z) (q : SimRedis) : SimRedis :=
  {| sim_keys := k; sim_contexts := c; sim_redis_faults := sim_redis_faults q; sim_last := sim_last q |}.

Definition sim_redis_pop (q : SimRedis) : option RedisFault * SimRedis :=
  let f := default None (head (sim_redis_faults q)) in
  (f, {| sim_keys := sim_keys q; sim_contexts := sim_contexts q;
         sim_redis_faults := tail (sim_redis_faults q); sim_last := f |}).

Definition sim_redis_connect (q : SimRedis) : option Z * SimRedis :=
  let '(f, q) := sim_redis_pop q in
  if decide (f = Some NoContext) then (None, q)
  else let c := fresh (sim_contexts q) in (Some c, sim_redis_set (sim_keys q) ({[c]} ∪ sim_contexts q) q).

(** The value of a key, unless it has expired. *)
Definition sim_value (keys : gmap string (string * Z)) (t : Z) (key : string) : option string :=
  match keys !! key with Some (v, e) => if t <? e then Some v else None | None => None end.

(** [SET key val EX ttl], [GET key] and [DEL key]. *)
Definition sim_run (now : Z) (command : list string) (keys : gmap string (string * Z))
    : redisReply * gmap string (string * Z) :=
  match command with
  | ["SET"; key; val; "EX"; ttl]%string =>
      match stoul "ttl" ttl with
      | Returns (t, _) => (mkReply REDIS_REPLY_STATUS (Some "OK"%string), <[key := (val, now + t * 1000000000)]> keys)
      | Throws _ => (mkReply REDIS_REPLY_ERROR (Some "ERR"%string), keys)
      end
  | ["GET"; key]%string =>
      (match sim_value keys now key with
       | Some v => mkReply REDIS_REPLY_STRING (Some v)
       | None => mkReply REDIS_REPLY_NIL None
       end, keys)
  | ["DEL"; key]%string => (mkReply REDIS_REPLY_INTEGER None, delete key keys)
  | _ => (mkReply REDIS_REPLY_ERROR None, keys)
  end.

Definition sim_command (q : SimRedis) (now : Z) (command : list string) : option redisReply * SimRedis :=
  let '(f, q) := sim_redis_pop q in
  if decide (f = Some NoReply) then (None, q)
  else if decide (f = Some ErrorReply) then (Some (mkReply REDIS_REPLY_ERROR (Some "ERR"%string)), q)
  else let '(reply, keys) := sim_run now command (sim_keys q) in
       (Some reply, sim_redis_set keys (sim_contexts q) q).

#[export] Instance sim_redis : Redis SimRedis := {
  redisConnectWithTimeout q _ _ _ := sim_redis_connect q;
  redis_err q _ := if decide (sim_last q = Some ContextError) then 1 else 0;
  redis_errstr _ _ := "simulated failure"%string;
  redisCommand q _ now command := sim_command q now command;
  redisFree c q := sim_redis_set (sim_keys q) (sim_contexts q ∖ {[c]}) q
}.

#[export] Instance sim_redis_laws : RedisLaws SimRedis.
Proof.
  refine {| contexts := sim_contexts; binding q t key := sim_value (sim_keys q) t key |};
    cbn [redisConnectWithTimeout redisCommand redisFree sim_redis]; try done; unfold sim_redis_connect, sim_command;
    cbn [sim_redis_pop].
  - intros q _ _ _. case_decide; [done|]. split; [apply is_fresh|done].
  - intros q _ now command. repeat case_decide; [done..|]. by destruct (sim_run _ _ _).
  - intros q _ now key val ttl Httl. repeat case_decide; [done..|]. unfold sim_run, stoul.
    rewrite scan_number_pretty by lia. destruct (SIZE_MAX <? ttl); [done|]. intros t k Ht. cbn. unfold sim_value.
    destruct (decide (k = key)) as [->|Hne]; [by rewrite lookup_insert_eq|by rewrite lookup_insert_ne].
  - intros q _ now key. repeat case_decide; [done..|]. cbn. destruct (sim_value _ now key); by split.
  - intros q _ now key. repeat case_decide; [done..|]. intros t k. cbn. unfold sim_value.
    destruct (decide (k = key)) as [->|Hne]; [by rewrite lookup_delete_eq|by rewrite lookup_delete_ne].
Defined.

(** ** Refinement of a table of sessions *)

Inductive SessionOp :=
| StoreOp (s : SessionRecord) (ttl : Z)
| LoadOp (p : Z)
| RemoveOp (p : Z).

Definition SessionAnswer : Type := OperationResult + DataResult SessionRecord.

Definition redis_op {Q} `{!Redis Q} config now (op : SessionOp) : St Q SessionAnswer :=
  match op with
  | StoreOp s ttl => r ← redis_Store config now s ttl; mret (inl r)
  | LoadOp p => r ← redis_Load config now p; mret (inr r)
  | RemoveOp p => r ← redis_Remove config now p; mret (inl r)
  end.

Fixpoint redis_run {Q} `{!Redis Q} config (ops : list (Z * SessionOp)) : St Q (list SessionAnswer) :=
  match ops with
  | [] => mret []
  | (now, op) :: ops => a ← redis_op config now op; l ← redis_run config ops; mret (a :: l)
  end.

(** The specification: what is known of the players' sessions, a token and the
    instant it expires at, or no session. A call that may or may not have reached
    the server leaves its player unknown. *)
Definition Sessions : Type := gmap Z (option (string * Z)).

Definition session_at (known : option (string * Z)) (t : Z) : option string :=
  match known with Some (v, e) => if t <? e then Some v else None | None => None end.

Definition spec_next (k : Sessions) (now : Z) (op : SessionOp) (answer : SessionAnswer) : Sessions :=
  match op, answer with
  | StoreOp s ttl, inl r =>
      match op_status r with
      | kOk => <[session_player_id s := Some (token s, now + ttl * 1000000000)]> k
      | kInvalidArgument => k
      | _ => delete (session_player_id s) k
      end
  | RemoveOp p, inl r =>
      match op_status r with kOk => <[p := None]> k | kInvalidArgument => k | _ => delete p k end
  | _, _ => k
  end.

Definition spec_allows (k : Sessions) (now : Z) (op : SessionOp) (answer : SessionAnswer) : Prop :=
  match op, answer with
  | StoreOp s ttl, inl r => op_status r = kInvalidArgument ↔ store_guard s ttl = true
  | RemoveOp p, inl r => op_status r = kInvalidArgument ↔ p = 0
  | LoadOp p, inr r =>
      (status r = kInvalidArgument ↔ p = 0) ∧
      (p ≠ 0 → ∀ known, k !! p = Some known →
        status r = kUnavailable ∨
        r = match session_at known now with
            | Some v => result_Success {| session_player_id := p; token := v |}
            | None => result_NotFound
            end)
  | _, _ => False
  end.

Fixpoint spec_run (k : Sessions) (ops : list (Z * SessionOp)) (answers : list SessionAnswer) : Prop :=
  match ops, answers with
  | [], [] => True
  | (now, op) :: ops, a :: answers => spec_allows k now op a ∧ spec_run (spec_next k now op a) ops answers
  | _, _ => False
  end.

(** The instants of the calls do not decrease. *)
Fixpoint timed (now : Z) (ops : list (Z * SessionOp)) : Prop :=
  match ops with [] => True | (t, _) :: ops => now <= t ∧ timed t ops end.

Section refinement.
Context {Q : Type} `{!Redis Q} `{!RedisLaws Q}.
Implicit Types (q : Q) (config : RedisConfig) (k : Sessions).

Definition knows config q now k : Prop := ∀ p known t, k !! p = Some known → now <= t →
  redis_live config q t p = (λ v, {| session_player_id := p; token := v |}) <$> session_at known t.

Lemma knows_later config q now now' k : now <= now' → knows config q now k → knows config q now' k.
Proof. intros Hn Hk p known t Hp Ht. apply Hk; [done|lia]. Qed.

Lemma knows_frame config q q' now k p0 :
  knows config q now k → (∀ t p, now <= t → p ≠ p0 → redis_live config q' t p = redis_live config q t p) →
  knows config q' now (delete p0 k).
Proof. intros Hk Hf p known t [Hne Hp]%lookup_delete_Some Ht. rewrite Hf by done. by apply Hk. Qed.

Lemma knows_insert config q q' now k p0 known0 :
  knows config q now k → (∀ t p, now <= t → p ≠ p0 → redis_live config q' t p = redis_live config q t p) →
  (∀ t, now <= t → redis_live config q' t p0 = (λ v, {| session_player_id := p0; token := v |}) <$> session_at known0 t) →
  knows config q' now (<[p0 := known0]> k).
Proof.
  intros Hk Hf H0 p known t [[<- <-]|[Hne Hp]]%lookup_insert_Some Ht; [by apply H0|].
  rewrite Hf by done. by apply Hk.
Qed.

Lemma knows_same config q q' now k : knows config q now k → binding q' = binding q → knows config q' now k.
Proof. unfold knows, redis_live. by intros Hk ->. Qed.

(** One call is a step of the specification. *)
Lemma redis_op_refines config now op k q :
  knows config q now k →
  sp (redis_op config now op) (λ a q', contexts q' = contexts q ∧ spec_allows k now op a ∧
    knows config q' now (spec_next k now op a)) q.
Proof.
  intros Hk. destruct op as [s ttl|p|p]; apply sp_bind.
  - eapply sp_wand; [apply redis_Store_spec|]. intros r q' (Hc & Hg & Hi & Hf & Hs). apply sp_ret.
    split; [done|]. split; [done|]. cbn. destruct (op_status r) eqn:E.
    + apply (knows_insert config q); [done|done|]. intros t Ht. rewrite Hs by (try apply op_Ok_spec; done).
      cbn. destruct s. by destruct (t <? _).
    + by apply (knows_frame config q).
    + apply (knows_same config q); [done|]. by apply Hi, Hg.
    + by apply (knows_frame config q).
  - eapply sp_wand; [apply redis_Load_spec|]. intros r q' (Hc & Hb & Hg & Hok & Hno). apply sp_ret.
    split; [done|]. split; [|by apply (knows_same config q)]. cbn. split; [done|]. intros Hp known Hkn.
    pose proof (Hk p known now Hkn ltac:(lia)) as Hl. destruct (status r) eqn:E.
    + right. destruct (Hok eq_refl) as (s & -> & Hs). rewrite Hl in Hs.
      destruct (session_at known now) as [v|]; [|done]. by injection Hs as <-.
    + right. destruct (Hno eq_refl) as [-> Hs]. rewrite Hl in Hs. by destruct (session_at known now).
    + destruct Hp. by apply Hg.
    + by left.
  - eapply sp_wand; [apply redis_Remove_spec|]. intros r q' (Hc & Hg & Hi & Hf & Hs). apply sp_ret.
    split; [done|]. split; [done|]. cbn. destruct (op_status r) eqn:E.
    + apply (knows_insert config q); [done|auto|]. intros t Ht. by rewrite Hs by by apply op_Ok_spec.
    + apply (knows_frame config q); auto.
    + apply (knows_same config q); [done|]. by apply Hi, Hg.
    + apply (knows_frame config q); auto.
Qed.

(** C20: the Redis session store refines a table of expiring sessions, on every run of
    calls at non-decreasing instants and with failures anywhere: a load of a player
    whose last store or remove was acknowledged either reports the store unavailable
    or answers exactly the token stored last, [kNotFound] once its time to live has
    passed or after a remove, whatever was stored for other players; invalid
    arguments are the only ones refused as such; and no call leaks its connection. *)
Theorem redis_refines_sessions config q now ops :
  timed now ops →
  spec_run ∅ ops (redis_run config ops q).1 ∧ contexts (redis_run config ops q).2 = contexts q.
Proof.
  assert (knows config q now ∅) as Hk by (intros p known t Hp; by apply lookup_empty_Some in Hp).
  revert now q Hk. generalize (∅ : Sessions). induction ops as [|[t op] ops IH]; intros k now q Hk; [done|].
  intros [Ht Hops]. cbn [redis_run]. rewrite st_bind_eq.
  destruct (redis_op_refines config t op k q) as (Hc & Ha & Hn); [by eapply knows_later|].
  destruct (redis_op config t op q) as [a q1]. cbn [fst snd] in *. rewrite st_bind_eq.
  destruct (IH _ _ _ Hn Hops) as [Hr Hc2]. destruct (redis_run config ops q1) as [l q2]. cbn in *.
  split; [done|congruence].
Qed.
End refinement.

Definition sim_redis_start : SimRedis :=
  {| sim_keys := ∅; sim_contexts := ∅; sim_last := None;
     sim_redis_faults := [None; None; None; None; None; None; Some ContextError; None; Some NoReply;
                          None; Some ErrorReply; Some NoContext] |}.
Definition sim_second : Z := 1000000000.
Definition sim_ops : list (Z * SessionOp) :=
  [(0, StoreOp {| session_player_id := 7; token := "secret" |} 10); (5 * sim_second, LoadOp 7);
   (10 * sim_second, LoadOp 7); (10 * sim_second, RemoveOp 7); (11 * sim_second, LoadOp 7);
   (11 * sim_second, StoreOp {| session_player_id := 7; token := "other" |} 10);
   (12 * sim_second, LoadOp 7); (13 * sim_second, LoadOp 0); (13 * sim_second, LoadOp 7)].

Lemma redis_refines_sessions_witness :
  ((redis_run redis_defaults sim_ops sim_redis_start).1 =
    [inl op_Success; inr (result_Success {| session_player_id := 7; token := "secret" |}); inr result_NotFound;
     inl (redis_Unavailable "simulated failure"); inr (result_Failure kUnavailable "simulated failure");
     inl (redis_Unavailable "ERR"); inr (result_Failure kUnavailable "redisConnectWithTimeout failed");
     inr (result_Failure kInvalidArgument "player_id must be greater than zero"); inr result_NotFound]) ∧
  spec_run ∅ sim_ops (redis_run redis_defaults sim_ops sim_redis_start).1 ∧
  contexts (redis_run redis_defaults sim_ops sim_redis_start).2 = contexts sim_redis_start.
Proof.
  split; [vm_compute; reflexivity|].
  apply (redis_refines_sessions redis_defaults sim_redis_start 0 sim_ops). cbn. unfold sim_second. lia.
Defined.
