(* ===== verification/ThreadPool.v ===== *)
(** * The bounded thread pool

    [src/concurrency/bounded_thread_pool.cpp]: a mutex-protected bounded queue,
    a condition variable and a fixed set of workers.

    The code between two lock operations is one atomic function of the pool's
    state ([TrySubmit], [Shutdown_locked], [WorkerLoop_locked]); the
    interleavings of submitters, workers and the condition variable (its
    [notify]s happen after the lock is released; waits may wake spuriously) are
    the step relation [pool_step]. Tasks are values of a type [A]; what running
    one does is the business of [AsyncData].

    [accepted], [started] and [finished] are histories that the code does not
    have and that nothing reads. *)

From S2P Require Import Prelude.

(** Where a worker thread is in [WorkerLoop]. *)
Inductive WorkerPhase (A : Type) :=
| AtLock            (** about to take the lock and test the predicate *)
| Waiting           (** blocked in [task_available_.wait] *)
| Running (task : A) (** outside the lock, executing the task *)
| Exited.           (** returned *)
Arguments AtLock {A}.
Arguments Waiting {A}.
Arguments Running {A} task.
Arguments Exited {A}.

Record BoundedThreadPool (A : Type) := mkBoundedThreadPool {
  queue_capacity_ : nat;
  tasks_ : list A;
  workers_ : list (WorkerPhase A);
  accepting_tasks_ : bool;
  notify_one_pending : nat;
  notify_all_pending : bool;
  accepted : list A;
  started : list A;
  finished : list A
}.
Arguments mkBoundedThreadPool {A}.
Arguments queue_capacity_ {A}.
Arguments tasks_ {A}.
Arguments workers_ {A}.
Arguments accepting_tasks_ {A}.
Arguments notify_one_pending {A}.
Arguments notify_all_pending {A}.
Arguments accepted {A}.
Arguments started {A}.
Arguments finished {A}.

Section pool.
Context {A : Type}.
Implicit Types (p : BoundedThreadPool A) (t : A) (ph : WorkerPhase A).

(** The constructor, when every [std::thread] starts. *)
Definition BoundedThreadPool_new (worker_count queue_capacity : nat)
    : Outcome (BoundedThreadPool A) :=
  if (worker_count =? 0)%nat || (queue_capacity =? 0)%nat then
    Throws (invalid_argument "worker count and queue capacity must be positive")
  else
    Returns {| queue_capacity_ := queue_capacity; tasks_ := [];
               workers_ := replicate worker_count AtLock; accepting_tasks_ := true;
               notify_one_pending := 0; notify_all_pending := false;
               accepted := []; started := []; finished := [] |}.

(** [TrySubmit]: [None] is an empty [std::function]. On success the caller still
    owes the [notify_one] after the lock. *)
Definition TrySubmit p (task : option A) : bool * BoundedThreadPool A :=
  match task with
  | None => (false, p)
  | Some task =>
      if negb (accepting_tasks_ p) || (queue_capacity_ p <=? length (tasks_ p))%nat then (false, p)
      else
        (true,
         {| queue_capacity_ := queue_capacity_ p; tasks_ := tasks_ p ++ [task];
            workers_ := workers_ p; accepting_tasks_ := accepting_tasks_ p;
            notify_one_pending := S (notify_one_pending p);
            notify_all_pending := notify_all_pending p;
            accepted := accepted p ++ [task]; started := started p; finished := finished p |})
  end.

Definition set_workers p (ws : list (WorkerPhase A)) : BoundedThreadPool A :=
  {| queue_capacity_ := queue_capacity_ p; tasks_ := tasks_ p; workers_ := ws;
     accepting_tasks_ := accepting_tasks_ p; notify_one_pending := notify_one_pending p;
     notify_all_pending := notify_all_pending p; accepted := accepted p;
     started := started p; finished := finished p |}.

Definition set_notify p (one : nat) (all : bool) : BoundedThreadPool A :=
  {| queue_capacity_ := queue_capacity_ p; tasks_ := tasks_ p; workers_ := workers_ p;
     accepting_tasks_ := accepting_tasks_ p; notify_one_pending := one;
     notify_all_pending := all; accepted := accepted p;
     started := started p; finished := finished p |}.

(** The locked part of [Shutdown]; [None] is its early return. *)
Definition Shutdown_locked p : option (BoundedThreadPool A) :=
  if negb (accepting_tasks_ p) && (length (workers_ p) =? 0)%nat then None
  else
    Some {| queue_capacity_ := queue_capacity_ p; tasks_ := tasks_ p; workers_ := workers_ p;
            accepting_tasks_ := false; notify_one_pending := notify_one_pending p;
            notify_all_pending := true; accepted := accepted p;
            started := started p; finished := finished p |}.

Definition PendingTasks p : nat := length (tasks_ p).
Definition AcceptingTasks p : bool := accepting_tasks_ p.

(** The locked part of an iteration of [WorkerLoop]: the predicate of [wait], the
    exit test, and the pop. *)
Definition WorkerLoop_locked p : WorkerPhase A * BoundedThreadPool A :=
  match tasks_ p with
  | [] => if accepting_tasks_ p then (Waiting, p) else (Exited, p)
  | task :: rest =>
      (Running task,
       {| queue_capacity_ := queue_capacity_ p; tasks_ := rest; workers_ := workers_ p;
          accepting_tasks_ := accepting_tasks_ p; notify_one_pending := notify_one_pending p;
          notify_all_pending := notify_all_pending p; accepted := accepted p;
          started := started p ++ [task]; finished := finished p |})
  end.

Definition wake_all (ws : list (WorkerPhase A)) : list (WorkerPhase A) :=
  (λ ph, match ph with Waiting => AtLock | _ => ph end) <$> ws.

(** The steps of the threads. *)
Inductive pool_step : BoundedThreadPool A → BoundedThreadPool A → Prop :=
| step_submit p t p' :
    TrySubmit p (Some t) = (true, p') → pool_step p p'
| step_notify_one_wakes p i n :
    notify_one_pending p = S n → workers_ p !! i = Some Waiting →
    pool_step p (set_workers (set_notify p n (notify_all_pending p)) (<[i := AtLock]> (workers_ p)))
| step_notify_one_nobody p n :
    notify_one_pending p = S n → Waiting ∉ workers_ p →
    pool_step p (set_notify p n (notify_all_pending p))
| step_shutdown p p' :
    Shutdown_locked p = Some p' → pool_step p p'
| step_notify_all p :
    notify_all_pending p = true →
    pool_step p (set_workers (set_notify p (notify_one_pending p) false) (wake_all (workers_ p)))
| step_spurious p i :
    workers_ p !! i = Some Waiting →
    pool_step p (set_workers p (<[i := AtLock]> (workers_ p)))
| step_worker p i ph p' :
    workers_ p !! i = Some AtLock → WorkerLoop_locked p = (ph, p') →
    pool_step p (set_workers p' (<[i := ph]> (workers_ p')))
| step_finish p i t :
    workers_ p !! i = Some (Running t) →
    pool_step p
      {| queue_capacity_ := queue_capacity_ p; tasks_ := tasks_ p;
         workers_ := <[i := AtLock]> (workers_ p); accepting_tasks_ := accepting_tasks_ p;
         notify_one_pending := notify_one_pending p; notify_all_pending := notify_all_pending p;
         accepted := accepted p; started := started p; finished := finished p ++ [t] |}
| step_join p :
    accepting_tasks_ p = false → notify_all_pending p = false → workers_ p ≠ [] →
    (∀ ph, ph ∈ workers_ p → ph = Exited) →
    pool_step p (set_workers p []).

(** The tasks in execution. *)
Definition running (ws : list (WorkerPhase A)) : list A :=
  omap (λ ph, match ph with Running t => Some t | _ => None end) ws.

Definition active ph : Prop := ph = AtLock ∨ ∃ t, ph = Running t.

(** The invariant of every reachable pool. *)
Record PoolInv p : Prop := {
  inv_capacity : (length (tasks_ p) <= queue_capacity_ p)%nat;
  inv_fifo : accepted p = started p ++ tasks_ p;
  inv_once : started p ≡ₚ finished p ++ running (workers_ p);
  inv_wake : tasks_ p ≠ [] →
    (0 < notify_one_pending p)%nat ∨ ∃ ph, ph ∈ workers_ p ∧ active ph;
  inv_shutdown : accepting_tasks_ p = false →
    notify_all_pending p = true ∨ Waiting ∉ workers_ p;
  inv_exited : (workers_ p = [] ∨ Exited ∈ workers_ p) →
    accepting_tasks_ p = false ∧ tasks_ p = []
}.

(** A wait that returned without a notification. *)
Definition spurious_wakeup p p' : Prop :=
  ∃ i, workers_ p !! i = Some Waiting ∧ p' = set_workers p (<[i := AtLock]> (workers_ p)).

(** Work left, while there is some: each step that is not a submit lowers it. *)
Definition weight ph : nat :=
  match ph with Waiting => 2 | AtLock => 1 | Running _ => 2 | Exited => 0 end.

Definition work p : nat :=
  3 * length (tasks_ p) + sum_list_with weight (workers_ p)
  + notify_one_pending p + (if notify_all_pending p then 1 else 0)
  + (if decide (workers_ p = []) then 0 else 1).
End pool.

(** ** Facts *)

Section facts.
Context {A : Type}.
Implicit Types (p : BoundedThreadPool A) (t : A) (ph : WorkerPhase A) (ws : list (WorkerPhase A)).

Lemma running_insert ws i old new :
  ws !! i = Some old →
  running (<[i := new]> ws) ++ running [old] ≡ₚ running ws ++ running [new].
Proof.
  revert i. induction ws as [|w ws IH]; intros [|i] Hi; simplify_eq/=.
  - destruct old, new; simpl; rewrite ?app_nil_r; try done; solve_Permutation.
  - specialize (IH i Hi). destruct w; simpl; try exact IH. by rewrite IH.
Qed.

Lemma weight_insert ws i old new :
  ws !! i = Some old →
  (sum_list_with weight (<[i := new]> ws) + weight old = sum_list_with weight ws + weight new)%nat.
Proof.
  revert i. induction ws as [|w ws IH]; intros [|i] Hi; simplify_eq/=; [lia|].
  specialize (IH i Hi). lia.
Qed.

Lemma insert_not_nil ws i old new : ws !! i = Some old → <[i := new]> ws ≠ [].
Proof. by destruct ws, i. Qed.

Lemma elem_of_wake_all ph ws :
  ph ∈ wake_all ws ↔ (ph ∈ ws ∧ ph ≠ Waiting) ∨ (ph = AtLock ∧ Waiting ∈ ws).
Proof.
  unfold wake_all. rewrite list_elem_of_fmap. split.
  - intros (ph' & -> & Hin). destruct ph'; naive_solver.
  - intros [[Hin Hne]|[-> Hin]]; [exists ph; by destruct ph|by exists Waiting].
Qed.

Lemma running_wake_all ws : running (wake_all ws) = running ws.
Proof. induction ws as [|[] ws IH]; simpl; by rewrite ?IH. Qed.

Lemma weight_wake_all ws : (sum_list_with weight (wake_all ws) <= sum_list_with weight ws)%nat.
Proof. induction ws as [|[] ws IH]; simpl; lia. Qed.

Lemma wake_all_nil ws : wake_all ws = [] ↔ ws = [].
Proof. by destruct ws. Qed.

Lemma exited_running ws : (∀ ph, ph ∈ ws → ph = Exited) → running ws = [].
Proof.
  induction ws as [|w ws IH]; intros Hex; [done|]. simpl.
  rewrite (Hex w) by set_solver. apply IH. set_solver.
Qed.

Lemma waiting_or_not ws : Waiting ∈ ws ∨ Waiting ∉ ws.
Proof.
  induction ws as [|w ws [IH|IH]]; [right; set_solver|left; set_solver|].
  destruct w; [right; set_solver|left; set_solver|right; set_solver|right; set_solver].
Qed.

(** A worker can run, or all of them wait or have returned. *)
Lemma active_or_idle ws :
  (∃ ph, ph ∈ ws ∧ active ph) ∨ (∀ ph, ph ∈ ws → ph = Waiting ∨ ph = Exited).
Proof.
  induction ws as [|w ws [(ph & Hin & Ha)|IH]]; [right; set_solver|left; exists ph; set_solver|].
  destruct w; [left; exists AtLock; split; [set_solver|by left]|right; set_solver|
    left; exists (Running task); split; [set_solver|right; eauto]|right; set_solver].
Qed.

Lemma TrySubmit_true p t p' :
  TrySubmit p (Some t) = (true, p') ↔
  accepting_tasks_ p = true ∧ (length (tasks_ p) < queue_capacity_ p)%nat ∧
  p' = {| queue_capacity_ := queue_capacity_ p; tasks_ := tasks_ p ++ [t];
          workers_ := workers_ p; accepting_tasks_ := accepting_tasks_ p;
          notify_one_pending := S (notify_one_pending p);
          notify_all_pending := notify_all_pending p;
          accepted := accepted p ++ [t]; started := started p; finished := finished p |}.
Proof.
  unfold TrySubmit. destruct (accepting_tasks_ p) eqn:Ea; simpl; [|naive_solver].
  destruct (queue_capacity_ p <=? length (tasks_ p))%nat eqn:El.
  - apply Nat.leb_le in El. split; [done|]. intros (_ & ? & _). lia.
  - apply Nat.leb_gt in El. naive_solver.
Qed.

(** Replacing one worker, the queue being unchanged. *)
Lemma insert_worker_inv p i old new :
  PoolInv p → workers_ p !! i = Some old → running [old] = running [new] →
  active new → (new ≠ Exited ∧ new ≠ Waiting) → old ≠ Exited →
  PoolInv (set_workers p (<[i := new]> (workers_ p))).
Proof.
  intros [Hc Hf Ho Hw Hs He] Hi Hr Ha [Hn1 Hn2] Hold. split; simpl; try done.
  - rewrite Ho. f_equiv. pose proof (running_insert _ _ _ new Hi) as HP. rewrite Hr in HP.
    by apply Permutation_app_inv_r in HP.
  - intros _. right. exists new. split; [by eapply elem_of_insert_new|done].
  - intros Hacc. destruct (Hs Hacc) as [?|Hnw]; [by left|right].
    intros [?|?]%elem_of_insert_inv; [congruence|done].
  - intros [Hn|[?|?]%elem_of_insert_inv]; [by eapply insert_not_nil in Hn|congruence|by apply He; right].
Qed.

Lemma set_notify_inv p n :
  PoolInv p → (tasks_ p ≠ [] → (0 < n)%nat ∨ ∃ ph, ph ∈ workers_ p ∧ active ph) →
  PoolInv (set_notify p n (notify_all_pending p)).
Proof. by intros [Hc Hf Ho Hw Hs He] Hn. Qed.

Lemma worker_inv p i ph p' :
  PoolInv p → workers_ p !! i = Some AtLock → WorkerLoop_locked p = (ph, p') →
  PoolInv (set_workers p' (<[i := ph]> (workers_ p'))).
Proof.
  intros [Hc Hf Ho Hw Hs He] Hi. unfold WorkerLoop_locked.
  assert (∀ new ph', new ≠ ph' → ph' ∈ <[i := new]> (workers_ p) → ph' ∈ workers_ p) as Hmem.
  { intros new ph' Hne [->|?]%elem_of_insert_inv; done. }
  pose proof (λ new, running_insert _ _ _ new Hi) as HR. simpl in HR.
  destruct (tasks_ p) as [|t rest] eqn:Et; [destruct (accepting_tasks_ p) eqn:Ea|];
    intros [= <- <-].
  - split; simpl; try done.
    + by rewrite Et.
    + by rewrite Et.
    + rewrite Ho. f_equiv. specialize (HR Waiting). by rewrite !app_nil_r in HR.
    + rewrite Ea. done.
    + intros [Hn|Hin]; [by eapply insert_not_nil in Hn|].
      destruct He as [? _]; [right; by apply (Hmem Waiting)|congruence].
  - split; simpl; try done.
    + by rewrite Et.
    + by rewrite Et.
    + rewrite Ho. f_equiv. specialize (HR Exited). by rewrite !app_nil_r in HR.
    + intros _. destruct (Hs eq_refl) as [?|Hnw]; [by left|right].
      intros Hin. by apply Hnw, (Hmem Exited).
  - split; simpl.
    + simpl in Hc. lia.
    + rewrite Hf. by rewrite <- app_assoc.
    + specialize (HR (Running t)). rewrite app_nil_r in HR. simpl in HR.
      rewrite HR, Ho. solve_Permutation.
    + intros _. right. exists (Running t). split; [by eapply elem_of_insert_new|right; eauto].
    + intros Ha. destruct (Hs Ha) as [?|Hnw]; [by left|right].
      intros Hin. by apply Hnw, (Hmem (Running t)).
    + intros [Hn|Hin]; [by eapply insert_not_nil in Hn|].
      destruct He as [? ?]; [right; by apply (Hmem (Running t))|done].
Qed.

Lemma pool_step_inv p p' : PoolInv p → pool_step p p' → PoolInv p'.
Proof.
  intros Hinv Hstep. pose proof Hinv as [Hc Hf Ho Hw Hs He].
  destruct Hstep as [p t p' E|p i n En Hi|p n En Hnw|p p' E|p En|p i Hi|p i ph p' Hi E|p i t Hi|p Ha En Hne Hex].
  - apply TrySubmit_true in E as (Ea & El & ->). split; simpl; try done.
    + rewrite length_app. simpl. lia.
    + by rewrite Hf, app_assoc.
    + intros _. left. lia.
    + intros Hx. destruct (He Hx). congruence.
  - assert (PoolInv (set_workers p (<[i := AtLock]> (workers_ p)))) as H1.
    { apply (insert_worker_inv p i Waiting); try done. by left. }
    apply (set_notify_inv _ n H1). intros _. right. exists AtLock.
    split; [by eapply elem_of_insert_new|by left].
  - apply set_notify_inv; [done|]. intros Ht. right.
    destruct (workers_ p) as [|w ws] eqn:Ew.
    { destruct (He (or_introl eq_refl)) as [_ ?]. done. }
    exists w. split; [set_solver|]. destruct w as [| |t|]; [by left|set_solver|right; eauto|].
    destruct He as [_ ?]; [right; set_solver|done].
  - unfold Shutdown_locked in E. case_match; simplify_eq. split; simpl; try done.
    + intros _. by left.
    + intros Hx. by destruct (He Hx).
  - split; simpl; try done.
    + by rewrite running_wake_all.
    + intros Ht. destruct (Hw Ht) as [?|(ph & Hin & Hact)]; [by left|right].
      exists ph. split; [|done]. apply elem_of_wake_all. left. split; [done|].
      by destruct Hact as [->|[? ->]].
    + intros _. right. rewrite elem_of_wake_all. intros [[_ ?]|[? _]]; done.
    + rewrite wake_all_nil, elem_of_wake_all. intros [?|[[? _]|[? _]]]; [| |done]; apply He; auto.
  - apply (insert_worker_inv p i Waiting); try done. by left.
  - by apply (worker_inv p i ph p').
  - assert (PoolInv (set_workers p (<[i := AtLock]> (workers_ p))) ∨ True) as _ by (by right).
    split; simpl; try done.
    + rewrite Ho. pose proof (running_insert _ _ _ AtLock Hi) as HR.
      simpl in HR. rewrite app_nil_r in HR. rewrite <- HR. solve_Permutation.
    + intros _. right. exists AtLock. split; [by eapply elem_of_insert_new|by left].
    + intros Ha. destruct (Hs Ha) as [?|Hnw]; [by left|right].
      by intros [?|?]%elem_of_insert_inv.
    + intros [Hn|[?|?]%elem_of_insert_inv]; [by eapply insert_not_nil in Hn|done|by apply He; right].
  - destruct (workers_ p) as [|w ws] eqn:Ew; [done|].
    assert (Exited ∈ w :: ws) as Hx.
    { rewrite <- (Hex w) by set_solver. set_solver. }
    destruct (He (or_intror Hx)) as [_ Ht].
    split; simpl; try done.
    + by rewrite Ho, (exited_running (w :: ws)).
    + intros _. right. set_solver.
Qed.

Lemma pool_new_inv n c p : BoundedThreadPool_new n c = Returns p → PoolInv p ∧ workers_ p ≠ [].
Proof.
  unfold BoundedThreadPool_new. case_match eqn:E; [done|]. intros [= <-].
  apply orb_false_iff in E as [E1%Nat.eqb_neq E2%Nat.eqb_neq].
  assert (∀ ph : WorkerPhase A, ph ∈ replicate n AtLock → ph = AtLock) as Hr.
  { intros ph Hin. by apply elem_of_replicate in Hin as [-> _]. }
  assert (replicate n (@AtLock A) ≠ []) as Hne by (by destruct n).
  split; [split; simpl; try done|done].
  - lia.
  - clear. by induction n.
  - intros [?|?%Hr]; done.
Qed.

Lemma pool_reachable_inv p p' : PoolInv p → rtc pool_step p p' → PoolInv p'.
Proof. intros Hp Hs. induction Hs; eauto using pool_step_inv. Qed.

(** While a task is queued, or once shut down, every step but a submission and a
    [Shutdown] lowers the work left. *)
Lemma step_lowers_work p p' :
  tasks_ p ≠ [] ∨ accepting_tasks_ p = false → pool_step p p' →
  accepted p' = accepted p → Shutdown_locked p ≠ Some p' →
  (work p' < work p)%nat ∧ accepting_tasks_ p' = accepting_tasks_ p.
Proof.
  intros Hor Hstep Hacc Hns. unfold work.
  destruct Hstep as [p t p' E|p i n En Hi|p n En Hnw|p p' E|p En|p i Hi|p i ph p' Hi E|p i t Hi|p _ En Hne Hex];
    [apply TrySubmit_true in E as (_ & _ & ->); simpl in Hacc;
     by apply (f_equal length) in Hacc; rewrite length_app in Hacc; simpl in Hacc; lia|..|].
  - split; [|done]. simpl. rewrite En.
    pose proof (weight_insert _ _ _ AtLock Hi) as HW. simpl in HW.
    rewrite decide_False by (by eapply insert_not_nil).
    rewrite decide_False by (by destruct (workers_ p), i). lia.
  - split; [|done]. simpl. rewrite En. lia.
  - done.
  - split; [|done]. simpl. rewrite En. pose proof (weight_wake_all (workers_ p)).
    assert (wake_all (workers_ p) = [] ↔ workers_ p = []) as Hn by apply wake_all_nil.
    destruct (decide (workers_ p = [])), (decide (wake_all (workers_ p) = [])); tauto || lia.
  - split; [|done]. simpl. pose proof (weight_insert _ _ _ AtLock Hi) as HW. simpl in HW.
    rewrite decide_False by (by eapply insert_not_nil).
    rewrite decide_False by (by destruct (workers_ p), i). lia.
  - unfold WorkerLoop_locked in E.
    assert (workers_ p ≠ []) as Hne by (by destruct (workers_ p), i).
    destruct (tasks_ p) as [|t rest] eqn:Et;
      [destruct Hor as [?|Ha]; [done|rewrite Ha in E]|]; injection E as <- <-; simpl;
      rewrite (decide_False (P := _ = [])) by (by eapply insert_not_nil);
      rewrite decide_False by done; (split; [|done]);
      [pose proof (weight_insert _ _ _ Exited Hi) as HW|
       pose proof (weight_insert _ _ _ (Running t) Hi) as HW];
      rewrite ?Et; simpl in *; lia.
  - split; [|done]. simpl. pose proof (weight_insert _ _ _ AtLock Hi) as HW. simpl in HW.
    rewrite decide_False by (by eapply insert_not_nil).
    rewrite decide_False by (by destruct (workers_ p), i). lia.
  - split; [|done]. simpl. rewrite (decide_False (P := workers_ p = [])) by done.
    lia.
Qed.

Lemma drain_step_decreases p p' :
  accepting_tasks_ p = false → pool_step p p' → Shutdown_locked p ≠ Some p' →
  (work p' < work p)%nat ∧ accepting_tasks_ p' = false.
Proof.
  intros Ha Hstep Hns. rewrite <- Ha. apply step_lowers_work; [by right|done| |done].
  destruct Hstep as [p t p' E|p i n En Hi|p n En Hnw|p p' E|p En|p i Hi|p i ph p' Hi E|p i t Hi|p _ En Hne Hex]; try done.
  - apply TrySubmit_true in E as (? & _). congruence.
  - unfold WorkerLoop_locked in E. rewrite Ha in E. by destruct (tasks_ p); injection E as <- <-.
Qed.

(** Steps that are no wake-up without a notification. *)
Lemma not_spurious p p' :
  notify_one_pending p' ≠ notify_one_pending p ∨ notify_all_pending p' ≠ notify_all_pending p ∨
  started p' ≠ started p ∨ finished p' ≠ finished p ∨ length (workers_ p') ≠ length (workers_ p) ∨
  (∃ i, workers_ p !! i = Some AtLock ∧ workers_ p' !! i = Some Exited) → ¬ spurious_wakeup p p'.
Proof.
  intros Hne (i & Hi & ->). simpl in Hne. rewrite length_insert in Hne.
  destruct Hne as [?|[?|[?|[?|[?|(j & Hj & Hx)]]]]]; try done.
  apply list_lookup_insert_Some in Hx as [(-> & ? & _)|[_ ?]]; congruence.
Qed.

(** A worker about to take the lock, while there is work. *)
Lemma worker_progress p i :
  workers_ p !! i = Some AtLock → tasks_ p ≠ [] ∨ accepting_tasks_ p = false →
  ∃ p', pool_step p p' ∧ ¬ spurious_wakeup p p' ∧ (work p' < work p)%nat.
Proof.
  intros Hi Hor. assert (workers_ p ≠ []) as Hne by (by destruct (workers_ p), i).
  pose proof (lookup_lt_Some _ _ _ Hi) as Hlt.
  pose proof (weight_insert _ _ _ (WorkerLoop_locked p).1 Hi) as HW.
  eexists. split; [apply (step_worker p i); [done|apply surjective_pairing]|]. split.
  - apply not_spurious. unfold WorkerLoop_locked in *.
    destruct (tasks_ p) as [|t rest] eqn:Et; [destruct Hor as [?|Ha]; [done|rewrite Ha]|]; simpl.
    + do 5 right. exists i. split; [done|by apply list_lookup_insert_eq].
    + do 2 right. left. intros E%(f_equal length). rewrite length_app in E. simpl in E. lia.
  - unfold work, WorkerLoop_locked in *.
    destruct (tasks_ p) as [|t rest] eqn:Et; [destruct Hor as [?|Ha]; [done|rewrite Ha in *]|];
      simpl in *; rewrite ?Et; simpl;
      rewrite (decide_False (P := _ = [])) by (by eapply insert_not_nil);
      rewrite (decide_False (P := workers_ p = [])) by done; lia.
Qed.

Lemma finish_progress p i t :
  workers_ p !! i = Some (Running t) →
  ∃ p', pool_step p p' ∧ ¬ spurious_wakeup p p' ∧ (work p' < work p)%nat.
Proof.
  intros Hi. assert (workers_ p ≠ []) as Hne by (by destruct (workers_ p), i).
  eexists. split; [by apply (step_finish p i)|]. split.
  - apply not_spurious. simpl. do 3 right. left. intros E%(f_equal length).
    rewrite length_app in E. simpl in E. lia.
  - unfold work. simpl. pose proof (weight_insert _ _ _ AtLock Hi) as HW. simpl in HW.
    rewrite decide_False by (by eapply insert_not_nil).
    rewrite decide_False by done. lia.
Qed.

Lemma notify_progress p n :
  workers_ p ≠ [] → notify_one_pending p = S n →
  ∃ p', pool_step p p' ∧ ¬ spurious_wakeup p p' ∧ (work p' < work p)%nat.
Proof.
  intros Hne En. destruct (waiting_or_not (workers_ p)) as [(i & Hi)%list_elem_of_lookup|Hnw].
  - eexists. split; [by apply (step_notify_one_wakes p i n)|]. split; [apply not_spurious; simpl; lia|].
    unfold work. simpl. rewrite En. pose proof (weight_insert _ _ _ AtLock Hi) as HW. simpl in HW.
    rewrite decide_False by (by eapply insert_not_nil).
    rewrite decide_False by done. lia.
  - eexists. split; [by apply (step_notify_one_nobody p n)|]. split; [apply not_spurious; simpl; lia|].
    unfold work. simpl. lia.
Qed.

(** A pool with threads is never stuck while a task is queued or a shutdown is in
    progress, and needs no spurious wake-up to go on. *)
Lemma pool_progress p :
  PoolInv p → workers_ p ≠ [] → (tasks_ p ≠ [] ∨ accepting_tasks_ p = false) →
  ∃ p', pool_step p p' ∧ ¬ spurious_wakeup p p' ∧ Shutdown_locked p ≠ Some p' ∧ (work p' < work p)%nat.
Proof.
  intros Hinv Hne Hor. pose proof Hinv as [Hc Hf Ho Hw Hs He].
  assert (∀ p', (work p' < work p)%nat → Shutdown_locked p ≠ Some p') as Hns.
  { intros p' Hlt. unfold Shutdown_locked. case_match; [done|]. intros [= <-].
    unfold work in Hlt. simpl in Hlt. destruct (notify_all_pending p); lia. }
  enough (∃ p', pool_step p p' ∧ ¬ spurious_wakeup p p' ∧ (work p' < work p)%nat) as (p' & ? & ? & ?) by eauto 6.
  assert (∀ ph, ph ∈ workers_ p → active ph →
            ∃ p', pool_step p p' ∧ ¬ spurious_wakeup p p' ∧ (work p' < work p)%nat) as Hact.
  { intros ph Hin Hph. apply list_elem_of_lookup in Hin as (i & Hi).
    destruct Hph as [->|[t ->]]; [by apply (worker_progress p i)|by apply (finish_progress p i t)]. }
  destruct (active_or_idle (workers_ p)) as [(ph & Hin & Ha)|Hidle]; [by eapply Hact|].
  destruct (notify_one_pending p) as [|n] eqn:En; [|by apply (notify_progress p n)].
  destruct Hor as [Ht|Ha].
  { destruct (Hw Ht) as [?|(ph & Hin & Ha)]; [lia|].
    apply Hidle in Hin as [-> | ->]; destruct Ha as [?|[? ?]]; done. }
  destruct (notify_all_pending p) eqn:Eall.
  - eexists. split; [by apply step_notify_all|]. split; [apply not_spurious; simpl; by rewrite Eall; auto|].
    unfold work. simpl. rewrite Eall. pose proof (weight_wake_all (workers_ p)).
    rewrite (decide_False (P := workers_ p = [])) by done.
    rewrite decide_False by (by rewrite wake_all_nil). lia.
  - assert (pool_step p (set_workers p [])) as Hjoin.
    { apply step_join; try done. intros ph Hin. destruct (Hidle ph Hin) as [->|?]; [|done].
      destruct (Hs Ha) as [?|?]; done. }
    exists (set_workers p []). split; [done|]. split.
    + apply not_spurious. simpl. do 4 right. left. by destruct (workers_ p).
    + unfold work. simpl. rewrite (decide_False (P := workers_ p = [])) by done. lia.
Qed.
End facts.

(** ** Properties *)

(** C23: In every reachable state of the pool, under every interleaving of
    submitters, workers and wake-ups, the queue holds at most [queue_capacity]
    tasks, tasks leave it in the order [TrySubmit] accepted them, and each started
    task is being run by exactly one worker or was run exactly once. *)
Theorem pool_bounded_fifo_once {A} n c (p0 p : BoundedThreadPool A) :
  BoundedThreadPool_new n c = Returns p0 → rtc pool_step p0 p →
  (length (tasks_ p) <= queue_capacity_ p)%nat ∧
  accepted p = started p ++ tasks_ p ∧
  started p ≡ₚ finished p ++ running (workers_ p).
Proof.
  intros Hn Hs. apply pool_new_inv in Hn as [Hp0 _].
  pose proof (pool_reachable_inv p0 p Hp0 Hs) as Hp. by destruct Hp.
Qed.

(** C34: No wake-up is lost and the pool does not deadlock: while a task is queued,
    or a shutdown is in progress, some thread or pending notification can take a
    step that lowers the work left, and it is none of the spurious wake-ups a condition
    variable may or may not have. Every step but a submission and a [Shutdown] lowers
    that work, so that only those can keep a queued task waiting. *)
Theorem pool_never_stuck {A} n c (p0 p : BoundedThreadPool A) :
  BoundedThreadPool_new n c = Returns p0 → rtc pool_step p0 p →
  workers_ p ≠ [] → tasks_ p ≠ [] ∨ accepting_tasks_ p = false →
  (∃ p', pool_step p p' ∧ ¬ spurious_wakeup p p' ∧ Shutdown_locked p ≠ Some p' ∧ (work p' < work p)%nat) ∧
  (∀ p', pool_step p p' → accepted p' = accepted p → Shutdown_locked p ≠ Some p' → (work p' < work p)%nat).
Proof.
  intros Hn Hs Hne Hor. apply pool_new_inv in Hn as [Hp0 _]. split.
  - apply pool_progress; [by eapply pool_reachable_inv|done|done].
  - intros p' Hstep Ha Hns. by apply step_lowers_work.
Qed.

(** [Shutdown] terminates and drains: once the pool refuses tasks every further
    step lowers the work left, a step exists until the threads are joined, and when
    they are joined every accepted task has been run exactly once and none is
    queued. *)
Theorem shutdown_drains {A} n c (p0 p : BoundedThreadPool A) :
  BoundedThreadPool_new n c = Returns p0 → rtc pool_step p0 p →
  accepting_tasks_ p = false →
  (∀ p', pool_step p p' → Shutdown_locked p ≠ Some p' →
     (work p' < work p)%nat ∧ accepting_tasks_ p' = false) ∧
  (workers_ p ≠ [] → ∃ p', pool_step p p' ∧ Shutdown_locked p ≠ Some p') ∧
  (workers_ p = [] → tasks_ p = [] ∧ finished p ≡ₚ accepted p) ∧
  (∀ t, TrySubmit p t = (false, p)).
Proof.
  intros Hn Hs Ha. apply pool_new_inv in Hn as [Hp0 _].
  pose proof (pool_reachable_inv p0 p Hp0 Hs) as Hp. split; [|split; [|split]].
  - intros p' Hstep Hns. by apply drain_step_decreases.
  - intros Hne. destruct (pool_progress p Hp Hne) as (p' & ? & _ & ? & _); eauto.
  - intros He. destruct (inv_exited p Hp (or_introl He)) as [_ Ht]. split; [done|].
    rewrite (inv_fifo p Hp), Ht, app_nil_r, (inv_once p Hp), He. simpl. by rewrite app_nil_r.
  - intros [t|]; [|done]. unfold TrySubmit. by rewrite Ha.
Qed.

(** [TrySubmit] never blocks and never overfills: it refuses an empty task, a
    pool that is shutting down and a full queue, without any effect, and accepts
    at the back of the queue otherwise. *)
Theorem try_submit_outcome {A} (p : BoundedThreadPool A) (task : option A) :
  match task with
  | Some t =>
      if accepting_tasks_ p && (length (tasks_ p) <? queue_capacity_ p)%nat then
        ∃ p', TrySubmit p task = (true, p') ∧ tasks_ p' = tasks_ p ++ [t] ∧
              workers_ p' = workers_ p ∧ PendingTasks p' = S (PendingTasks p)
      else TrySubmit p task = (false, p)
  | None => TrySubmit p task = (false, p)
  end.
Proof.
  destruct task as [t|]; [|done]. unfold TrySubmit, PendingTasks.
  rewrite Nat.ltb_antisym. destruct (accepting_tasks_ p), (queue_capacity_ p <=? _)%nat; try done.
  eexists. split; [done|]. simpl. rewrite length_app. simpl. split; [done|]. split; [done|lia].
Qed.

(** ** Witnesses *)

Definition pool1 : BoundedThreadPool nat :=
  {| queue_capacity_ := 1; tasks_ := []; workers_ := [AtLock]; accepting_tasks_ := true;
     notify_one_pending := 0; notify_all_pending := false;
     accepted := []; started := []; finished := [] |}.

Definition pool1_busy : BoundedThreadPool nat := (TrySubmit pool1 (Some 5%nat)).2.

Definition pool1_stopping : BoundedThreadPool nat :=
  default pool1 (Shutdown_locked pool1_busy).

Lemma pool1_busy_reachable : rtc pool_step pool1 pool1_busy.
Proof. eapply rtc_once, step_submit. reflexivity. Qed.

Lemma pool1_stopping_reachable : rtc pool_step pool1 pool1_stopping.
Proof. eapply rtc_r; [apply pool1_busy_reachable|]. by apply step_shutdown. Qed.

Lemma pool_bounded_fifo_once_witness :
  accepted pool1_busy = started pool1_busy ++ [5%nat].
Proof.
  refine (proj1 (proj2 (pool_bounded_fifo_once 1 1 pool1 pool1_busy _ _))).
  - reflexivity.
  - apply pool1_busy_reachable.
Defined.

Lemma pool_never_stuck_witness :
  ∃ p', pool_step pool1_busy p' ∧ ¬ spurious_wakeup pool1_busy p' ∧ Shutdown_locked pool1_busy ≠ Some p' ∧
    (work p' < work pool1_busy)%nat.
Proof.
  apply (pool_never_stuck 1 1 pool1 pool1_busy).
  - reflexivity.
  - apply pool1_busy_reachable.
  - discriminate.
  - left. discriminate.
Defined.

Lemma shutdown_drains_witness :
  (∃ p', pool_step pool1_stopping p' ∧ Shutdown_locked pool1_stopping ≠ Some p') ∧
  TrySubmit pool1_stopping (Some 9%nat) = (false, pool1_stopping).
Proof.
  destruct (shutdown_drains 1 1 pool1 pool1_stopping) as (_ & Hstep & _ & Hsub).
  - reflexivity.
  - apply pool1_stopping_reachable.
  - reflexivity.
  - split; [apply Hstep; discriminate|apply Hsub].
Defined.
