(* ===== verification/CompletionQueue.v ===== *)
(** * The completion queue and its eventfd wake-up

    [src/concurrency/completion_queue.cpp], [src/concurrency/event_fd_wakeup.cpp]
    and the callback [GameServer::GameServer] registers for the eventfd: worker
    threads push completions, the event-loop thread is woken through an eventfd
    and runs them in order.

    The kernel object behind the eventfd is a parameter ([EventFd], with the
    behaviour eventfd(2) documents); [counter_eventfd] is an instance. *)

From S2P Require Import Prelude.

(** ** CompletionQueue *)

Record CompletionQueue (C : Type) := mkCompletionQueue {
  completions_ : list C;
  notifier_ : bool            (** whether a notifier was given *)
}.
Arguments mkCompletionQueue {C}.
Arguments completions_ {C}.
Arguments notifier_ {C}.

Definition set_completions {C} (q : CompletionQueue C) (cs : list C) : CompletionQueue C :=
  {| completions_ := cs; notifier_ := notifier_ q |}.

(** [Push]: the new queue, and whether the notifier is called after the lock. An
    empty [std::function] ([None]) is ignored. *)
Definition Push {C} (q : CompletionQueue C) (completion : option C) : bool * CompletionQueue C :=
  match completion with
  | None => (false, q)
  | Some completion =>
      let should_notify := match completions_ q with [] => true | _ => false end in
      (should_notify && notifier_ q, set_completions q (completions_ q ++ [completion]))
  end.

Definition Size {C} (q : CompletionQueue C) : nat := length (completions_ q).

(** [Drain(maximum)] over a state [S] that contains the queue: [queue_of] and
    [set_queue] are the queue inside [S], [call] runs a completion (which may
    itself push, or throw). One unit of fuel per completion;
    [drain_runs_all_in_order] gives a sufficient amount. *)
Section drain.
Context {S C : Type}.
Context (queue_of : S → CompletionQueue C) (set_queue : CompletionQueue C → S → S).
Context (call : C → M S unit).

Fixpoint Drain_fuel (fuel : nat) (maximum completed : Z) : M S Z :=
  match fuel with
  | O => mret completed
  | Datatypes.S fuel =>
      if completed <? maximum then
        completions ← gets (λ s, completions_ (queue_of s));
        match completions with
        | [] => mret completed
        | completion :: rest =>
            modify (λ s, set_queue (set_completions (queue_of s) rest) s) ;;
            call completion ;;
            Drain_fuel fuel maximum (completed + 1)
        end
      else mret completed
  end.

Definition Drain (fuel : nat) (maximum : Z) : M S Z := Drain_fuel fuel maximum 0.
End drain.

(** ** EventFdWakeup *)

(** The results of the [read] and [write] system calls the wrapper looks at. *)
Inductive SysResult := Sys_ok | Sys_EINTR | Sys_EAGAIN | Sys_other.

(** The kernel's eventfd: a call that is not interrupted either completes or
    finds that it would block. *)
Class EventFd (K : Type) := {
  efd_write : K → SysResult * K;
  efd_read : K → SysResult * K;
  efd_readable : K → bool;
  efd_write_result k : (efd_write k).1 = Sys_ok ∨ (efd_write k).1 = Sys_EAGAIN;
  efd_read_result k : (efd_read k).1 = Sys_ok ∨ (efd_read k).1 = Sys_EAGAIN;
  efd_write_readable k : efd_readable (efd_write k).2 = true;
  efd_read_clears k : efd_readable (efd_read k).2 = false
}.

(** An eventfd is a 64-bit counter, at most [2^64 - 2]: a write adds one or would
    block, a read resets it or would block. *)
#[local] Lemma counter_write_result (c : N) :
  let r := if (c <? 2 ^ 64 - 2)%N then (Sys_ok, (c + 1)%N) else (Sys_EAGAIN, c) in
  (r.1 = Sys_ok ∨ r.1 = Sys_EAGAIN) ∧ (0 <? r.2)%N = true.
Proof.
  destruct (c <? 2 ^ 64 - 2)%N eqn:E; simpl; (split; [auto|]); apply N.ltb_lt; [lia|].
  apply N.ltb_ge in E. assert (0 < 2 ^ 64 - 2)%N by done. lia.
Qed.

#[export] Program Instance counter_eventfd : EventFd N := {
  efd_write c := if (c <? 2 ^ 64 - 2)%N then (Sys_ok, (c + 1)%N) else (Sys_EAGAIN, c);
  efd_read c := if (0 <? c)%N then (Sys_ok, 0%N) else (Sys_EAGAIN, c);
  efd_readable c := (0 <? c)%N
}.
Next Obligation. intros c. apply counter_write_result. Qed.
Next Obligation. intros c; simpl. destruct (0 <? c)%N; simpl; auto. Qed.
Next Obligation. intros c. apply counter_write_result. Qed.
Next Obligation. intros c; simpl. by destruct (0 <? c)%N eqn:E. Qed.

Section eventfd.
Context {K : Type} `{EventFd K}.

(** The retry loops: [interrupts] is the number of [EINTR] results the signals
    delivered meanwhile cause before the call runs. *)
Fixpoint Notify (interrupts : nat) (k : K) : K :=
  match interrupts with
  | Datatypes.S n => Notify n k
  | O => (efd_write k).2
  end.

Fixpoint Consume (interrupts : nat) (k : K) : K :=
  match interrupts with
  | Datatypes.S n => Consume n k
  | O => (efd_read k).2
  end.

(** ** Workers, eventfd and event loop together *)

(** Where the event-loop thread is, as far as completions are concerned: in
    [epoll_wait], entering the callback, or inside [Drain]. *)
Inductive LoopPhase := Polling | Consuming | Draining.

Record Channel (C : Type) := mkChannel {
  queue : CompletionQueue C;
  eventfd_ : K;
  owed : nat;                 (** pushes that still have to call the notifier *)
  loop : LoopPhase;
  pushed : list C;            (** history: every completion pushed *)
  executed : list C           (** history: every completion run *)
}.
Arguments queue {C}.
Arguments eventfd_ {C}.
Arguments owed {C}.
Arguments loop {C}.
Arguments pushed {C}.
Arguments executed {C}.

Context {C : Type}.
Implicit Types (s : Channel C).

Inductive channel_step : Channel C → Channel C → Prop :=
| ch_push s c b q :
    Push (queue s) (Some c) = (b, q) →
    channel_step s
      {| queue := q; eventfd_ := eventfd_ s; owed := (if b then 1 else 0) + owed s;
         loop := loop s; pushed := pushed s ++ [c]; executed := executed s |}
| ch_notify s n i :
    owed s = Datatypes.S n →
    channel_step s
      {| queue := queue s; eventfd_ := Notify i (eventfd_ s); owed := n;
         loop := loop s; pushed := pushed s; executed := executed s |}
| ch_wake s :
    loop s = Polling → efd_readable (eventfd_ s) = true →
    channel_step s
      {| queue := queue s; eventfd_ := eventfd_ s; owed := owed s;
         loop := Consuming; pushed := pushed s; executed := executed s |}
| ch_consume s i :
    loop s = Consuming →
    channel_step s
      {| queue := queue s; eventfd_ := Consume i (eventfd_ s); owed := owed s;
         loop := Draining; pushed := pushed s; executed := executed s |}
| ch_run s c rest :
    loop s = Draining → completions_ (queue s) = c :: rest →
    channel_step s
      {| queue := set_completions (queue s) rest; eventfd_ := eventfd_ s; owed := owed s;
         loop := Draining; pushed := pushed s; executed := executed s ++ [c] |}
| ch_drained s :
    loop s = Draining → completions_ (queue s) = [] →
    channel_step s
      {| queue := queue s; eventfd_ := eventfd_ s; owed := owed s;
         loop := Polling; pushed := pushed s; executed := executed s |}.

(** The state the server starts in: an empty queue with a notifier. *)
Definition channel_init (k : K) : Channel C :=
  {| queue := {| completions_ := []; notifier_ := true |}; eventfd_ := k; owed := 0;
     loop := Polling; pushed := []; executed := [] |}.

Record ChannelInv s : Prop := {
  inv_notifier : notifier_ (queue s) = true;
  inv_order : pushed s = executed s ++ completions_ (queue s);
  inv_signal : completions_ (queue s) ≠ [] →
    (0 < owed s)%nat ∨ efd_readable (eventfd_ s) = true ∨ loop s ≠ Polling
}.

(** Steps left before the oldest completion runs. *)
Definition wait_steps s : nat :=
  owed s + match loop s with Polling => 2 | Consuming => 1 | Draining => 0 end.

(** *** Facts *)

Lemma Notify_spec i k : Notify i k = (efd_write k).2.
Proof. by induction i. Qed.
Lemma Consume_spec i k : Consume i k = (efd_read k).2.
Proof. by induction i. Qed.

Lemma channel_step_inv s s' : ChannelInv s → channel_step s s' → ChannelInv s'.
Proof.
  intros [Hn Ho Hs] Hstep. destruct Hstep as [s c b q E|s n i E|s El Er|s i El|s c rest El E|s El E].
  - unfold Push in E. injection E as Hb <-. split; simpl; [done|by rewrite Ho, app_assoc|].
    intros _. destruct (completions_ (queue s)) as [|c' cs] eqn:Eq.
    + rewrite Hn in Hb. left. destruct b; [lia|done].
    + destruct Hs as [?|?]; [done|left; destruct b; lia|by right].
  - split; simpl; [done|done|]. intros Hq. right. left. rewrite Notify_spec. apply efd_write_readable.
  - split; simpl; [done|done|]. intros _. by right; right.
  - split; simpl; [done|done|]. intros _. by right; right.
  - split; simpl; [done| |].
    + by rewrite Ho, E, <- app_assoc.
    + intros _. right; right. by rewrite El in *.
  - split; simpl; [done|done|]. by rewrite E.
Qed.

Lemma channel_init_inv k : ChannelInv (channel_init k).
Proof. by split. Qed.

Lemma channel_reachable_inv s s' : ChannelInv s → rtc channel_step s s' → ChannelInv s'.
Proof. intros Hs Hr. induction Hr; eauto using channel_step_inv. Qed.

(** A step that neither pushes nor runs the oldest completion shortens its wait. *)
Lemma channel_step_progress s s' c cs :
  completions_ (queue s) = c :: cs → channel_step s s' →
  pushed s' = pushed s →
  executed s' = executed s ++ [c] ∨
  ((wait_steps s' < wait_steps s)%nat ∧ completions_ (queue s') = c :: cs).
Proof.
  intros Eq Hstep. unfold wait_steps.
  destruct Hstep as [s c' b q E|s n i E|s El Er|s i El|s c' rest El E|s El E]; simpl; intros Hp.
  - exfalso. apply (f_equal length) in Hp. rewrite length_app in Hp. simpl in Hp. lia.
  - right. rewrite E. split; [lia|done].
  - right. rewrite El. split; [lia|done].
  - right. rewrite El. split; [lia|done].
  - left. congruence.
  - congruence.
Qed.

Lemma channel_can_step s :
  ChannelInv s → completions_ (queue s) ≠ [] →
  ∃ s', channel_step s s' ∧ pushed s' = pushed s.
Proof.
  intros [Hn Ho Hs] Hq. destruct (loop s) eqn:El.
  - destruct (Hs Hq) as [Hpos|[Hr|?]]; [| |done].
    + destruct (owed s) as [|n] eqn:E; [lia|]. eexists. split; [by apply (ch_notify s n 0)|done].
    + eexists. split; [by apply ch_wake|done].
  - eexists. split; [by apply (ch_consume s 0)|done].
  - destruct (completions_ (queue s)) as [|c rest] eqn:E; [done|].
    eexists. split; [by eapply ch_run|done].
Qed.
End eventfd.

Arguments Channel K C : clear implicits.
Arguments channel_init {K C}.
Arguments queue {K C}.
Arguments eventfd_ {K C}.
Arguments owed {K C}.
Arguments loop {K C}.
Arguments pushed {K C}.
Arguments executed {K C}.
Arguments wait_steps {K C}.
Arguments mkChannel {K C}.

(** A completion's queue inside a larger state that its calls do not touch. *)
Section drain_facts.
Context {S C : Type}.
Context (queue_of : S → CompletionQueue C) (set_queue : CompletionQueue C → S → S).
Context (call : C → M S unit).
Hypothesis get_set : ∀ q s, queue_of (set_queue q s) = q.

(** The calls a [Drain] makes, one after the other, each popped before it runs. *)
Fixpoint run_in_order (cs : list C) : M S unit :=
  match cs with
  | [] => mret tt
  | c :: cs =>
      modify (λ s, set_queue (set_completions (queue_of s) (drop 1 (completions_ (queue_of s)))) s) ;;
      call c ;; run_in_order cs
  end.

(** When the calls return and push nothing themselves, a drain runs the first
    [maximum] completions in order and returns how many. *)
Lemma Drain_fuel_spec fuel maximum completed s :
  (∀ c s, ∃ s', call c s = (Returns tt, s') ∧ queue_of s' = queue_of s) →
  (length (completions_ (queue_of s)) < fuel)%nat →
  let cs := take (Z.to_nat (maximum - completed)) (completions_ (queue_of s)) in
  Drain_fuel queue_of set_queue call fuel maximum completed s =
  (run_in_order cs ;; mret (completed + size_of cs)) s.
Proof.
  intros Hcall. revert completed s. induction fuel as [|fuel IH]; intros completed s Hf; [lia|].
  cbn [Drain_fuel]. destruct (completed <? maximum) eqn:Em.
  2: { rewrite (Z2Nat.nonpos (maximum - completed)) by bool_lia. rewrite take_0.
       cbv [run_in_order mbind M_bind mret M_ret size_of]. simpl. by rewrite Z.add_0_r. }
  cbv [gets mbind M_bind]. destruct (completions_ (queue_of s)) as [|c rest] eqn:E.
  { rewrite take_nil. cbv [run_in_order mret M_ret size_of]. simpl. by rewrite Z.add_0_r. }
  destruct (Z.to_nat (maximum - completed)) as [|n] eqn:En; [bool_lia|].
  cbn [take run_in_order]. cbv [modify mbind M_bind mret M_ret].
  rewrite E. cbn [drop]. set (s1 := set_queue _ s).
  destruct (Hcall c s1) as (s2 & Hc & Hq). rewrite Hc.
  assert (completions_ (queue_of s2) = rest) as E2.
  { rewrite Hq. unfold s1. by rewrite get_set. }
  rewrite (IH (completed + 1) s2) by (rewrite E2; simpl in Hf; lia).
  rewrite E2. replace (Z.to_nat (maximum - (completed + 1))) with n by lia.
  cbv [mbind M_bind mret M_ret]. destruct (run_in_order (take n rest) s2) as [[[]|e] s3]; [|done].
  f_equal. f_equal. unfold size_of. simpl. lia.
Qed.
End drain_facts.

(** ** Properties *)

(** C24: No completion is lost or reordered: in every reachable state of workers,
    eventfd and event loop, what was pushed is what was run followed by what is
    queued, and a queued completion always has a wake-up on its way (a worker about
    to notify, a readable eventfd, or the loop already in its callback). *)
Theorem completions_never_lost {K C} `{EventFd K} (k : K) (s : Channel K C) :
  rtc channel_step (channel_init k) s →
  pushed s = executed s ++ completions_ (queue s) ∧
  (completions_ (queue s) ≠ [] →
     (0 < owed s)%nat ∨ efd_readable (eventfd_ s) = true ∨ loop s ≠ Polling).
Proof.
  intros Hr. pose proof (channel_reachable_inv _ _ (channel_init_inv k) Hr) as [_ Ho Hs]. done.
Qed.

(** The oldest completion runs: from any reachable state with a queued
    completion some step other than a push is possible, and every such step runs
    that completion or strictly shortens the wait for it. *)
Theorem oldest_completion_runs {K C} `{EventFd K} (k : K) (s : Channel K C) c cs :
  rtc channel_step (channel_init k) s → completions_ (queue s) = c :: cs →
  (∃ s', channel_step s s' ∧ pushed s' = pushed s) ∧
  (∀ s', channel_step s s' → pushed s' = pushed s →
     executed s' = executed s ++ [c] ∨
     ((wait_steps s' < wait_steps s)%nat ∧ completions_ (queue s') = c :: cs)).
Proof.
  intros Hr Hq. split.
  - apply channel_can_step; [|by rewrite Hq].
    by eapply channel_reachable_inv; [apply channel_init_inv|].
  - intros s'. by apply channel_step_progress.
Qed.

(** [Drain] runs exactly the first [maximum] queued completions, each popped
    before it is called, in queue order, and returns their number; a fuel above
    the queue's length is enough when the completions push nothing. *)
Theorem drain_runs_all_in_order {S C} (queue_of : S → CompletionQueue C) set_queue call fuel maximum s :
  (∀ q s, queue_of (set_queue q s) = q) →
  (∀ c s, ∃ s', call c s = (Returns tt, s') ∧ queue_of s' = queue_of s) →
  (length (completions_ (queue_of s)) < fuel)%nat → 0 <= maximum →
  let cs := take (Z.to_nat maximum) (completions_ (queue_of s)) in
  Drain queue_of set_queue call fuel maximum s =
  (run_in_order queue_of set_queue call cs ;; mret (size_of cs)) s.
Proof.
  intros Hgs Hcall Hf Hm. unfold Drain.
  rewrite (Drain_fuel_spec queue_of set_queue call Hgs fuel maximum 0 s Hcall Hf).
  by rewrite Z.sub_0_r, Z.add_0_l.
Qed.

(** ** Witnesses *)

Definition one_pushed : Channel N nat :=
  {| queue := {| completions_ := [3%nat]; notifier_ := true |}; eventfd_ := 0%N; owed := 1;
     loop := Polling; pushed := [3%nat]; executed := [] |}.

Lemma one_pushed_reachable : rtc channel_step (channel_init 0%N) one_pushed.
Proof.
  eapply rtc_once. by apply (ch_push (channel_init 0%N) 3%nat true {| completions_ := [3%nat]; notifier_ := true |}).
Qed.

Lemma completions_never_lost_witness :
  [3%nat] = executed one_pushed ++ completions_ (queue one_pushed).
Proof.
  refine (proj1 (completions_never_lost 0%N one_pushed _)). apply one_pushed_reachable.
Defined.

Lemma oldest_completion_runs_witness :
  ∃ s', channel_step one_pushed s' ∧ pushed s' = [3%nat].
Proof.
  refine (proj1 (oldest_completion_runs 0%N one_pushed 3%nat [] _ _)).
  - apply one_pushed_reachable.
  - reflexivity.
Defined.

(** A state with a queue of numbers and a log of the calls made. *)
Lemma drain_runs_all_in_order_witness :
  let q := {| completions_ := [1%nat; 2%nat; 3%nat]; notifier_ := true |} in
  let call := λ (c : nat) (s : CompletionQueue nat * list nat),
    (Returns tt, (s.1, s.2 ++ [c])) : Outcome unit * (CompletionQueue nat * list nat) in
  Drain fst (λ q s, (q, s.2)) call 4 2 (q, []) =
  (Returns 2, ({| completions_ := [3%nat]; notifier_ := true |}, [1%nat; 2%nat])).
Proof.
  intros q call.
  rewrite (drain_runs_all_in_order fst (λ q s, (q, s.2)) call 4 2 (q, [])).
  - reflexivity.
  - reflexivity.
  - intros c s. by eexists.
  - simpl. lia.
  - lia.
Defined.
