(* ===== verification/ProtobufCodec.v ===== *)
(** * Protobuf messages and their frames

    [proto/game_messages.proto] and [src/protocol/protobuf_codec.cpp]. The
    messages are the schema's; the Protobuf runtime and the generated code are
    a parameter ([Protobuf]) with the documented behaviour the codec relies on
    ([ProtobufLaws]). [table_protobuf] is an instance for finite sets of
    messages, which the witnesses use. *)

From S2P Require Import Prelude Double FrameCodec FrameStream.

(** ** Messages *)

Record PbPosition := mkPbPosition { pb_x : double; pb_y : double }.

(** A sub-message field has presence: [None] is "not set". *)
Record PlayerView := mkPlayerView {
  view_player_id : Z;
  view_nickname : string;
  view_position : option PbPosition
}.

Inductive ProtoMessage :=
| LoginRequest (account session_token : string)
| LoginResponse (success : bool) (error : string) (self : option PlayerView)
    (nearby_players : list PlayerView) (session_token : string)
| ChatRequest (text : string)
| MoveRequest (position : option PbPosition)
| Heartbeat
| PlayerEnter (player : option PlayerView)
| PlayerLeave (player_id : Z)
| PlayerMove (player_id : Z) (position : option PbPosition)
| ChatBroadcast (player_id : Z) (nickname text : string)
| NearbyPlayers (players : list PlayerView).

(** The generated classes, as the type of the object a payload is parsed into. *)
Inductive MessageKind :=
| LoginRequest_ | LoginResponse_ | ChatRequest_ | MoveRequest_ | Heartbeat_
| PlayerEnter_ | PlayerLeave_ | PlayerMove_ | ChatBroadcast_ | NearbyPlayers_.

Definition kind_of (m : ProtoMessage) : MessageKind :=
  match m with
  | LoginRequest _ _ => LoginRequest_
  | LoginResponse _ _ _ _ _ => LoginResponse_
  | ChatRequest _ => ChatRequest_
  | MoveRequest _ => MoveRequest_
  | Heartbeat => Heartbeat_
  | PlayerEnter _ => PlayerEnter_
  | PlayerLeave _ => PlayerLeave_
  | PlayerMove _ _ => PlayerMove_
  | ChatBroadcast _ _ _ => ChatBroadcast_
  | NearbyPlayers _ => NearbyPlayers_
  end.

#[export] Instance PbPosition_eq_dec : EqDecision PbPosition.
Proof. solve_decision. Defined.
#[export] Instance PlayerView_eq_dec : EqDecision PlayerView.
Proof. solve_decision. Defined.
#[export] Instance ProtoMessage_eq_dec : EqDecision ProtoMessage.
Proof. solve_decision. Defined.
#[export] Instance MessageKind_eq_dec : EqDecision MessageKind.
Proof. solve_decision. Defined.

(** The strings of a message; Protobuf requires them to be UTF-8. *)
Definition message_strings (m : ProtoMessage) : list string :=
  match m with
  | LoginRequest a t => [a; t]
  | LoginResponse _ e self nearby t =>
      [e; t] ++ (view_nickname <$> option_list self) ++ (view_nickname <$> nearby)
  | ChatRequest t => [t]
  | MoveRequest _ | Heartbeat | PlayerLeave _ | PlayerMove _ _ => []
  | PlayerEnter v => view_nickname <$> option_list v
  | ChatBroadcast _ n t => [n; t]
  | NearbyPlayers vs => view_nickname <$> vs
  end.

(** ** The Protobuf runtime *)

Class Protobuf := {
  ByteSizeLong : ProtoMessage → Z;
  SerializeToArray : ProtoMessage → option (list byte);
  ParseFromArray : MessageKind → list byte → option ProtoMessage;
  valid_utf8 : string → bool
}.

Definition well_formed `{Protobuf} (m : ProtoMessage) : Prop :=
  Forall (λ s, valid_utf8 s = true) (message_strings m).

Class ProtobufLaws `{Protobuf} := {
  byte_size_nonneg m : 0 <= ByteSizeLong m;
  serialize_size m bs : SerializeToArray m = Some bs → size_of bs = ByteSizeLong m;
  parse_serialize m bs :
    well_formed m → SerializeToArray m = Some bs → ParseFromArray (kind_of m) bs = Some m;
  parse_default m :
    well_formed m → ByteSizeLong m = 0 → ParseFromArray (kind_of m) [] = Some m;
  parse_kind k bs m : ParseFromArray k bs = Some m → kind_of m = k ∧ well_formed m
}.

(** ** The codec *)

Section codec.
Context `{Protobuf}.

Definition EncodeProtobufFrame (type : MessageType) (message : ProtoMessage)
    (max_payload_size : Z) : Outcome (list byte) :=
  let byte_size := ByteSizeLong message in
  if (max_payload_size <? byte_size) || (INT_MAX <? byte_size) || (UINT32_MAX <? byte_size) then
    Throws (length_error "Protobuf payload exceeds frame limit")
  else
    payload ←
      (if 0 <? byte_size then
         match SerializeToArray message with
         | Some payload => Returns payload
         | None => Throws (runtime_error "failed to serialize Protobuf message")
         end
       else Returns []);
    EncodeFrame type payload max_payload_size.

(** [ParseProtobufPayload]: the parsed message when it returns [true]. *)
Definition ParseProtobufPayload (frame : Frame) (expected_type : MessageType)
    (kind : MessageKind) : option ProtoMessage :=
  if negb (message_id frame =? message_id_of expected_type)
     || (INT_MAX <? size_of (payload frame)) then None
  else ParseFromArray kind (payload frame).
End codec.

(** ** Tables of messages as a Protobuf runtime *)

Definition table : Type := list (list byte * ProtoMessage).

Definition table_serialize (t : table) (m : ProtoMessage) : option (list byte) :=
  fst <$> find (λ e, bool_decide (e.2 = m)) t.

Definition table_parse (t : table) (k : MessageKind) (bs : list byte) : option ProtoMessage :=
  snd <$> find (λ e, bool_decide (kind_of e.2 = k ∧ e.1 = bs)) t.

Definition table_protobuf (t : table) : Protobuf :=
  {| ByteSizeLong m := match table_serialize t m with Some bs => size_of bs | None => 1 end;
     SerializeToArray := table_serialize t;
     ParseFromArray := table_parse t;
     valid_utf8 _ := true |}.

Lemma find_Some_elem {A} (f : A → bool) l x : find f l = Some x → x ∈ l ∧ f x = true.
Proof.
  induction l as [|a l IH]; simpl; [done|]. destruct (f a) eqn:E.
  - intros [= ->]. split; [set_solver|done].
  - intros [? ?]%IH. split; [set_solver|done].
Qed.

(** No two messages of one kind with the same bytes. *)
Definition table_ok (t : table) : Prop := NoDup ((λ e, (kind_of e.2, e.1)) <$> t).

Lemma table_parse_elem t bs m : table_ok t → (bs, m) ∈ t → table_parse t (kind_of m) bs = Some m.
Proof.
  unfold table_ok, table_parse. induction t as [|[bs' m'] t IH]; [set_solver|].
  rewrite fmap_cons, NoDup_cons. intros [Hn Hnd] Hin. simpl.
  case_bool_decide as Hb.
  - destruct Hb as [Hk ->]. apply elem_of_cons in Hin as [[= ->]|Hin]; [done|].
    exfalso. apply Hn. apply list_elem_of_fmap. exists (bs, m).
    simpl in Hk |- *. by rewrite Hk.
  - apply elem_of_cons in Hin as [[= -> ->]|Hin]; [by destruct Hb|]. by apply IH.
Qed.

Lemma table_protobuf_laws t : table_ok t → @ProtobufLaws (table_protobuf t).
Proof.
  intros Hok.
  assert (∀ m bs, table_serialize t m = Some bs → (bs, m) ∈ t) as Hs.
  { intros m bs. unfold table_serialize. destruct (find _ t) as [[bs' m']|] eqn:E; [|done].
    apply find_Some_elem in E as [Hin Hb]. apply bool_decide_eq_true in Hb. simpl in *.
    intros [= <-]. by subst. }
  split; simpl.
  - intros m. destruct (table_serialize t m); [unfold size_of; lia|lia].
  - by intros m bs ->.
  - intros m bs _ E. by apply table_parse_elem, Hs.
  - intros m _. destruct (table_serialize t m) as [bs|] eqn:E; [|done].
    intros Hz. apply Hs in E. destruct bs; [|unfold size_of in Hz; simpl in Hz; lia].
    by apply table_parse_elem.
  - intros k bs m. unfold table_parse. destruct (find _ t) as [[bs' m']|] eqn:E; [|done].
    apply find_Some_elem in E as [_ Hb]. apply bool_decide_eq_true in Hb as [Hk _].
    intros [= <-]. split; [done|]. unfold well_formed. by apply Forall_true.
Qed.

(** ** Properties *)

(** A message sent is the message received: when [EncodeProtobufFrame] returns,
    its bytes decode to one frame of the given type, followed by whatever came
    after on the wire, whose payload parses back to the message; it throws exactly
    when the message is larger than a limit or cannot be serialised. *)
Theorem protobuf_frame_roundtrip `{ProtobufLaws} type m max bytes :
  well_formed m →
  EncodeProtobufFrame type m max = Returns bytes →
  size_of bytes = kFrameHeaderSize + ByteSizeLong m ∧ ByteSizeLong m <= max ∧
  ∃ p, bytes = frame_wire {| message_id := message_id_of type; payload := p |} ∧
    ParseProtobufPayload {| message_id := message_id_of type; payload := p |} type (kind_of m) = Some m.
Proof.
  intros Hwf. unfold EncodeProtobufFrame.
  destruct (((max <? ByteSizeLong m) || (INT_MAX <? ByteSizeLong m)) || _) eqn:E; [done|].
  apply orb_false_iff in E as [[E1%Z.ltb_ge E2%Z.ltb_ge]%orb_false_iff E3%Z.ltb_ge].
  assert (∀ p, size_of p = ByteSizeLong m → ParseFromArray (kind_of m) p = Some m →
    EncodeFrame type p max = Returns bytes →
    size_of bytes = kFrameHeaderSize + ByteSizeLong m ∧ ByteSizeLong m <= max ∧
    ∃ p, bytes = frame_wire {| message_id := message_id_of type; payload := p |} ∧
      ParseProtobufPayload {| message_id := message_id_of type; payload := p |} type (kind_of m) = Some m)
    as Hmain.
  { intros p Hsz Hparse (_ & _ & ->)%EncodeFrame_Returns. split; [|split; [done|]].
    - by rewrite size_frame_wire, <- Hsz.
    - exists p. split; [done|]. unfold ParseProtobufPayload; simpl.
      rewrite Z.eqb_refl. by rewrite (proj2 (Z.ltb_ge INT_MAX _)) by lia. }
  destruct (0 <? ByteSizeLong m) eqn:E0.
  - destruct (SerializeToArray m) as [p|] eqn:Es; [|done]. simpl. apply Hmain.
    + by apply serialize_size.
    + by apply parse_serialize.
  - pose proof (byte_size_nonneg m). apply Z.ltb_ge in E0. assert (ByteSizeLong m = 0) as Hz by lia.
    simpl. apply Hmain; [by rewrite Hz|by apply parse_default].
Qed.

(** The encoder's errors: an oversized message gives [length_error] before
    anything is serialised, a message that cannot be serialised [runtime_error],
    and there is no other outcome than these two and the frame. *)
Theorem protobuf_frame_errors `{ProtobufLaws} type m max :
  (ByteSizeLong m <= max → ByteSizeLong m <= INT_MAX → is_Some (SerializeToArray m) →
     ∃ bytes, EncodeProtobufFrame type m max = Returns bytes) ∧
  (max < ByteSizeLong m ∨ INT_MAX < ByteSizeLong m →
     EncodeProtobufFrame type m max = Throws (length_error "Protobuf payload exceeds frame limit")) ∧
  (0 < ByteSizeLong m → ByteSizeLong m <= max → ByteSizeLong m <= INT_MAX →
     SerializeToArray m = None →
     EncodeProtobufFrame type m max
     = Throws (runtime_error "failed to serialize Protobuf message")).
Proof.
  unfold EncodeProtobufFrame. assert (INT_MAX <= UINT32_MAX) as Hi by done.
  pose proof (byte_size_nonneg m) as Hnn.
  split; [|split].
  - intros H1 H2 [p Hp]. rewrite Hp.
    rewrite (proj2 (Z.ltb_ge max _)), (proj2 (Z.ltb_ge INT_MAX _)), (proj2 (Z.ltb_ge UINT32_MAX _)) by lia.
    simpl orb. cbv iota.
    assert (∀ p', size_of p' <= ByteSizeLong m → ∃ bytes, EncodeFrame type p' max = Returns bytes) as Henc.
    { intros p' Hsz. eexists. apply EncodeFrame_Returns. split; [lia|]. split; [lia|done]. }
    destruct (0 <? _); simpl; apply Henc; [by rewrite (serialize_size m p Hp)|unfold size_of; simpl; lia].
  - intros Hor. replace (((max <? _) || _) || _) with true; [done|].
    symmetry. apply orb_true_iff. left. apply orb_true_iff.
    destruct Hor; [left|right]; by apply Z.ltb_lt.
  - intros Hp H1 H2 Hn. rewrite Hn.
    rewrite (proj2 (Z.ltb_ge max _)), (proj2 (Z.ltb_ge INT_MAX _)), (proj2 (Z.ltb_ge UINT32_MAX _)) by lia.
    by rewrite (proj2 (Z.ltb_lt 0 _)).
Qed.

(** ** Witnesses *)

Definition chat_table : table := [([Byte.x0a; Byte.x02; Byte.x68; Byte.x69], ChatRequest "hi"); ([], Heartbeat)].

Lemma chat_table_laws : @ProtobufLaws (table_protobuf chat_table).
Proof. apply table_protobuf_laws. unfold table_ok. vm_compute. repeat constructor; set_solver. Qed.

Lemma protobuf_frame_roundtrip_witness :
  ∃ p, @EncodeProtobufFrame (table_protobuf chat_table) kChatRequest (ChatRequest "hi") 100
       = Returns (frame_wire {| message_id := 2; payload := p |}) ∧
       @ParseProtobufPayload (table_protobuf chat_table)
         {| message_id := 2; payload := p |} kChatRequest ChatRequest_ = Some (ChatRequest "hi").
Proof.
  destruct (@EncodeProtobufFrame (table_protobuf chat_table) kChatRequest (ChatRequest "hi") 100)
    as [bytes|e] eqn:E; [|vm_compute in E; discriminate E].
  destruct (@protobuf_frame_roundtrip _ chat_table_laws kChatRequest (ChatRequest "hi") 100 bytes)
    as (_ & _ & p & Hb & Hp).
  - by repeat constructor.
  - exact E.
  - exists p. split; [rewrite Hb; reflexivity|exact Hp].
Defined.

Lemma protobuf_frame_errors_witness :
  @EncodeProtobufFrame (table_protobuf chat_table) kChatRequest (ChatRequest "hi") 3
  = Throws (length_error "Protobuf payload exceeds frame limit").
Proof.
  apply (@protobuf_frame_errors _ chat_table_laws kChatRequest (ChatRequest "hi") 3).
  left. vm_compute. reflexivity.
Defined.
