(* ===== verification/AsyncData.v ===== *)
(** * The asynchronous data service

    [src/data/async_data_service.cpp]: each request is a task of the thread
    pool; a worker runs it against the stores and pushes a completion that will
    call the requester's callback on the event-loop thread.

    The closures are data: a [DataTask] is what a submitted lambda captured, a
    [Completion] what the lambda it pushes captured, and [PK], [SK], [OK] are the
    types of the callbacks they carry. [DataService] is the interface the game
    service uses. *)

From S2P Require Import Prelude Double DataTypes MemoryStores ThreadPool CompletionQueue.

(** The service as its client sees it: a call is accepted or refused. *)
Class DataService (D PK SK OK : Type) := {
  ds_LoadPlayer : D → string → PK → bool * D;
  ds_SavePlayer : D → PlayerRecord → OK → bool * D;
  ds_StoreSession : D → SessionRecord → Z → OK → bool * D;
  ds_LoadSession : D → Z → SK → bool * D
}.

Section async.
Context {PK SK OK : Type}.

Inductive DataTask :=
| LoadPlayerTask (account : string) (callback : PK)
| SavePlayerTask (player : PlayerRecord) (callback : OK)
| DeletePlayerTask (account : string) (callback : OK)
| StoreSessionTask (session : SessionRecord) (ttl : Z) (callback : OK)
| LoadSessionTask (player_id : Z) (callback : SK)
| RemoveSessionTask (player_id : Z) (callback : OK).

Inductive Completion :=
| PlayerCompletion (callback : PK) (result : DataResult PlayerRecord)
| SessionCompletion (callback : SK) (result : DataResult SessionRecord)
| OperationCompletion (callback : OK) (result : OperationResult).

Abbreviation Pool := (BoundedThreadPool DataTask).

(** The six requests; [None] is an empty callback. *)
Definition LoadPlayer (workers : Pool) (account : string) (callback : option PK) : bool * Pool :=
  match callback with
  | None => (false, workers)
  | Some callback => TrySubmit workers (Some (LoadPlayerTask account callback))
  end.

Definition SavePlayer (workers : Pool) (player : PlayerRecord) (callback : option OK) : bool * Pool :=
  match callback with
  | None => (false, workers)
  | Some callback => TrySubmit workers (Some (SavePlayerTask player callback))
  end.

Definition DeletePlayer (workers : Pool) (account : string) (callback : option OK) : bool * Pool :=
  match callback with
  | None => (false, workers)
  | Some callback => TrySubmit workers (Some (DeletePlayerTask account callback))
  end.

Definition StoreSession (workers : Pool) (session : SessionRecord) (ttl : Z)
    (callback : option OK) : bool * Pool :=
  match callback with
  | None => (false, workers)
  | Some callback => TrySubmit workers (Some (StoreSessionTask session ttl callback))
  end.

Definition LoadSession (workers : Pool) (player_id : Z) (callback : option SK) : bool * Pool :=
  match callback with
  | None => (false, workers)
  | Some callback => TrySubmit workers (Some (LoadSessionTask player_id callback))
  end.

Definition RemoveSession (workers : Pool) (player_id : Z) (callback : option OK) : bool * Pool :=
  match callback with
  | None => (false, workers)
  | Some callback => TrySubmit workers (Some (RemoveSessionTask player_id callback))
  end.

#[export] Instance pool_data_service : DataService Pool PK SK OK := {
  ds_LoadPlayer w a k := LoadPlayer w a (Some k);
  ds_SavePlayer w p k := SavePlayer w p (Some k);
  ds_StoreSession w s ttl k := StoreSession w s ttl (Some k);
  ds_LoadSession w p k := LoadSession w p (Some k)
}.

(** The request a task carries, and the callback that is owed an answer. *)
Definition task_callback (t : DataTask) : PK + SK + OK :=
  match t with
  | LoadPlayerTask _ k => inl (inl k)
  | LoadSessionTask _ k => inl (inr k)
  | SavePlayerTask _ k | DeletePlayerTask _ k | StoreSessionTask _ _ k
  | RemoveSessionTask _ k => inr k
  end.

Definition completion_callback (c : Completion) : PK + SK + OK :=
  match c with
  | PlayerCompletion k _ => inl (inl k)
  | SessionCompletion k _ => inl (inr k)
  | OperationCompletion k _ => inr k
  end.

(** ** Workers and stores *)

Section stores.
Context {P S : Type} `{PlayerRepository P} `{SessionStore S}.

(** The body of a submitted lambda up to its [Push]: the store operation and the
    completion built from its result. [now] is the clock the store reads. *)
Definition run_task (now : Z) (t : DataTask) (stores : P * S) : Completion * (P * S) :=
  let '(players, sessions) := stores in
  match t with
  | LoadPlayerTask account k =>
      let '(result, players) := LoadByAccount players account in
      (PlayerCompletion k result, (players, sessions))
  | SavePlayerTask player k =>
      let '(result, players) := Save players player in
      (OperationCompletion k result, (players, sessions))
  | DeletePlayerTask account k =>
      let '(result, players) := DeleteByAccount players account in
      (OperationCompletion k result, (players, sessions))
  | StoreSessionTask session ttl k =>
      let '(result, sessions) := Store sessions now session ttl in
      (OperationCompletion k result, (players, sessions))
  | LoadSessionTask player_id k =>
      let '(result, sessions) := Load sessions now player_id in
      (SessionCompletion k result, (players, sessions))
  | RemoveSessionTask player_id k =>
      let '(result, sessions) := Remove sessions now player_id in
      (OperationCompletion k result, (players, sessions))
  end.

(** The pool, the stores, the completions computed by a worker that has not
    pushed yet, and the completions pushed so far. *)
Record DataSystem := mkDataSystem {
  pool : Pool;
  stores : P * S;
  computed : gmap nat Completion;
  pushed_completions : list Completion
}.

Inductive data_step : DataSystem → DataSystem → Prop :=
| data_pool s p' :
    pool_step (pool s) p' → finished p' = finished (pool s) →
    data_step s {| pool := p'; stores := stores s; computed := computed s;
                   pushed_completions := pushed_completions s |}
| data_store s i t now c st :
    workers_ (pool s) !! i = Some (Running t) → computed s !! i = None →
    run_task now t (stores s) = (c, st) →
    data_step s {| pool := pool s; stores := st; computed := <[i := c]> (computed s);
                   pushed_completions := pushed_completions s |}
| data_push s i t c :
    workers_ (pool s) !! i = Some (Running t) → computed s !! i = Some c →
    data_step s
      {| pool := {| queue_capacity_ := queue_capacity_ (pool s); tasks_ := tasks_ (pool s);
                    workers_ := <[i := AtLock]> (workers_ (pool s));
                    accepting_tasks_ := accepting_tasks_ (pool s);
                    notify_one_pending := notify_one_pending (pool s);
                    notify_all_pending := notify_all_pending (pool s);
                    accepted := accepted (pool s); started := started (pool s);
                    finished := finished (pool s) ++ [t] |};
         stores := stores s; computed := delete i (computed s);
         pushed_completions := pushed_completions s ++ [c] |}.

Definition data_init (p : Pool) (st : P * S) : DataSystem :=
  {| pool := p; stores := st; computed := ∅; pushed_completions := [] |}.

(** A computed completion belongs to the task its worker is running, and the
    pushed ones to the finished tasks, in order. *)
Record DataInv (s : DataSystem) : Prop := {
  inv_pool : PoolInv (pool s);
  inv_computed : ∀ i c, computed s !! i = Some c →
    ∃ t : DataTask, workers_ (pool s) !! i = Some (Running t) ∧ completion_callback c = task_callback t;
  inv_pushed : completion_callback <$> pushed_completions s = task_callback <$> finished (pool s)
}.

(** *** Facts *)

Lemma run_task_callback now t st :
  completion_callback (run_task now t st).1 = task_callback t.
Proof.
  destruct st as [players sessions]. destruct t; simpl.
  - by destruct (LoadByAccount players account).
  - by destruct (Save players player).
  - by destruct (DeleteByAccount players account).
  - by destruct (Store sessions now session ttl).
  - by destruct (Load sessions now player_id).
  - by destruct (Remove sessions now player_id).
Qed.

(** A step of the pool that finishes nothing does not touch a running worker. *)
Lemma pool_step_running (p p' : Pool) (i : nat) (t : DataTask) :
  pool_step p p' → finished p' = finished p →
  workers_ p !! i = Some (Running t) → workers_ p' !! i = Some (Running t).
Proof.
  intros Hstep Hfin Hi.
  destruct Hstep as [p t' p' E|p j n En Hj|p n En Hnw|p p' E|p En|p j Hj|p j ph p' Hj E|p j t' Hj|p Ha En Hne Hex];
    simpl in *.
  - apply TrySubmit_true in E as (_ & _ & ->). done.
  - rewrite list_lookup_insert_ne; [done|]. intros <-. congruence.
  - done.
  - unfold Shutdown_locked in E. case_match; by simplify_eq.
  - unfold wake_all. by rewrite list_lookup_fmap, Hi.
  - rewrite list_lookup_insert_ne; [done|]. intros <-. congruence.
  - assert (workers_ p' = workers_ p) as ->.
    { unfold WorkerLoop_locked in E. by repeat case_match; simplify_eq. }
    rewrite list_lookup_insert_ne; [done|]. intros <-. congruence.
  - apply (f_equal length) in Hfin. rewrite length_app in Hfin. simpl in Hfin. lia.
  - apply list_elem_of_lookup_2 in Hi. by apply Hex in Hi.
Qed.

Lemma data_step_inv s s' : DataInv s → data_step s s' → DataInv s'.
Proof.
  intros [Hp Hc Hpu] Hstep. destruct Hstep as [s p' Hstep Hfin|s i t now c st Hi Hn E|s i t c Hi Hci].
  - split; simpl; [by eapply pool_step_inv| |by rewrite Hfin].
    intros i c (t & Hi & Hk)%Hc. exists t. split; [|done]. by eapply pool_step_running.
  - split; simpl; [done| |done]. intros j c'. rewrite lookup_insert_Some.
    intros [[<- <-]|[_ Hj]]; [|by apply Hc]. exists t. split; [done|].
    pose proof (run_task_callback now t (stores s)) as Hr. by rewrite E in Hr.
  - split; simpl.
    + eapply pool_step_inv; [exact Hp|]. by apply step_finish.
    + intros j c' [Hne (t' & Hj & Hk)%Hc]%lookup_delete_Some. exists t'.
      split; [|done]. by rewrite list_lookup_insert_ne.
    + rewrite !fmap_app, Hpu. f_equal. simpl. destruct (Hc i c Hci) as (t' & Hi' & ->). congruence.
Qed.

Lemma data_reachable_inv s s' : DataInv s → rtc data_step s s' → DataInv s'.
Proof. intros Hs Hr. induction Hr; eauto using data_step_inv. Qed.

Lemma data_init_inv p st : PoolInv p → finished p = [] → DataInv (data_init p st).
Proof. intros Hp Hf. split; simpl; [done|set_solver|by rewrite Hf]. Qed.
End stores.
End async.

Arguments DataTask : clear implicits.
Arguments Completion : clear implicits.
Arguments DataSystem : clear implicits.

(** ** Properties *)

(** C35: Every accepted request is answered exactly once: under every interleaving
    of submitters, workers and store accesses, the pushed completions answer, in
    order, the finished requests; the accepted ones are those finished, running or
    queued; and after the pool has shut down and joined, the callbacks answered are
    exactly the callbacks accepted. *)
Theorem requests_answered_once {PK SK OK P S} `{PlayerRepository P} `{SessionStore S}
    n c (p0 : BoundedThreadPool (DataTask PK SK OK)) (st : P * S) s :
  BoundedThreadPool_new n c = Returns p0 → rtc data_step (data_init p0 st) s →
  completion_callback <$> pushed_completions s = task_callback <$> finished (pool s) ∧
  accepted (pool s) ≡ₚ finished (pool s) ++ running (workers_ (pool s)) ++ tasks_ (pool s) ∧
  (workers_ (pool s) = [] →
     completion_callback <$> pushed_completions s ≡ₚ task_callback <$> accepted (pool s)).
Proof.
  intros Hn Hr. pose proof (pool_new_inv _ _ _ Hn) as [Hp0 _].
  assert (finished p0 = []) as Hf0.
  { unfold BoundedThreadPool_new in Hn. case_match; by simplify_eq. }
  pose proof (data_reachable_inv _ _ (data_init_inv p0 st Hp0 Hf0) Hr) as [Hp Hc Hpu].
  assert (accepted (pool s) ≡ₚ finished (pool s) ++ running (workers_ (pool s)) ++ tasks_ (pool s)) as Hacc.
  { by rewrite (inv_fifo _ Hp), (inv_once _ Hp), <- app_assoc. }
  split; [done|]. split; [done|]. intros Hw. rewrite Hpu. f_equiv.
  destruct (inv_exited _ Hp (or_introl Hw)) as [_ Ht].
  rewrite Hacc, Hw, Ht. simpl. by rewrite app_nil_r.
Qed.

(** A refused request has no effect: each of the six operations returns [false]
    and leaves the pool as it is for an empty callback, a full queue or a pool that
    is shutting down, and otherwise queues exactly its own task at the back. *)
Theorem request_accepted_or_refused {PK SK OK} (w : BoundedThreadPool (DataTask PK SK OK))
    (a : string) (p : PlayerRecord) (id : Z) (s : SessionRecord) (ttl : Z)
    (pk : option PK) (sk : option SK) (ok : option OK) :
  let outcome {K} (k : option K) (r : bool * BoundedThreadPool (DataTask PK SK OK)) task :=
    match k with
    | Some k =>
        if accepting_tasks_ w && (length (tasks_ w) <? queue_capacity_ w)%nat
        then r.1 = true ∧ tasks_ r.2 = tasks_ w ++ [task k]
        else r = (false, w)
    | None => r = (false, w)
    end in
  outcome pk (LoadPlayer w a pk) (LoadPlayerTask a) ∧
  outcome ok (SavePlayer w p ok) (SavePlayerTask p) ∧
  outcome ok (DeletePlayer w a ok) (DeletePlayerTask a) ∧
  outcome ok (StoreSession w s ttl ok) (StoreSessionTask s ttl) ∧
  outcome sk (LoadSession w id sk) (LoadSessionTask id) ∧
  outcome ok (RemoveSession w id ok) (RemoveSessionTask id).
Proof.
  assert (∀ t, if accepting_tasks_ w && (length (tasks_ w) <? queue_capacity_ w)%nat
    then (TrySubmit w (Some t)).1 = true ∧ tasks_ (TrySubmit w (Some t)).2 = tasks_ w ++ [t]
    else TrySubmit w (Some t) = (false, w)) as Hsub.
  { intros t. unfold TrySubmit. rewrite Nat.ltb_antisym.
    destruct (accepting_tasks_ w), (queue_capacity_ w <=? _)%nat; done. }
  intros outcome. repeat split; unfold outcome.
  1: destruct pk as [k|]; [|done]; exact (Hsub (LoadPlayerTask a k)).
  4: destruct sk as [k|]; [|done]; exact (Hsub (LoadSessionTask id k)).
  all: destruct ok as [k|]; [|done].
  - exact (Hsub (SavePlayerTask p k)).
  - exact (Hsub (DeletePlayerTask a k)).
  - exact (Hsub (StoreSessionTask s ttl k)).
  - exact (Hsub (RemoveSessionTask id k)).
Qed.

(** ** Witnesses *)

(** ** Witnesses *)

(** A pool with one worker, and the same with one request submitted. *)
Definition idle_pool : BoundedThreadPool (DataTask unit unit unit) :=
  {| queue_capacity_ := 4; tasks_ := []; workers_ := [AtLock]; accepting_tasks_ := true;
     notify_one_pending := 0; notify_all_pending := false; accepted := []; started := []; finished := [] |}.

Definition one_request : BoundedThreadPool (DataTask unit unit unit) :=
  (LoadPlayer idle_pool "ada" (Some tt)).2.

Definition no_stores : MemoryPlayerRepository * MemorySessionStore :=
  ({| players := ∅ |}, {| sessions := ∅ |}).

Definition requested : DataSystem unit unit unit MemoryPlayerRepository MemorySessionStore :=
  {| pool := one_request; stores := no_stores; computed := ∅; pushed_completions := [] |}.

Lemma requests_answered_once_witness :
  accepted (pool requested)
  ≡ₚ finished (pool requested) ++ running (workers_ (pool requested)) ++ tasks_ (pool requested).
Proof.
  refine (proj1 (proj2 (requests_answered_once 1 4 idle_pool no_stores requested _ _))).
  - reflexivity.
  - apply rtc_once. apply (data_pool (data_init idle_pool no_stores) one_request).
    + by apply (step_submit _ (LoadPlayerTask "ada" tt)).
    + reflexivity.
Defined.
