(* ===== verification/DataOrder.v ===== *)
(** * In which order the stores see the requests

    [AsyncDataService] hands its requests to a pool of workers. With one worker the
    stores are exactly those of a program that runs the requests itself, one after the
    other; with more, two requests for the same account may reach the stores in either
    order, whichever was made first. *)

From S2P Require Import Prelude Double DataTypes MemoryStores ThreadPool CompletionQueue AsyncData.

Section order.
Context {PK SK OK P S : Type} `{PlayerRepository P} `{SessionStore S}.

Abbreviation Task := (DataTask PK SK OK).
Abbreviation System := (DataSystem PK SK OK P S).
Implicit Types (s : System) (st : P * S) (p : BoundedThreadPool Task).

(** The reference: the requests run in place, each at some reading of the clock. *)
Fixpoint run_tasks (work : list (Z * Task)) st : list (Completion PK SK OK) * (P * S) :=
  match work with
  | [] => ([], st)
  | (now, t) :: work =>
      let '(c, st) := run_task now t st in
      let '(cs, st) := run_tasks work st in (c :: cs, st)
  end.

Lemma run_tasks_snoc work now t st cs st1 :
  run_tasks work st = (cs, st1) →
  run_tasks (work ++ [(now, t)]) st = (cs ++ [(run_task now t st1).1], (run_task now t st1).2).
Proof.
  revert st cs. induction work as [|[n u] work IH]; intros st cs; cbn [run_tasks app].
  { intros [= <- <-]. by destruct (run_task now t st). }
  destruct (run_task n u st) as [c st']. destruct (run_tasks work st') as [cs' st''] eqn:E. intros [= <- <-].
  by rewrite (IH _ _ E).
Qed.

(** The task whose store operation is done and whose completion is not pushed yet. *)
Definition computing s : list Task :=
  match computed s !! 0%nat with Some _ => running (workers_ (pool s)) | None => [] end.

Record SerialInv st s : Prop := {
  serial_one : (length (workers_ (pool s)) <= 1)%nat;
  serial_order : started (pool s) = finished (pool s) ++ running (workers_ (pool s));
  serial_done : ∃ work, work.*2 = finished (pool s) ++ computing s ∧
    run_tasks work st = (pushed_completions s ++ option_list (computed s !! 0%nat), stores s)
}.

(** What a step of the pool that finishes nothing does to a single worker. *)
Lemma pool_step_serial p p' :
  pool_step p p' → finished p' = finished p → (length (workers_ p) <= 1)%nat →
  started p = finished p ++ running (workers_ p) →
  (length (workers_ p') <= 1)%nat ∧ started p' = finished p' ++ running (workers_ p') ∧
  (running (workers_ p') = running (workers_ p) ∨ running (workers_ p) = []).
Proof.
  intros Hstep Hfin Hone Hord. rewrite Hfin.
  destruct Hstep as [p t' p' E|p j n En Hj|p n En Hnw|p p' E|p En|p j Hj|p j ph p' Hj E|p j t' Hj|p Ha En Hne Hex];
    cbn -[running wake_all] in *.
  - apply TrySubmit_true in E as (_ & _ & ->). cbn. by auto.
  - rewrite length_insert. destruct (workers_ p) as [|w [|]]; [done| |cbn in Hone; lia]. destruct j; [|done].
    injection Hj as ->. by auto.
  - by auto.
  - unfold Shutdown_locked in E. case_match; simplify_eq. by auto.
  - rewrite running_wake_all. unfold wake_all. rewrite length_fmap. by auto.
  - rewrite length_insert. destruct (workers_ p) as [|w [|]]; [done| |cbn in Hone; lia]. destruct j; [|done].
    injection Hj as ->. by auto.
  - destruct (workers_ p) as [|w [|]] eqn:Ew; [done| |cbn in Hone; lia]. destruct j; [|done]. injection Hj as ->.
    unfold WorkerLoop_locked in E. cbn in Hord. rewrite app_nil_r in Hord.
    destruct (tasks_ p) as [|t rest]; [destruct (accepting_tasks_ p)|]; injection E as <- <-; cbn;
      rewrite ?Ew; cbn; rewrite ?app_nil_r, ?Hord; auto.
  - apply (f_equal length) in Hfin. rewrite length_app in Hfin. cbn in Hfin. lia.
  - assert (running (workers_ p) = []) as Hr.
    { destruct (workers_ p) as [|w [|]]; [done| |cbn in Hone; lia]. by rewrite (Hex w) by (by left). }
    rewrite Hr in Hord. split; [lia|]. by auto.
Qed.

Lemma data_step_serial st s s' : DataInv s → SerialInv st s → data_step s s' → SerialInv st s'.
Proof.
  intros Hd [Hone Hord (work & Hw & Hrun)] Hstep.
  destruct Hstep as [s p' Hstep Hfin|s i t now c st' Hi Hn E|s i t c Hi Hci].
  - destruct (pool_step_serial _ _ Hstep Hfin Hone Hord) as (H1 & H2 & H3). split; cbn; [done|done|].
    exists work. split; [|done]. rewrite Hfin, Hw. f_equal. unfold computing. cbn.
    destruct (computed s !! 0%nat) as [c|] eqn:Ec; [|done]. destruct H3 as [->|H3]; [done|].
    destruct (inv_computed _ Hd _ _ Ec) as (t & Ht & _). exfalso.
    destruct (workers_ (pool s)) as [|w ws]; [done|]. cbn in Ht. injection Ht as ->. done.
  - assert (i = 0%nat) as -> by (apply lookup_lt_Some in Hi; lia).
    assert (running (workers_ (pool s)) = [t]) as Hr.
    { destruct (workers_ (pool s)) as [|w [|]]; [done| |cbn in Hone; lia]. by injection Hi as ->. }
    split; cbn; [done|done|]. unfold computing in *. rewrite Hn in Hw, Hrun. cbn in *. rewrite app_nil_r in Hw, Hrun.
    exists (work ++ [(now, t)]). rewrite lookup_insert_eq, fmap_app, Hw, Hr. split; [done|].
    rewrite (run_tasks_snoc _ _ _ _ _ _ Hrun), E. done.
  - assert (i = 0%nat) as -> by (apply lookup_lt_Some in Hi; lia).
    assert (workers_ (pool s) = [Running t]) as Hr.
    { destruct (workers_ (pool s)) as [|w [|]]; [done| |cbn in Hone; lia]. by injection Hi as ->. }
    split; cbn; rewrite Hr; cbn; [lia|by rewrite Hord, Hr, app_nil_r|].
    unfold computing in *. rewrite Hci, Hr in *. cbn in *. rewrite lookup_delete_eq. cbn. exists work.
    by rewrite !app_nil_r.
Qed.

Lemma data_reachable_serial st s s' : DataInv s → SerialInv st s → rtc data_step s s' → SerialInv st s'.
Proof. intros Hd Hs Hr. induction Hr; [done|]. eauto using data_step_inv, data_step_serial. Qed.
End order.

(** ** Properties *)

(** C15: With one worker the asynchronous service is the sequential one: under every
    interleaving the requests are taken in the order they were accepted, and the stores
    and the completions are those of running the first of them in place, one after the
    other, each at some time; after the shutdown, of running them all. *)
Theorem one_worker_is_sequential {PK SK OK P S} `{PlayerRepository P} `{SessionStore S}
    c (p0 : BoundedThreadPool (DataTask PK SK OK)) (st : P * S) s :
  BoundedThreadPool_new 1 c = Returns p0 → rtc data_step (data_init p0 st) s →
  ∃ work, work.*2 `prefix_of` accepted (pool s) ∧
    (run_tasks work st).2 = stores s ∧ pushed_completions s `prefix_of` (run_tasks work st).1 ∧
    (workers_ (pool s) = [] → work.*2 = accepted (pool s) ∧ (run_tasks work st).1 = pushed_completions s).
Proof.
  intros Hn Hr. pose proof (pool_new_inv _ _ _ Hn) as [Hp0 _].
  assert (workers_ p0 = [AtLock] ∧ started p0 = [] ∧ finished p0 = []) as (Hw0 & Hs0 & Hf0).
  { unfold BoundedThreadPool_new in Hn. case_match; by simplify_eq. }
  pose proof (data_init_inv p0 st Hp0 Hf0) as Hd0.
  assert (SerialInv st (data_init p0 st)) as Hi0.
  { split; cbn; rewrite ?Hw0, ?Hs0, ?Hf0; [cbn; lia|done|]. by exists []. }
  pose proof (data_reachable_inv _ _ Hd0 Hr) as Hd. pose proof (data_reachable_serial st _ _ Hd0 Hi0 Hr) as [Hone Hord (work & Hw & Hrun)].
  exists work. rewrite Hrun. cbn [fst snd].
  rewrite (inv_fifo _ (inv_pool _ Hd)), Hord, Hw. split; [|split; [done|split; [by apply prefix_app_r|]]].
  - rewrite <- app_assoc. apply prefix_app. unfold computing.
    destruct (computed s !! 0%nat); [by apply prefix_app_r|apply prefix_nil].
  - intros He. destruct (inv_exited _ (inv_pool _ Hd) (or_introl He)) as [_ Ht]. rewrite Ht.
    assert (computed s !! 0%nat = None) as Hc.
    { destruct (computed s !! 0%nat) as [k|] eqn:E; [|done]. destruct (inv_computed _ Hd _ _ E) as (t & Hi & _).
      by rewrite He in Hi. }
    unfold computing. rewrite Hc, He. cbn. by rewrite !app_nil_r.
Qed.

(** ** Two workers *)

Definition ada_at (x : Z) : PlayerRecord :=
  {| player_id := 7; account := "ada"; nickname := "Ada-7"; position_x := double_of x; position_y := double_of 10;
     position_z := dzero; last_login_unix := 0 |}.

(** A pool of [n] workers before anything was submitted. *)
Definition fresh_pool (n : nat) : BoundedThreadPool (DataTask unit unit nat) :=
  {| queue_capacity_ := 1024; tasks_ := []; workers_ := replicate n AtLock; accepting_tasks_ := true;
     notify_one_pending := 0; notify_all_pending := false; accepted := []; started := []; finished := [] |}.

Definition save_at (x : Z) (k : nat) : DataTask unit unit nat := SavePlayerTask (ada_at x) k.

(** *** Steps to run *)

Abbreviation MemorySystem := (DataSystem unit unit nat MemoryPlayerRepository MemorySessionStore).
Implicit Types (s : MemorySystem).

Definition with_pool p s : MemorySystem :=
  {| pool := p; stores := stores s; computed := computed s; pushed_completions := pushed_completions s |}.

Inductive Event := Submit (t : DataTask unit unit nat) | Take (i : nat) | AtStore (i : nat) | Finish (i : nat).

(** The step of an event, if it can happen. *)
Definition event_step (e : Event) s : option MemorySystem :=
  match e with
  | Submit t => let '(b, p) := TrySubmit (pool s) (Some t) in if b then Some (with_pool p s) else None
  | Take i =>
      match workers_ (pool s) !! i with
      | Some AtLock => let '(ph, p) := WorkerLoop_locked (pool s) in
                       Some (with_pool (set_workers p (<[i := ph]> (workers_ p))) s)
      | _ => None
      end
  | AtStore i =>
      match workers_ (pool s) !! i, computed s !! i with
      | Some (Running t), None =>
          let '(c, st) := run_task 0 t (stores s) in
          Some {| pool := pool s; stores := st; computed := <[i := c]> (computed s);
                  pushed_completions := pushed_completions s |}
      | _, _ => None
      end
  | Finish i =>
      match workers_ (pool s) !! i, computed s !! i with
      | Some (Running t), Some c =>
          Some {| pool := {| queue_capacity_ := queue_capacity_ (pool s); tasks_ := tasks_ (pool s);
                    workers_ := <[i := AtLock]> (workers_ (pool s));
                    accepting_tasks_ := accepting_tasks_ (pool s);
                    notify_one_pending := notify_one_pending (pool s);
                    notify_all_pending := notify_all_pending (pool s);
                    accepted := accepted (pool s); started := started (pool s);
                    finished := finished (pool s) ++ [t] |};
                  stores := stores s; computed := delete i (computed s);
                  pushed_completions := pushed_completions s ++ [c] |}
      | _, _ => None
      end
  end.

Lemma event_step_data e s s' : event_step e s = Some s' → data_step s s'.
Proof.
  destruct e as [t|i|i|i]; cbn [event_step].
  - destruct (TrySubmit (pool s) (Some t)) as [[] p] eqn:E; [|done]. intros [= <-].
    apply data_pool; [by eapply step_submit|]. by apply TrySubmit_true in E as (_ & _ & ->).
  - destruct (workers_ (pool s) !! i) as [[| | |]|] eqn:Ew; try done.
    destruct (WorkerLoop_locked (pool s)) as [ph p] eqn:E. intros [= <-].
    apply data_pool; [by eapply step_worker|]. unfold WorkerLoop_locked in E. by repeat case_match; simplify_eq.
  - destruct (workers_ (pool s) !! i) as [[| |t|]|] eqn:Ew; try done. destruct (computed s !! i) eqn:Ec; [done|].
    destruct (run_task 0 t (stores s)) as [c st] eqn:E. intros [= <-]. by eapply data_store.
  - destruct (workers_ (pool s) !! i) as [[| |t|]|] eqn:Ew; try done. destruct (computed s !! i) eqn:Ec; [|done].
    intros [= <-]. by apply data_push.
Qed.

Fixpoint run_events (es : list Event) s : option MemorySystem :=
  match es with [] => Some s | e :: es => s ← event_step e s; run_events es s end.

Lemma run_events_data es s s' : run_events es s = Some s' → rtc data_step s s'.
Proof.
  revert s. induction es as [|e es IH]; intros s; cbn [run_events]; [by intros [= ->]|].
  destruct (event_step e s) as [s1|] eqn:E; [|done]. cbn. intros Hr. eapply rtc_l; [by eapply event_step_data|by apply IH].
Qed.

Definition overtaking : list Event :=
  [Submit (save_at 100 1); Submit (save_at 900 2); Take 0; Take 1; AtStore 1; Finish 1; AtStore 0; Finish 0].

(** C39: Two saves of one player can take effect in the wrong order. With the default two
    workers a save of the position 100 is requested, then one of the position 900; both
    are accepted, taken in this order, and both report success; yet the second is done
    first, and the stores end with the older position. *)
Theorem later_save_is_overwritten :
  BoundedThreadPool_new 2 1024 = Returns (fresh_pool 2) ∧
  ∃ s, rtc data_step (data_init (fresh_pool 2) no_stores) s ∧
    accepted (pool s) = [save_at 100 1; save_at 900 2] ∧ started (pool s) = accepted (pool s) ∧
    pushed_completions s = [OperationCompletion 2%nat op_Success; OperationCompletion 1%nat op_Success] ∧
    players (stores s).1 !! "ada"%string = Some (ada_at 100).
Proof.
  split; [reflexivity|].
  destruct (run_events overtaking (data_init (fresh_pool 2) no_stores)) as [s|] eqn:E; [|by vm_compute in E].
  exists s. split; [by eapply run_events_data|]. vm_compute in E. injection E as <-. repeat split; reflexivity.
Qed.

(** ** Witnesses *)

Lemma one_worker_is_sequential_witness :
  ∃ s, rtc data_step (data_init (fresh_pool 1) no_stores) s ∧ players (stores s).1 !! "ada"%string = Some (ada_at 900) ∧
    ∃ work, work.*2 `prefix_of` accepted (pool s) ∧ (run_tasks work no_stores).2 = stores s.
Proof.
  destruct (run_events [Submit (save_at 100 1); Submit (save_at 900 2); Take 0; AtStore 0; Finish 0; Take 0; AtStore 0]
    (data_init (fresh_pool 1) no_stores)) as [s|] eqn:E; [|vm_compute in E; discriminate E].
  exists s. pose proof (run_events_data _ _ _ E) as Hr. split; [exact Hr|]. split.
  - vm_compute in E. injection E as <-. reflexivity.
  - destruct (one_worker_is_sequential 1024 (fresh_pool 1) no_stores s eq_refl Hr) as (work & Hp & Hs & _).
    exists work. exact (conj Hp Hs).
Defined.
