(* ===== verification/GameTransport.v ===== *)
(** * The transport interface of the game service

    [class GameTransport] of [include/mmo/game/game_service.h], as a type class
    over the state [T] of the transport. [Disconnect] may call back into the
    service ([GameService::OnDisconnected]), so it takes that callback and runs
    over both states. The implementation is [GameServer]; [recording] is a
    transport that only records, for concrete runs. *)

From S2P Require Import Prelude Double FrameCodec ProtobufCodec.

Abbreviation ConnectionId := Z (only parsing).

Class GameTransport (T : Type) := {
  tr_Send : T → Z → MessageType → ProtoMessage → bool * T;
  tr_IsConnected : T → Z → bool;
  tr_Disconnect : ∀ {G}, (Z → M (G * T) unit) → Z → M (G * T) unit
}.

(** What the service relies on, of a transport in a well-formed state: sending
    neither opens nor closes a connection; an open connection is told of its
    disconnection exactly once, by a callback that only sends, and is closed after
    it; a connection that is not open is left alone; connected implies open.
    [tr_same t t'] says that [t'] has the same connections as [t]. *)
Class GameTransportLaws (T : Type) `{GameTransport T} := {
  tr_ok : T → Prop;
  tr_open : T → Z → bool;
  tr_same : T → T → Prop;
  tr_same_preorder :: PreOrder tr_same;
  same_open t t' c : tr_same t t' → tr_open t' c = tr_open t c;
  connected_open t c : tr_IsConnected t c = true → tr_open t c = true;
  send_law t c ty m : tr_ok t → tr_ok (tr_Send t c ty m).2 ∧ tr_same t (tr_Send t c ty m).2;
  disconnect_law {G} (cb : Z → M (G * T) unit) (c : Z) (Q : G → Prop) (g : G) (t : T) :
    tr_ok t →
    (tr_open t c = true → ∀ t', tr_ok t' → (∀ c', tr_open t' c' = tr_open t c') →
       wp (cb c) (λ _ s, Q s.1 ∧ tr_ok s.2 ∧ tr_same t' s.2) (g, t')) →
    (tr_open t c = false → Q g) →
    wp (tr_Disconnect cb c)
      (λ _ s, Q s.1 ∧ tr_ok s.2 ∧ ∀ c', tr_open s.2 c' = tr_open t c' && negb (c' =? c)) (g, t)
}.

(** A sequence of [Send] calls whose results are ignored. *)
Definition Sending : Type := Z * MessageType * ProtoMessage.

Definition send_all {T} `{GameTransport T} (t : T) (l : list Sending) : T :=
  foldl (λ t '(c, ty, m), (tr_Send t c ty m).2) t l.

Lemma send_all_app {T} `{GameTransport T} (t : T) l1 l2 :
  send_all t (l1 ++ l2) = send_all (send_all t l1) l2.
Proof. apply foldl_app. Qed.

Lemma send_all_law {T} `{GameTransportLaws T} (t : T) l :
  tr_ok t → tr_ok (send_all t l) ∧ tr_same t (send_all t l).
Proof.
  revert t. induction l as [|[[c ty] m] l IH]; intros t Ht; [done|]. cbn [send_all foldl].
  destruct (send_law t c ty m Ht) as [Ht' Hs]. destruct (IH _ Ht') as [Ht'' Hs'].
  split; [done|]. by etrans.
Qed.

(** ** A recording transport *)

(** The open connections and what was sent on them, oldest first. *)
Record recording := mkRecording { open_ : gset Z; sent : list Sending }.

#[export] Instance recording_transport : GameTransport recording := {
  tr_Send t c ty m :=
    if decide (c ∈ open_ t)
    then (true, {| open_ := open_ t; sent := sent t ++ [(c, ty, m)] |})
    else (false, t);
  tr_IsConnected t c := bool_decide (c ∈ open_ t);
  tr_Disconnect G cb c := λ s,
    if decide (c ∈ open_ s.2) then
      match cb c s with
      | (Returns _, (g, t)) => (Returns tt, (g, {| open_ := open_ t ∖ {[c]}; sent := sent t |}))
      | r => r
      end
    else (Returns tt, s)
}.

#[export] Instance recording_laws : GameTransportLaws recording.
Proof.
  refine {| tr_ok (t : recording) := True; tr_open (t : recording) (c : Z) := bool_decide (c ∈ open_ t);
            tr_same (t t' : recording) := open_ t' = open_ t |}.
  - split; [done|]. by intros t1 t2 t3 -> ->.
  - by intros t t' c ->.
  - done.
  - intros t c ty m _. split; [done|]. cbn. by case_decide.
  - intros G cb c Q g t _ Hopen Hclosed. unfold wp; simpl. case_decide as Hc.
    + specialize (Hopen (bool_decide_eq_true_2 _ Hc) t I (λ _, eq_refl)). unfold wp in Hopen.
      destruct (cb c (g, t)) as [[[]|e] [g' t']]; [|done]. cbn in *. destruct Hopen as (HQ & _ & Hs).
      split; [done|]. split; [done|]. intros c'. rewrite Hs.
      destruct (Z.eqb_spec c' c) as [->|Hne]; cbn.
      * rewrite andb_false_r. apply bool_decide_eq_false. set_solver.
      * rewrite andb_true_r. apply bool_decide_ext. set_solver.
    + split; [by apply Hclosed, bool_decide_eq_false_2|]. split; [done|]. intros c'.
      destruct (Z.eqb_spec c' c) as [->|Hne]; cbn; [|by rewrite andb_true_r].
      rewrite andb_false_r. by apply bool_decide_eq_false.
Defined.
