(* ===== verification/Mt19937.v ===== *)
(** * The 64-bit Mersenne Twister

    [std::mt19937_64], the engine of the C++ standard library [GameService] draws
    nicknames and session tokens from, as the standard specifies it (the state is
    the last 312 values of the recurrence, oldest first). *)

From S2P Require Import Prelude.

Definition mt_n : nat := 312.
Definition mt_m : nat := 156.
Definition mt_upper : Z := 0xFFFFFFFF80000000.
Definition mt_lower : Z := 0x7FFFFFFF.
Definition mt_a : Z := 0xB5026F5AA96619E9.

Definition Mt19937 : Type := list Z.

(** [x_i] from [x_(i-1)]. *)
Definition mt_init_next (i : Z) (x : Z) : Z :=
  u64 (6364136223846793005 * Z.lxor x (Z.shiftr x 62) + i).

Fixpoint mt_init (fuel : nat) (i x : Z) : list Z :=
  match fuel with
  | O => []
  | Datatypes.S fuel => x :: mt_init fuel (i + 1) (mt_init_next (i + 1) x)
  end.

(** The constructor, from a seed. *)
Definition mt_seed (seed : Z) : Mt19937 := mt_init mt_n 0 (u64 seed).

Definition mt_recurrence (x0 x1 xm : Z) : Z :=
  let y := Z.lor (Z.land x0 mt_upper) (Z.land x1 mt_lower) in
  Z.lxor xm (Z.lxor (Z.shiftr y 1) (if Z.odd y then mt_a else 0)).

Definition mt_temper (z : Z) : Z :=
  let z := Z.lxor z (Z.land (Z.shiftr z 29) 0x5555555555555555) in
  let z := Z.lxor z (Z.land (u64 (Z.shiftl z 17)) 0x71D67FFFEDA60000) in
  let z := Z.lxor z (Z.land (u64 (Z.shiftl z 37)) 0xFFF7EEE000000000) in
  Z.lxor z (Z.shiftr z 43).

(** [operator()] *)
Definition mt_next (s : Mt19937) : Z * Mt19937 :=
  let x := mt_recurrence (nth 0 s 0) (nth 1 s 0) (nth mt_m s 0) in
  (u64 (mt_temper x), tl s ++ [x]).

Lemma mt_next_range s : is_u64 (mt_next s).1.
Proof. apply u64_range. Qed.

(** The value the standard requires of a default-constructed engine on its
    10000th call. *)
Definition mt_iter (n : positive) (s : Mt19937) : Mt19937 := Pos.iter (λ s, (mt_next s).2) s n.

Example mt_10000th : (mt_next (mt_iter 9999 (mt_seed 5489))).1 = 9981545732273789042.
Proof. vm_compute. reflexivity. Qed.
