(* ===== verification/GameService.v ===== *)
(** * The game service

    [src/game/game_service.cpp] and [include/mmo/game/game_service.h]: login,
    chat, movement, heartbeat and disconnection over the AOI world, the transport
    and the asynchronous data service.

    A handler is a call [M World unit]: [World] is the service object with the
    data service and the system clock, and the transport. The lambdas given to the
    data service are data ([PlayerCallback], [SessionCallback],
    [OperationCallback]: what each captured), run by [run_player_callback] and its
    siblings. [OnlinePlayer*] is the key and the value it points to. *)

From stdpp Require Import pretty.
From S2P Require Import Prelude Double FrameCodec AoiWorld DataTypes AsyncData ProtobufCodec.
From S2P Require Import GameTransport Mt19937.

(** ** Data *)

Record GameConfig := mkGameConfig {
  aoi : AoiConfig;
  session_ttl : Z;
  maximum_chat_bytes : Z
}.

Definition default_game_config : GameConfig :=
  {| aoi := default_aoi; session_ttl := 300; maximum_chat_bytes := 256 |}.

Record OnlinePlayer := mkOnlinePlayer {
  record : PlayerRecord;
  connection_id : Z;
  session_token : string
}.

Record GameService := mkGameService {
  game_config_ : GameConfig;
  world_ : AoiWorld;
  online_players_ : gmap Z OnlinePlayer;
  connection_players_ : gmap Z Z;
  pending_connections_ : gmap Z string;
  pending_accounts_ : gset string;
  random_ : Mt19937;
  player_sequence_ : Z
}.

(** The constructor; [seed] is what [std::random_device] gave. *)
Definition GameService_new (config : GameConfig) (seed : Z) : Outcome GameService :=
  world ← AoiWorld_new (aoi config);
  Returns {| game_config_ := config; world_ := world; online_players_ := ∅;
             connection_players_ := ∅; pending_connections_ := ∅; pending_accounts_ := ∅;
             random_ := mt_seed (u32 seed); player_sequence_ := 0 |}.

(** Assignments of one field. *)
Definition set_world (w : AoiWorld) (s : GameService) : GameService :=
  {| game_config_ := game_config_ s; world_ := w; online_players_ := online_players_ s;
     connection_players_ := connection_players_ s; pending_connections_ := pending_connections_ s;
     pending_accounts_ := pending_accounts_ s; random_ := random_ s;
     player_sequence_ := player_sequence_ s |}.
Definition set_online (o : gmap Z OnlinePlayer) (s : GameService) : GameService :=
  {| game_config_ := game_config_ s; world_ := world_ s; online_players_ := o;
     connection_players_ := connection_players_ s; pending_connections_ := pending_connections_ s;
     pending_accounts_ := pending_accounts_ s; random_ := random_ s;
     player_sequence_ := player_sequence_ s |}.
Definition set_connection_players (c : gmap Z Z) (s : GameService) : GameService :=
  {| game_config_ := game_config_ s; world_ := world_ s; online_players_ := online_players_ s;
     connection_players_ := c; pending_connections_ := pending_connections_ s;
     pending_accounts_ := pending_accounts_ s; random_ := random_ s;
     player_sequence_ := player_sequence_ s |}.
Definition set_pending_connections (p : gmap Z string) (s : GameService) : GameService :=
  {| game_config_ := game_config_ s; world_ := world_ s; online_players_ := online_players_ s;
     connection_players_ := connection_players_ s; pending_connections_ := p;
     pending_accounts_ := pending_accounts_ s; random_ := random_ s;
     player_sequence_ := player_sequence_ s |}.
Definition set_pending_accounts (p : gset string) (s : GameService) : GameService :=
  {| game_config_ := game_config_ s; world_ := world_ s; online_players_ := online_players_ s;
     connection_players_ := connection_players_ s; pending_connections_ := pending_connections_ s;
     pending_accounts_ := p; random_ := random_ s; player_sequence_ := player_sequence_ s |}.
Definition set_random (r : Mt19937) (s : GameService) : GameService :=
  {| game_config_ := game_config_ s; world_ := world_ s; online_players_ := online_players_ s;
     connection_players_ := connection_players_ s; pending_connections_ := pending_connections_ s;
     pending_accounts_ := pending_accounts_ s; random_ := r;
     player_sequence_ := player_sequence_ s |}.
Definition set_player_sequence (n : Z) (s : GameService) : GameService :=
  {| game_config_ := game_config_ s; world_ := world_ s; online_players_ := online_players_ s;
     connection_players_ := connection_players_ s; pending_connections_ := pending_connections_ s;
     pending_accounts_ := pending_accounts_ s; random_ := random_ s; player_sequence_ := n |}.

(** [pending_accounts_.erase(account)], [pending_connections_.erase(connection_id)] *)
Definition erase_pending_account (account : string) (s : GameService) : GameService :=
  set_pending_accounts (pending_accounts_ s ∖ {[account]}) s.
Definition erase_pending_connection (connection_id : Z) (s : GameService) : GameService :=
  set_pending_connections (delete connection_id (pending_connections_ s)) s.

(** [m.emplace(k, v)] keeps the value of a present key. *)
Definition emplace {V} (k : Z) (v : V) (m : gmap Z V) : gmap Z V :=
  match m !! k with Some _ => m | None => <[k := v]> m end.

(** The lambdas handed to the data service. *)
Inductive PlayerCallback :=
| OnPlayerLoaded (connection_id : Z) (account requested_token : string).

Inductive SessionCallback :=
| OnSessionLoaded (connection_id : Z) (account : string) (player : PlayerRecord)
    (requested_token : string) (newly_created : bool).

Inductive OperationCallback :=
| OnPlayerCreated (connection_id : Z) (account : string) (player : PlayerRecord)
| OnSessionStored (connection_id : Z) (account : string) (player : PlayerRecord)
    (token : string) (allow_replacement : bool)
| OnDisconnectSaved.

(** [std::chrono::system_clock::now()] in milliseconds and [std::time(nullptr)]:
    each reading may be any instant. *)
Class SystemClock (C : Type) := {
  now_milliseconds : C → Z * C;
  time_seconds : C → Z * C
}.

(** ** Formatting *)

(** [stream << std::hex << z], and [std::setw(n)] with [std::setfill('0')]. *)
Definition hex_digit (d : Z) : ascii :=
  ascii_of_nat (Z.to_nat (if d <? 10 then 48 + d else 87 + d)).

Fixpoint hex_digits (fuel : nat) (z : Z) : list ascii :=
  match fuel with
  | O => []
  | Datatypes.S fuel =>
      if z <? 16 then [hex_digit z] else hex_digits fuel (z / 16) ++ [hex_digit (z mod 16)]
  end.

Definition setw (width : nat) (digits : list ascii) : list ascii :=
  replicate (width - length digits) "0"%char ++ digits.

Definition kNames : list string :=
  ["Nova"; "Atlas"; "Echo"; "Luna"; "Orion"; "Pixel";
   "River"; "Comet"; "Maple"; "Mango"; "Quartz"; "Sparrow"]%string.

(** [FillView] *)
Definition FillView (player : PlayerRecord) : PlayerView :=
  {| view_player_id := player_id player; view_nickname := nickname player;
     view_position := Some {| pb_x := position_x player; pb_y := position_y player |} |}.

(** [LoginResponse] with only [success] and [error] set. *)
Definition failed_login_response (error : string) : ProtoMessage :=
  LoginResponse false error None [] EmptyString.

(** ** The handlers *)

Section service.
Context {T D C : Type}.
Context `{!GameTransport T} `{!DataService D PlayerCallback SessionCallback OperationCallback}.
Context `{!SystemClock C} `{!Platform} `{!Protobuf}.

(** The service object, the data service it calls and the system clock. *)
Record Env := mkEnv { service : GameService; data_service : D; clock : C }.

Definition World : Type := Env * T.

Definition get_service : M World GameService := gets (λ w, service w.1).

Definition update_service (f : GameService → GameService) : M World unit :=
  modify (λ w, ({| service := f (service w.1); data_service := data_service w.1;
                   clock := clock w.1 |}, w.2)).

(** A call to the data service, to the clock, and [transport_.Send]. *)
Definition call_data (f : D → bool * D) : M World bool := λ w,
  let '(r, d) := f (data_service w.1) in
  (Returns r, ({| service := service w.1; data_service := d; clock := clock w.1 |}, w.2)).

Definition read_clock (f : C → Z * C) : M World Z := λ w,
  let '(r, c) := f (clock w.1) in
  (Returns r, ({| service := service w.1; data_service := data_service w.1; clock := c |}, w.2)).

Definition Send (connection_id : Z) (type : MessageType) (message : ProtoMessage) : M World bool :=
  λ w, let '(r, t) := tr_Send w.2 connection_id type message in (Returns r, (w.1, t)).

Definition IsConnected (connection_id : Z) : M World bool :=
  gets (λ w, tr_IsConnected w.2 connection_id).

Definition next_random : M World Z := λ w,
  let '(r, g) := mt_next (random_ (service w.1)) in
  (update_service (set_random g) ;; mret r) w.

Definition PlayerForConnection (s : GameService) (connection_id : Z) : option (Z * OnlinePlayer) :=
  match connection_players_ s !! connection_id with
  | None => None
  | Some player_id =>
      match online_players_ s !! player_id with
      | None => None
      | Some player => Some (player_id, player)
      end
  end.

Definition PlayerById (s : GameService) (player_id : Z) : option OnlinePlayer :=
  online_players_ s !! player_id.

Definition OnlinePlayerCount (s : GameService) : nat := size (online_players_ s).

Definition NewPlayer (account : string) : M World PlayerRecord :=
  milliseconds ← read_clock now_milliseconds;
  update_service (λ s, set_player_sequence (u64 (player_sequence_ s + 1)) s) ;;
  s ← get_service;
  let player_id := Z.lor (u64 (Z.shiftl (u64 milliseconds) 20))
                         (Z.land (player_sequence_ s) 0xFFFFF) in
  r ← next_random;
  let nickname := (nth (Z.to_nat (r mod 12)) kNames EmptyString
                   +:+ "-" +:+ pretty (player_id mod 100000))%string in
  now ← read_clock time_seconds;
  let c := aoi (game_config_ s) in
  mret {| player_id := player_id; account := account; nickname := nickname;
          position_x := ddiv (dadd (min_x c) (max_x c)) (double_of 2);
          position_y := ddiv (dadd (min_y c) (max_y c)) (double_of 2);
          position_z := dzero; last_login_unix := now |}.

Definition NewSessionToken : M World string :=
  r1 ← next_random;
  r2 ← next_random;
  mret (string_of_list_ascii (setw 16 (hex_digits 16 r1) ++ setw 16 (hex_digits 16 r2))).

Definition FailLogin (connection_id : Z) (account : string) (error : string) : M World unit :=
  (if str_empty account then mret tt else update_service (erase_pending_account account)) ;;
  s ← get_service;
  (match pending_connections_ s !! connection_id with
   | Some pending =>
       update_service (erase_pending_account pending) ;;
       update_service (erase_pending_connection connection_id)
   | None => mret tt
   end) ;;
  connected ← IsConnected connection_id;
  if negb connected then mret tt
  else Send connection_id kLoginResponse (failed_login_response error) ;; mret tt.

(** The early return of the login continuations. *)
Definition abandon (connection_id : Z) (account : string) : M World unit :=
  update_service (erase_pending_account account) ;;
  update_service (erase_pending_connection connection_id).

(** [!IsConnected(connection_id) || pending_connections_.count(connection_id) == 0] *)
Definition login_abandoned (connection_id : Z) : M World bool :=
  connected ← IsConnected connection_id;
  s ← get_service;
  mret (negb connected || bool_decide (pending_connections_ s !! connection_id = None)).

(** [for (id : ids) if (p = PlayerById(id)) ...] *)
Definition for_players (ids : gset Z) (body : Z → OnlinePlayer → M World unit) : M World unit :=
  for_each (set_iter ids) (λ id,
    s ← get_service;
    match PlayerById s id with
    | Some player => body id player
    | None => mret tt
    end).

(** [for (id : ids) if (p = PlayerById(id)) Send(p->connection_id, type, message)] *)
Definition notify_players (ids : gset Z) (type : MessageType) (message : ProtoMessage) : M World unit :=
  for_players ids (λ _ player, Send (connection_id player) type message ;; mret tt).

Definition OnDisconnected (connection_id : Z) : M World unit :=
  s ← get_service;
  (match pending_connections_ s !! connection_id with
   | Some pending =>
       update_service (erase_pending_account pending) ;;
       update_service (erase_pending_connection connection_id)
   | None => mret tt
   end) ;;
  s ← get_service;
  match connection_players_ s !! connection_id with
  | None => mret tt
  | Some player_id =>
      match online_players_ s !! player_id with
      | None => update_service (set_connection_players (delete connection_id (connection_players_ s)))
      | Some online =>
          visible ← lift_outcome (optional_value (VisiblePlayers (world_ s) player_id));
          let saved := record online in
          update_service (set_world (RemovePlayer (world_ s) player_id).2) ;;
          update_service (set_online (delete player_id (online_players_ s))) ;;
          update_service (set_connection_players (delete connection_id (connection_players_ s))) ;;
          notify_players visible kPlayerLeave (PlayerLeave player_id) ;;
          call_data (λ d, ds_SavePlayer d saved OnDisconnectSaved) ;;
          mret tt
      end
  end.

Definition Disconnect (connection_id : Z) : M World unit :=
  tr_Disconnect OnDisconnected connection_id.

(** The rest of [FinishLogin], from [world_.AddPlayer]. [account] is the account
    of the loaded record, captured before a replacement. *)
Definition admit_player (connection_id : Z) (account : string) (session_token : string)
    (player : PlayerRecord) : M World unit :=
  s ← get_service;
  let '(added, world) := AddPlayer (world_ s) (player_id player)
    {| pos_x := position_x player; pos_y := position_y player |} in
  update_service (set_world world) ;;
  if negb added then FailLogin connection_id account "player position is outside the world"
  else
    update_service (λ s, set_connection_players
      (<[connection_id := player_id player]> (connection_players_ s)) s) ;;
    update_service (λ s, set_online (emplace (player_id player)
      {| record := player; connection_id := connection_id; session_token := session_token |}
      (online_players_ s)) s) ;;
    update_service (erase_pending_account account) ;;
    update_service (erase_pending_connection connection_id) ;;
    s ← get_service;
    visible ← lift_outcome (optional_value (VisiblePlayers (world_ s) (player_id player)));
    let nearby := omap (λ id, (FillView ∘ record) <$> PlayerById s id) (set_iter visible) in
    Send connection_id kLoginResponse
      (LoginResponse true EmptyString (Some (FillView player)) nearby session_token) ;;
    notify_players visible kPlayerEnter (PlayerEnter (Some (FillView player))).

Definition FinishLogin (connection_id : Z) (player : PlayerRecord) (session_token : string)
    (allow_replacement : bool) : M World unit :=
  let account := DataTypes.account player in
  abandoned ← login_abandoned connection_id;
  if abandoned : bool then abandon connection_id account
  else
    s ← get_service;
    match online_players_ s !! player_id player with
    | Some existing =>
        if negb allow_replacement then FailLogin connection_id account "player is already online"
        else
          Disconnect (GameService.connection_id existing) ;;
          admit_player connection_id account session_token (record existing)
    | None => admit_player connection_id account session_token player
    end.

Definition StoreSessionAndFinish (connection_id : Z) (player : PlayerRecord)
    (allow_replacement : bool) : M World unit :=
  let account := DataTypes.account player in
  abandoned ← login_abandoned connection_id;
  if abandoned : bool then abandon connection_id account
  else
    s ← get_service;
    if bool_decide (is_Some (online_players_ s !! player_id player)) && negb allow_replacement then
      FailLogin connection_id account "player is already online"
    else
      token ← NewSessionToken;
      accepted ← call_data (λ d, ds_StoreSession d
        {| session_player_id := player_id player; token := token |}
        (session_ttl (game_config_ s))
        (OnSessionStored connection_id account player token allow_replacement));
      if accepted : bool then mret tt
      else FailLogin connection_id account "database queue is full".

Definition with_last_login (player : PlayerRecord) (now : Z) : PlayerRecord :=
  {| player_id := player_id player; account := DataTypes.account player;
     nickname := nickname player; position_x := position_x player;
     position_y := position_y player; position_z := position_z player;
     last_login_unix := now |}.

Definition ContinueLogin (connection_id : Z) (player : PlayerRecord) (requested_token : string)
    (newly_created : bool) : M World unit :=
  let account := DataTypes.account player in
  abandoned ← login_abandoned connection_id;
  if abandoned : bool then abandon connection_id account
  else
    now ← read_clock time_seconds;
    let player := with_last_login player now in
    if str_empty requested_token then StoreSessionAndFinish connection_id player false
    else
      accepted ← call_data (λ d, ds_LoadSession d (player_id player)
        (OnSessionLoaded connection_id account player requested_token newly_created));
      if accepted : bool then mret tt
      else FailLogin connection_id account "database queue is full".

(** *** The lambdas *)

Definition run_player_callback (k : PlayerCallback) (result : DataResult PlayerRecord) : M World unit :=
  let '(OnPlayerLoaded connection_id account requested_token) := k in
  abandoned ← login_abandoned connection_id;
  if abandoned : bool then abandon connection_id account
  else if result_Ok result then
    player ← lift_outcome (optional_value (value result));
    ContinueLogin connection_id player requested_token false
  else if negb (bool_decide (status result = kNotFound)) then
    FailLogin connection_id account "failed to load player"
  else
    player ← NewPlayer account;
    if negb (str_empty requested_token) then
      FailLogin connection_id account "session does not exist"
    else
      accepted ← call_data (λ d, ds_SavePlayer d player (OnPlayerCreated connection_id account player));
      if accepted : bool then mret tt
      else FailLogin connection_id account "database queue is full".

Definition run_session_callback (k : SessionCallback) (result : DataResult SessionRecord) : M World unit :=
  let '(OnSessionLoaded connection_id account player requested_token newly_created) := k in
  let refused :=
    newly_created || negb (result_Ok result)
    || match value result with
       | Some session => negb (bool_decide (token session = requested_token))
       | None => true
       end in
  if refused then FailLogin connection_id account "invalid or expired session"
  else StoreSessionAndFinish connection_id player true.

Definition run_operation_callback (k : OperationCallback) (result : OperationResult) : M World unit :=
  match k with
  | OnPlayerCreated connection_id account player =>
      if negb (op_Ok result) then FailLogin connection_id account "failed to create player"
      else ContinueLogin connection_id player EmptyString true
  | OnSessionStored connection_id account player token allow_replacement =>
      if negb (op_Ok result) then FailLogin connection_id account "failed to store session"
      else FinishLogin connection_id player token allow_replacement
  | OnDisconnectSaved => mret tt
  end.

(** A completion of the data service, run on the event-loop thread. *)
Definition run_completion
    (c : Completion PlayerCallback SessionCallback OperationCallback) : M World unit :=
  match c with
  | PlayerCompletion k result => run_player_callback k result
  | SessionCompletion k result => run_session_callback k result
  | OperationCompletion k result => run_operation_callback k result
  end.

(** *** The frames *)

Definition HandleLogin (connection_id : Z) (frame : Frame) : M World unit :=
  s ← get_service;
  match ParseProtobufPayload frame kLoginRequest LoginRequest_ with
  | Some (LoginRequest account requested_token) =>
      if str_empty account || (64 <? str_size account)
         || bool_decide (is_Some (connection_players_ s !! connection_id))
         || bool_decide (is_Some (pending_connections_ s !! connection_id)) then
        FailLogin connection_id EmptyString "invalid or duplicate login request"
      else if bool_decide (account ∈ pending_accounts_ s) then
        FailLogin connection_id EmptyString "account login is already pending"
      else
        update_service (λ s, set_pending_connections
          (<[connection_id := account]> (pending_connections_ s)) s) ;;
        update_service (λ s, set_pending_accounts ({[account]} ∪ pending_accounts_ s) s) ;;
        accepted ← call_data (λ d, ds_LoadPlayer d account
          (OnPlayerLoaded connection_id account requested_token));
        if accepted : bool then mret tt
        else FailLogin connection_id account "database queue is full"
  | _ => FailLogin connection_id EmptyString "invalid or duplicate login request"
  end.

Definition HandleChat (connection_id : Z) (frame : Frame) : M World unit :=
  s ← get_service;
  match PlayerForConnection s connection_id,
        ParseProtobufPayload frame kChatRequest ChatRequest_ with
  | Some (_, sender), Some (ChatRequest text) =>
      if str_empty text || (maximum_chat_bytes (game_config_ s) <? str_size text) then mret tt
      else
        let broadcast := ChatBroadcast (player_id (record sender)) (nickname (record sender)) text in
        for_each (map_to_list (online_players_ s)) (λ '(_, player),
          Send (GameService.connection_id player) kChatBroadcast broadcast ;; mret tt)
  | _, _ => mret tt
  end.

(** [mover->record.position_x = ...; mover->record.position_y = ...;] *)
Definition with_position (player : OnlinePlayer) (p : Position) : OnlinePlayer :=
  {| record :=
       {| player_id := player_id (record player); account := DataTypes.account (record player);
          nickname := nickname (record player);
          position_x := pos_x p; position_y := pos_y p;
          position_z := position_z (record player);
          last_login_unix := last_login_unix (record player) |};
     connection_id := connection_id player; session_token := session_token player |}.

Definition HandleMove (connection_id : Z) (frame : Frame) : M World unit :=
  s ← get_service;
  match PlayerForConnection s connection_id,
        ParseProtobufPayload frame kMoveRequest MoveRequest_ with
  | Some (key, mover), Some (MoveRequest (Some requested)) =>
      let position := {| pos_x := pb_x requested; pos_y := pb_y requested |} in
      '(delta, world) ← lift_outcome (MovePlayer (world_ s) (player_id (record mover)) position);
      update_service (set_world world) ;;
      match delta with
      | None => mret tt
      | Some delta =>
          let mover := with_position mover position in
          update_service (λ s, set_online (<[key := mover]> (online_players_ s)) s) ;;
          let id := player_id (record mover) in
          notify_players (stayed delta) kPlayerMove
            (PlayerMove id (Some {| pb_x := pos_x position; pb_y := pos_y position |})) ;;
          for_players (entered delta) (λ _ player,
            Send (GameService.connection_id player) kPlayerEnter
              (PlayerEnter (Some (FillView (record mover)))) ;;
            Send connection_id kPlayerEnter (PlayerEnter (Some (FillView (record player)))) ;;
            mret tt) ;;
          for_players (left_ delta) (λ other player,
            Send (GameService.connection_id player) kPlayerLeave (PlayerLeave id) ;;
            Send connection_id kPlayerLeave (PlayerLeave other) ;;
            mret tt)
      end
  | _, _ => mret tt
  end.

Definition HandleHeartbeat (connection_id : Z) (frame : Frame) : M World unit :=
  match ParseProtobufPayload frame kHeartbeat Heartbeat_ with
  | Some heartbeat => Send connection_id kHeartbeat heartbeat ;; mret tt
  | None => mret tt
  end.

Definition HandleFrame (connection_id : Z) (frame : Frame) : M World unit :=
  match message_type_of (message_id frame) with
  | Some kLoginRequest => HandleLogin connection_id frame
  | Some kChatRequest => HandleChat connection_id frame
  | Some kMoveRequest => HandleMove connection_id frame
  | Some kHeartbeat => HandleHeartbeat connection_id frame
  | _ => Disconnect connection_id
  end.
End service.

Arguments Env : clear implicits.
Arguments World : clear implicits.
