(* ===== verification/GameFrame.v ===== *)
(** * What the game service leaves to the transport

    The service touches the transport through its three calls only. Hence whatever a
    transport's own [Send] and [Disconnect] keep true of it ([TransportKeeps]), for any
    arguments and any well-behaved callback, every handler, every callback of the data
    service and [OnDisconnected] keep true, whether they return or throw. *)

From S2P Require Import Prelude Double FrameCodec AoiWorld DataTypes AsyncData ProtobufCodec.
From S2P Require Import GameTransport Mt19937 GameService.

Class TransportKeeps (T : Type) `{GameTransport T} (P : T → Prop) := {
  preserves_tr_Send t c ty m : P t → P (tr_Send t c ty m).2;
  preserves_tr_Disconnect {G} (cb : Z → M (G * T) unit) c s :
    (∀ c s, P s.2 → P (cb c s).2.2) → P s.2 → P (tr_Disconnect cb c s).2.2
}.

(** ** Calls that keep a property of the transport *)

Section rules.
Context {G T : Type} (P : T → Prop).

Definition preserves {A} (m : M (G * T) A) : Prop := ∀ w, P w.2 → P (m w).2.2.

Lemma preserves_run {A} (m : M (G * T) A) w : preserves m → P w.2 → P (m w).2.2.
Proof. auto. Qed.

Lemma preserves_ret {A} (a : A) : preserves (mret a).
Proof. by intros w Hw. Qed.

Lemma preserves_gets {A} (f : G * T → A) : preserves (gets f).
Proof. by intros w Hw. Qed.

Lemma preserves_lift {A} (o : Outcome A) : preserves (lift_outcome o).
Proof. by intros w Hw. Qed.

Lemma preserves_bind {A B} (m : M (G * T) A) (f : A → M (G * T) B) :
  preserves m → (∀ a, preserves (f a)) → preserves (m ≫= f).
Proof.
  intros Hm Hf w Hw. specialize (Hm w Hw). unfold mbind, M_bind.
  destruct (m w) as [[a|e] w']; [by apply Hf|done].
Qed.

Lemma preserves_for_each {A} (xs : list A) body : (∀ x, preserves (body x)) → preserves (for_each xs body).
Proof. intros Hb. induction xs as [|x xs IH]; [apply preserves_ret|]. by apply preserves_bind. Qed.
End rules.

Create HintDb preserves discriminated.
#[export] Hint Resolve preserves_ret preserves_gets preserves_lift preserves_for_each : preserves.
#[export] Hint Extern 1 (TransportKeeps _ _) => apply _ : preserves.

(** Follows the shape of a call down to its primitive ones, which the hints know. *)
Ltac preserves :=
  lazymatch goal with
  | |- preserves _ (mbind _ _) => apply preserves_bind; [preserves|intros ?; preserves]
  | |- preserves _ (match ?x with _ => _ end) => destruct x; preserves
  | |- preserves _ (for_each _ _) => apply preserves_for_each; intros ?; preserves
  | |- preserves _ _ => cbv zeta; eauto with preserves nocore
  end.

(** ** The game service *)

Section service.
Context {T D C : Type}.
Context `{!GameTransport T} `{!DataService D PlayerCallback SessionCallback OperationCallback}.
Context `{!SystemClock C} `{!Platform} `{!Protobuf}.
Context (P : T → Prop) `{!TransportKeeps T P}.

Abbreviation Game := (World T D C).

Lemma preserves_get_service : preserves P (get_service : M Game _).
Proof. by intros w Hw. Qed.

Lemma preserves_update_service f : preserves P (update_service f : M Game _).
Proof. by intros w Hw. Qed.

Lemma preserves_call_data f : preserves P (call_data f : M Game _).
Proof. intros w Hw. unfold call_data. by destruct (f _). Qed.

Lemma preserves_read_clock f : preserves P (read_clock f : M Game _).
Proof. intros w Hw. unfold read_clock. by destruct (f _). Qed.

Lemma preserves_IsConnected c : preserves P (IsConnected c : M Game _).
Proof. by intros w Hw. Qed.

Lemma preserves_next_random : preserves P (next_random : M Game _).
Proof. intros w Hw. unfold next_random. by destruct (mt_next _). Qed.

Lemma preserves_Send c ty m : preserves P (Send c ty m : M Game _).
Proof.
  intros w Hw. unfold Send. pose proof (preserves_tr_Send (P := P) w.2 c ty m Hw) as Hs.
  by destruct (tr_Send _ _ _ _).
Qed.

Hint Resolve preserves_get_service preserves_update_service preserves_call_data preserves_read_clock preserves_IsConnected
  preserves_next_random preserves_Send : preserves.

Lemma preserves_notify_players ids ty m : preserves P (notify_players ids ty m : M Game _).
Proof. unfold notify_players, for_players. preserves. Qed.
Hint Resolve preserves_notify_players : preserves.

Lemma preserves_OnDisconnected c : preserves P (OnDisconnected c : M Game _).
Proof. unfold OnDisconnected. preserves. Qed.

Lemma preserves_Disconnect c : preserves P (Disconnect c : M Game _).
Proof. intros w Hw. apply preserves_tr_Disconnect; [|done]. intros c'. apply preserves_OnDisconnected. Qed.

Lemma preserves_FailLogin c account error : preserves P (FailLogin c account error : M Game _).
Proof. unfold FailLogin. preserves. Qed.

Lemma preserves_abandon c account : preserves P (abandon c account : M Game _).
Proof. unfold abandon. preserves. Qed.

Lemma preserves_login_abandoned c : preserves P (login_abandoned c : M Game _).
Proof. unfold login_abandoned. preserves. Qed.
Hint Resolve preserves_Disconnect preserves_FailLogin preserves_abandon preserves_login_abandoned : preserves.

Lemma preserves_admit_player c account tok r : preserves P (admit_player c account tok r : M Game _).
Proof. unfold admit_player. preserves. Qed.
Hint Resolve preserves_admit_player : preserves.

Lemma preserves_FinishLogin c r tok allow : preserves P (FinishLogin c r tok allow : M Game _).
Proof. unfold FinishLogin. preserves. Qed.

Lemma preserves_StoreSessionAndFinish c r allow : preserves P (StoreSessionAndFinish c r allow : M Game _).
Proof. unfold StoreSessionAndFinish, NewSessionToken. preserves. Qed.
Hint Resolve preserves_FinishLogin preserves_StoreSessionAndFinish : preserves.

Lemma preserves_ContinueLogin c r tok created : preserves P (ContinueLogin c r tok created : M Game _).
Proof. unfold ContinueLogin. preserves. Qed.
Hint Resolve preserves_ContinueLogin : preserves.

Lemma preserves_run_completion k : preserves P (run_completion k : M Game _).
Proof.
  destruct k as [[] res|[] res|[] res]; unfold run_completion, run_player_callback, run_session_callback,
    run_operation_callback, NewPlayer; preserves.
Qed.

Lemma preserves_HandleFrame c frame : preserves P (HandleFrame c frame : M Game _).
Proof.
  unfold HandleFrame, HandleLogin, HandleChat, HandleMove, HandleHeartbeat, for_players. preserves.
Qed.
End service.

#[export] Hint Resolve preserves_get_service preserves_update_service preserves_call_data preserves_read_clock preserves_IsConnected
  preserves_next_random preserves_Send preserves_notify_players preserves_OnDisconnected preserves_Disconnect preserves_FailLogin
  preserves_abandon preserves_login_abandoned preserves_run_completion preserves_HandleFrame : preserves.
