(* ===== verification/GameScenario.v ===== *)
(** * Concrete runs of the game service

    The service over the recording transport, the thread-pool data service with
    the in-memory stores, and a table of messages as the Protobuf runtime: the
    inputs of the witnesses and of the concrete counterexamples. [serve] is a
    worker taking the oldest task and the event loop running its completion. *)

From Stdlib Require Import Strings.Byte.
From S2P Require Import Prelude Double FrameCodec AoiWorld DataTypes MemoryStores ThreadPool.
From S2P Require Import AsyncData ProtobufCodec GameTransport Mt19937 GameService.

Definition scenario_table : table :=
  [([x01], LoginRequest "ada" EmptyString);
   ([x02], LoginRequest "bob" EmptyString);
   ([x03], LoginRequest "Ada" EmptyString);
   ([x01], ChatRequest "hi");
   ([x01], MoveRequest (Some {| pb_x := double_of 10; pb_y := double_of 10 |}));
   ([x02], MoveRequest (Some {| pb_x := dnan; pb_y := double_of 10 |}));
   ([], Heartbeat);
   ([x01], failed_login_response "failed to load player")].

#[export] Instance scenario_protobuf : Protobuf := table_protobuf scenario_table.

Lemma scenario_table_laws : ProtobufLaws.
Proof. apply table_protobuf_laws. unfold table_ok. vm_compute. repeat constructor; set_solver. Qed.

(** 2023-11-14, 22:13:20 UTC, at every reading. *)
#[export] Instance fixed_clock : SystemClock unit := {
  now_milliseconds _ := (1700000000000, tt);
  time_seconds _ := (1700000000, tt)
}.

#[export] Instance scenario_platform : Platform := x86_64.

Definition frame_of (id : Z) (bytes : list byte) : Frame := {| message_id := id; payload := bytes |}.
Definition login_ada : Frame := frame_of 1 [x01].
Definition login_bob : Frame := frame_of 1 [x02].
Definition login_Ada : Frame := frame_of 1 [x03].
Definition chat_hi : Frame := frame_of 2 [x01].
Definition move_corner : Frame := frame_of 3 [x01].
Definition move_nan : Frame := frame_of 3 [x02].

Abbreviation Task := (DataTask PlayerCallback SessionCallback OperationCallback).
Abbreviation ScenarioWorld := (World recording (BoundedThreadPool Task) unit).

Definition new_pool : BoundedThreadPool Task :=
  {| queue_capacity_ := 16; tasks_ := []; workers_ := [AtLock]; accepting_tasks_ := true;
     notify_one_pending := 0; notify_all_pending := false; accepted := []; started := []; finished := [] |}.

Definition new_service : GameService :=
  {| game_config_ := default_game_config; world_ := default_world; online_players_ := ∅;
     connection_players_ := ∅; pending_connections_ := ∅; pending_accounts_ := ∅;
     random_ := mt_seed 5489; player_sequence_ := 0 |}.

Lemma new_service_new : GameService_new default_game_config 5489 = Returns new_service.
Proof. reflexivity. Qed.

(** The world with the connections of [open] accepted and nothing else done. *)
Definition new_world (open : gset Z) : ScenarioWorld :=
  ({| service := new_service; data_service := new_pool; clock := tt |},
   {| open_ := open; sent := [] |}).

Definition Stores : Type := MemoryPlayerRepository * MemorySessionStore.
Definition empty_stores : Stores := ({| players := ∅ |}, {| sessions := ∅ |}).

Definition handle (c : Z) (frame : Frame) (s : ScenarioWorld * Stores) : ScenarioWorld * Stores :=
  ((HandleFrame c frame s.1).2, s.2).

Definition disconnect (c : Z) (s : ScenarioWorld * Stores) : ScenarioWorld * Stores :=
  ((Disconnect c s.1).2, s.2).

Definition serve (s : ScenarioWorld * Stores) : ScenarioWorld * Stores :=
  let '((e, t), stores) := s in
  match WorkerLoop_locked (data_service e) with
  | (Running task, pool) =>
      let '(completion, stores) := run_task 0 task stores in
      ((run_completion completion
          ({| service := service e; data_service := pool; clock := clock e |}, t)).2, stores)
  | _ => s
  end.

(** Two connections logged in as different players. *)
Definition ada_and_bob : ScenarioWorld * Stores :=
  Nat.iter 6 serve (handle 2 login_bob (handle 1 login_ada (new_world {[1; 2]}, empty_stores))).

Definition ada_id : Z := Z.lor (Z.shiftl 1700000000000 20) 1.
Definition bob_id : Z := Z.lor (Z.shiftl 1700000000000 20) 2.

Example both_online :
  dom (online_players_ (service ada_and_bob.1.1)) = {[ada_id; bob_id]} ∧
  connection_players_ (service ada_and_bob.1.1) = {[1 := ada_id; 2 := bob_id]} ∧
  pending_accounts_ (service ada_and_bob.1.1) = ∅.
Proof. vm_compute. done. Qed.
