(* ===== verification/GameLogic.v ===== *)
(** * Reasoning about the game service

    [twp m Q e]: run from the environment [e] and any transport state, the call [m]
    returns (never throws) with a result and an environment satisfying [Q]. The
    rules below are those of the primitive calls; [step] applies them. The transport
    enters only through its laws: [Disconnect] runs [OnDisconnected] on an open
    connection and nothing otherwise.

    The second half gives what loops of [Send] do to the transport. *)

From S2P Require Import Prelude Double FrameCodec AoiWorld DataTypes AsyncData ProtobufCodec.
From S2P Require Import GameTransport Mt19937 GameService.

Section logic.
Context {T D C : Type}.
Context `{!GameTransport T} `{!DataService D PlayerCallback SessionCallback OperationCallback}.
Context `{!SystemClock C} `{!Platform} `{!Protobuf} `{!GameTransportLaws T}.

Implicit Types e : Env D C.
Implicit Types t : T.

Definition twp {A} (m : M (World T D C) A) (Q : A → Env D C → Prop) (e : Env D C) : Prop :=
  ∀ t, tr_ok t → wp m (λ a w, Q a w.1 ∧ tr_ok w.2) (e, t).

Definition with_service (s : GameService) (e : Env D C) : Env D C :=
  {| service := s; data_service := data_service e; clock := clock e |}.
Definition with_data (d : D) (e : Env D C) : Env D C :=
  {| service := service e; data_service := d; clock := clock e |}.
Definition with_clock (c : C) (e : Env D C) : Env D C :=
  {| service := service e; data_service := data_service e; clock := c |}.

Lemma twp_ret {A} (a : A) Q e : Q a e → twp (mret a) Q e.
Proof. by intros HQ t Ht. Qed.

Lemma twp_bind {A B} (m : M (World T D C) A) (f : A → M (World T D C) B) Q e :
  twp m (λ a, twp (f a) Q) e → twp (m ≫= f) Q e.
Proof.
  intros Hm t Ht. apply wp_bind. eapply wp_wand; [by apply Hm|]. intros a [e' t'] [Hf Ht']. by apply Hf.
Qed.

Lemma twp_wand {A} (m : M (World T D C) A) (Q Q' : A → Env D C → Prop) e :
  twp m Q e → (∀ a e', Q a e' → Q' a e') → twp m Q' e.
Proof.
  intros Hm HQ t Ht. eapply wp_wand; [by apply Hm|]. intros a w [Ha Hw]. split; [by apply HQ|done].
Qed.

Lemma twp_get_service Q e : Q (service e) e → twp get_service Q e.
Proof. by intros HQ t Ht. Qed.

Lemma twp_update_service f Q e :
  Q tt (with_service (f (service e)) e) → twp (update_service f) Q e.
Proof. by intros HQ t Ht. Qed.

Lemma twp_call_data f Q e :
  Q (f (data_service e)).1 (with_data (f (data_service e)).2 e) → twp (call_data f) Q e.
Proof. intros HQ t Ht. unfold wp, call_data; simpl. by destruct (f _). Qed.

Lemma twp_read_clock f Q e :
  (∀ z c, Q z (with_clock c e)) → twp (read_clock f) Q e.
Proof. intros HQ t Ht. unfold wp, read_clock; simpl. destruct (f _). split; [apply HQ|done]. Qed.

Lemma twp_Send c ty m Q e : (∀ b, Q b e) → twp (Send c ty m) Q e.
Proof.
  intros HQ t Ht. unfold wp, Send; simpl. destruct (send_law t c ty m Ht) as [Ht' _].
  destruct (tr_Send _ _ _ _). split; [apply HQ|done].
Qed.

Lemma twp_IsConnected c Q e : (∀ b, Q b e) → twp (IsConnected c) Q e.
Proof. intros HQ t Ht. split; [apply HQ|done]. Qed.

Lemma twp_next_random Q e :
  (∀ z, is_u64 z →
     Q z (with_service (set_random (mt_next (random_ (service e))).2 (service e)) e)) →
  twp next_random Q e.
Proof.
  intros HQ t Ht. unfold wp, next_random; cbn -[mt_next].
  pose proof (mt_next_range (random_ (service e))) as Hr.
  destruct (mt_next _) as [r g]. cbn in *. split; [by apply HQ|done].
Qed.

Lemma twp_lift_outcome {A} (o : Outcome A) (a : A) Q e :
  o = Returns a → Q a e → twp (lift_outcome o) Q e.
Proof. intros -> HQ t Ht. by split. Qed.

Lemma twp_for_each {A} (I : Env D C → Prop) (xs : list A) body e :
  I e → (∀ x e', x ∈ xs → I e' → twp (body x) (λ _, I) e') →
  twp (for_each xs body) (λ _, I) e.
Proof.
  intros HI Hb t Ht.
  apply (wp_for_each (λ w : World T D C, I w.1 ∧ tr_ok w.2)); [done|].
  intros x [e' t'] Hx [He Ht']. by apply Hb.
Qed.

(** From a run that leaves the transport well-formed. *)
Lemma twp_run {A} (m : M (World T D C) A) (a : A) e' (f : T → T) Q e :
  (∀ t, m (e, t) = (Returns a, (e', f t))) → (∀ t, tr_ok t → tr_ok (f t)) → Q a e' → twp m Q e.
Proof. intros Hm Hf HQ t Ht. unfold wp. rewrite Hm. split; [done|]. by apply Hf. Qed.

(** A loop whose body only sends leaves the environment alone. *)
Lemma twp_for_players ids body Q e :
  (∀ id p, twp (body id p) (λ _ e', e' = e) e) → Q tt e → twp (for_players ids body) Q e.
Proof.
  intros Hb HQ. eapply twp_wand.
  - apply (twp_for_each (λ e', e' = e)); [done|]. intros x e' _ ->.
    apply twp_bind, twp_get_service. case_match; [apply Hb|by apply twp_ret].
  - by intros [] e' ->.
Qed.

Lemma twp_notify_players ids ty m Q e : Q tt e → twp (notify_players ids ty m) Q e.
Proof.
  intros HQ. apply twp_for_players; [|done]. intros id p.
  apply twp_bind, twp_Send. intros b. by apply twp_ret.
Qed.

(** ** What is sent *)

(** The addressees of a loop over player ids, and the messages of one. *)
Definition addressed (s : GameService) (ids : gset Z)
    (messages : Z → OnlinePlayer → list Sending) : list Sending :=
  id ← set_iter ids;
  match PlayerById s id with Some p => messages id p | None => [] end.

Lemma for_players_sends ids body messages e t :
  (∀ id p t', body id p (e, t') = (Returns tt, (e, send_all t' (messages id p)))) →
  for_players ids body (e, t)
  = (Returns tt, (e, send_all t (addressed (service e) ids messages))).
Proof.
  intros Hb. unfold for_players, addressed. revert t.
  induction (set_iter ids) as [|id l IH]; intros t; [done|].
  cbn [for_each]. erewrite bind_run.
  2: { erewrite bind_run by reflexivity. cbn [fst].
       instantiate (1 := (e, send_all t match PlayerById (service e) id with
                                       | Some p => messages id p | None => [] end)).
       instantiate (1 := tt). by destruct (PlayerById (service e) id). }
  rewrite IH. cbn [mbind list_bind]. by rewrite send_all_app.
Qed.

Lemma Send_run c ty m (w : World T D C) :
  (Send c ty m ;; mret tt) w = (Returns tt, (w.1, send_all w.2 [(c, ty, m)])).
Proof. unfold Send, mbind, M_bind, send_all; simpl. by destruct (tr_Send _ _ _ _). Qed.

Lemma notify_players_sends ids ty m e t :
  notify_players ids ty m (e, t)
  = (Returns tt, (e, send_all t (addressed (service e) ids
       (λ _ p, [(GameService.connection_id p, ty, m)])))).
Proof. apply for_players_sends. intros. apply Send_run. Qed.

Lemma for_each_sends {A} (xs : list A) body (message : A → Sending) e t :
  (∀ x t', body x (e, t') = (Returns tt, (e, send_all t' [message x]))) →
  for_each xs body (e, t) = (Returns tt, (e, send_all t (message <$> xs))).
Proof.
  intros Hb. revert t. induction xs as [|x xs IH]; intros t; [done|].
  cbn [for_each fmap list_fmap]. erewrite bind_run by apply Hb. by rewrite IH.
Qed.
End logic.

Arguments with_service {D C} s e /.
Arguments with_data {D C} d e /.
Arguments with_clock {D C} c e /.

(** Applies the rules of the primitive calls. *)
Ltac step :=
  lazymatch goal with
  | |- twp (mbind _ _) _ _ => apply twp_bind
  | |- twp (mret _) _ _ => apply twp_ret
  | |- twp get_service _ _ => apply twp_get_service
  | |- twp (update_service _) _ _ => apply twp_update_service
  | |- twp (call_data _) _ _ => apply twp_call_data
  | |- twp (read_clock _) _ _ => apply twp_read_clock; intros ? ?
  | |- twp (Send _ _ _) _ _ => apply twp_Send; intros ?
  | |- twp (IsConnected _) _ _ => apply twp_IsConnected; intros ?
  | |- twp next_random _ _ => apply twp_next_random; intros ? ?
  | |- twp (notify_players _ _ _) _ _ => apply twp_notify_players
  end; cbn beta.
Ltac steps := repeat step.
