(* ===== verification/GameServiceInv.v ===== *)
(** * The invariant of the game service

    [GameInv] ties the four tables of [GameService] and the AOI world together;
    every handler and every callback of the data service keeps it, with any
    arguments, over any transport that satisfies [GameTransportLaws] and any data
    service, and none of them throws. *)

From S2P Require Import Prelude Double FrameCodec AoiWorld DataTypes AsyncData ProtobufCodec.
From S2P Require Import GameTransport Mt19937 GameService GameLogic.

Definition record_position (r : PlayerRecord) : Position :=
  {| pos_x := position_x r; pos_y := position_y r |}.

(** Players of the world are the online players, at the positions of their
    records; online players and logged-in connections determine each other; a
    connection waiting for its login has no player. *)
Record GameInv `{Platform} (s : GameService) : Prop := {
  gi_world : AoiInv (world_ s);
  gi_position p :
    position <$> players_ (world_ s) !! p = (record_position ∘ record) <$> online_players_ s !! p;
  gi_online p o : online_players_ s !! p = Some o →
    player_id (record o) = p ∧ connection_players_ s !! connection_id o = Some p;
  gi_connection c p : connection_players_ s !! c = Some p →
    ∃ o, online_players_ s !! p = Some o ∧ connection_id o = c;
  gi_pending c : is_Some (pending_connections_ s !! c) → connection_players_ s !! c = None
}.

(** [FailLogin]'s and [OnDisconnected]'s clean-up of a pending connection. *)
Definition drop_pending (c : Z) (s : GameService) : GameService :=
  match pending_connections_ s !! c with
  | Some account => erase_pending_connection c (erase_pending_account account s)
  | None => s
  end.

(** The service after [OnDisconnected c]. *)
Definition disconnected (c : Z) (s : GameService) : GameService :=
  let s := drop_pending c s in
  match PlayerForConnection s c with
  | Some (p, _) =>
      set_connection_players (delete c (connection_players_ s))
        (set_online (delete p (online_players_ s))
          (set_world (RemovePlayer (world_ s) p).2 s))
  | None => s
  end.

Section states.
Context `{Platform}.
Implicit Types s : GameService.

Lemma GameInv_frame s s' :
  GameInv s → world_ s' = world_ s → online_players_ s' = online_players_ s →
  connection_players_ s' = connection_players_ s →
  (∀ c, is_Some (pending_connections_ s' !! c) →
     is_Some (pending_connections_ s !! c) ∨ connection_players_ s !! c = None) →
  GameInv s'.
Proof.
  intros [Hw Hp Ho Hc Hpe] E1 E2 E3 Hpend. split; rewrite ?E1, ?E2, ?E3; try done.
  intros c [?|?]%Hpend; [by apply Hpe|done].
Qed.

Lemma drop_pending_fields c s :
  world_ (drop_pending c s) = world_ s ∧ online_players_ (drop_pending c s) = online_players_ s ∧
  connection_players_ (drop_pending c s) = connection_players_ s ∧
  pending_connections_ (drop_pending c s) = delete c (pending_connections_ s).
Proof.
  unfold drop_pending. destruct (pending_connections_ s !! c) eqn:E; [done|].
  by rewrite delete_id.
Qed.

Lemma GameInv_drop_pending c s : GameInv s → GameInv (drop_pending c s).
Proof.
  intros Hs. destruct (drop_pending_fields c s) as (E1 & E2 & E3 & E4).
  eapply GameInv_frame; try done. intros c'. rewrite E4.
  intros [a [_ Ha]%lookup_delete_Some]. left. by eexists.
Qed.

Lemma GameInv_erase_pending_account a s : GameInv s → GameInv (erase_pending_account a s).
Proof. intros Hs. eapply GameInv_frame; try done. by left. Qed.

Lemma GameInv_erase_pending_connection c s : GameInv s → GameInv (erase_pending_connection c s).
Proof.
  intros Hs. eapply GameInv_frame; try done. intros c'. cbn. intros [a [_ Ha]%lookup_delete_Some].
  left. by eexists.
Qed.

Lemma GameInv_set_random r s : GameInv s → GameInv (set_random r s).
Proof. intros Hs. eapply GameInv_frame; try done. by left. Qed.

Lemma GameInv_set_player_sequence n s : GameInv s → GameInv (set_player_sequence n s).
Proof. intros Hs. eapply GameInv_frame; try done. by left. Qed.

Lemma GameInv_set_pending_accounts a s : GameInv s → GameInv (set_pending_accounts a s).
Proof. intros Hs. eapply GameInv_frame; try done. by left. Qed.

(** A world and its online table agree on who is in it. *)
Lemma GameInv_players s p :
  GameInv s → is_Some (players_ (world_ s) !! p) ↔ is_Some (online_players_ s !! p).
Proof.
  intros Hs. pose proof (gi_position s Hs p) as Hp.
  destruct (players_ (world_ s) !! p), (online_players_ s !! p); simpl in Hp; naive_solver.
Qed.

Lemma PlayerForConnection_Some s c p o :
  PlayerForConnection s c = Some (p, o) ↔
  connection_players_ s !! c = Some p ∧ online_players_ s !! p = Some o.
Proof.
  unfold PlayerForConnection. destruct (connection_players_ s !! c) as [p'|]; [|naive_solver].
  destruct (online_players_ s !! p') as [o'|] eqn:E; naive_solver.
Qed.

Lemma PlayerForConnection_None s c :
  GameInv s → PlayerForConnection s c = None ↔ connection_players_ s !! c = None.
Proof.
  intros Hs. unfold PlayerForConnection. destruct (connection_players_ s !! c) as [p'|] eqn:E; [|done].
  destruct (gi_connection s Hs _ _ E) as (o & -> & _). done.
Qed.

(** A player's own connection finds it. *)
Lemma PlayerForConnection_online s p o :
  GameInv s → online_players_ s !! p = Some o →
  PlayerForConnection s (connection_id o) = Some (p, o).
Proof. intros Hs Ho. apply PlayerForConnection_Some. split; [|done]. by apply (gi_online s Hs). Qed.

Lemma GameInv_disconnected c s : GameInv s → GameInv (disconnected c s).
Proof.
  intros Hs. unfold disconnected. apply (GameInv_drop_pending c) in Hs.
  destruct (drop_pending_fields c s) as (_ & _ & _ & Epend).
  set (s1 := drop_pending c s) in *.
  destruct (PlayerForConnection s1 c) as [[p o]|] eqn:E; [|done].
  apply PlayerForConnection_Some in E as [Hc Ho].
  destruct (gi_online s1 Hs _ _ Ho) as [Hid Hco].
  assert (connection_id o = c) as Hoc.
  { destruct (gi_connection s1 Hs _ _ Hc) as (o' & Ho' & <-). congruence. }
  assert (is_Some (players_ (world_ s1) !! p)) as [st Hst].
  { apply GameInv_players; [done|by eexists]. }
  split; cbn [world_ online_players_ connection_players_ pending_connections_ set_world set_online
              set_connection_players].
  - apply RemovePlayer_inv, Hs.
  - intros q. unfold RemovePlayer. rewrite Hst. cbn.
    destruct (decide (p = q)) as [<-|Hne]; [by rewrite !lookup_delete_eq|].
    rewrite !lookup_delete_ne by done. apply Hs.
  - intros q o' [Hne Hq]%lookup_delete_Some. destruct (gi_online s1 Hs _ _ Hq) as [Hid' Hco'].
    split; [done|]. apply lookup_delete_Some. split; [|done]. congruence.
  - intros c' q [Hne Hq]%lookup_delete_Some. destruct (gi_connection s1 Hs _ _ Hq) as (o' & Ho' & Hc').
    exists o'. split; [|done]. apply lookup_delete_Some. split; [|done].
    intros ->. congruence.
  - intros c' Hp'. apply (gi_pending s1 Hs) in Hp'. apply lookup_delete_None. by right.
Qed.

(** Connections only leave the table. *)
Lemma disconnected_connections c s c' :
  connection_players_ s !! c' = None → connection_players_ (disconnected c s) !! c' = None.
Proof.
  intros Hc'. unfold disconnected. destruct (drop_pending_fields c s) as (_ & _ & E & _).
  destruct (PlayerForConnection _ c) as [[p o]|]; cbn; rewrite E; [|done].
  apply lookup_delete_None. by right.
Qed.

Lemma GameInv_admit s s' c r tok w' :
  GameInv s → AddPlayer (world_ s) (player_id r) (record_position r) = (true, w') →
  connection_players_ s !! c = None →
  world_ s' = w' →
  online_players_ s' = <[player_id r := {| record := r; connection_id := c; session_token := tok |}]>
                         (online_players_ s) →
  connection_players_ s' = <[c := player_id r]> (connection_players_ s) →
  (∀ c', is_Some (pending_connections_ s' !! c') → c' ≠ c ∧ is_Some (pending_connections_ s !! c')) →
  GameInv s'.
Proof.
  intros Hs Hadd Hc Ew Eo Ec Ep. pose proof Hadd as Hadd'.
  apply AddPlayer_true in Hadd' as (Hp & i & Hi & Hw').
  assert (online_players_ s !! player_id r = None) as Hoff.
  { apply eq_None_not_Some. rewrite <- GameInv_players by done. rewrite Hp. by intros []. }
  assert (players_ w' = <[player_id r := {| position := record_position r; grid_index := i |}]>
            (players_ (world_ s))) as Hpl by (by rewrite Hw').
  split; rewrite ?Ew, ?Ec.
  - pose proof (AddPlayer_inv (world_ s) (player_id r) (record_position r) (gi_world s Hs)) as Ha.
    by rewrite Hadd in Ha.
  - intros q. rewrite ?Ew, Eo, Hpl. destruct (decide (player_id r = q)) as [<-|Hne].
    + by rewrite !lookup_insert_eq.
    + rewrite !lookup_insert_ne by done. apply Hs.
  - intros q o. rewrite Eo, ?Ec, lookup_insert_Some. intros [[<- <-]|[Hne Hq]]; cbn.
    + by rewrite lookup_insert_eq.
    + destruct (gi_online s Hs _ _ Hq) as [Hid Hco]. split; [done|].
      rewrite lookup_insert_ne; [done|congruence].
  - intros c' q. rewrite ?Ec, Eo, lookup_insert_Some. intros [[<- <-]|[Hne Hq]].
    + eexists. by rewrite lookup_insert_eq.
    + destruct (gi_connection s Hs _ _ Hq) as (o & Ho & Hco). exists o.
      rewrite lookup_insert_ne; [done|congruence].
  - intros c' [Hne Hpend]%Ep. rewrite ?Ec, lookup_insert_ne by done. by apply (gi_pending s Hs).
Qed.

(** The record a move writes. *)
Lemma GameInv_move s s' key o pos r w' :
  GameInv s → online_players_ s !! key = Some o →
  MovePlayer (world_ s) (player_id (record o)) pos = Returns (Some r, w') →
  world_ s' = w' →
  online_players_ s' = <[key := with_position o pos]> (online_players_ s) →
  connection_players_ s' = connection_players_ s →
  pending_connections_ s' = pending_connections_ s →
  GameInv s'.
Proof.
  intros Hs Ho Hmove Ew Eo Ec Ep. destruct (gi_online s Hs _ _ Ho) as [Hid Hco]. rewrite Hid in Hmove.
  pose proof (MovePlayer_inv _ _ _ _ _ (gi_world s Hs) Hmove) as Hw'.
  rewrite MovePlayer_result in Hmove by apply Hs.
  destruct (players_ (world_ s) !! key) as [st|] eqn:Hst; [|done].
  destruct (GridIndexFor (world_ s) pos) as [i|] eqn:Hi; [|done].
  apply (f_equal (λ o, match o with Returns r => Some r.2 | Throws _ => None end)) in Hmove.
  cbn in Hmove. injection Hmove as Hmove.
  assert (players_ w' = <[key := {| position := pos; grid_index := i |}]> (players_ (world_ s))) as Hpl.
  { rewrite <- Hmove. apply moved_fields. }
  split; rewrite ?Ew, ?Ec.
  - done.
  - intros q. rewrite ?Ew, Eo, Hpl. destruct (decide (key = q)) as [<-|Hne].
    + rewrite !lookup_insert_eq. cbn. by destruct pos.
    + rewrite !lookup_insert_ne by done. apply Hs.
  - intros q o'. rewrite Eo, ?Ec, lookup_insert_Some. intros [[<- <-]|[Hne Hq]]; [done|].
    by apply (gi_online s Hs).
  - intros c q. rewrite ?Ec, Eo. intros (o' & Ho' & Hc')%(gi_connection s Hs).
    destruct (decide (key = q)) as [<-|Hne].
    + eexists. rewrite lookup_insert_eq. split; [done|]. cbn. congruence.
    + exists o'. by rewrite lookup_insert_ne.
  - intros c. rewrite Ep, ?Ec. apply (gi_pending s Hs).
Qed.
End states.

(** ** The handlers *)

Section handlers.
Context {T D C : Type}.
Context `{!GameTransport T} `{!DataService D PlayerCallback SessionCallback OperationCallback}.
Context `{!SystemClock C} `{!Platform} `{!Protobuf}.

Implicit Types e : Env D C.
Implicit Types t : T.

Lemma PlayerForConnection_drop_pending c s c' :
  PlayerForConnection (drop_pending c s) c' = PlayerForConnection s c'.
Proof.
  unfold PlayerForConnection. by destruct (drop_pending_fields c s) as (_ & -> & -> & _).
Qed.

(** A pending connection is dropped by both its clean-ups. *)
Lemma drop_pending_run c s (w : World T D C) :
  service w.1 = s →
  match pending_connections_ s !! c with
  | Some pending =>
      update_service (erase_pending_account pending) ;; update_service (erase_pending_connection c)
  | None => mret tt
  end w = (Returns tt, (with_service (drop_pending c s) w.1, w.2)).
Proof.
  destruct w as [[sv d ck] t]. cbn. intros ->. unfold drop_pending.
  by destruct (pending_connections_ s !! c).
Qed.

(** [OnDisconnected], whatever it finds. *)
Lemma OnDisconnected_run c e t :
  GameInv (service e) →
  ∃ visible,
    (∀ p o, PlayerForConnection (service e) c = Some (p, o) →
       VisiblePlayers (world_ (service e)) p = Some visible) ∧
    OnDisconnected c (e, t) =
    (Returns tt,
     match PlayerForConnection (service e) c with
     | Some (p, o) =>
         ({| service := disconnected c (service e);
             data_service := (ds_SavePlayer (data_service e) (record o) OnDisconnectSaved).2;
             clock := clock e |},
          send_all t (addressed (disconnected c (service e)) visible
            (λ _ q, [(connection_id q, kPlayerLeave, PlayerLeave p)])))
     | None => (with_service (disconnected c (service e)) e, t)
     end).
Proof.
  intros Hs. set (s := service e) in *.
  assert (∃ visible, ∀ p o, PlayerForConnection s c = Some (p, o) →
            VisiblePlayers (world_ s) p = Some visible) as [visible Hv].
  { destruct (PlayerForConnection s c) as [[p o]|] eqn:E; [|exists ∅; naive_solver].
    apply PlayerForConnection_Some in E as [_ Ho].
    destruct (VisiblePlayers_Some (world_ s) p) as (v & Hv & _); [apply Hs| |].
    - apply GameInv_players; [done|by eexists].
    - exists v. by intros p' o' [= <- <-]. }
  exists visible. split; [done|]. unfold OnDisconnected.
  erewrite bind_run by reflexivity. cbn [fst]. fold s.
  erewrite bind_run by (by apply drop_pending_run). cbn [fst snd].
  erewrite bind_run by reflexivity. cbn [fst service with_service].
  unfold disconnected. rewrite PlayerForConnection_drop_pending.
  destruct (drop_pending_fields c s) as (E1 & E2 & E3 & E4). rewrite E1, E2, E3.
  destruct (PlayerForConnection s c) as [[p o]|] eqn:E.
  - pose proof (Hv _ _ eq_refl) as Hvis. apply PlayerForConnection_Some in E as [Ec Eo].
    rewrite Ec, Eo.
    erewrite bind_run by (unfold lift_outcome; rewrite Hvis; reflexivity).
    do 3 (erewrite bind_run by reflexivity). cbn [fst snd with_service].
    erewrite bind_run by apply notify_players_sends.
    unfold call_data, mbind, M_bind. cbn [fst snd data_service clock service].
    by destruct (ds_SavePlayer _ _ _).
  - apply PlayerForConnection_None in E; [|done]. by rewrite E.
Qed.

(** The environment [OnDisconnected] leaves. *)
Definition disconnected_env (c : Z) e : Env D C :=
  {| service := disconnected c (service e);
     data_service := match PlayerForConnection (service e) c with
                     | Some (_, o) => (ds_SavePlayer (data_service e) (record o) OnDisconnectSaved).2
                     | None => data_service e
                     end;
     clock := clock e |}.

Lemma OnDisconnected_sends c e t :
  GameInv (service e) →
  ∃ l, OnDisconnected c (e, t) = (Returns tt, (disconnected_env c e, send_all t l)).
Proof.
  intros Hs. destruct (OnDisconnected_run c e t Hs) as (v & _ & E). unfold disconnected_env.
  destruct (PlayerForConnection _ _) as [[p o]|]; [eexists; exact E|exists []; exact E].
Qed.

Definition fail_pending (c : Z) (account : string) (s : GameService) : GameService :=
  drop_pending c (if str_empty account then s else erase_pending_account account s).

(** [FailLogin] cleans up and answers the connection if it is still there. *)
Lemma FailLogin_run c account error e t :
  FailLogin c account error (e, t) =
  (Returns tt, (with_service (fail_pending c account (service e)) e,
    if tr_IsConnected t c
    then send_all t [(c, kLoginResponse, failed_login_response error)] else t)).
Proof.
  unfold FailLogin, fail_pending.
  erewrite bind_run.
  2: { instantiate (1 := (with_service (if str_empty account then service e
         else erase_pending_account account (service e)) e, t)).
       instantiate (1 := tt). destruct e. by destruct (str_empty account). }
  erewrite bind_run by reflexivity. cbn [fst service with_service].
  erewrite bind_run by (by apply drop_pending_run). cbn [fst snd with_service].
  erewrite bind_run by reflexivity. cbn [snd].
  destruct (tr_IsConnected t c); cbn [negb]; [|done]. by rewrite Send_run.
Qed.

Context `{!GameTransportLaws T}.

Lemma twp_FailLogin c account error Q e :
  Q tt (with_service (fail_pending c account (service e)) e) →
  twp (T := T) (FailLogin c account error) Q e.
Proof.
  intros HQ. eapply twp_run; [intros t; apply FailLogin_run| |exact HQ].
  intros t Ht. cbn. destruct (tr_IsConnected t c); [by apply send_law|done].
Qed.

Lemma twp_abandon c account Q e :
  Q tt (with_service (erase_pending_connection c (erase_pending_account account (service e))) e) →
  twp (T := T) (abandon c account) Q e.
Proof. by intros HQ t Ht. Qed.

(** The early-return test: not abandoned means the connection is pending. *)
Lemma twp_login_abandoned c (Q : bool → Env D C → Prop) e :
  Q true e → (is_Some (pending_connections_ (service e) !! c) → Q false e) →
  twp (T := T) (login_abandoned c) Q e.
Proof.
  intros Ht Hf. unfold login_abandoned.
  apply twp_bind, twp_IsConnected. intros connected. steps.
  destruct (bool_decide _) eqn:E; [by rewrite orb_true_r|].
  apply bool_decide_eq_false in E. rewrite orb_false_r. destruct connected; [|done].
  apply Hf. by apply not_eq_None_Some.
Qed.

(** [Disconnect], with what it does to the connections. *)
Lemma Disconnect_wp c (Q : Env D C → Prop) e t :
  GameInv (service e) → tr_ok t →
  (tr_open t c = true → Q (disconnected_env c e)) → (tr_open t c = false → Q e) →
  wp (Disconnect c)
    (λ _ w, Q w.1 ∧ tr_ok w.2 ∧ ∀ c', tr_open w.2 c' = tr_open t c' && negb (c' =? c)) (e, t).
Proof.
  intros Hs Ht H1 H2. apply disconnect_law; [done| |done]. intros Ho t' Ht' _.
  destruct (OnDisconnected_sends c e t' Hs) as [l E]. unfold wp. rewrite E.
  split; [by apply H1|]. by apply send_all_law.
Qed.

Lemma twp_Disconnect c (Q : Env D C → Prop) e :
  GameInv (service e) → Q e → Q (disconnected_env c e) → twp (T := T) (Disconnect c) (λ _, Q) e.
Proof.
  intros Hs H1 H2 t Ht. eapply wp_wand; [by apply (Disconnect_wp c Q)|].
  by intros [] w (HQ & Hw & _).
Qed.

(** *** Every handler keeps the invariant *)

Definition keeps {A} (m : M (World T D C) A) : Prop :=
  ∀ e, GameInv (service e) → twp m (λ _ e', GameInv (service e')) e.

Lemma GameInv_fail_pending c account s : GameInv s → GameInv (fail_pending c account s).
Proof.
  intros Hs. apply GameInv_drop_pending. destruct (str_empty account); [done|].
  by apply GameInv_erase_pending_account.
Qed.

Lemma Disconnect_keeps c : keeps (Disconnect c).
Proof. intros e He. apply twp_Disconnect; [done..|]. by apply GameInv_disconnected. Qed.

(** What a failed login leaves of the pending accounts. *)
Lemma drop_pending_accounts c s a :
  a ∈ pending_accounts_ s → pending_connections_ s !! c ≠ Some a → a ∈ pending_accounts_ (drop_pending c s).
Proof.
  intros Ha Hne. unfold drop_pending. destruct (pending_connections_ s !! c) as [b|]; [|done]. cbn.
  assert (a ≠ b) by congruence. set_solver.
Qed.

Lemma fail_pending_accounts c account s a :
  a ∈ pending_accounts_ s → a ≠ account → pending_connections_ s !! c ≠ Some a →
  a ∈ pending_accounts_ (fail_pending c account s).
Proof.
  intros Ha Hne Hc. apply drop_pending_accounts; destruct (str_empty account); cbn; [done|set_solver|done..].
Qed.

Lemma FailLogin_keeps c account error : keeps (FailLogin c account error).
Proof. intros e He. apply twp_FailLogin. by apply GameInv_fail_pending. Qed.

Lemma abandon_keeps c account : keeps (abandon c account).
Proof.
  intros e He. apply twp_abandon. by apply GameInv_erase_pending_connection, GameInv_erase_pending_account.
Qed.

Lemma twp_NewSessionToken (Q : string → Env D C → Prop) e :
  (∀ tok r, Q tok (with_service (set_random r (service e)) e)) →
  twp (T := T) NewSessionToken Q e.
Proof. intros HQ. unfold NewSessionToken. steps. apply (HQ _ _). Qed.

Lemma twp_NewPlayer account (Q : PlayerRecord → Env D C → Prop) e :
  (∀ r g n ck, DataTypes.account r = account →
     Q r {| service := set_random g (set_player_sequence n (service e));
            data_service := data_service e; clock := ck |}) →
  twp (T := T) (NewPlayer account) Q e.
Proof. intros HQ. unfold NewPlayer. steps. by apply HQ. Qed.

(** A request to the data service, or the refusal of a login. *)
Lemma request_keeps (f : D → bool * D) c account error :
  keeps (accepted ← call_data f;
         if accepted : bool then mret tt else FailLogin c account error).
Proof.
  intros e He. steps. destruct (f (data_service e)).1; [by apply twp_ret|].
  by apply FailLogin_keeps.
Qed.

(** The continuations of a login, after their early return. *)
Lemma unless_abandoned_keeps c account (m : M (World T D C) unit) :
  (∀ e, GameInv (service e) → is_Some (pending_connections_ (service e) !! c) →
     twp m (λ _ e', GameInv (service e')) e) →
  keeps (abandoned ← login_abandoned c; if abandoned : bool then abandon c account else m).
Proof.
  intros Hm e He. apply twp_bind, twp_login_abandoned; [by apply abandon_keeps|]. by apply Hm.
Qed.

Lemma StoreSessionAndFinish_keeps c player allow : keeps (StoreSessionAndFinish c player allow).
Proof.
  apply unless_abandoned_keeps. intros e He _. steps.
  destruct (_ && _); [by apply FailLogin_keeps|].
  apply twp_bind, twp_NewSessionToken. intros tok r. by apply request_keeps, GameInv_set_random.
Qed.

Lemma ContinueLogin_keeps c player requested created : keeps (ContinueLogin c player requested created).
Proof.
  apply unless_abandoned_keeps. intros e He _. apply twp_bind, twp_read_clock. intros now ck.
  destruct (str_empty _); [by apply StoreSessionAndFinish_keeps|].
  by apply request_keeps.
Qed.

(** What an admission leaves, whether the world takes the player or not. *)
Lemma twp_admit_player c account tok r (Q : Env D C → Prop) e :
  GameInv (service e) → connection_players_ (service e) !! c = None →
  (∀ s, GameInv s → pending_connections_ s = delete c (pending_connections_ (service e)) →
     (∀ a, a ∈ pending_accounts_ (service e) → a ≠ account →
        pending_connections_ (service e) !! c ≠ Some a → a ∈ pending_accounts_ s) →
     Q (with_service s e)) →
  twp (admit_player c account tok r) (λ _, Q) e.
Proof.
  intros He Hc HQ. unfold admit_player. steps.
  destruct (AddPlayer _ _ _) as [added w'] eqn:Hadd. steps. destruct added; cbn [negb].
  2: { apply twp_FailLogin. apply AddPlayer_false in Hadd as [-> _].
       assert (GameInv (set_world (world_ (service e)) (service e))) as He1
         by (eapply GameInv_frame; [exact He|done..|by left]).
       apply HQ; [by apply GameInv_fail_pending| |].
       2: { intros a Ha Hne Hnc. by apply fail_pending_accounts. }
       unfold fail_pending. destruct (drop_pending_fields c (if str_empty account then set_world (world_ (service e)) (service e)
         else erase_pending_account account (set_world (world_ (service e)) (service e)))) as (_ & _ & _ & E).
       etrans; [exact E|]. by destruct (str_empty account). }
  steps.
  match goal with |- twp _ _ ?e => assert (GameInv (service e)) as He1 end.
  { pose proof Hadd as Hoff. apply AddPlayer_true in Hoff as (Hoff & _).
    assert (online_players_ (service e) !! player_id r = None) as Hno.
    { apply eq_None_not_Some. rewrite <- GameInv_players by done. rewrite Hoff. by intros []. }
    eapply GameInv_admit with (s := service e); try done; cbn.
    - unfold emplace. by rewrite Hno.
    - intros c' [a [Hne Ha]%lookup_delete_Some]. split; [done|]. by eexists. }
  destruct (VisiblePlayers_Some w' (player_id r)) as (v & Hv & _).
  - by apply (gi_world _ He1).
  - apply AddPlayer_true in Hadd as (_ & i & _ & ->). cbn. rewrite lookup_insert_eq. by eexists.
  - eapply (twp_lift_outcome _ v); [cbn; by rewrite Hv|]. steps.
    apply HQ; [done..|]. intros a Ha Hne _. cbn. set_solver.
Qed.

Lemma FinishLogin_keeps c player tok allow : keeps (FinishLogin c player tok allow).
Proof.
  apply unless_abandoned_keeps. intros e He Hpend%(gi_pending _ He). steps.
  destruct (online_players_ _ !! _) as [o|].
  - destruct (negb allow); [by apply FailLogin_keeps|]. apply twp_bind.
    eapply twp_wand.
    + apply twp_Disconnect with (Q := λ e',
        GameInv (service e') ∧ connection_players_ (service e') !! c = None); [done..|].
      split; [by apply GameInv_disconnected|by apply disconnected_connections].
    + intros [] e' [He' Hc]. by apply twp_admit_player; auto.
  - by apply twp_admit_player; auto.
Qed.

Lemma run_player_callback_keeps k result : keeps (run_player_callback k result).
Proof.
  destruct k as [c account requested]. apply unless_abandoned_keeps. intros e He _.
  destruct (result_Ok result) eqn:Eok.
  - apply result_Ok_value in Eok as [v Hv]. apply twp_bind.
    eapply twp_lift_outcome; [by rewrite Hv|]. by apply ContinueLogin_keeps.
  - destruct (negb _); [by apply FailLogin_keeps|].
    apply twp_bind, twp_NewPlayer. intros r g n ck _.
    destruct (negb _); [apply FailLogin_keeps|apply request_keeps];
      by apply GameInv_set_random, GameInv_set_player_sequence.
Qed.

Lemma run_session_callback_keeps k result : keeps (run_session_callback k result).
Proof.
  destruct k as [c account r requested created]. intros e He. unfold run_session_callback.
  destruct (_ || _); [by apply FailLogin_keeps|by apply StoreSessionAndFinish_keeps].
Qed.

Lemma run_operation_callback_keeps k result : keeps (run_operation_callback k result).
Proof.
  intros e He. destruct k; simpl; [| |by apply twp_ret].
  - destruct (negb _); [by apply FailLogin_keeps|by apply ContinueLogin_keeps].
  - destruct (negb _); [by apply FailLogin_keeps|by apply FinishLogin_keeps].
Qed.

Lemma run_completion_keeps k : keeps (run_completion k).
Proof.
  destruct k; [apply run_player_callback_keeps|apply run_session_callback_keeps
              |apply run_operation_callback_keeps].
Qed.

Lemma HandleLogin_keeps c frame : keeps (HandleLogin c frame).
Proof.
  intros e He. unfold HandleLogin. steps.
  destruct (ParseProtobufPayload _ _ _) as [[]|]; try by apply FailLogin_keeps.
  destruct ((_ || _) || _) eqn:E; [by apply FailLogin_keeps|].
  apply orb_false_iff in E as [[_ E]%orb_false_iff _]. apply bool_decide_eq_false in E.
  rewrite <- eq_None_not_Some in E.
  destruct (bool_decide _); [by apply FailLogin_keeps|].
  apply twp_bind, twp_update_service. apply twp_bind, twp_update_service.
  apply request_keeps. eapply GameInv_frame; [exact He|done..|]. cbn. intros c'.
  destruct (decide (c = c')) as [<-|Hne]; [by right|]. rewrite lookup_insert_ne by done. by left.
Qed.

Lemma HandleChat_keeps c frame : keeps (HandleChat c frame).
Proof.
  intros e He. unfold HandleChat. steps.
  destruct (PlayerForConnection _ _) as [[p o]|]; [|by apply twp_ret].
  destruct (ParseProtobufPayload _ _ _) as [[]|]; try by apply twp_ret.
  destruct (_ || _); [by apply twp_ret|].
  apply twp_for_each with (I := λ e', GameInv (service e')); [done|]. intros [] e' _ He'. by steps.
Qed.

Lemma HandleMove_keeps c frame : keeps (HandleMove c frame).
Proof.
  intros e He. unfold HandleMove. steps.
  destruct (PlayerForConnection _ _) as [[p o]|] eqn:E; [|by apply twp_ret].
  apply PlayerForConnection_Some in E as [Hc Ho].
  destruct (ParseProtobufPayload _ _ _) as [[| | |[pos|]| | | | | |]|]; try by apply twp_ret.
  set (np := {| pos_x := pb_x pos; pos_y := pb_y pos |}).
  destruct (MovePlayer (world_ (service e)) (player_id (record o)) np) as [[delta w']|ex] eqn:Em.
  2: { rewrite MovePlayer_result in Em by apply He. by repeat case_match. }
  apply twp_bind. eapply twp_lift_outcome; [done|]. cbv beta iota. steps. destruct delta as [delta|].
  2: { steps. cbn. rewrite MovePlayer_result in Em by apply He.
       assert (w' = world_ (service e)) as -> by (by repeat case_match; simplify_eq).
       eapply GameInv_frame; [exact He|done..|]. by left. }
  steps. apply twp_for_players; [intros; by steps|]. apply twp_for_players; [intros; by steps|].
  cbn. by eapply GameInv_move with (s := service e).
Qed.

Lemma HandleHeartbeat_keeps c frame : keeps (HandleHeartbeat c frame).
Proof. intros e He. unfold HandleHeartbeat. destruct (ParseProtobufPayload _ _ _); by steps. Qed.

Lemma HandleFrame_keeps c frame : keeps (HandleFrame c frame).
Proof.
  unfold HandleFrame.
  destruct (message_type_of (message_id frame)) as [[]|]; try apply Disconnect_keeps.
  - apply HandleLogin_keeps.
  - apply HandleChat_keeps.
  - apply HandleMove_keeps.
  - apply HandleHeartbeat_keeps.
Qed.

Lemma keeps_run (m : M (World T D C) unit) (w : World T D C) :
  keeps m → GameInv (service w.1) → tr_ok w.2 → GameInv (service (m w).2.1) ∧ tr_ok (m w).2.2.
Proof.
  destruct w as [e t]. intros Hm Hs Ht. specialize (Hm e Hs t Ht). unfold wp in Hm.
  by destruct (m (e, t)) as [[[]|x] w'].
Qed.
End handlers.
