(* ===== verification/GameNotify.v ===== *)
(** * Who is told what

    The functional behaviour of [HandleChat], [HandleMove], [OnDisconnected] and
    [FinishLogin]: the state they leave and, for each connection, the messages sent
    to it, as the AOI rules of [docs/server-architecture.md] state them. *)

From S2P Require Import Prelude Double FrameCodec AoiWorld DataTypes ThreadPool AsyncData.
From S2P Require Import ProtobufCodec GameTransport Mt19937 GameService GameScenario GameLogic.
From S2P Require Import GameServiceInv.

(** The messages of a list that go to one connection, in order. *)
Definition to_connection (c : Z) (l : list Sending) : list Sending := filter (λ m, m.1.1 = c) l.

Lemma to_connection_app c l1 l2 : to_connection c (l1 ++ l2) = to_connection c l1 ++ to_connection c l2.
Proof. apply filter_app. Qed.

Lemma to_connection_bind {A} c (xs : list A) (f : A → list Sending) :
  to_connection c (xs ≫= f) = xs ≫= (λ x, to_connection c (f x)).
Proof.
  induction xs as [|x xs IH]; [done|]. cbn [mbind list_bind] in *. by rewrite to_connection_app, IH.
Qed.

Lemma to_connection_eq c ty m l :
  to_connection c ((c, ty, m) :: l) = (c, ty, m) :: to_connection c l.
Proof. unfold to_connection. by rewrite filter_cons_True. Qed.

Lemma to_connection_ne c c' ty m l :
  c' ≠ c → to_connection c ((c', ty, m) :: l) = to_connection c l.
Proof. intros Hne. unfold to_connection. by rewrite filter_cons_False. Qed.

Lemma to_connection_nil c : to_connection c [] = [].
Proof. done. Qed.

(** A loop in which one element alone contributes. *)
Lemma bind_only {A B} `{EqDecision A} (xs : list A) (f : A → list B) (y : A) :
  NoDup xs → (∀ x, x ∈ xs → x ≠ y → f x = []) →
  xs ≫= f = if decide (y ∈ xs) then f y else [].
Proof.
  induction 1 as [|x xs Hx Hnd IH]; intros Hf; [done|]. cbn [mbind list_bind].
  rewrite IH by (intros z Hz; apply Hf; set_solver).
  destruct (decide (x = y)) as [->|Hne].
  - rewrite (decide_False (P := y ∈ xs)) by done. rewrite decide_True by set_solver.
    by rewrite app_nil_r.
  - rewrite (Hf x) by (done || set_solver). cbn.
    destruct (decide (y ∈ xs)); [rewrite decide_True by set_solver|rewrite decide_False by set_solver]; done.
Qed.

Lemma bind_none {A B} (xs : list A) (f : A → list B) : (∀ x, x ∈ xs → f x = []) → xs ≫= f = [].
Proof.
  induction xs as [|x xs IH]; intros Hf; [done|]. cbn [mbind list_bind].
  rewrite (Hf x) by set_solver. rewrite IH; [done|]. set_solver.
Qed.

Lemma bind_singletons {A B} (xs : list A) (f : A → list B) (g : A → B) :
  (∀ x, x ∈ xs → f x = [g x]) → xs ≫= f = g <$> xs.
Proof.
  induction xs as [|x xs IH]; intros Hf; [done|]. cbn [mbind list_bind fmap list_fmap].
  rewrite (Hf x) by set_solver. rewrite IH; [done|]. set_solver.
Qed.

Section notify.
Context `{Platform}.
Implicit Types s : GameService.

(** Different players are on different connections. *)
Lemma connection_ids_inj s p q o o' :
  GameInv s → online_players_ s !! p = Some o → online_players_ s !! q = Some o' →
  connection_id o = connection_id o' → p = q.
Proof.
  intros Hs Hp Hq E. apply (gi_online s Hs) in Hp as [_ Hp], Hq as [_ Hq]. congruence.
Qed.

(** What a loop over players sends to the connection of one of them. *)
Lemma to_connection_addressed s ids messages q oq c :
  online_players_ s !! q = Some oq →
  (∀ id o, online_players_ s !! id = Some o → id ≠ q → to_connection c (messages id o) = []) →
  to_connection c (addressed s ids messages)
  = if decide (q ∈ ids) then to_connection c (messages q oq) else [].
Proof.
  intros Hq Hm. unfold addressed. rewrite to_connection_bind.
  rewrite (bind_only _ _ q) by
    (apply NoDup_set_iter || (intros id _ Hne; unfold PlayerById;
       destruct (online_players_ s !! id) eqn:E; [by apply Hm|done])).
  unfold PlayerById. rewrite Hq. by rewrite (decide_ext (q ∈ set_iter ids) (q ∈ ids)) by apply elem_of_set_iter.
Qed.

Lemma to_connection_addressed_none s ids messages c :
  (∀ id o, online_players_ s !! id = Some o → id ∈ ids → to_connection c (messages id o) = []) →
  to_connection c (addressed s ids messages) = [].
Proof.
  intros Hm. unfold addressed. rewrite to_connection_bind. apply bind_none. intros id Hid%elem_of_set_iter.
  unfold PlayerById. destruct (online_players_ s !! id) eqn:E; [by apply Hm|done].
Qed.

(** A notification of the players of [ids], as each connection sees it. *)
Lemma to_connection_notified s ids ty m q oq :
  GameInv s → online_players_ s !! q = Some oq →
  to_connection (connection_id oq)
    (addressed s ids (λ _ p, [(connection_id p, ty, m)]))
  = if decide (q ∈ ids) then [(connection_id oq, ty, m)] else [].
Proof.
  intros Hs Hq. rewrite (to_connection_addressed _ _ _ q oq) by
    (done || (intros id o Ho Hne; rewrite to_connection_ne; [done|];
      intros E; apply Hne; by eapply connection_ids_inj)).
  by rewrite to_connection_eq.
Qed.
End notify.

(** ** The runs of the handlers *)

(** The players a player sees, nobody for an unknown one. *)
Definition view `{Platform} (w : AoiWorld) (p : Z) : gset Z := default ∅ (VisiblePlayers w p).

Section runs.
Context {T D C : Type}.
Context `{!GameTransport T} `{!DataService D PlayerCallback SessionCallback OperationCallback}.
Context `{!SystemClock C} `{!Platform} `{!Protobuf}.
Implicit Types e : Env D C.
Implicit Types t : T.

(** The three loops of [HandleMove]. *)
Definition move_messages (s : GameService) (c : Z) (mover : OnlinePlayer) (d : ViewDelta) : list Sending :=
  let id := player_id (record mover) in
  addressed s (stayed d) (λ _ q, [(connection_id q, kPlayerMove,
    PlayerMove id (Some {| pb_x := position_x (record mover); pb_y := position_y (record mover) |}))])
  ++ addressed s (entered d) (λ _ q,
       [(connection_id q, kPlayerEnter, PlayerEnter (Some (FillView (record mover))));
        (c, kPlayerEnter, PlayerEnter (Some (FillView (record q))))])
  ++ addressed s (left_ d) (λ other q,
       [(connection_id q, kPlayerLeave, PlayerLeave id); (c, kPlayerLeave, PlayerLeave other)]).

Lemma two_sends_run c1 ty1 m1 c2 ty2 m2 (w : World T D C) :
  (Send c1 ty1 m1 ;; Send c2 ty2 m2 ;; mret tt) w
  = (Returns tt, (w.1, send_all w.2 [(c1, ty1, m1); (c2, ty2, m2)])).
Proof.
  unfold Send, mbind, M_bind, send_all; simpl. destruct (tr_Send _ _ _ _); simpl.
  by destruct (tr_Send _ _ _ _).
Qed.

Lemma HandleMove_run c frame e t p o pos :
  GameInv (service e) → PlayerForConnection (service e) c = Some (p, o) →
  ParseProtobufPayload frame kMoveRequest MoveRequest_ = Some (MoveRequest (Some pos)) →
  let s := service e in
  let np := {| pos_x := pb_x pos; pos_y := pb_y pos |} in
  match players_ (world_ s) !! p, GridIndexFor (world_ s) np with
  | Some st, Some i =>
      let w' := moved (world_ s) p st np i in
      let mover := with_position o np in
      let s' := set_online (<[p := mover]> (online_players_ s)) (set_world w' s) in
      HandleMove c frame (e, t)
      = (Returns tt, (with_service s' e, send_all t (move_messages s' c mover
          {| entered := view w' p ∖ view (world_ s) p;
             left_ := view (world_ s) p ∖ view w' p;
             stayed := view (world_ s) p ∩ view w' p |})))
  | _, _ => HandleMove c frame (e, t) = (Returns tt, (e, t))
  end.
Proof.
  intros Hs Hc Hparse s np.
  pose proof Hc as Hc'. apply PlayerForConnection_Some in Hc' as [_ Ho].
  destruct (gi_online _ Hs _ _ Ho) as [Hid _].
  assert (∀ r w', MovePlayer (world_ s) p np = Returns (r, w') →
    HandleMove c frame (e, t)
    = (let e' := with_service (set_world w' s) e in
       match r with
       | None => (Returns tt, (e', t))
       | Some d =>
           let mover := with_position o np in
           let s' := set_online (<[p := mover]> (online_players_ s)) (set_world w' s) in
           (Returns tt, (with_service s' e, send_all t (move_messages s' c mover d)))
       end)) as Hrun.
  { intros r w' Hmove. unfold HandleMove. erewrite bind_run by reflexivity. cbn [fst].
    rewrite Hc, Hparse. fold np.
    erewrite bind_run by (unfold lift_outcome; rewrite Hid; fold s; rewrite Hmove; reflexivity).
    cbv beta iota. erewrite bind_run by reflexivity. destruct r as [d|]; [|done].
    erewrite bind_run by reflexivity.
    erewrite bind_run by apply notify_players_sends.
    erewrite bind_run by (apply for_players_sends; intros; apply two_sends_run).
    erewrite for_players_sends by (intros; apply two_sends_run).
    unfold move_messages. by rewrite !send_all_app. }
  rewrite MovePlayer_result in Hrun by apply Hs.
  destruct (players_ (world_ s) !! p) as [st|] eqn:Hp.
  - destruct (GridIndexFor (world_ s) np) as [i|] eqn:Hi; [rewrite (Hrun _ _ eq_refl); reflexivity|].
    rewrite (Hrun None _ eq_refl). destruct e as [[] ? ?]. done.
  - rewrite (Hrun None _ eq_refl). destruct e as [[] ? ?]. done.
Qed.

Lemma Send_seq {A} c ty m (k : M (World T D C) A) (w : World T D C) :
  (Send c ty m ;; k) w = k (w.1, send_all w.2 [(c, ty, m)]).
Proof. unfold Send, mbind, M_bind, send_all; simpl. by destruct (tr_Send _ _ _ _). Qed.

(** The messages of a move, by the connection they go to. *)
Lemma move_messages_other s c mover d q oq :
  GameInv s → connection_id mover = c →
  online_players_ s !! player_id (record mover) = Some mover →
  online_players_ s !! q = Some oq → q ≠ player_id (record mover) →
  let id := player_id (record mover) in
  to_connection (connection_id oq) (move_messages s c mover d) =
  (if decide (q ∈ stayed d) then [(connection_id oq, kPlayerMove,
     PlayerMove id (Some {| pb_x := position_x (record mover); pb_y := position_y (record mover) |}))] else [])
  ++ (if decide (q ∈ entered d)
      then [(connection_id oq, kPlayerEnter, PlayerEnter (Some (FillView (record mover))))] else [])
  ++ (if decide (q ∈ left_ d) then [(connection_id oq, kPlayerLeave, PlayerLeave id)] else []).
Proof.
  intros Hs Hc Hm Hq Hne id.
  assert (∀ q' oq', online_players_ s !! q' = Some oq' → q' ≠ q → connection_id oq' ≠ connection_id oq) as Hinj.
  { intros q' oq' Hq' Hne' E. apply Hne'. by eapply connection_ids_inj. }
  assert (c ≠ connection_id oq) as Hcq by (subst c; by apply (Hinj _ _ Hm)).
  unfold move_messages. rewrite !to_connection_app. f_equal; [by apply to_connection_notified|].
  f_equal; rewrite (to_connection_addressed s _ _ q oq) by
    (done || (intros q' oq' Hq' Hne'; by rewrite !to_connection_ne by eauto));
    by rewrite to_connection_eq, to_connection_ne.
Qed.

Lemma move_messages_mover s c mover d :
  GameInv s → connection_id mover = c →
  online_players_ s !! player_id (record mover) = Some mover →
  player_id (record mover) ∉ stayed d → player_id (record mover) ∉ entered d →
  player_id (record mover) ∉ left_ d → (∀ q, q ∈ left_ d → is_Some (online_players_ s !! q)) →
  to_connection c (move_messages s c mover d) =
  omap (λ q, (λ oq, (c, kPlayerEnter, PlayerEnter (Some (FillView (record oq)))))
               <$> online_players_ s !! q) (set_iter (entered d))
  ++ ((λ q, (c, kPlayerLeave, PlayerLeave q)) <$> set_iter (left_ d)).
Proof.
  intros Hs Hc Hm H1 H2 H3 Hon.
  assert (∀ q oq, online_players_ s !! q = Some oq → q ≠ player_id (record mover) →
    connection_id oq ≠ c) as Hinj.
  { intros q oq Hq Hne E. apply Hne. eapply connection_ids_inj; [done..|]. congruence. }
  unfold move_messages. rewrite !to_connection_app, to_connection_addressed_none.
  2: { intros q oq Hq Hin. rewrite to_connection_ne; [done|]. apply (Hinj _ _ Hq). by intros ->. }
  cbn [app]. f_equal; unfold addressed; rewrite to_connection_bind.
  - assert (∀ q, q ∈ set_iter (entered d) → q ≠ player_id (record mover)) as Hne.
    { intros q Hq%elem_of_set_iter ->. done. }
    induction (set_iter (entered d)) as [|q l IH]; [done|]. cbn [mbind list_bind omap list_omap].
    rewrite IH by (intros; apply Hne; set_solver). unfold PlayerById.
    destruct (online_players_ s !! q) as [oq|] eqn:Hq; [|done]. cbn [fmap option_fmap option_map].
    rewrite to_connection_ne, to_connection_eq; [done|]. apply (Hinj _ _ Hq), Hne. set_solver.
  - apply bind_singletons. intros q Hq%elem_of_set_iter. unfold PlayerById.
    destruct (Hon q Hq) as [oq Hoq]. rewrite Hoq. rewrite to_connection_ne, to_connection_eq; [done|].
    apply (Hinj _ _ Hoq). by intros ->.
Qed.

(** The admission of a player that is not online, both ways. *)
Lemma admit_player_run c account tok r e t :
  GameInv (service e) → online_players_ (service e) !! player_id r = None →
  let s := service e in
  match AddPlayer (world_ s) (player_id r) (record_position r) with
  | (true, w') =>
      let s' := erase_pending_connection c (erase_pending_account account
        (set_online (<[player_id r := {| record := r; connection_id := c; session_token := tok |}]>
                       (online_players_ s))
        (set_connection_players (<[c := player_id r]> (connection_players_ s)) (set_world w' s)))) in
      let visible := view w' (player_id r) in
      admit_player c account tok r (e, t)
      = (Returns tt, (with_service s' e, send_all t
          ((c, kLoginResponse, LoginResponse true EmptyString (Some (FillView r))
              (omap (λ id, (FillView ∘ record) <$> PlayerById s' id) (set_iter visible)) tok)
           :: addressed s' visible
                (λ _ q, [(connection_id q, kPlayerEnter, PlayerEnter (Some (FillView r)))]))))
  | (false, _) =>
      admit_player c account tok r (e, t)
      = FailLogin c account "player position is outside the world" (e, t)
  end.
Proof.
  intros Hs Hoff s.
  destruct (AddPlayer _ _ _) as [added w'] eqn:Hadd.
  destruct added; unfold admit_player; erewrite bind_run by reflexivity; cbn [fst]; fold s;
    change {| pos_x := position_x r; pos_y := position_y r |} with (record_position r);
    rewrite Hadd; erewrite bind_run by reflexivity; cbn [negb].
  - do 4 (erewrite bind_run by reflexivity). erewrite bind_run by reflexivity. cbn [fst].
    destruct (VisiblePlayers_Some w' (player_id r)) as (v & Hv & _).
    { pose proof (AddPlayer_inv (world_ s) (player_id r) (record_position r) (gi_world s Hs)) as Hw.
      by rewrite Hadd in Hw. }
    { apply AddPlayer_true in Hadd as (_ & i & _ & ->). cbn. rewrite lookup_insert_eq. by eexists. }
    erewrite bind_run by (unfold lift_outcome; cbn [service with_service world_]; cbn; rewrite Hv; reflexivity).
    unfold view. rewrite Hv. cbn [default from_option].
    unfold emplace. cbn. unfold s in *. rewrite Hoff.
    rewrite Send_seq. apply notify_players_sends.
  - apply AddPlayer_false in Hadd as [-> _]. by destruct e as [[] ? ?].
Qed.

Lemma FinishLogin_run c r tok allow e t :
  tr_IsConnected t c = true → is_Some (pending_connections_ (service e) !! c) →
  FinishLogin c r tok allow (e, t) =
  match online_players_ (service e) !! player_id r with
  | Some existing =>
      if allow then (Disconnect (connection_id existing) ;;
                     admit_player c (account r) tok (record existing)) (e, t)
      else FailLogin c (account r) "player is already online" (e, t)
  | None => admit_player c (account r) tok r (e, t)
  end.
Proof.
  intros Hconn [a Ha].
  assert (login_abandoned (D := D) (C := C) c (e, t) = (Returns false, (e, t))) as Hab.
  { unfold login_abandoned. erewrite bind_run by reflexivity. cbn [snd]. rewrite Hconn.
    erewrite bind_run by reflexivity. cbn [fst]. by rewrite Ha. }
  unfold FinishLogin. erewrite bind_run by (exact Hab). cbv beta iota.
  erewrite bind_run by reflexivity. cbn [fst].
  destruct (online_players_ _ !! _); [by destruct allow|done].
Qed.
End runs.

Lemma decide_difference {X} (q : Z) (A B : gset Z) (x y : X) :
  (if decide (q ∈ A ∖ B) then x else y) =
  if decide (q ∈ A) then if decide (q ∈ B) then y else x else y.
Proof. destruct (decide (q ∈ A ∖ B)), (decide (q ∈ A)), (decide (q ∈ B)); done || set_solver. Qed.

Lemma decide_intersection {X} (q : Z) (A B : gset Z) (x y : X) :
  (if decide (q ∈ A ∩ B) then x else y) =
  if decide (q ∈ A) then if decide (q ∈ B) then x else y else y.
Proof. destruct (decide (q ∈ A ∩ B)), (decide (q ∈ A)), (decide (q ∈ B)); done || set_solver. Qed.

(** ** Properties *)

(** C28: A chat message of a logged-in player, not empty and within the limit, is
    broadcast with its sender's id and name to every logged-in connection exactly
    once, and every other chat frame is ignored; the service does not change. *)
Theorem chat_reaches_everyone `{GameTransport T}
    `{DataService D PlayerCallback SessionCallback OperationCallback} `{SystemClock C}
    `{Platform} `{Protobuf} c frame (e : Env D C) (t : T) :
  GameInv (service e) →
  ∃ l, HandleChat c frame (e, t) = (Returns tt, (e, send_all t l)) ∧
  match PlayerForConnection (service e) c, ParseProtobufPayload frame kChatRequest ChatRequest_ with
  | Some (_, sender), Some (ChatRequest text) =>
      if decide (text ≠ EmptyString ∧ str_size text <= maximum_chat_bytes (game_config_ (service e)))
      then (λ m, m.1.1) <$> l ≡ₚ elements (dom (connection_players_ (service e))) ∧
           ∀ m, m ∈ l → m.1.2 = kChatBroadcast ∧
             m.2 = ChatBroadcast (player_id (record sender)) (nickname (record sender)) text
      else l = []
  | _, _ => l = []
  end.
Proof.
  intros Hs. unfold HandleChat. erewrite bind_run by reflexivity. cbn [fst].
  destruct (PlayerForConnection _ _) as [[p sender]|]; [|by exists []].
  destruct (ParseProtobufPayload _ _ _) as [[]|]; try by exists [].
  case_decide as Htext.
  - destruct Htext as [Hne Hle]. unfold str_empty. rewrite bool_decide_false by done.
    rewrite (proj2 (Z.ltb_ge _ _)) by done. cbn [orb].
    eexists ((λ '(_, q), (connection_id q, kChatBroadcast, _)) <$> map_to_list (online_players_ (service e))).
    split.
    { apply for_each_sends. intros [q o] t'. apply Send_run. }
    split.
    + rewrite <- list_fmap_compose. apply NoDup_Permutation.
      * apply NoDup_fmap_2_strong; [|apply NoDup_map_to_list].
        intros [q o] [q' o'] Ho%elem_of_map_to_list Ho'%elem_of_map_to_list E. cbn in E.
        assert (q = q') as <- by (by eapply connection_ids_inj). congruence.
      * apply NoDup_elements.
      * intros x. rewrite list_elem_of_fmap, elem_of_elements, elem_of_dom. split.
        -- intros ([q o] & -> & Ho%elem_of_map_to_list). apply (gi_online _ Hs) in Ho as [_ Ho].
           cbn. by eexists.
        -- intros [q (o & Ho & <-)%(gi_connection _ Hs)]. exists (q, o).
           by rewrite elem_of_map_to_list.
    + intros m ([q o] & -> & _)%list_elem_of_fmap. done.
  - exists []. split; [|done]. destruct (_ || _) eqn:E; [done|]. exfalso. apply Htext.
    apply orb_false_iff in E as [E1%bool_decide_eq_false E2%Z.ltb_ge]. done.
Qed.

(** C8: A move follows the AOI rules: a position with no cell is ignored;
    otherwise the mover's record and world position become the new one, every
    other online player gets exactly one message, by whether it saw the mover
    before and sees it after (move, enter, leave or none), and the mover gets an
    enter for each player it now sees, then a leave for each it no longer sees. *)
Theorem move_follows_aoi_rules `{GameTransport T}
    `{DataService D PlayerCallback SessionCallback OperationCallback} `{SystemClock C}
    `{Platform} `{Protobuf} c frame (e : Env D C) (t : T) p o pos :
  GameInv (service e) → PlayerForConnection (service e) c = Some (p, o) →
  ParseProtobufPayload frame kMoveRequest MoveRequest_ = Some (MoveRequest (Some pos)) →
  let s := service e in
  let np := {| pos_x := pb_x pos; pos_y := pb_y pos |} in
  match GridIndexFor (world_ s) np with
  | None => HandleMove c frame (e, t) = (Returns tt, (e, t))
  | Some i => ∃ s' l,
      HandleMove c frame (e, t) = (Returns tt, (with_service s' e, send_all t l)) ∧
      online_players_ s' = <[p := with_position o np]> (online_players_ s) ∧
      players_ (world_ s') = <[p := {| position := np; grid_index := i |}]> (players_ (world_ s)) ∧
      (∀ q oq, online_players_ s !! q = Some oq → q ≠ p →
         to_connection (connection_id oq) l =
         match decide (q ∈ view (world_ s) p), decide (q ∈ view (world_ s') p) with
         | left _, left _ => [(connection_id oq, kPlayerMove, PlayerMove p (Some pos))]
         | left _, right _ => [(connection_id oq, kPlayerLeave, PlayerLeave p)]
         | right _, left _ =>
             [(connection_id oq, kPlayerEnter, PlayerEnter (Some (FillView (record (with_position o np)))))]
         | right _, right _ => []
         end) ∧
      to_connection c l =
        omap (λ q, (λ oq, (c, kPlayerEnter, PlayerEnter (Some (FillView (record oq)))))
                     <$> online_players_ s !! q)
             (set_iter (view (world_ s') p ∖ view (world_ s) p))
        ++ ((λ q, (c, kPlayerLeave, PlayerLeave q))
             <$> set_iter (view (world_ s) p ∖ view (world_ s') p))
  end.
Proof.
  intros Hs Hc Hparse s np. pose proof (HandleMove_run c frame e t p o pos Hs Hc Hparse) as Hrun.
  cbv zeta in Hrun. fold s np in Hrun. fold s in Hs, Hc.
  pose proof Hc as [Hcp Ho]%PlayerForConnection_Some. destruct (gi_online s Hs _ _ Ho) as [Hid Hco].
  assert (connection_id o = c) as Hoc by (destruct (gi_connection s Hs _ _ Hcp) as (o' & ? & ?); congruence).
  destruct (proj2 (GameInv_players s p Hs) (mk_is_Some _ _ Ho)) as [st Hst]. rewrite Hst in Hrun.
  destruct (GridIndexFor (world_ s) np) as [i|] eqn:Hi; [|exact Hrun].
  set (w' := moved (world_ s) p st np i) in *. set (mover := with_position o np) in *.
  set (s' := set_online (<[p := mover]> (online_players_ s)) (set_world w' s)) in *.
  match type of Hrun with _ = (_, (_, send_all _ (move_messages _ _ _ ?d))) => set (delta := d) in * end.
  assert (GameInv s') as Hs'.
  { eapply GameInv_move with (s := s) (key := p) (o := o) (pos := np) (r := delta); try done.
    rewrite Hid, MovePlayer_result, Hst, Hi by apply Hs. done. }
  assert (view (world_ s) p ## {[p]} ∧ view w' p ## {[p]}) as [Hv Hv'].
  { unfold view, VisiblePlayers. split; case_match; set_solver. }
  assert (online_players_ s' !! p = Some mover) as Hm by apply lookup_insert_eq.
  assert (player_id (record mover) = p) as Hmid by done.
  assert (connection_id mover = c) as Hmc by done.
  assert (∀ q, q ∈ view (world_ s) p → is_Some (online_players_ s !! q)) as Hon.
  { intros q. unfold view. destruct (VisiblePlayers_Some (world_ s) p) as (v & -> & Hsees); [apply Hs|by eexists|].
    intros (_ & _ & j & _ & Hj & _)%Hsees. apply GameInv_players; [done|]. unfold cell_of in Hj.
    by apply fmap_is_Some in Hj || (destruct (players_ (world_ s) !! q); [by eexists|done]). }
  exists s', (move_messages s' c mover delta). split; [exact Hrun|]. split; [done|].
  split; [apply moved_fields|]. split.
  - intros q oq Hq Hne. rewrite (move_messages_other s' c mover delta q oq); try done.
    2: by rewrite Hmid.
    2: { unfold s'. cbn [online_players_ set_online]. by rewrite lookup_insert_ne. }
    2: by rewrite Hmid.
    unfold delta. cbn [stayed entered left_]. change (world_ s') with w'.
    rewrite !decide_difference, decide_intersection, !Hmid.
    destruct (decide (q ∈ view (world_ s) p)), (decide (q ∈ view w' p)); by destruct pos.
  - rewrite move_messages_mover; try done; rewrite ?Hmid; try done; unfold delta; cbn [stayed entered left_]; try set_solver.
    + change (world_ s') with w'. f_equal.
      assert (∀ q, q ∈ set_iter (view w' p ∖ view (world_ s) p) → q ≠ p) as Hne.
      { intros q Hq%elem_of_set_iter ->. set_solver. }
      induction (set_iter _) as [|q l IH]; [done|]. cbn [omap list_omap].
      rewrite IH by (intros; apply Hne; set_solver). cbn [online_players_ s' set_online].
      rewrite lookup_insert_ne; [done|]. apply not_eq_sym, Hne. set_solver.
    + intros q Hq. cbn. destruct (decide (q = p)) as [->|Hne]; [rewrite lookup_insert_eq; by eexists|].
      rewrite lookup_insert_ne by done. apply Hon. set_solver.
Qed.

(** C25: A disconnection of a logged-in connection removes its player from the
    online table, the connection table and the world, submits its current record
    (the last accepted position) for saving, and tells exactly the players that
    saw it, once each, that it left. *)
Theorem disconnect_removes_and_saves `{GameTransport T}
    `{DataService D PlayerCallback SessionCallback OperationCallback} `{SystemClock C}
    `{Platform} (e : Env D C) (t : T) c p o :
  GameInv (service e) → PlayerForConnection (service e) c = Some (p, o) →
  let s := service e in
  ∃ s' l,
    OnDisconnected c (e, t) =
      (Returns tt,
       ({| service := s';
           data_service := (ds_SavePlayer (data_service e) (record o) OnDisconnectSaved).2;
           clock := clock e |}, send_all t l)) ∧
    online_players_ s' = delete p (online_players_ s) ∧
    connection_players_ s' = delete c (connection_players_ s) ∧
    pending_connections_ s' = delete c (pending_connections_ s) ∧
    world_ s' = (RemovePlayer (world_ s) p).2 ∧
    position <$> players_ (world_ s) !! p = Some (record_position (record o)) ∧
    to_connection c l = [] ∧
    ∀ q oq, online_players_ s !! q = Some oq → q ≠ p →
      to_connection (connection_id oq) l =
      if decide (q ∈ view (world_ s) p) then [(connection_id oq, kPlayerLeave, PlayerLeave p)] else [].
Proof.
  intros Hs Hc s. destruct (OnDisconnected_run c e t Hs) as (v & Hv & E). rewrite Hc in E.
  pose proof Hc as [Hcp Ho]%PlayerForConnection_Some. fold s in Hs, Hc, Hv, E, Hcp, Ho.
  pose proof (GameInv_disconnected c s Hs) as Hs'.
  assert (online_players_ (disconnected c s) = delete p (online_players_ s) ∧
          connection_players_ (disconnected c s) = delete c (connection_players_ s) ∧
          pending_connections_ (disconnected c s) = delete c (pending_connections_ s) ∧
          world_ (disconnected c s) = (RemovePlayer (world_ s) p).2) as (E1 & E2 & E3 & E4).
  { unfold disconnected. rewrite PlayerForConnection_drop_pending, Hc.
    destruct (drop_pending_fields c s) as (F1 & F2 & F3 & F4). cbn. by rewrite F1, F2, F3, F4. }
  exists (disconnected c s), (addressed (disconnected c s) v
    (λ _ q, [(connection_id q, kPlayerLeave, PlayerLeave p)])).
  split; [exact E|]. split; [done|]. split; [done|]. split; [done|]. split; [done|].
  split; [by rewrite (gi_position s Hs), Ho|]. split.
  - apply to_connection_addressed_none. intros q oq Hq _. rewrite to_connection_ne; [done|].
    rewrite E1 in Hq. apply lookup_delete_Some in Hq as [Hne Hq]. intros Hoq.
    destruct (gi_online s Hs _ _ Hq) as [_ Hq']. rewrite Hoq in Hq'. congruence.
  - intros q oq Hq Hne. rewrite (to_connection_notified _ _ _ _ q oq); [|done|by rewrite E1, lookup_delete_ne].
    unfold view. by rewrite (Hv p o Hc).
Qed.

(** C9: The admission of a player that is not online: with its record's position in
    the world, the player is entered in all tables and the world under its
    connection, the login is no longer pending, the connection gets exactly one
    successful response with the player, the players it sees and the session token,
    and each player it sees gets one enter message; a position outside the world is
    answered with a failed response and leaves only the login dropped. *)
Theorem login_admits_player `{GameTransport T}
    `{DataService D PlayerCallback SessionCallback OperationCallback} `{SystemClock C}
    `{Platform} `{Protobuf} (e : Env D C) (t : T) c r tok allow :
  GameInv (service e) → tr_IsConnected t c = true →
  is_Some (pending_connections_ (service e) !! c) →
  online_players_ (service e) !! player_id r = None →
  let s := service e in
  let id := player_id r in
  match GridIndexFor (world_ s) (record_position r) with
  | Some i => ∃ s' l,
      FinishLogin c r tok allow (e, t) = (Returns tt, (with_service s' e, send_all t l)) ∧
      online_players_ s' =
        <[id := {| record := r; connection_id := c; session_token := tok |}]> (online_players_ s) ∧
      connection_players_ s' = <[c := id]> (connection_players_ s) ∧
      players_ (world_ s') = <[id := {| position := record_position r; grid_index := i |}]> (players_ (world_ s)) ∧
      pending_connections_ s' = delete c (pending_connections_ s) ∧
      pending_accounts_ s' = pending_accounts_ s ∖ {[account r]} ∧
      to_connection c l =
        [(c, kLoginResponse, LoginResponse true EmptyString (Some (FillView r))
            (omap (λ q, (FillView ∘ record) <$> online_players_ s !! q) (set_iter (view (world_ s') id))) tok)] ∧
      ∀ q oq, online_players_ s !! q = Some oq →
        to_connection (connection_id oq) l =
        if decide (q ∈ view (world_ s') id)
        then [(connection_id oq, kPlayerEnter, PlayerEnter (Some (FillView r)))] else []
  | None =>
      FinishLogin c r tok allow (e, t)
      = (Returns tt, (with_service (fail_pending c (account r) s) e, send_all t
          [(c, kLoginResponse, failed_login_response "player position is outside the world")]))
  end.
Proof.
  intros Hs Hconn Hpend Hoff s id. rewrite FinishLogin_run, Hoff by done.
  pose proof (admit_player_run c (account r) tok r e t Hs Hoff) as Hrun.
  cbv zeta in Hrun. fold s id in Hs, Hrun, Hoff.
  assert (players_ (world_ s) !! id = None) as Hp.
  { apply eq_None_not_Some. rewrite GameInv_players by done. rewrite Hoff. by intros []. }
  destruct (AddPlayer (world_ s) id (record_position r)) as [[] w'] eqn:Hadd.
  2: { apply AddPlayer_false in Hadd as [_ [[? ?]| ->]]; [congruence|]. by rewrite Hrun, FailLogin_run, Hconn. }
  pose proof Hadd as (_ & i & -> & Hw')%AddPlayer_true.
  match type of Hrun with _ = (_, (with_service ?s1 _, send_all _ ?l)) => exists s1, l; set (s' := s1) in * end.
  assert (players_ w' = <[id := {| position := record_position r; grid_index := i |}]>
            (players_ (world_ s))) as Hpl by (by rewrite Hw').
  assert (GameInv s') as Hs'.
  { eapply GameInv_admit with (s := s) (c := c); try done; [by apply (gi_pending s Hs)|].
    intros c'. unfold s'. cbn. intros [a [Hne Ha]%lookup_delete_Some]. split; [done|by eexists]. }
  assert (online_players_ s' !! id = Some {| record := r; connection_id := c; session_token := tok |}) as Hme
    by apply lookup_insert_eq.
  assert (id ∉ view w' id) as Hself.
  { unfold view, VisiblePlayers. rewrite Hpl, lookup_insert_eq. cbn. set_solver. }
  split; [exact Hrun|]. do 5 (split; [done|]). change (world_ s') with w'. split.
  - rewrite to_connection_eq. f_equal.
    + do 2 f_equal. assert (∀ q, q ∈ set_iter (view w' id) → q ≠ id) as Hne.
      { intros q Hq%elem_of_set_iter ->. done. }
      clear Hrun. induction (set_iter _) as [|q l IH]; [done|]. cbn [omap list_omap].
      rewrite IH by (intros; apply Hne; set_solver). unfold PlayerById. unfold s'. cbn.
      rewrite lookup_insert_ne; [done|]. apply not_eq_sym, Hne. set_solver.
    + rewrite (to_connection_notified s' (view w' id) kPlayerEnter _ id _ Hs' Hme).
      by rewrite decide_False.
  - intros q oq Hq. assert (q ≠ id) as Hne by (intros ->; congruence).
    assert (online_players_ s' !! q = Some oq) as Hq' by (unfold s'; cbn; by rewrite lookup_insert_ne).
    rewrite to_connection_ne; [by apply to_connection_notified|].
    intros ->. apply Hne. by eapply (connection_ids_inj s').
Qed.

(** ** Witnesses *)

Lemma new_service_inv : GameInv new_service.
Proof. split; try done. apply default_world_inv. Qed.

Lemma handle_inv c frame s : GameInv (service s.1.1) → GameInv (service (handle c frame s).1.1).
Proof. intros Hs. by apply keeps_run; [apply HandleFrame_keeps|..]. Qed.

Lemma handle_env_inv c frame e t (st : Stores) :
  GameInv (service e) → GameInv (service (handle c frame ((e, t), st)).1.1).
Proof. intros Hs. by apply handle_inv. Qed.

Lemma serve_inv s : GameInv (service s.1.1) → GameInv (service (serve s).1.1).
Proof.
  destruct s as [[e t] stores]. unfold serve.
  destruct (WorkerLoop_locked (data_service e)) as [[| |task|] pool]; try done.
  destruct (run_task 0 task stores) as [k st]. intros Hs. cbn.
  by apply (keeps_run (T := recording) _ ({| service := service e; data_service := pool; clock := clock e |}, t));
    [apply run_completion_keeps|..].
Qed.

Lemma ada_and_bob_inv : GameInv (service ada_and_bob.1.1).
Proof. unfold ada_and_bob. cbn [Nat.iter nat_rect]. do 6 apply serve_inv. do 2 apply handle_inv. apply new_service_inv. Qed.

Definition nobody : OnlinePlayer :=
  {| record := {| player_id := 0; account := EmptyString; nickname := EmptyString; position_x := dzero;
       position_y := dzero; position_z := dzero; last_login_unix := 0 |};
     connection_id := 0; session_token := EmptyString |}.

(** The player of connection 1. *)
Definition ada : OnlinePlayer :=
  default nobody (online_players_ (service ada_and_bob.1.1) !! ada_id).

Lemma ada_online : PlayerForConnection (service ada_and_bob.1.1) 1 = Some (ada_id, ada).
Proof. vm_compute. reflexivity. Qed.

(** Connection 3 asks to log in while "ada" and "bob" are online. *)
Abbreviation third_asks :=
  (handle 3 login_Ada ((ada_and_bob.1.1, {| open_ := {[1; 2; 3]}; sent := [] |}), ada_and_bob.2)).

Lemma third_asks_inv : GameInv (service third_asks.1.1).
Proof.
  apply handle_env_inv. exact ada_and_bob_inv.
Qed.

Lemma third_pending : is_Some (pending_connections_ (service third_asks.1.1) !! 3).
Proof. exists "Ada"%string. vm_compute. reflexivity. Qed.

(** A record stored before, in the corner of the map. *)
Definition carol : PlayerRecord :=
  {| player_id := 77; account := "Ada"; nickname := "Nova-77"; position_x := double_of 10;
     position_y := double_of 10; position_z := dzero; last_login_unix := 0 |}.

Lemma chat_reaches_everyone_witness :
  ∃ l, HandleChat 1 chat_hi (ada_and_bob.1.1, ada_and_bob.1.2)
       = (Returns tt, (ada_and_bob.1.1, send_all ada_and_bob.1.2 l)) ∧
       (λ m, m.1.1) <$> l ≡ₚ elements (dom (connection_players_ (service ada_and_bob.1.1))).
Proof.
  destruct (chat_reaches_everyone 1 chat_hi ada_and_bob.1.1 ada_and_bob.1.2) as (l & E & Hl).
  - exact ada_and_bob_inv.
  - exists l. split; [exact E|]. rewrite ada_online in Hl.
    replace (ParseProtobufPayload chat_hi kChatRequest ChatRequest_) with (Some (ChatRequest "hi"))
      in Hl by (vm_compute; reflexivity).
    cbv iota beta in Hl. rewrite decide_True in Hl; [apply Hl|].
    split; [discriminate|]. vm_compute. discriminate.
Defined.

Lemma move_follows_aoi_rules_witness :
  ∃ s' l, HandleMove 1 move_corner (ada_and_bob.1.1, ada_and_bob.1.2)
          = (Returns tt, (with_service s' ada_and_bob.1.1, send_all ada_and_bob.1.2 l)).
Proof.
  pose proof (move_follows_aoi_rules 1 move_corner ada_and_bob.1.1 ada_and_bob.1.2 ada_id ada
    {| pb_x := double_of 10; pb_y := double_of 10 |} ada_and_bob_inv ada_online) as H.
  assert (ParseProtobufPayload move_corner kMoveRequest MoveRequest_
    = Some (MoveRequest (Some {| pb_x := double_of 10; pb_y := double_of 10 |}))) as Hp
    by (vm_compute; reflexivity).
  specialize (H Hp). cbv zeta in H. cbn [pb_x pb_y] in H.
  replace (GridIndexFor (world_ (service ada_and_bob.1.1))
             {| pos_x := double_of 10; pos_y := double_of 10 |}) with (Some 0) in H
    by (vm_compute; reflexivity).
  destruct H as (s' & l & E & _). exists s', l. exact E.
Defined.

Lemma disconnect_removes_and_saves_witness :
  ∃ s' l, OnDisconnected 1 (ada_and_bob.1.1, ada_and_bob.1.2)
    = (Returns tt,
       ({| service := s';
           data_service := (ds_SavePlayer (data_service ada_and_bob.1.1) (record ada) OnDisconnectSaved).2;
           clock := clock ada_and_bob.1.1 |}, send_all ada_and_bob.1.2 l)).
Proof.
  destruct (disconnect_removes_and_saves ada_and_bob.1.1 ada_and_bob.1.2 1 ada_id ada
    ada_and_bob_inv ada_online) as (s' & l & E & _).
  exists s', l. exact E.
Defined.

Lemma login_admits_player_witness :
  ∃ s' l, FinishLogin 3 carol "token" false (third_asks.1.1, third_asks.1.2)
          = (Returns tt, (with_service s' third_asks.1.1, send_all third_asks.1.2 l)).
Proof.
  assert (tr_IsConnected third_asks.1.2 3 = true) as Hc by (vm_compute; reflexivity).
  assert (online_players_ (service third_asks.1.1) !! player_id carol = None) as Ho
    by (vm_compute; reflexivity).
  pose proof (login_admits_player third_asks.1.1 third_asks.1.2 3 carol "token" false
    third_asks_inv Hc third_pending Ho) as H.
  cbv zeta in H.
  replace (GridIndexFor (world_ (service third_asks.1.1)) (record_position carol)) with (Some 0) in H
    by (vm_compute; reflexivity).
  destruct H as (s' & l & E & _). exists s', l. exact E.
Defined.
