(* ===== verification/GameLogin.v ===== *)
(** * The login protocol

    Logins as an asynchronous protocol between [GameService] and the data service:
    the transition relation [game_step] of the whole system (frames, disconnections,
    completions, and whatever the network, the workers and the clock do between
    them), its invariants, and what each part of the protocol guarantees. *)

From S2P Require Import Prelude Double FrameCodec AoiWorld DataTypes ThreadPool AsyncData.
From S2P Require Import ProtobufCodec GameTransport Mt19937 GameService GameLogic.
From S2P Require Import GameServiceInv GameNotify GameScenario.

Definition Callback : Type := PlayerCallback + SessionCallback + OperationCallback.

(** What the service relies on from the data service: the callbacks that still have
    to be answered; a request accepted adds its own, a request refused adds none. *)
Class DataServiceLaws (D : Type) `{DataService D PlayerCallback SessionCallback OperationCallback} := {
  outstanding : D → list Callback;
  load_player_adds d a k : outstanding (ds_LoadPlayer d a k).2
    = if (ds_LoadPlayer d a k).1 then outstanding d ++ [inl (inl k)] else outstanding d;
  save_player_adds d p k : outstanding (ds_SavePlayer d p k).2
    = if (ds_SavePlayer d p k).1 then outstanding d ++ [inr k] else outstanding d;
  store_session_adds d s ttl k : outstanding (ds_StoreSession d s ttl k).2
    = if (ds_StoreSession d s ttl k).1 then outstanding d ++ [inr k] else outstanding d;
  load_session_adds d p k : outstanding (ds_LoadSession d p k).2
    = if (ds_LoadSession d p k).1 then outstanding d ++ [inl (inr k)] else outstanding d
}.

(** The thread pool: the callbacks of the running and the queued tasks. *)
Definition pool_outstanding (p : BoundedThreadPool Task) : list Callback :=
  task_callback <$> (running (workers_ p) ++ tasks_ p).

Lemma TrySubmit_outstanding (p : BoundedThreadPool Task) task :
  pool_outstanding (TrySubmit p (Some task)).2 =
  if (TrySubmit p (Some task)).1 then pool_outstanding p ++ [task_callback task] else pool_outstanding p.
Proof.
  unfold TrySubmit, pool_outstanding. destruct (_ || _); [done|]. cbn.
  by rewrite app_assoc, fmap_app.
Qed.

#[export] Instance pool_data_laws : DataServiceLaws (BoundedThreadPool Task) := {
  outstanding := pool_outstanding;
  load_player_adds d a k := TrySubmit_outstanding d (LoadPlayerTask a k);
  save_player_adds d p k := TrySubmit_outstanding d (SavePlayerTask p k);
  store_session_adds d s ttl k := TrySubmit_outstanding d (StoreSessionTask s ttl k);
  load_session_adds d p k := TrySubmit_outstanding d (LoadSessionTask p k)
}.

(** The connection whose login a callback continues. *)
Definition callback_connection (k : Callback) : option Z :=
  match k with
  | inl (inl (OnPlayerLoaded c _ _)) => Some c
  | inl (inr (OnSessionLoaded c _ _ _ _)) => Some c
  | inr (OnPlayerCreated c _ _) => Some c
  | inr (OnSessionStored c _ _ _ _) => Some c
  | inr OnDisconnectSaved => None
  end.

Section protocol.
Context {T D C : Type}.
Context `{!GameTransport T} `{!DataService D PlayerCallback SessionCallback OperationCallback}.
Context `{!SystemClock C} `{!Platform} `{!Protobuf} `{!GameTransportLaws T} `{!DataServiceLaws D}.
Implicit Types e : Env D C.

Definition waiting e (c : Z) : Prop := is_Some (pending_connections_ (service e) !! c).

Definition owed (d : D) (c : Z) : Prop :=
  ∃ k, k ∈ outstanding d ∧ callback_connection k = Some c.

(** Every pending login, but the one of [except], has a request in flight whose
    callback continues it. *)
Definition covered (except : option Z) e : Prop :=
  ∀ c, waiting e c → except = Some c ∨ owed (data_service e) c.

(** ** Pending logins stay covered *)

Lemma covered_weaken c e : covered None e → covered (Some c) e.
Proof. intros He c' [?|?]%He; [done|by right]. Qed.

Lemma covered_pending except e s :
  (∀ c, is_Some (pending_connections_ s !! c) → waiting e c) →
  covered except e → covered except (with_service s e).
Proof. intros Hs He c Hc%Hs. by apply He. Qed.

Lemma covered_drop c e s :
  pending_connections_ s = delete c (pending_connections_ (service e)) →
  covered (Some c) e → covered None (with_service s e).
Proof.
  intros Hs He c' Hc'. unfold waiting in Hc'. cbn in Hc'. rewrite Hs in Hc'.
  destruct Hc' as [a [Hne Ha]%lookup_delete_Some]. destruct (He c') as [[= ->]|Ho]; [by eexists|done|].
  by right.
Qed.

Lemma owed_app d d' k c : outstanding d' = outstanding d ++ k → owed d c → owed d' c.
Proof. intros E (k' & Hk & Hc). exists k'. rewrite E. set_solver. Qed.

(** A request to the data service. *)
Definition adds (f : D → bool * D) (k : Callback) : Prop :=
  ∀ d, outstanding (f d).2 = if (f d).1 then outstanding d ++ [k] else outstanding d.

Lemma adds_load_player a k : adds (λ d, ds_LoadPlayer d a k) (inl (inl k)).
Proof. intros d. apply load_player_adds. Qed.
Lemma adds_save_player p k : adds (λ d, ds_SavePlayer d p k) (inr k).
Proof. intros d. apply save_player_adds. Qed.
Lemma adds_store_session s ttl k : adds (λ d, ds_StoreSession d s ttl k) (inr k).
Proof. intros d. apply store_session_adds. Qed.
Lemma adds_load_session p k : adds (λ d, ds_LoadSession d p k) (inl (inr k)).
Proof. intros d. apply load_session_adds. Qed.

Lemma adds_owed f k d c : adds f k → owed d c → owed (f d).2 c.
Proof.
  intros Hf. destruct (f d).1 eqn:E; specialize (Hf d); rewrite E in Hf.
  - by apply (owed_app d _ [k]).
  - apply (owed_app d _ []). by rewrite app_nil_r.
Qed.

(** A call settles the login of [c]: if all the others are covered before it, all
    are after it. *)
Definition settles {A} (c : Z) (m : M (World T D C) A) : Prop :=
  ∀ e, GameInv (service e) → covered (Some c) e → twp m (λ _, covered None) e.

Lemma FailLogin_settles c account error : settles c (FailLogin c account error).
Proof.
  intros e _ He. apply twp_FailLogin. eapply covered_drop; [|exact He]. unfold fail_pending.
  destruct (drop_pending_fields c (if str_empty account then service e
    else erase_pending_account account (service e))) as (_ & _ & _ & ->). by destruct (str_empty account).
Qed.

Lemma abandon_settles c account : settles c (abandon c account).
Proof. intros e _ He. apply twp_abandon. by eapply covered_drop. Qed.

Lemma request_settles f k c account error :
  adds f k → callback_connection k = Some c →
  settles c (accepted ← call_data f;
             if accepted : bool then mret tt else FailLogin c account error).
Proof.
  intros Hf Hk e Hs He. steps. pose proof (Hf (data_service e)) as Hd.
  destruct (f (data_service e)).1.
  - apply twp_ret. intros c' Hc'. right. cbn. destruct (He c' Hc') as [[= <-]|Ho].
    + exists k. split; [|done]. rewrite Hd. set_solver.
    + by apply (owed_app (data_service e) _ [k]).
  - apply FailLogin_settles; [done|]. intros c' Hc'. destruct (He c' Hc') as [?|Ho]; [by left|].
    right. cbn. apply (owed_app (data_service e) _ []); [by rewrite app_nil_r|done].
Qed.

Lemma unless_abandoned_settles c account m :
  settles c m →
  settles c (abandoned ← login_abandoned c; if abandoned : bool then abandon c account else m).
Proof. intros Hm e Hs He. apply twp_bind, twp_login_abandoned; [by apply abandon_settles|]. intros _. by apply Hm. Qed.

Lemma StoreSessionAndFinish_settles c player allow : settles c (StoreSessionAndFinish c player allow).
Proof.
  apply unless_abandoned_settles. intros e Hs He. steps.
  destruct (_ && _); [by apply FailLogin_settles|].
  apply twp_bind, twp_NewSessionToken. intros tok r.
  eapply request_settles; [apply adds_store_session|done|by apply GameInv_set_random|done].
Qed.

Lemma ContinueLogin_settles c player requested created : settles c (ContinueLogin c player requested created).
Proof.
  apply unless_abandoned_settles. intros e Hs He. apply twp_bind, twp_read_clock. intros now ck.
  destruct (str_empty _); [by apply StoreSessionAndFinish_settles|].
  eapply request_settles; [apply adds_load_session|done..].
Qed.

Lemma run_player_callback_settles c account requested result :
  settles c (run_player_callback (OnPlayerLoaded c account requested) result).
Proof.
  apply unless_abandoned_settles. intros e Hs He. destruct (result_Ok result) eqn:Eok.
  - apply result_Ok_value in Eok as [v Hv]. apply twp_bind.
    eapply twp_lift_outcome; [by rewrite Hv|]. by apply ContinueLogin_settles.
  - destruct (negb _); [by apply FailLogin_settles|].
    apply twp_bind, twp_NewPlayer. intros r g n ck _.
    destruct (negb _); [apply FailLogin_settles|eapply request_settles; [apply adds_save_player|done|..]];
      done || by apply GameInv_set_random, GameInv_set_player_sequence.
Qed.

(** [OnDisconnected] only drops a pending connection and adds a request. *)
Lemma disconnected_pending c s :
  pending_connections_ (disconnected c s) = delete c (pending_connections_ s).
Proof.
  destruct (drop_pending_fields c s) as (_ & _ & _ & <-).
  unfold disconnected. by destruct (PlayerForConnection _ _) as [[]|].
Qed.

Lemma disconnected_covered except c e : covered except e → covered except (disconnected_env c e).
Proof.
  intros He c' Hc'. unfold waiting in Hc'. cbn in Hc'. rewrite disconnected_pending in Hc'.
  destruct Hc' as [a [_ Ha]%lookup_delete_Some].
  destruct (He c') as [?|Ho]; [by eexists|by left|right]. cbn.
  destruct (PlayerForConnection _ _) as [[p o]|]; [|done].
  apply adds_owed with (f := λ d, ds_SavePlayer d (record o) OnDisconnectSaved)
    (k := inr OnDisconnectSaved); [apply adds_save_player|done].
Qed.

Lemma Disconnect_covered except c e :
  GameInv (service e) → covered except e → twp (T := T) (Disconnect c) (λ _, covered except) e.
Proof. intros Hs He. apply twp_Disconnect; [done..|]. by apply disconnected_covered. Qed.

Lemma twp_and {A} (m : M (World T D C) A) (Q1 Q2 : A → Env D C → Prop) e :
  twp m Q1 e → twp m Q2 e → twp m (λ a e', Q1 a e' ∧ Q2 a e') e.
Proof.
  intros H1 H2 t Ht. specialize (H1 t Ht). specialize (H2 t Ht). unfold wp in *.
  destruct (m (e, t)) as [[a|x] w]; naive_solver.
Qed.

Lemma FinishLogin_settles c player tok allow : settles c (FinishLogin c player tok allow).
Proof.
  intros e Hs He. unfold FinishLogin.
  apply twp_bind, twp_login_abandoned; [by apply abandon_settles|]. intros Hpend%(gi_pending _ Hs). steps.
  destruct (online_players_ _ !! _) as [o|].
  - destruct (negb allow); [by apply FailLogin_settles|]. apply twp_bind.
    eapply twp_wand; [apply (twp_and _
      (λ _ e', GameInv (service e') ∧ connection_players_ (service e') !! c = None)
      (λ _, covered (Some c))); [|by apply Disconnect_covered]|].
    + apply twp_Disconnect; [done..|].
      split; [by apply GameInv_disconnected|by apply disconnected_connections].
    + intros [] e' [[Hs' Hc] He']. apply twp_admit_player; [done..|]. intros s _ Ep _.
      by eapply covered_drop.
  - apply twp_admit_player; [done..|]. intros s _ Ep _. by eapply covered_drop.
Qed.

(** Running the callback of [k] settles the login [k] continues, and only that. *)
Lemma run_completion_settles k e :
  GameInv (service e) → covered (callback_connection (completion_callback k)) e →
  twp (T := T) (run_completion k) (λ _, covered None) e.
Proof.
  intros Hs He. destruct k as [[c a r] res|[c a p r n] res|k res]; cbn in He |- *.
  - by apply (run_player_callback_settles c).
  - unfold run_session_callback.
    destruct (_ || _); [by apply FailLogin_settles|by apply StoreSessionAndFinish_settles].
  - destruct k as [c a p|c a p tk al|]; cbn in He |- *; [| |by apply twp_ret].
    + destruct (negb _); [by apply FailLogin_settles|by apply ContinueLogin_settles].
    + destruct (negb _); [by apply FailLogin_settles|by apply FinishLogin_settles].
Qed.

Lemma HandleFrame_covered c frame e :
  GameInv (service e) → covered None e → twp (T := T) (HandleFrame c frame) (λ _, covered None) e.
Proof.
  intros Hs He. unfold HandleFrame.
  destruct (message_type_of (message_id frame)) as [[]|]; try by apply Disconnect_covered.
  - unfold HandleLogin. steps.
    destruct (ParseProtobufPayload _ _ _) as [[]|]; try by apply FailLogin_settles, covered_weaken.
    destruct ((_ || _) || _) eqn:E; [by apply FailLogin_settles, covered_weaken|].
    apply orb_false_iff in E as [[_ E%bool_decide_eq_false]%orb_false_iff _].
    rewrite <- eq_None_not_Some in E.
    destruct (bool_decide _); [by apply FailLogin_settles, covered_weaken|].
    apply twp_bind, twp_update_service. apply twp_bind, twp_update_service.
    eapply request_settles; [apply adds_load_player|done|..].
    + eapply GameInv_frame; [exact Hs|done..|]. cbn. intros c'.
      destruct (decide (c = c')) as [<-|Hne]; [by right|]. rewrite lookup_insert_ne by done. by left.
    + intros c' Hc'. unfold waiting in Hc'. cbn in Hc'.
      destruct (decide (c = c')) as [<-|Hne]; [by left|]. rewrite lookup_insert_ne in Hc' by done.
      apply He in Hc' as [?|?]; [done|by right].
  - unfold HandleChat. steps.
    destruct (PlayerForConnection _ _) as [[p o]|]; [|by apply twp_ret].
    destruct (ParseProtobufPayload _ _ _) as [[]|]; try by apply twp_ret.
    destruct (_ || _); [by apply twp_ret|].
    apply twp_for_each with (I := covered None); [done|]. intros [] e' _ He'. by steps.
  - unfold HandleMove. steps.
    destruct (PlayerForConnection _ _) as [[p o]|] eqn:E; [|by apply twp_ret].
    destruct (ParseProtobufPayload _ _ _) as [[| | |[pos|]| | | | | |]|]; try by apply twp_ret.
    rewrite MovePlayer_result by apply Hs.
    destruct (players_ _ !! _) as [st|]; [destruct (GridIndexFor _ _) as [i|]|];
      (apply twp_bind; eapply twp_lift_outcome; [done|]; cbv beta iota; steps);
      try (apply twp_for_players; [intros; by steps|]; apply twp_for_players; [intros; by steps|]);
      by apply covered_pending with (e := e).
  - unfold HandleHeartbeat. destruct (ParseProtobufPayload _ _ _); by steps.
Qed.

(** ** The system *)

(** One event of the loop, or anything the network, the workers and the clock do.
    A completion is taken from the data service, which then no longer owes it. *)
Inductive game_step : World T D C → World T D C → Prop :=
| step_frame c frame w w' : HandleFrame c frame w = (Returns tt, w') → game_step w w'
| step_disconnect c w w' : Disconnect c w = (Returns tt, w') → game_step w w'
| step_completion k d e t w' :
    (∀ c, owed (data_service e) c → callback_connection (completion_callback k) = Some c ∨ owed d c) →
    run_completion k (with_data d e, t) = (Returns tt, w') → game_step (e, t) w'
| step_environment d ck e t t' :
    tr_ok t' → (∀ c, owed (data_service e) c → owed d c) →
    game_step (e, t) ({| service := service e; data_service := d; clock := ck |}, t').

Lemma twp_elim {A} (m : M (World T D C) A) Q e t a w :
  twp m Q e → tr_ok t → m (e, t) = (Returns a, w) → Q a w.1 ∧ tr_ok w.2.
Proof. intros Hm Ht E. specialize (Hm t Ht). unfold wp in Hm. by rewrite E in Hm. Qed.

Lemma twp_returns {A} (m : M (World T D C) A) Q e t :
  twp m Q e → tr_ok t → ∃ a w, m (e, t) = (Returns a, w).
Proof.
  intros Hm Ht. specialize (Hm t Ht). unfold wp in Hm.
  destruct (m (e, t)) as [[a|x] w]; [by eexists _, _|done].
Qed.

(** The system's invariant: tables, pending logins and transport. *)
Definition SystemInv (w : World T D C) : Prop :=
  (GameInv (service w.1) ∧ covered None w.1) ∧ tr_ok w.2.

Lemma game_step_inv w w' : SystemInv w → game_step w w' → SystemInv w'.
Proof.
  intros [[Hs He] Ht] Hstep.
  destruct Hstep as [c f [e t] w' E|c [e t] w' E|k d e t w' Hd E|d ck e t t' Ht' Hd]; cbn in *.
  - refine (twp_elim _ _ _ _ _ _ (twp_and _ _ _ _ _ _) Ht E);
      [by apply HandleFrame_keeps|by apply HandleFrame_covered].
  - refine (twp_elim _ _ _ _ _ _ (twp_and _ _ _ _ _ _) Ht E);
      [by apply Disconnect_keeps|by apply Disconnect_covered].
  - refine (twp_elim _ _ _ _ _ _ (twp_and _ _ _ _ _ _) Ht E);
      [by apply run_completion_keeps|apply run_completion_settles; [done|]].
    intros c Hc. destruct (He c Hc) as [?|Ho]; [done|]. by apply Hd.
  - split; [|done]. split; [done|]. intros c Hc. right. destruct (He c Hc) as [?|Ho]; [done|]. by apply Hd.
Qed.

Lemma game_reachable_inv w w' : SystemInv w → rtc game_step w w' → SystemInv w'.
Proof. intros Hs Hr. induction Hr; eauto using game_step_inv. Qed.

Lemma GameService_new_inv config seed s d ck :
  ConfigOk (aoi config) → GameService_new config seed = Returns s →
  GameInv s ∧ covered None {| service := s; data_service := d; clock := ck |}.
Proof.
  intros Hok. unfold GameService_new. destruct (AoiWorld_new (aoi config)) as [w|] eqn:E; [|done].
  intros [= <-]. split; [|by intros c [? ?]].
  destruct (AoiWorld_new_inv _ _ Hok E) as [Hw Hp].
  split; cbn; try done. intros p. by rewrite Hp.
Qed.

Lemma handlers_return w :
  GameInv (service w.1) → tr_ok w.2 →
  (∀ c frame, ∃ w', HandleFrame c frame w = (Returns tt, w')) ∧
  (∀ c, ∃ w', Disconnect c w = (Returns tt, w')) ∧
  (∀ k, ∃ w', run_completion k w = (Returns tt, w')).
Proof.
  destruct w as [e t]. intros Hs Ht. split; [|split].
  - intros c frame. destruct (twp_returns _ _ e t (HandleFrame_keeps c frame e Hs) Ht) as ([] & w' & E).
    by exists w'.
  - intros c. destruct (twp_returns _ _ e t (Disconnect_keeps c e Hs) Ht) as ([] & w' & E). by exists w'.
  - intros k. destruct (twp_returns _ _ e t (run_completion_keeps k e Hs) Ht) as ([] & w' & E).
    by exists w'.
Qed.
End protocol.

Arguments game_step {T D C _ _ _ _ _ _ _}.

(** *** Session logins *)

Lemma fail_pending_fields c a s :
  let s' := fail_pending c a s in
  online_players_ s' = online_players_ s ∧ connection_players_ s' = connection_players_ s ∧
  world_ s' = world_ s ∧ pending_connections_ s' = delete c (pending_connections_ s).
Proof.
  unfold fail_pending.
  destruct (drop_pending_fields c (if str_empty a then s else erase_pending_account a s)) as (-> & -> & -> & ->).
  by destruct (str_empty a).
Qed.

Lemma session_refused (created : bool) (result : DataResult SessionRecord) (requested : string) :
  created = true ∨ result_Ok result = false ∨ (∀ v, value result = Some v → token v ≠ requested) →
  created || negb (result_Ok result)
    || match value result with Some v => negb (bool_decide (token v = requested)) | None => true end = true.
Proof.
  intros [->|[->|Hv]]; [done|by rewrite orb_true_r|].
  destruct (value result) as [v|]; [|by rewrite orb_true_r]. rewrite bool_decide_false by (by apply Hv).
  by rewrite orb_true_r.
Qed.

Lemma StoreSessionAndFinish_requests `{GameTransport T}
    `{DataService D PlayerCallback SessionCallback OperationCallback} `{SystemClock C}
    `{Platform} `{Protobuf} (e : Env D C) (t : T) c r :
  tr_IsConnected t c = true → is_Some (pending_connections_ (service e) !! c) →
  ∃ tok g,
    NewSessionToken (e, t) =
      (Returns tok, ({| service := set_random g (service e); data_service := data_service e; clock := clock e |}, t)) ∧
    let stored := ds_StoreSession (data_service e) {| session_player_id := player_id r; token := tok |}
                    (session_ttl (game_config_ (service e))) (OnSessionStored c (account r) r tok true) in
    let e' := {| service := set_random g (service e); data_service := stored.2; clock := clock e |} in
    StoreSessionAndFinish c r true (e, t) =
      if stored.1 then (Returns tt, (e', t)) else FailLogin c (account r) "database queue is full" (e', t).
Proof.
  intros Hconn [b Hb]. destruct e as [s d ck]. cbn [service] in Hb.
  destruct (mt_next (random_ s)) as [r1 g1] eqn:E1. destruct (mt_next g1) as [r2 g2] eqn:E2.
  assert (NewSessionToken (({| service := s; data_service := d; clock := ck |}, t) : World T D C) =
    (Returns (string_of_list_ascii (setw 16 (hex_digits 16 r1) ++ setw 16 (hex_digits 16 r2))),
     ({| service := set_random g2 s; data_service := d; clock := ck |}, t))) as Etok.
  { unfold NewSessionToken. erewrite bind_run by (unfold next_random; cbn [fst service]; rewrite E1; reflexivity).
    erewrite bind_run; [reflexivity|]. unfold next_random. cbn -[mt_next].
    change (random_ (set_random g1 s)) with g1. rewrite E2. reflexivity. }
  exists (string_of_list_ascii (setw 16 (hex_digits 16 r1) ++ setw 16 (hex_digits 16 r2))), g2. split; [exact Etok|]. cbn zeta.
  unfold StoreSessionAndFinish.
  erewrite bind_run.
  2: { unfold login_abandoned. do 2 (erewrite bind_run by reflexivity). cbn [fst snd service].
       rewrite Hconn, Hb. reflexivity. }
  cbn [negb orb]. rewrite bool_decide_false by done.
  erewrite bind_run by reflexivity. rewrite andb_false_r. cbn [negb].
  erewrite bind_run by exact Etok. unfold mbind at 1, M_bind, call_data. cbn [fst snd data_service service clock].
  destruct (ds_StoreSession _ _ _ _) as [[] d']; reflexivity.
Qed.

(** ** Properties *)

(** C2: Whatever arrives in whatever order (frames with any content, disconnections,
    completions with any result, stale or duplicated ones included, over a network,
    workers and a clock that do anything), the service never throws and its tables
    stay consistent: online players are exactly the players of the AOI world, each
    at the position of its record, online players and logged-in connections are in
    bijection, and a connection waiting for its login has no player. *)
Theorem game_service_invariant `{GameTransportLaws T} `{DataServiceLaws D} `{SystemClock C}
    `{Platform} `{Protobuf} config seed s (d : D) (ck : C) (t : T) w :
  ConfigOk (aoi config) → GameService_new config seed = Returns s → tr_ok t →
  rtc game_step ({| service := s; data_service := d; clock := ck |}, t) w →
  GameInv (service w.1) ∧
  (∀ c frame, ∃ w', HandleFrame c frame w = (Returns tt, w')) ∧
  (∀ c, ∃ w', Disconnect c w = (Returns tt, w')) ∧
  (∀ k, ∃ w', run_completion k w = (Returns tt, w')).
Proof.
  intros Hok Hnew Ht Hr. pose proof (GameService_new_inv config seed s d ck Hok Hnew) as Hs.
  apply game_reachable_inv in Hr as [[Hw _] Hw2]; [|done]. split; [done|]. by apply handlers_return.
Qed.

(** C7: No login is forgotten: in every reachable state each pending connection has
    a request in flight at the data service whose callback continues its login (so
    that, the data service answering every accepted request, every login ends in a
    response or with its connection gone). *)
Theorem pending_login_has_request `{GameTransportLaws T} `{DataServiceLaws D} `{SystemClock C}
    `{Platform} `{Protobuf} config seed s (d : D) (ck : C) (t : T) w c :
  ConfigOk (aoi config) → GameService_new config seed = Returns s → tr_ok t →
  rtc game_step ({| service := s; data_service := d; clock := ck |}, t) w →
  is_Some (pending_connections_ (service w.1) !! c) →
  ∃ k, k ∈ outstanding (data_service w.1) ∧ callback_connection k = Some c.
Proof.
  intros Hok Hnew Ht Hr Hc. pose proof (GameService_new_inv config seed s d ck Hok Hnew) as Hs.
  apply game_reachable_inv in Hr as [[_ Hw] _]; [|done]. by destruct (Hw c Hc).
Qed.

(** The last step of a login that may take over the player: it does. *)
Lemma FinishLogin_replaces `{GameTransportLaws T}
    `{DataService D PlayerCallback SessionCallback OperationCallback} `{SystemClock C}
    `{Platform} `{Protobuf} (e : Env D C) (t : T) c r tok o :
  GameInv (service e) → tr_IsConnected t c = true →
  is_Some (pending_connections_ (service e) !! c) →
  online_players_ (service e) !! player_id r = Some o →
  tr_ok t → tr_open t (connection_id o) = true →
  let s := service e in
  wp (FinishLogin c r tok true) (λ _ w, let s' := service w.1 in
    online_players_ s' =
      <[player_id r := {| record := record o; connection_id := c; session_token := tok |}]>
        (online_players_ s) ∧
    connection_players_ s' =
      <[c := player_id r]> (delete (connection_id o) (connection_players_ s)) ∧
    pending_connections_ s' !! c = None ∧
    (∀ q, position <$> players_ (world_ s') !! q = position <$> players_ (world_ s) !! q) ∧
    ∀ c', tr_open w.2 c' = tr_open t c' && negb (c' =? connection_id o)) (e, t).
Proof.
  intros Hs Hconn Hpend Ho Htok Hopen s. fold s in Hs, Ho.
  unfold wp. rewrite FinishLogin_run by done. fold s. rewrite Ho.
  destruct (gi_online s Hs _ _ Ho) as [Hid Hco].
  set (s1 := disconnected (connection_id o) s).
  assert (online_players_ s1 = delete (player_id r) (online_players_ s) ∧
          connection_players_ s1 = delete (connection_id o) (connection_players_ s) ∧
          world_ s1 = (RemovePlayer (world_ s) (player_id r)).2) as (E1 & E2 & E3).
  { unfold s1, disconnected. rewrite PlayerForConnection_drop_pending.
    rewrite (PlayerForConnection_online s _ _ Hs Ho).
    destruct (drop_pending_fields (connection_id o) s) as (F1 & F2 & F3 & _). cbn. by rewrite F1, F2, F3. }
  assert (GameInv s1) as Hs1 by (by apply GameInv_disconnected).
  assert (∃ st, players_ (world_ s) !! player_id r = Some st ∧ position st = record_position (record o))
    as (st & Hst & Hpos).
  { pose proof (gi_position s Hs (player_id r)) as Hp. rewrite Ho in Hp.
    destruct (players_ (world_ s) !! player_id r) as [st|]; [|done]. exists st. by injection Hp as ->. }
  assert (∃ w', AddPlayer (world_ s1) (player_id r) (record_position (record o)) = (true, w')) as [w' Hadd].
  { eexists. apply AddPlayer_true. rewrite E3. unfold RemovePlayer. rewrite Hst. cbn.
    split; [by rewrite lookup_delete_eq|]. exists (grid_index st). split; [|reflexivity].
    pose proof (inv_index _ (gi_world s Hs) _ _ Hst) as Hi. by rewrite Hpos in Hi. }
  apply (wp_bind (Disconnect (connection_id o))).
  eapply wp_wand; [apply (Disconnect_wp _ (λ e' : Env D C, service e' = s1)); try done|].
  { by rewrite Hopen. }
  intros [] [e1 t1] (He1 & Ht1 & Ho1). cbn in He1, Ht1, Ho1. assert (GameInv (service e1)) as Hse1 by (by rewrite He1).
  assert (online_players_ (service e1) !! player_id (record o) = None) as Hoff.
  { rewrite He1, E1, Hid. by rewrite lookup_delete_eq. }
  pose proof (admit_player_run c (account r) tok (record o) e1 t1 Hse1 Hoff) as Hrun.
  cbv zeta in Hrun. rewrite He1, Hid, Hadd in Hrun. unfold wp. rewrite Hrun. cbn -[send_all].
  rewrite E1, E2, insert_delete_eq. split; [done|]. split; [done|].
  split; [by rewrite lookup_delete_eq|]. split.
  2: { intros c'. rewrite <- Ho1. by apply same_open, send_all_law. }
  intros q. apply AddPlayer_true in Hadd as (_ & i & _ & ->). cbn.
  destruct (decide (q = player_id r)) as [->|Hne].
  - rewrite lookup_insert_eq, Hst. cbn. by rewrite Hpos.
  - rewrite lookup_insert_ne, E3 by done. unfold RemovePlayer. rewrite Hst. cbn.
    by rewrite lookup_delete_ne.
Qed.

(** C26: A login with a session token takes over a player who is online, if the session
    is that of the token and only then. With no session or another token it is refused,
    and the player stays on its connection. With the right one the new token that is drawn is stored;
    once that is done the old connection, and no other, is closed, and the same record
    at the same position is online under the new connection and token. *)
Theorem session_login_replaces_connection `{GameTransportLaws T}
    `{DataService D PlayerCallback SessionCallback OperationCallback} `{SystemClock C}
    `{Platform} `{Protobuf} (e : Env D C) (t : T) c a r requested o :
  GameInv (service e) → tr_IsConnected t c = true →
  is_Some (pending_connections_ (service e) !! c) →
  online_players_ (service e) !! player_id r = Some o →
  tr_ok t → tr_open t (connection_id o) = true →
  let s := service e in
  (∀ created result,
     (created = true ∨ result_Ok result = false ∨ ∀ v, value result = Some v → token v ≠ requested) →
     ∃ s', run_session_callback (OnSessionLoaded c a r requested created) result (e, t) =
         (Returns tt, (with_service s' e, send_all t
            [(c, kLoginResponse, failed_login_response "invalid or expired session")])) ∧
       online_players_ s' = online_players_ s ∧ connection_players_ s' = connection_players_ s ∧
       world_ s' = world_ s ∧ pending_connections_ s' = delete c (pending_connections_ s)) ∧
  (∀ result v, result_Ok result = true → value result = Some v → token v = requested →
     ∃ tok g,
       NewSessionToken (e, t) =
         (Returns tok, ({| service := set_random g s; data_service := data_service e; clock := clock e |}, t)) ∧
       let stored := ds_StoreSession (data_service e) {| session_player_id := player_id r; token := tok |}
                       (session_ttl (game_config_ s)) (OnSessionStored c (account r) r tok true) in
       let e' := {| service := set_random g s; data_service := stored.2; clock := clock e |} in
       run_session_callback (OnSessionLoaded c a r requested false) result (e, t) =
         if stored.1 then (Returns tt, (e', t)) else FailLogin c (account r) "database queue is full" (e', t)) ∧
  (∀ tok result, op_Ok result = true →
     wp (run_operation_callback (OnSessionStored c (account r) r tok true) result) (λ _ w, let s' := service w.1 in
       online_players_ s' =
         <[player_id r := {| record := record o; connection_id := c; session_token := tok |}]>
           (online_players_ s) ∧
       connection_players_ s' =
         <[c := player_id r]> (delete (connection_id o) (connection_players_ s)) ∧
       pending_connections_ s' !! c = None ∧
       (∀ q, position <$> players_ (world_ s') !! q = position <$> players_ (world_ s) !! q) ∧
       ∀ c', tr_open w.2 c' = tr_open t c' && negb (c' =? connection_id o)) (e, t)).
Proof.
  intros Hs Hconn Hpend Ho Htok Hopen s. split; [|split].
  - intros created result Hbad. eexists. split; [|by apply fail_pending_fields].
    unfold run_session_callback. rewrite session_refused by done. by rewrite FailLogin_run, Hconn.
  - intros result v Hok Hv Htk. unfold run_session_callback. rewrite Hok, Hv, bool_decide_true by done.
    cbn [orb negb]. by apply StoreSessionAndFinish_requests.
  - intros tok result Hok. cbn [run_operation_callback]. rewrite Hok. by apply FinishLogin_replaces.
Qed.

(** The load callback of a connection that has gone erases its account from the
    pending accounts even when another connection is by then logging in with that
    account: that connection's login is still pending, and the account is open to a
    further login. *)
Theorem stale_callback_unlocks_account `{GameTransport T}
    `{DataService D PlayerCallback SessionCallback OperationCallback} `{SystemClock C}
    (e : Env D C) (t : T) c c' a requested result :
  tr_IsConnected t c = false → c ≠ c' →
  pending_connections_ (service e) !! c' = Some a →
  a ∈ pending_accounts_ (service e) →
  ∃ s', run_player_callback (OnPlayerLoaded c a requested) result (e, t)
        = (Returns tt, (with_service s' e, t)) ∧
    pending_connections_ s' !! c' = Some a ∧ a ∉ pending_accounts_ s'.
Proof.
  intros Hc Hne Hp Ha. eexists. split.
  { unfold run_player_callback, login_abandoned.
    erewrite bind_run by (erewrite bind_run by reflexivity; cbn [snd]; rewrite Hc; reflexivity).
    reflexivity. }
  cbn. split; [by rewrite lookup_delete_ne|]. set_solver.
Qed.

(** Connection 1 asks for "ada" and goes; connections 2 and 3 then log in. *)
Definition stale_login : ScenarioWorld * Stores :=
  let s := (new_world {[1; 2; 3]}, empty_stores) in
  let s := handle 2 login_ada (disconnect 1 (handle 1 login_ada s)) in
  let s := handle 3 login_ada (serve s) in
  Nat.iter 6 serve s.

(** A player is online with an account on a connection. *)
Definition online_as (s : GameService) (p : Z) (a : string) (c : Z) : bool :=
  match online_players_ s !! p with
  | Some o => bool_decide (account (record o) = a) && (connection_id o =? c)
  | None => false
  end.

Lemma online_as_Some s p a c :
  online_as s p a c = true →
  ∃ o, online_players_ s !! p = Some o ∧ account (record o) = a ∧ connection_id o = c.
Proof.
  unfold online_as. destruct (online_players_ s !! p) as [o|]; [|done].
  intros [Ha%bool_decide_eq_true Hc%Z.eqb_eq]%andb_true_iff. by exists o.
Qed.

(** C36: As a consequence one account can be online twice: a disconnection during the
    load of an unregistered account, followed by two logins of it, creates two
    players with that account, both online, of which the store keeps one. *)
Theorem account_online_twice :
  ∃ p p' o o',
    p ≠ p' ∧
    online_players_ (service stale_login.1.1) !! p = Some o ∧
    online_players_ (service stale_login.1.1) !! p' = Some o' ∧
    account (record o) = "ada"%string ∧ account (record o') = "ada"%string ∧
    connection_id o = 2 ∧ connection_id o' = 3 ∧
    size (MemoryStores.players stale_login.2.1) = 1%nat.
Proof.
  destruct (online_as_Some (service stale_login.1.1) ada_id "ada" 2) as (o & Ho & Ha & Hc);
    [vm_compute; reflexivity|].
  destruct (online_as_Some (service stale_login.1.1) bob_id "ada" 3) as (o' & Ho' & Ha' & Hc');
    [vm_compute; reflexivity|].
  exists ada_id, bob_id, o, o'. split; [vm_compute; discriminate|].
  repeat (split; [assumption|]). vm_compute. reflexivity.
Qed.

(** ** Witnesses *)

(** Connection 1 has asked to log in as "ada"; connection 2 is connected. *)
Definition ada_asked : ScenarioWorld * Stores :=
  handle 1 login_ada (new_world {[1; 2]}, empty_stores).

Lemma ada_asked_step :
  game_step (new_world {[1; 2]}) ada_asked.1.
Proof. apply (step_frame 1 login_ada). vm_compute. reflexivity. Qed.

Lemma game_service_invariant_witness :
  GameInv (service ada_asked.1.1) ∧
  ∃ w', HandleFrame 2 chat_hi ada_asked.1 = (Returns tt, w').
Proof.
  destruct (game_service_invariant default_game_config 5489 new_service new_pool tt
    {| open_ := {[1; 2]}; sent := [] |} ada_asked.1) as (Hs & Hf & _).
  - apply default_config_ok.
  - apply new_service_new.
  - exact I.
  - apply rtc_once. exact ada_asked_step.
  - split; [exact Hs|]. apply Hf.
Defined.

Lemma pending_login_has_request_witness :
  ∃ k, k ∈ outstanding (data_service ada_asked.1.1) ∧ callback_connection k = Some 1.
Proof.
  apply (pending_login_has_request default_game_config 5489 new_service new_pool tt
    {| open_ := {[1; 2]}; sent := [] |} ada_asked.1 1).
  - apply default_config_ok.
  - apply new_service_new.
  - exact I.
  - apply rtc_once. exact ada_asked_step.
  - exists "ada"%string. vm_compute. reflexivity.
Defined.

Lemma stale_callback_unlocks_account_witness :
  ∃ s', run_player_callback (OnPlayerLoaded 7 "ada" EmptyString) result_NotFound
          (ada_asked.1.1, ada_asked.1.2)
        = (Returns tt, (with_service s' ada_asked.1.1, ada_asked.1.2)) ∧
    pending_connections_ s' !! 1 = Some "ada"%string ∧ ("ada"%string ∉ pending_accounts_ s').
Proof.
  refine (stale_callback_unlocks_account ada_asked.1.1 ada_asked.1.2 7 1 "ada" EmptyString
    result_NotFound _ _ _ _).
  - vm_compute. reflexivity.
  - discriminate.
  - vm_compute. reflexivity.
  - apply (bool_decide_unpack _). vm_compute. exact I.
Defined.

Lemma session_login_replaces_connection_witness :
  wp (run_operation_callback (OnSessionStored 3 (account (record ada)) (record ada) "token" true)
        op_Success)
    (λ _ w, pending_connections_ (service w.1) !! 3 = None ∧ tr_open w.2 (connection_id ada) = false)
    (third_asks.1.1, third_asks.1.2).
Proof.
  assert (tr_IsConnected third_asks.1.2 3 = true) as H1 by (vm_compute; reflexivity).
  assert (online_players_ (service third_asks.1.1) !! player_id (record ada) = Some ada) as H2
    by (vm_compute; reflexivity).
  assert (tr_open third_asks.1.2 (connection_id ada) = true) as H3 by (vm_compute; reflexivity).
  pose proof (session_login_replaces_connection third_asks.1.1 third_asks.1.2 3 "ada" (record ada) "old" ada
    third_asks_inv H1 third_pending H2 I H3) as (_ & _ & H).
  eapply wp_wand; [exact (H "token"%string op_Success eq_refl)|].
  intros a w (_ & _ & Hp & _ & Ho). split; [exact Hp|]. rewrite Ho, H3, Z.eqb_refl. reflexivity.
Defined.
