(* ===== verification/GameLockout.v ===== *)
(** * Accounts that cannot log in any more

    An account whose name is in [pending_accounts_] with no login pending for it, and no
    request in flight that would clear it ([LockedOut]), stays so whatever the service
    is sent ([served_step]) as long as no record with exactly that spelling is loaded:
    every login for it is refused. [DatabaseScenario] reaches such a state. *)

From S2P Require Import Prelude Double FrameCodec AoiWorld DataTypes ThreadPool AsyncData.
From S2P Require Import ProtobufCodec GameTransport Mt19937 GameService GameLogic.
From S2P Require Import GameServiceInv GameLogin.

(** The callback clears neither the account asked for nor one of a record as [a]. *)
Definition spares (a : string) (k : Callback) : Prop :=
  match k with
  | inl (inl (OnPlayerLoaded _ b _)) => b ≠ a
  | inl (inr (OnSessionLoaded _ b r _ _)) => b ≠ a ∧ account r ≠ a
  | inr (OnPlayerCreated _ b r) => b ≠ a ∧ account r ≠ a
  | inr (OnSessionStored _ b r _ _) => b ≠ a ∧ account r ≠ a
  | inr OnDisconnectSaved => True
  end.

(** The completion carries no record with the account [a]. *)
Definition loads_no (a : string) (k : Completion PlayerCallback SessionCallback OperationCallback) : Prop :=
  match k with
  | PlayerCompletion _ result => ∀ r, value result = Some r → account r ≠ a
  | _ => True
  end.

Section lockout.
Context {T D C : Type}.
Context `{!GameTransport T} `{!DataService D PlayerCallback SessionCallback OperationCallback}.
Context `{!SystemClock C} `{!Platform} `{!Protobuf} `{!GameTransportLaws T} `{!DataServiceLaws D}.
Context (a : string).
Implicit Types e : Env D C.

Record LockedOut e : Prop := {
  lo_pending : a ∈ pending_accounts_ (service e);
  lo_nobody c : pending_connections_ (service e) !! c ≠ Some a;
  lo_requests k : k ∈ outstanding (data_service e) → spares a k
}.

(** What the loop does: a frame, a disconnection, the completion of a request in flight
    that loads no record spelled [a], or anything the network, the workers and the
    clock do. *)
Inductive served_step : World T D C → World T D C → Prop :=
| served_frame c frame w w' : HandleFrame c frame w = (Returns tt, w') → served_step w w'
| served_disconnect c w w' : Disconnect c w = (Returns tt, w') → served_step w w'
| served_completion k d e t w' :
    completion_callback k ∈ outstanding (data_service e) → loads_no a k →
    (∀ k', k' ∈ outstanding d → k' ∈ outstanding (data_service e)) →
    run_completion k (with_data d e, t) = (Returns tt, w') → served_step (e, t) w'
| served_environment d ck e t t' :
    tr_ok t' → (∀ k, k ∈ outstanding d → k ∈ outstanding (data_service e)) →
    served_step (e, t) ({| service := service e; data_service := d; clock := ck |}, t').

(** ** Every call keeps an account locked out *)

Definition locks {A} (m : M (World T D C) A) : Prop :=
  ∀ e, GameInv (service e) → LockedOut e → twp m (λ _, LockedOut) e.

Lemma LockedOut_service e s :
  a ∈ pending_accounts_ s →
  (∀ c b, pending_connections_ s !! c = Some b → b ≠ a ∨ pending_connections_ (service e) !! c = Some b) →
  LockedOut e → LockedOut (with_service s e).
Proof.
  intros Ha Hc [_ Hn Hr]. split; [done| |done]. intros c Hca. destruct (Hc c a Hca) as [?|E]; [done|]. by apply (Hn c).
Qed.

Lemma FailLogin_locks c b error : str_empty b = true ∨ b ≠ a → locks (FailLogin c b error).
Proof.
  intros Hb e _ Hl. apply twp_FailLogin. apply LockedOut_service; [| |done].
  - destruct Hl as [Ha Hn _]. unfold fail_pending. apply drop_pending_accounts.
    + destruct (str_empty b); cbn; [done|]. destruct Hb; [done|set_solver].
    + by destruct (str_empty b).
  - intros c' b'. destruct (fail_pending_fields c b (service e)) as (_ & _ & _ & ->).
    intros [_ ?]%lookup_delete_Some. by right.
Qed.

Lemma abandon_locks c b : b ≠ a → locks (abandon c b).
Proof.
  intros Hb e _ Hl. apply twp_abandon. apply LockedOut_service; [| |done].
  - destruct Hl as [Ha _ _]. cbn. set_solver.
  - intros c' b'. cbn. intros [_ ?]%lookup_delete_Some. by right.
Qed.

Lemma LockedOut_requested e f k :
  adds f k → spares a k → LockedOut e → LockedOut (with_data (f (data_service e)).2 e).
Proof.
  intros Hf Hk [Ha Hn Hr]. split; [done|done|]. intros k' Hk'. cbn in Hk'. rewrite Hf in Hk'.
  destruct (f (data_service e)).1; [|by apply Hr]. apply elem_of_app in Hk' as [?| ->%list_elem_of_singleton]; [by apply Hr|done].
Qed.

Lemma request_locks f k c b error :
  adds f k → spares a k → b ≠ a →
  locks (accepted ← call_data f; if accepted : bool then mret tt else FailLogin c b error).
Proof.
  intros Hf Hk Hb e Hs Hl. steps. pose proof (LockedOut_requested e f k Hf Hk Hl) as Hl'.
  destruct (f (data_service e)).1; [by apply twp_ret|]. apply FailLogin_locks; [by right|done..].
Qed.

Lemma unless_abandoned_locks c b m :
  b ≠ a → locks m →
  locks (abandoned ← login_abandoned c; if abandoned : bool then abandon c b else m).
Proof. intros Hb Hm e Hs Hl. apply twp_bind, twp_login_abandoned; [by apply abandon_locks|]. intros _. by apply Hm. Qed.

Lemma LockedOut_tables e s d ck :
  pending_accounts_ s = pending_accounts_ (service e) → pending_connections_ s = pending_connections_ (service e) →
  d = data_service e → LockedOut e → LockedOut {| service := s; data_service := d; clock := ck |}.
Proof. intros E1 E2 -> [Ha Hn Hr]. split; cbn; rewrite ?E1, ?E2; done. Qed.

Lemma StoreSessionAndFinish_locks c r allow : account r ≠ a → locks (StoreSessionAndFinish c r allow).
Proof.
  intros Hr. apply unless_abandoned_locks; [done|]. intros e Hs Hl. steps.
  destruct (_ && _); [apply FailLogin_locks; [by right|done..]|].
  apply twp_bind, twp_NewSessionToken. intros tok g.
  eapply request_locks; [apply adds_store_session|done|done|by apply GameInv_set_random|].
  by apply (LockedOut_tables e).
Qed.

Lemma ContinueLogin_locks c r requested created : account r ≠ a → locks (ContinueLogin c r requested created).
Proof.
  intros Hr. apply unless_abandoned_locks; [done|]. intros e Hs Hl. apply twp_bind, twp_read_clock. intros now ck.
  assert (LockedOut (with_clock ck e)) as Hl' by by apply (LockedOut_tables e).
  destruct (str_empty _); [by apply StoreSessionAndFinish_locks|].
  eapply request_locks; [apply adds_load_session|done..].
Qed.

Lemma run_player_callback_locks c b requested result :
  b ≠ a → (∀ r, value result = Some r → account r ≠ a) →
  locks (run_player_callback (OnPlayerLoaded c b requested) result).
Proof.
  intros Hb Hres. apply unless_abandoned_locks; [done|]. intros e Hs Hl. destruct (result_Ok result) eqn:Eok.
  - apply result_Ok_value in Eok as [v Hv]. apply twp_bind.
    eapply twp_lift_outcome; [by rewrite Hv|]. apply ContinueLogin_locks; [by apply Hres|done..].
  - destruct (negb _); [by apply FailLogin_locks; [right|..]|].
    apply twp_bind, twp_NewPlayer. intros r g n ck Hr.
    destruct (negb _); [apply FailLogin_locks; [by right|..]|
      eapply request_locks; [apply adds_save_player|cbn; split; congruence|done|..]];
      (by apply GameInv_set_random, GameInv_set_player_sequence) || by apply (LockedOut_tables e).
Qed.

Lemma disconnected_locked c e : LockedOut e → LockedOut (disconnected_env c e).
Proof.
  intros Hl. assert (LockedOut (with_service (disconnected c (service e)) e)) as Hl'.
  { apply LockedOut_service; [| |done].
    - pose proof (drop_pending_accounts c _ a (lo_pending e Hl) (lo_nobody e Hl c)) as Ha.
      unfold disconnected. by destruct (PlayerForConnection _ _) as [[]|].
    - intros c' b'. rewrite disconnected_pending. intros [_ ?]%lookup_delete_Some. by right. }
  unfold disconnected_env. destruct (PlayerForConnection (service e) c) as [[p o]|]; [|exact Hl'].
  exact (LockedOut_requested _ (λ d, ds_SavePlayer d (record o) OnDisconnectSaved) (inr OnDisconnectSaved)
    (adds_save_player _ _) I Hl').
Qed.

Lemma Disconnect_locks c : locks (Disconnect c).
Proof. intros e Hs Hl. apply twp_Disconnect; [done..|]. by apply disconnected_locked. Qed.

Lemma admit_player_locks c b tok r e :
  b ≠ a → GameInv (service e) → connection_players_ (service e) !! c = None → LockedOut e →
  twp (T := T) (admit_player c b tok r) (λ _, LockedOut) e.
Proof.
  intros Hb Hs Hc Hl. apply twp_admit_player; [done..|]. intros s _ Ep Ea. apply LockedOut_service; [| |done].
  - apply Ea; [apply Hl|done|apply Hl].
  - intros c' b'. rewrite Ep. intros [_ ?]%lookup_delete_Some. by right.
Qed.

Lemma FinishLogin_locks c r tok allow : account r ≠ a → locks (FinishLogin c r tok allow).
Proof.
  intros Hr e Hs Hl. unfold FinishLogin.
  apply twp_bind, twp_login_abandoned; [by apply abandon_locks|]. intros Hpend%(gi_pending _ Hs). steps.
  destruct (online_players_ _ !! _) as [o|]; [|by apply admit_player_locks].
  destruct (negb allow); [apply FailLogin_locks; [by right|done..]|]. apply twp_bind.
  eapply twp_wand; [apply (twp_and _
    (λ _ e', GameInv (service e') ∧ connection_players_ (service e') !! c = None)
    (λ _, LockedOut)); [|by apply Disconnect_locks]|].
  - apply twp_Disconnect; [done..|]. split; [by apply GameInv_disconnected|by apply disconnected_connections].
  - intros [] e' [[Hs' Hc] Hl']. by apply admit_player_locks.
Qed.

Lemma run_completion_locks k : spares a (completion_callback k) → loads_no a k → locks (run_completion k).
Proof.
  destruct k as [[c b q] res|[c b r q n] res|k res]; cbn.
  - by apply run_player_callback_locks.
  - intros [Hb Hr] _ e Hs Hl. unfold run_session_callback.
    destruct (_ || _); [by apply FailLogin_locks; [right|..]|by apply StoreSessionAndFinish_locks].
  - intros Hk _ e Hs Hl. destruct k as [c b r|c b r tk al|]; cbn in Hk |- *; [| |by apply twp_ret]; destruct Hk as [Hb Hr].
    + destruct (negb _); [by apply FailLogin_locks; [right|..]|by apply ContinueLogin_locks].
    + destruct (negb _); [by apply FailLogin_locks; [right|..]|by apply FinishLogin_locks].
Qed.

Lemma HandleLogin_locks c frame : locks (HandleLogin c frame).
Proof.
  intros e Hs Hl. unfold HandleLogin. steps.
  destruct (ParseProtobufPayload _ _ _) as [[b q| | | | | | | | |]|]; try (apply FailLogin_locks; [by left|done..]).
  destruct ((_ || _) || _) eqn:Ebad; [by apply FailLogin_locks; [left|..]|].
  apply orb_false_iff in Ebad as [[_ Ebad%bool_decide_eq_false]%orb_false_iff _].
  rewrite <- eq_None_not_Some in Ebad.
  destruct (bool_decide (b ∈ _)) eqn:E; [by apply FailLogin_locks; [left|..]|].
  apply bool_decide_eq_false in E. assert (b ≠ a) as Hb by (intros ->; apply E, Hl).
  apply twp_bind, twp_update_service. apply twp_bind, twp_update_service.
  eapply request_locks; [apply adds_load_player|done|done|..].
  - eapply GameInv_frame; [exact Hs|done..|]. cbn. intros c'.
    destruct (decide (c = c')) as [<-|Hne]; [by right|]. rewrite lookup_insert_ne by done. by left.
  - apply (LockedOut_service e (set_pending_accounts _ _)); [| |done].
    + cbn. destruct Hl as [Ha _ _]. set_solver.
    + intros c' b'. cbn. destruct (decide (c = c')) as [<-|Hne].
      * rewrite lookup_insert_eq. intros [= <-]. by left.
      * rewrite lookup_insert_ne by done. by right.
Qed.

Lemma HandleFrame_locks c frame : locks (HandleFrame c frame).
Proof.
  unfold HandleFrame. destruct (message_type_of (message_id frame)) as [[]|]; try apply Disconnect_locks.
  - apply HandleLogin_locks.
  - intros e Hs Hl. unfold HandleChat. steps.
    destruct (PlayerForConnection _ _) as [[p o]|]; [|by apply twp_ret].
    destruct (ParseProtobufPayload _ _ _) as [[]|]; try by apply twp_ret.
    destruct (_ || _); [by apply twp_ret|].
    apply twp_for_each with (I := LockedOut); [done|]. intros [] e' _ He'. by steps.
  - intros e Hs Hl. unfold HandleMove. steps.
    destruct (PlayerForConnection _ _) as [[p o]|]; [|by apply twp_ret].
    destruct (ParseProtobufPayload _ _ _) as [[| | |[pos|]| | | | | |]|]; try by apply twp_ret.
    rewrite MovePlayer_result by apply Hs.
    destruct (players_ _ !! _) as [st|]; [destruct (GridIndexFor _ _) as [i|]|];
      (apply twp_bind; eapply twp_lift_outcome; [done|]; cbv beta iota; steps);
      try (apply twp_for_players; [intros; by steps|]; apply twp_for_players; [intros; by steps|]);
      by apply (LockedOut_tables e).
  - intros e Hs Hl. unfold HandleHeartbeat. destruct (ParseProtobufPayload _ _ _); by steps.
Qed.

(** ** A locked-out account stays so *)

Definition LockoutInv (w : World T D C) : Prop := (GameInv (service w.1) ∧ LockedOut w.1) ∧ tr_ok w.2.

Lemma served_step_inv w w' : LockoutInv w → served_step w w' → LockoutInv w'.
Proof.
  intros [[Hs Hl] Ht] Hstep.
  destruct Hstep as [c f [e t] w' E|c [e t] w' E|k d e t w' Hk Hno Hd E|d ck e t t' Ht' Hd]; cbn in *.
  - refine (twp_elim _ _ _ _ _ _ (twp_and _ _ _ _ _ _) Ht E); [by apply HandleFrame_keeps|by apply HandleFrame_locks].
  - refine (twp_elim _ _ _ _ _ _ (twp_and _ _ _ _ _ _) Ht E); [by apply Disconnect_keeps|by apply Disconnect_locks].
  - refine (twp_elim _ (λ _ e', GameInv (service e') ∧ LockedOut e') (with_data d e) t tt w'
      (twp_and _ (λ _ e', GameInv (service e')) (λ _, LockedOut) _ _ _) Ht E); [by apply run_completion_keeps|].
    apply run_completion_locks; [by apply (lo_requests e Hl)|done|done|]. destruct Hl as [Ha Hn Hr].
    split; [done|done|]. intros k' Hk'. by apply Hr, Hd.
  - split; [|done]. split; [done|]. destruct Hl as [Ha Hn Hr]. split; [done|done|]. intros k Hk. by apply Hr, Hd.
Qed.

Lemma served_steps_inv w w' : LockoutInv w → rtc served_step w w' → LockoutInv w'.
Proof. intros Hw Hr. induction Hr; eauto using served_step_inv. Qed.

(** A login for it by a connection that has no login yet is refused. *)
Lemma login_refused c frame tok e t :
  a ∈ pending_accounts_ (service e) → str_empty a = false → str_size a <= 64 →
  message_type_of (message_id frame) = Some kLoginRequest →
  ParseProtobufPayload frame kLoginRequest LoginRequest_ = Some (LoginRequest a tok) →
  connection_players_ (service e) !! c = None → pending_connections_ (service e) !! c = None →
  HandleFrame c frame (e, t) = (Returns tt, (e,
    if tr_IsConnected t c
    then send_all t [(c, kLoginResponse, failed_login_response "account login is already pending")] else t)).
Proof.
  intros Ha He Hsz Hty Hp Hc Hpc. unfold HandleFrame, HandleLogin. rewrite Hty.
  erewrite bind_run by reflexivity. cbn [fst]. rewrite Hp, He, Hc, Hpc.
  rewrite (proj2 (Z.ltb_ge _ _)) by lia. rewrite !(bool_decide_false (is_Some None)) by (by intros []).
  cbn [orb]. rewrite bool_decide_true by done. rewrite FailLogin_run. unfold fail_pending, drop_pending.
  change (str_empty EmptyString) with true. cbv iota. rewrite Hpc. by destruct e.
Qed.
End lockout.

Arguments served_step {T D C _ _ _ _ _ _ _}.
