(* ===== verification/GameTokens.v ===== *)
(** * Player ids and session tokens

    What [NewPlayer] and [NewSessionToken] make: 64-bit ids of 44 bits of
    milliseconds and 20 bits of sequence number, and tokens of 32 hexadecimal
    digits that determine the two random values they print. *)

From stdpp Require Import pretty.
From S2P Require Import Prelude Double FrameCodec AoiWorld DataTypes MemoryStores AsyncData.
From S2P Require Import ProtobufCodec GameTransport Mt19937 GameService GameLogic.

(** ** Hexadecimal *)

(** Reading a printed number back. *)
Definition hex_val (a : ascii) : Z :=
  let n := Z.of_nat (nat_of_ascii a) in if n <? 58 then n - 48 else n - 87.

Definition hex_value (l : list ascii) : Z := foldl (λ acc a, acc * 16 + hex_val a) 0 l.

Definition is_hex (a : ascii) : Prop := ∃ d, 0 <= d < 16 ∧ a = hex_digit d.

Lemma hex_val_digit d : 0 <= d < 16 → hex_val (hex_digit d) = d.
Proof.
  intros Hd. unfold hex_val, hex_digit. rewrite nat_ascii_embedding by (destruct (d <? 10) eqn:E; bool_lia).
  destruct (d <? 10) eqn:E; apply Z.ltb_lt in E || apply Z.ltb_ge in E.
  - rewrite (proj2 (Z.ltb_lt _ _)); lia.
  - rewrite (proj2 (Z.ltb_ge _ _)); lia.
Qed.

Lemma hex_value_app l l' :
  hex_value (l ++ l') = foldl (λ acc a, acc * 16 + hex_val a) (hex_value l) l'.
Proof. apply foldl_app. Qed.

Lemma hex_digits_spec fuel z :
  (0 < fuel)%nat → 0 <= z < 16 ^ Z.of_nat fuel →
  (0 < length (hex_digits fuel z) <= fuel)%nat ∧ hex_value (hex_digits fuel z) = z ∧
  Forall is_hex (hex_digits fuel z).
Proof.
  revert z. induction fuel as [|fuel IH]; intros z Hf Hz; [lia|]. cbn [hex_digits].
  destruct (z <? 16) eqn:E.
  - apply Z.ltb_lt in E. cbn. split; [lia|]. unfold hex_value; cbn.
    rewrite hex_val_digit by lia. split; [lia|]. apply Forall_singleton. exists z. split; [lia|done].
  - apply Z.ltb_ge in E. destruct fuel as [|fuel]; [cbn in Hz; lia|].
    assert (0 <= z mod 16 < 16) as Hm by (apply Z.mod_pos_bound; lia).
    destruct (IH (z / 16)) as (Hl & Hv & Hh); [lia| |].
    { split; [apply Z.div_pos; lia|]. apply Z.div_lt_upper_bound; [lia|].
      rewrite <- Z.pow_succ_r by lia. rewrite <- Nat2Z.inj_succ. apply Hz. }
    rewrite length_app. cbn [length]. split; [lia|]. split.
    + rewrite hex_value_app, Hv. cbn. rewrite hex_val_digit by done.
      pose proof (Z.div_mod z 16). lia.
    + apply Forall_app. split; [done|]. apply Forall_singleton. by exists (z mod 16).
Qed.

Lemma hex_value_setw n l : hex_value (setw n l) = hex_value l.
Proof.
  unfold setw, hex_value. rewrite foldl_app. f_equal.
  induction (n - length l)%nat as [|k IH]; [done|].
  cbn [replicate foldl]. by change (0 * 16 + hex_val "0"%char) with 0.
Qed.

Lemma setw_spec n l :
  (length l <= n)%nat → Forall is_hex l → length (setw n l) = n ∧ Forall is_hex (setw n l).
Proof.
  intros Hl Hh. unfold setw. rewrite length_app, length_replicate. split; [lia|].
  apply Forall_app. split; [|done]. apply Forall_replicate. exists 0. split; [lia|done].
Qed.

(** A 64-bit value on 16 columns. *)
Lemma hex16 z :
  is_u64 z →
  length (setw 16 (hex_digits 16 z)) = 16%nat ∧ hex_value (setw 16 (hex_digits 16 z)) = z ∧
  Forall is_hex (setw 16 (hex_digits 16 z)).
Proof.
  intros Hz. destruct (hex_digits_spec 16 z) as (Hl & Hv & Hh); [lia|done|].
  destruct (setw_spec 16 (hex_digits 16 z)) as [Hl' Hh']; [lia|done|].
  by rewrite hex_value_setw.
Qed.

(** ** Ids *)

Lemma player_id_fields ms seq :
  0 <= ms < 2 ^ 44 →
  let id := Z.lor (u64 (Z.shiftl (u64 ms) 20)) (Z.land seq 0xFFFFF) in
  is_u64 id ∧ id / 2 ^ 20 = ms ∧ id mod 2 ^ 20 = seq mod 2 ^ 20.
Proof.
  intros Hms id. assert (0 <= seq mod 2 ^ 20 < 2 ^ 20) as Hseq by (apply Z.mod_pos_bound; lia).
  assert (id = ms * 2 ^ 20 + seq mod 2 ^ 20) as ->.
  { unfold id. rewrite (u64_small ms) by (unfold is_u64; lia).
    rewrite u64_small by (rewrite Z.shiftl_mul_pow2 by lia; unfold is_u64; lia).
    change 0xFFFFF with (Z.ones 20). rewrite Z.land_ones by lia. by apply lor_shiftl_add. }
  split; [unfold is_u64; lia|]. split.
  - rewrite Z.div_add_l, Z.div_small by lia. lia.
  - rewrite Z.add_comm, Z_mod_plus_full. by apply Z.mod_small.
Qed.

Section tokens.
Context {T D C : Type} `{!SystemClock C}.
Implicit Types e : Env D C.

Lemma next_random_run e (t : T) :
  next_random (e, t) =
  (Returns (mt_next (random_ (service e))).1,
   (with_service (set_random (mt_next (random_ (service e))).2 (service e)) e, t)).
Proof. unfold next_random; cbn -[mt_next]. by destruct (mt_next _). Qed.

Lemma read_clock_run (f : C → Z * C) e (t : T) :
  read_clock f (e, t) = (Returns (f (clock e)).1, (with_clock (f (clock e)).2 e, t)).
Proof. unfold read_clock; cbn. by destruct (f _). Qed.

Lemma NewPlayer_run account e (t : T) :
  let s := service e in
  let ms := (now_milliseconds (clock e)).1 in
  let now := time_seconds (now_milliseconds (clock e)).2 in
  let seq := u64 (player_sequence_ s + 1) in
  let id := Z.lor (u64 (Z.shiftl (u64 ms) 20)) (Z.land seq 0xFFFFF) in
  let r := mt_next (random_ s) in
  let c := aoi (game_config_ s) in
  NewPlayer account (e, t) =
  (Returns {| player_id := id; account := account;
              nickname := nth (Z.to_nat (r.1 mod 12)) kNames EmptyString
                          +:+ "-" +:+ pretty (id mod 100000);
              position_x := ddiv (dadd (min_x c) (max_x c)) (double_of 2);
              position_y := ddiv (dadd (min_y c) (max_y c)) (double_of 2);
              position_z := dzero; last_login_unix := now.1 |},
   ({| service := set_random r.2 (set_player_sequence seq s);
       data_service := data_service e; clock := now.2 |}, t)).
Proof.
  cbv zeta. unfold NewPlayer.
  erewrite bind_run by apply read_clock_run.
  erewrite bind_run by reflexivity. erewrite bind_run by reflexivity.
  erewrite bind_run by apply next_random_run. cbn [fst snd service with_service].
  erewrite bind_run by apply read_clock_run. reflexivity.
Qed.
End tokens.

Lemma dash_nonempty x y : (x +:+ "-" +:+ y)%string ≠ EmptyString.
Proof. by destruct x. Qed.

(** ** Properties *)

(** A session token is 32 lower-case hexadecimal digits, from which the two
    64-bit values drawn from the generator are read back: two tokens are equal only
    if both their draws are. *)
Theorem session_token_encodes_draws {T D C : Type} (e : Env D C) (t : T) :
  let d1 := mt_next (random_ (service e)) in
  let d2 := mt_next d1.2 in
  ∃ tok, NewSessionToken (e, t)
         = (Returns tok, (with_service (set_random d2.2 (service e)) e, t)) ∧
    let digits := list_ascii_of_string tok in
    length digits = 32%nat ∧ Forall is_hex digits ∧
    hex_value (take 16 digits) = d1.1 ∧ hex_value (drop 16 digits) = d2.1.
Proof.
  intros d1 d2.
  destruct (hex16 d1.1) as (L1 & V1 & H1); [apply mt_next_range|].
  destruct (hex16 d2.1) as (L2 & V2 & H2); [apply mt_next_range|].
  exists (string_of_list_ascii (setw 16 (hex_digits 16 d1.1) ++ setw 16 (hex_digits 16 d2.1))).
  split.
  { unfold NewSessionToken. erewrite bind_run by apply next_random_run.
    erewrite bind_run by apply next_random_run. reflexivity. }
  cbv zeta. rewrite list_ascii_of_string_of_list_ascii.
  rewrite length_app, take_app_length', drop_app_length' by done.
  rewrite L1, L2. split; [done|]. split; [by apply Forall_app|done].
Qed.

(** A new player's id holds the clock's milliseconds in its upper 44 bits and
    the sequence number in its lower 20, so that players made at sequence numbers
    that differ modulo 2^20, or at different milliseconds, have different ids; its
    record has the account, the middle of the map, and is one the player store
    accepts. *)
Theorem new_player_id_unique {T D C : Type} `{SystemClock C} (e e' : Env D C) (t : T) a a' :
  let ms := (now_milliseconds (clock e)).1 in
  let ms' := (now_milliseconds (clock e')).1 in
  let seq := u64 (player_sequence_ (service e) + 1) in
  let seq' := u64 (player_sequence_ (service e') + 1) in
  0 < ms < 2 ^ 44 → 0 < ms' < 2 ^ 44 →
  ∃ r r' w w',
    NewPlayer a (e, t) = (Returns r, w) ∧ NewPlayer a' (e', t) = (Returns r', w') ∧
    player_sequence_ (service w.1) = seq ∧
    player_id r / 2 ^ 20 = ms ∧ player_id r mod 2 ^ 20 = seq mod 2 ^ 20 ∧
    is_u64 (player_id r) ∧
    (player_id r = player_id r' ↔ ms = ms' ∧ seq mod 2 ^ 20 = seq' mod 2 ^ 20) ∧
    account r = a ∧ (a ≠ EmptyString → valid_player r).
Proof.
  intros ms ms' seq seq' Hms Hms'.
  pose proof (NewPlayer_run a e t) as Hr. pose proof (NewPlayer_run a' e' t) as Hr'. cbv zeta in Hr, Hr'.
  destruct (player_id_fields ms seq) as (U & Q & R); [lia|].
  destruct (player_id_fields ms' seq') as (U' & Q' & R'); [lia|]. cbv zeta in U, Q, R, U', Q', R'.
  eexists _, _, _, _. split; [exact Hr|]. split; [exact Hr'|].
  cbn [player_id account nickname service fst set_random player_sequence_ set_player_sequence].
  fold ms ms' seq seq' in Hr, Hr' |- *. set (id := Z.lor (u64 (Z.shiftl (u64 ms) 20)) (Z.land seq 0xFFFFF)) in *.
  set (id' := Z.lor (u64 (Z.shiftl (u64 ms') 20)) (Z.land seq' 0xFFFFF)) in *.
  split; [done|]. split; [done|]. split; [done|]. split; [done|]. split.
  - split; [intros E; rewrite <- Q, <- Q', <- R, <- R'; by rewrite E|]. intros [E1 E2]. rewrite (Z.div_mod id (2 ^ 20)), (Z.div_mod id' (2 ^ 20)) by lia.
    by rewrite Q, Q', R, R', E1, E2.
  - split; [done|]. intros Ha. split; [|split; [done|apply dash_nonempty]].
    cbn [player_id]. intros E. rewrite E, Z.div_0_l in Q by lia. rewrite <- Q in Hms. lia.
Qed.

(** ** Witnesses *)

Lemma new_player_id_unique_witness :
  ∃ r, player_id r / 2 ^ 20 = 1700000000000 ∧ valid_player r.
Proof.
  destruct (@new_player_id_unique unit unit Z {| now_milliseconds z := (z, z); time_seconds z := (0, z) |}
    {| service := {| game_config_ := default_game_config; world_ := default_world; online_players_ := ∅;
         connection_players_ := ∅; pending_connections_ := ∅; pending_accounts_ := ∅;
         random_ := mt_seed 5489; player_sequence_ := 0 |};
       data_service := tt; clock := 1700000000000 |}
    {| service := {| game_config_ := default_game_config; world_ := default_world; online_players_ := ∅;
         connection_players_ := ∅; pending_connections_ := ∅; pending_accounts_ := ∅;
         random_ := mt_seed 5489; player_sequence_ := 1 |};
       data_service := tt; clock := 1700000000000 |} tt "ada"%string "bob"%string)
    as (r & r' & w & w' & _ & _ & _ & Hq & _ & _ & _ & _ & Hv).
  - vm_compute. split; reflexivity.
  - vm_compute. split; reflexivity.
  - exists r. split; [exact Hq|]. apply Hv. discriminate.
Defined.
