(* ===== verification/GameLinked.v ===== *)
(** * Players have connections

    Every connection the game service knows, logged in or waiting for its login, is
    a connection the transport has open: [Linked], kept by every handler and every
    callback. *)

From S2P Require Import Prelude Double FrameCodec AoiWorld DataTypes AsyncData.
From S2P Require Import ProtobufCodec GameTransport Mt19937 GameService GameLogic GameServiceInv GameNotify.
From S2P Require Import GameLogin.

(** The connections the service knows. *)
Definition tracked (s : GameService) (c : Z) : Prop :=
  is_Some (connection_players_ s !! c) ∨ is_Some (pending_connections_ s !! c).

Section linked.
Context {T D C : Type}.
Context `{!GameTransport T} `{!DataService D PlayerCallback SessionCallback OperationCallback}.
Context `{!SystemClock C} `{!Platform} `{!Protobuf} `{!GameTransportLaws T}.
Implicit Types e : Env D C.
Implicit Types t : T.

Definition Linked (w : World T D C) : Prop :=
  ∀ c, tracked (service w.1) c → tr_open w.2 c = true.

Definition links {A} (m : M (World T D C) A) : Prop :=
  ∀ w, GameInv (service w.1) → tr_ok w.2 → Linked w → wp m (λ _, Linked) w.

(** A call that only reads, or writes nothing the link depends on. *)
Definition local {A} (m : M (World T D C) A) : Prop :=
  ∀ e t, GameInv (service e) → ∃ a e', m (e, t) = (Returns a, (e', t)) ∧ GameInv (service e') ∧
    (∀ c, tracked (service e') c → tracked (service e) c).

Lemma Linked_mono e e' t t' :
  (∀ c, tracked (service e') c → tracked (service e) c) → tr_same t t' →
  Linked (e, t) → Linked (e', t').
Proof. intros He Ht Hl c Hc. cbn. rewrite (same_open t t' c Ht). by apply Hl, He. Qed.

Lemma links_run {A} (m : M (World T D C) A) a e' t' w :
  m w = (Returns a, (e', t')) → (∀ c, tracked (service e') c → tracked (service w.1) c) →
  tr_same w.2 t' → Linked w → wp m (λ _, Linked) w.
Proof. intros E He Ht Hl. unfold wp. rewrite E. destruct w as [e t]. by eapply Linked_mono. Qed.

Lemma local_links {A} (m : M (World T D C) A) : local m → links m.
Proof.
  intros Hm [e t] Hs Ht Hl. destruct (Hm e t Hs) as (a & e' & E & _ & He). by eapply links_run.
Qed.

Lemma local_bind {A B} (m : M (World T D C) A) (f : A → M (World T D C) B) :
  local m → (∀ a, links (f a)) → links (m ≫= f).
Proof.
  intros Hm Hf [e t] Hs Ht Hl. destruct (Hm e t Hs) as (a & e' & E & Hs' & He).
  apply wp_bind. unfold wp at 1. rewrite E. apply Hf; [done..|]. by eapply Linked_mono.
Qed.

Lemma local_ret {A} (a : A) : local (mret a).
Proof. intros e t Hs. by exists a, e. Qed.

Lemma local_get_service : local get_service.
Proof. intros e t Hs. by exists (service e), e. Qed.

Lemma local_call_data f : local (call_data f).
Proof.
  intros e t Hs. unfold call_data. cbn. destruct (f (data_service e)) as [r d]. by eexists _, _.
Qed.

Lemma local_read_clock f : local (read_clock f).
Proof.
  intros e t Hs. unfold read_clock. cbn. destruct (f (clock e)) as [r d]. by eexists _, _.
Qed.

Lemma local_login_abandoned c : local (login_abandoned c).
Proof. intros e t Hs. by eexists _, e. Qed.

Lemma local_NewSessionToken : local NewSessionToken.
Proof.
  intros e t Hs. unfold NewSessionToken, next_random, mbind, M_bind. cbn -[mt_next].
  destruct (mt_next _) as [r1 g1]. cbn -[mt_next]. destruct (mt_next _) as [r2 g2]. eexists _, _.
  split; [reflexivity|]. split; [by do 2 apply GameInv_set_random|done].
Qed.

Lemma local_NewPlayer a : local (NewPlayer a).
Proof.
  intros e t Hs. unfold NewPlayer, next_random, read_clock, mbind, M_bind. cbn -[mt_next].
  destruct (now_milliseconds _) as [ms ck]. cbn -[mt_next]. destruct (mt_next _) as [r g].
  cbn -[mt_next]. destruct (time_seconds _) as [ts ck']. eexists _, _. split; [reflexivity|].
  split; [by apply GameInv_set_random, GameInv_set_player_sequence|done].
Qed.

(** ** The pieces *)

Lemma tracked_drop_pending c s c' : tracked (drop_pending c s) c' → tracked s c'.
Proof.
  unfold tracked. destruct (drop_pending_fields c s) as (_ & _ & -> & ->).
  intros [?|[a [_ Ha]%lookup_delete_Some]]; [by left|right; by eexists].
Qed.

Lemma FailLogin_links c account error : links (FailLogin c account error).
Proof.
  intros [e t] Hs Ht Hl. eapply links_run; [apply FailLogin_run| | |exact Hl].
  - intros c' Hc'%tracked_drop_pending. by destruct (str_empty account).
  - cbn. destruct (tr_IsConnected t c); [by apply send_law|done].
Qed.

Lemma abandon_links c account : links (abandon c account).
Proof.
  intros [e t] Hs Ht Hl. eapply links_run; [reflexivity| |reflexivity|exact Hl].
  intros c'. unfold tracked. cbn. intros [?|[a [_ Ha]%lookup_delete_Some]]; [by left|right; by eexists].
Qed.

Lemma request_links (f : D → bool * D) c account error :
  links (accepted ← call_data f;
         if accepted : bool then mret tt else FailLogin c account error).
Proof.
  apply local_bind; [apply local_call_data|]. intros []; [apply local_links, local_ret|apply FailLogin_links].
Qed.

Lemma unless_abandoned_links c account m :
  links m → links (abandoned ← login_abandoned c; if abandoned : bool then abandon c account else m).
Proof.
  intros Hm. apply local_bind; [apply local_login_abandoned|]. intros []; [apply abandon_links|done].
Qed.

Lemma StoreSessionAndFinish_links c player allow : links (StoreSessionAndFinish c player allow).
Proof.
  apply unless_abandoned_links, local_bind; [apply local_get_service|]. intros s.
  destruct (_ && _); [apply FailLogin_links|]. apply local_bind; [apply local_NewSessionToken|].
  intros tok. apply request_links.
Qed.

Lemma ContinueLogin_links c player requested created : links (ContinueLogin c player requested created).
Proof.
  apply unless_abandoned_links, local_bind; [apply local_read_clock|]. intros now.
  destruct (str_empty _); [apply StoreSessionAndFinish_links|apply request_links].
Qed.

Lemma run_player_callback_links k result : links (run_player_callback k result).
Proof.
  destruct k as [c account requested]. apply unless_abandoned_links.
  destruct (result_Ok result) eqn:Eok.
  - apply result_Ok_value in Eok as [v Hv]. rewrite Hv. apply local_bind; [|intros r; apply ContinueLogin_links].
    intros e t Hs. by exists v, e.
  - destruct (negb _); [apply FailLogin_links|]. apply local_bind; [apply local_NewPlayer|]. intros r.
    destruct (negb _); [apply FailLogin_links|apply request_links].
Qed.

Lemma tracked_disconnected c s c' : GameInv s → tracked (disconnected c s) c' → tracked s c' ∧ c' ≠ c.
Proof.
  intros Hs. unfold tracked. rewrite disconnected_pending.
  assert (∀ c', is_Some (connection_players_ (disconnected c s) !! c') →
    is_Some (connection_players_ s !! c') ∧ c' ≠ c) as Hconn.
  { intros c1. unfold disconnected. destruct (drop_pending_fields c s) as (E1 & E2 & E3 & _).
    rewrite PlayerForConnection_drop_pending. destruct (PlayerForConnection s c) as [[p o]|] eqn:E.
    - cbn. rewrite E3. intros [q [Hne Hq]%lookup_delete_Some]. split; [by eexists|done].
    - rewrite E3. intros Hq. split; [done|]. intros ->.
      apply PlayerForConnection_None in E; [|done]. rewrite E in Hq. by destruct Hq. }
  intros [[? ?]%Hconn|[a [Hne Ha]%lookup_delete_Some]]; [by split; [left|]|].
  split; [right; by eexists|done].
Qed.

(** A disconnection closes a connection the service has forgotten. *)
Lemma Disconnect_links_same c w :
  GameInv (service w.1) → tr_ok w.2 → Linked w →
  wp (Disconnect c) (λ _ w', Linked w' ∧ GameInv (service w'.1) ∧ tr_ok w'.2 ∧
    (∀ c', c' ≠ c → tr_open w'.2 c' = tr_open w.2 c') ∧
    (∀ c', connection_players_ (service w.1) !! c' = None →
           connection_players_ (service w'.1) !! c' = None)) w.
Proof.
  destruct w as [e t]. intros Hs Ht Hl. cbn in *.
  eapply wp_wand; [apply (Disconnect_wp c (λ e',
    GameInv (service e') ∧ (∀ c', tracked (service e') c' → tracked (service e) c' ∧ c' ≠ c) ∧
    (∀ c', connection_players_ (service e) !! c' = None → connection_players_ (service e') !! c' = None))); try done|].
  - intros _. split; [by apply GameInv_disconnected|]. split; [by intros c'; apply tracked_disconnected|].
    intros c'. apply disconnected_connections.
  - intros Ho. split; [done|]. split; [|done]. intros c' Hc'. split; [done|]. intros ->.
    pose proof (Hl c Hc') as E. cbn in E. congruence.
  - intros [] [e' t'] ((Hs' & Htr & Hcp) & Ht' & Ho). cbn in *. split; [|split; [done|split; [done|split; [|done]]]].
    + intros c' Hc'. cbn in *. destruct (Htr c' Hc') as [Hc Hne]. pose proof (Hl c' Hc) as Hl'. cbn in Hl'.
      by rewrite Ho, Hl', (proj2 (Z.eqb_neq _ _)).
    + intros c' Hne. by rewrite Ho, (proj2 (Z.eqb_neq _ _)), andb_true_r.
Qed.

Lemma Disconnect_links c : links (Disconnect c).
Proof.
  intros w Hs Ht Hl. eapply wp_wand; [by apply Disconnect_links_same|]. by intros [] w' [Hl' _].
Qed.

Lemma admit_player_links c account tok r e t :
  GameInv (service e) → tr_ok t → tr_open t c = true → Linked (e, t) →
  online_players_ (service e) !! player_id r = None →
  wp (admit_player c account tok r) (λ _, Linked) (e, t).
Proof.
  intros Hs Ht Hc Hl Hoff. pose proof (admit_player_run c account tok r e t Hs Hoff) as Hrun. cbv zeta in Hrun.
  destruct (AddPlayer _ _ _) as [[] w'].
  - unfold wp. rewrite Hrun. intros c' Hc'. cbn [fst snd] in *.
    match goal with |- context [send_all t ?l] => destruct (send_all_law t l Ht) as [_ Hsame] end.
    rewrite (same_open _ _ c' Hsame). destruct (decide (c' = c)) as [->|Hne]; [done|]. apply Hl. cbn.
    unfold tracked in *. cbn in Hc'. rewrite lookup_insert_ne in Hc' by done.
    destruct Hc' as [?|[a [_ Ha]%lookup_delete_Some]]; [by left|right; by eexists].
  - unfold wp. rewrite Hrun. by apply FailLogin_links.
Qed.

Lemma FinishLogin_links c r tok allow : links (FinishLogin c r tok allow).
Proof.
  intros [e t] Hs Ht Hl. cbn in *.
  destruct (tr_IsConnected t c && bool_decide (is_Some (pending_connections_ (service e) !! c))) eqn:E.
  - apply andb_true_iff in E as [Hconn Hpend%bool_decide_eq_true].
    pose proof (connected_open t c Hconn) as Hopen.
    unfold wp. rewrite FinishLogin_run by done.
    destruct (online_players_ (service e) !! player_id r) as [o|] eqn:Ho.
    + destruct (gi_online _ Hs _ _ Ho) as [Hid Hco].
      assert (connection_id o ≠ c) as Hne.
      { intros <-. pose proof (gi_pending _ Hs _ Hpend). congruence. }
      destruct allow; [|by apply FailLogin_links]. apply (wp_bind (Disconnect (connection_id o))).
      eapply wp_wand.
      * eapply (Disconnect_wp _ (λ e', GameInv (service e') ∧
          (∀ c', tracked (service e') c' → tracked (service e) c' ∧ c' ≠ connection_id o) ∧
          online_players_ (service e') !! player_id (record o) = None)); try done.
        -- intros _. split; [by apply GameInv_disconnected|]. split; [by intros c'; apply tracked_disconnected|].
           cbn. unfold disconnected. rewrite PlayerForConnection_drop_pending.
           rewrite (PlayerForConnection_online _ _ _ Hs Ho). cbn. rewrite Hid. apply lookup_delete_eq.
        -- intros Hclosed. exfalso. assert (tracked (service e) (connection_id o)) as Htr by (left; by eexists).
           pose proof (Hl _ Htr) as Hl'. cbn in Hl'. congruence.
      * intros [] [e' t'] ((Hs' & Htr & Hoff) & Ht' & Hop). cbn in *.
        apply admit_player_links; try done.
        -- rewrite Hop, Hopen. cbn. by rewrite (proj2 (Z.eqb_neq _ _)).
        -- intros c' Hc'. cbn in *. destruct (Htr c' Hc') as [Hc Hne']. pose proof (Hl c' Hc) as Hl'. cbn in Hl'.
           by rewrite Hop, Hl', (proj2 (Z.eqb_neq _ _)).
    + by apply admit_player_links.
  - unfold wp. assert (login_abandoned (D := D) (C := C) c (e, t) = (Returns true, (e, t))) as Hab.
    { unfold login_abandoned. erewrite bind_run by reflexivity. cbn [snd].
      erewrite bind_run by reflexivity. cbn [fst]. unfold mret, M_ret. do 2 f_equal.
      apply andb_false_iff in E as [->|Hp%bool_decide_eq_false]; [done|].
      rewrite <- eq_None_not_Some in Hp. rewrite Hp. apply orb_true_r. }
    unfold FinishLogin. erewrite bind_run by exact Hab. by apply abandon_links.
Qed.

Lemma run_completion_links k : links (run_completion k).
Proof.
  destruct k as [k res|[c a r q n] res|[c a p|c a p tk al|] res]; simpl.
  - apply run_player_callback_links.
  - destruct (_ || _); [apply FailLogin_links|apply StoreSessionAndFinish_links].
  - destruct (negb _); [apply FailLogin_links|apply ContinueLogin_links].
  - destruct (negb _); [apply FailLogin_links|apply FinishLogin_links].
  - apply local_links, local_ret.
Qed.

(** A frame comes from an open connection. *)
Lemma HandleLogin_links c frame e t :
  GameInv (service e) → tr_ok t → tr_open t c = true → Linked (e, t) →
  wp (HandleLogin c frame) (λ _, Linked) (e, t).
Proof.
  intros Hs Ht Hc Hl. unfold HandleLogin. apply wp_bind. unfold wp at 1. cbn [get_service gets fst].
  destruct (ParseProtobufPayload _ _ _) as [[]|]; try by apply FailLogin_links.
  destruct ((_ || _) || _) eqn:E; [by apply FailLogin_links|].
  apply orb_false_iff in E as [[_ E%bool_decide_eq_false]%orb_false_iff _].
  rewrite <- eq_None_not_Some in E.
  destruct (bool_decide _); [by apply FailLogin_links|].
  do 2 (apply wp_bind; unfold wp at 1; cbn [update_service modify fst snd]).
  apply request_links; [|done|].
  - eapply GameInv_frame; [exact Hs|done..|]. cbn. intros c'.
    destruct (decide (c = c')) as [<-|Hne]; [by right|]. rewrite lookup_insert_ne by done. by left.
  - intros c' Hc'. cbn in *. destruct (decide (c' = c)) as [->|Hne]; [done|]. apply Hl.
    unfold tracked in *. cbn in *. by rewrite lookup_insert_ne in Hc'.
Qed.

(** The other handlers only send to, and never add, connections. *)
Lemma HandleChat_links c frame : links (HandleChat c frame).
Proof.
  intros [e t] Hs Ht Hl.
  assert (∃ l, HandleChat c frame (e, t) = (Returns tt, (e, send_all t l))) as [l E].
  { unfold HandleChat. erewrite bind_run by reflexivity. cbn [fst].
    destruct (PlayerForConnection _ _) as [[p o]|]; [|by exists []].
    destruct (ParseProtobufPayload _ _ _) as [[]|]; try by exists [].
    destruct (_ || _); [by exists []|]. eexists.
    apply (for_each_sends _ _ (λ x, (connection_id x.2, kChatBroadcast,
      ChatBroadcast (player_id (record o)) (nickname (record o)) text))). intros [q oq] t'. apply Send_run. }
  eapply links_run; [exact E|done| |exact Hl]. by apply send_all_law.
Qed.

Lemma HandleMove_links c frame : links (HandleMove c frame).
Proof.
  intros [e t] Hs Ht Hl.
  assert (∃ s' l, HandleMove c frame (e, t) = (Returns tt, (with_service s' e, send_all t l)) ∧
    connection_players_ s' = connection_players_ (service e) ∧
    pending_connections_ s' = pending_connections_ (service e)) as (s' & l & E & E1 & E2).
  { assert (HandleMove c frame (e, t) = (Returns tt, (e, t)) →
      ∃ s' l, HandleMove c frame (e, t) = (Returns tt, (with_service s' e, send_all t l)) ∧
        connection_players_ s' = connection_players_ (service e) ∧
        pending_connections_ s' = pending_connections_ (service e)) as Hno.
    { intros ->. exists (service e), []. by destruct e. }
    destruct (PlayerForConnection (service e) c) as [[p o]|] eqn:Hp.
    2: { apply Hno. unfold HandleMove. erewrite bind_run by reflexivity. cbn [fst]. by rewrite Hp. }
    destruct (ParseProtobufPayload frame kMoveRequest MoveRequest_) as [[| | |[pos|]| | | | | |]|] eqn:Hm;
      try by (apply Hno; unfold HandleMove; erewrite bind_run by reflexivity; cbn [fst]; rewrite Hp, Hm).
    pose proof (HandleMove_run c frame e t p o pos Hs Hp Hm) as Hrun. cbv zeta in Hrun.
    destruct (players_ _ !! p); [|by apply Hno]. destruct (GridIndexFor _ _); [|by apply Hno].
    by eexists _, _. }
  eapply links_run; [exact E| | |exact Hl]; [|by apply send_all_law].
  intros c'. unfold tracked. cbn. by rewrite E1, E2.
Qed.

Lemma HandleHeartbeat_links c frame : links (HandleHeartbeat c frame).
Proof.
  intros [e t] Hs Ht Hl. unfold HandleHeartbeat. destruct (ParseProtobufPayload _ _ _) as [m|]; [|done].
  eapply links_run; [apply Send_run|done| |exact Hl]. by apply send_all_law.
Qed.

Lemma HandleFrame_links c frame e t :
  GameInv (service e) → tr_ok t → tr_open t c = true → Linked (e, t) →
  wp (HandleFrame c frame) (λ _, Linked) (e, t).
Proof.
  intros Hs Ht Hc Hl. unfold HandleFrame.
  destruct (message_type_of (message_id frame)) as [[]|]; try by apply Disconnect_links.
  - by apply HandleLogin_links.
  - by apply HandleChat_links.
  - by apply HandleMove_links.
  - by apply HandleHeartbeat_links.
Qed.
End linked.
