(* ===== verification/DatabaseScenario.v ===== *)
(** * The game service over the databases

    Concrete runs of the game service, the thread pool and the data service on the
    MySQL repository and the Redis session store, with the simulated servers. The
    simulated table compares accounts the way the default collation of
    [CHARSET=utf8mb4] does, without regard to case. *)

From S2P Require Import Prelude Double FrameCodec AoiWorld DataTypes MySqlApi MySqlSim MySqlRepository RedisStore.
From S2P Require Import ThreadPool AsyncData ProtobufCodec GameTransport Mt19937 GameService GameScenario.
From S2P Require Import GameLogic GameServiceInv GameNotify GameLogin GameLockout.

#[local] Instance db_players : PlayerRepository SimMySql := mysql_player_repository local_mysql.
#[local] Instance db_sessions : SessionStore SimRedis := redis_session_store redis_defaults.

Abbreviation DbWorld := (ScenarioWorld * (SimMySql * SimRedis))%type.

Definition db_handle (c : Z) (frame : Frame) (s : DbWorld) : DbWorld := ((HandleFrame c frame s.1).2, s.2).
Definition db_disconnect (c : Z) (s : DbWorld) : DbWorld := ((Disconnect c s.1).2, s.2).

(** A worker takes the oldest task, and the event loop runs its completion. *)
Definition db_serve (s : DbWorld) : DbWorld :=
  let '((e, t), stores) := s in
  match WorkerLoop_locked (data_service e) with
  | (Running task, pool) =>
      let '(completion, stores) := run_task 0 task stores in
      ((run_completion completion
          ({| service := service e; data_service := pool; clock := clock e |}, t)).2, stores)
  | _ => s
  end.

Definition no_redis_faults : SimRedis :=
  {| sim_keys := ∅; sim_contexts := ∅; sim_redis_faults := []; sim_last := None |}.

(** Connections 1 to 3, and the table with one player, "ada". *)
Definition db_start : DbWorld := (new_world {[1; 2; 3]}, (sim_with [player_row 7 "ada"] [], no_redis_faults)).

(** Connection 1 logs in as "Ada", plays and leaves; everything is served. *)
Definition after_Ada : DbWorld :=
  Nat.iter 4 db_serve (db_disconnect 1 (Nat.iter 4 db_serve (db_handle 1 login_Ada db_start))).

(** ** Facts *)

Lemma db_handle_inv c frame s : GameInv (service s.1.1) → GameInv (service (db_handle c frame s).1.1).
Proof. intros Hs. by apply keeps_run; [apply HandleFrame_keeps|..]. Qed.

Lemma db_disconnect_inv c s : GameInv (service s.1.1) → GameInv (service (db_disconnect c s).1.1).
Proof. intros Hs. by apply keeps_run; [apply Disconnect_keeps|..]. Qed.

Lemma db_serve_inv s : GameInv (service s.1.1) → GameInv (service (db_serve s).1.1).
Proof.
  destruct s as [[e t] stores]. unfold db_serve.
  destruct (WorkerLoop_locked (data_service e)) as [[| |task|] pool]; try done.
  destruct (run_task 0 task stores) as [k st]. intros Hs. cbn.
  by apply (keeps_run (T := recording) _ ({| service := service e; data_service := pool; clock := clock e |}, t));
    [apply run_completion_keeps|..].
Qed.

Lemma after_Ada_inv : GameInv (service after_Ada.1.1).
Proof.
  unfold after_Ada. cbn [Nat.iter nat_rect].
  do 4 apply db_serve_inv. apply db_disconnect_inv. do 4 apply db_serve_inv. apply db_handle_inv, new_service_inv.
Qed.

Lemma after_Ada_locked : LockedOut "Ada" after_Ada.1.1.
Proof.
  split.
  - apply (bool_decide_unpack _). vm_compute. exact I.
  - intros c. assert (pending_connections_ (service after_Ada.1.1) = ∅) as -> by (vm_compute; reflexivity).
    by rewrite lookup_empty.
  - intros k. assert (outstanding (data_service after_Ada.1.1) = []) as -> by (vm_compute; reflexivity).
    by intros ?%elem_of_nil.
Qed.

(** ** Properties *)

(** C38: A login under another spelling of a stored account locks that spelling out, for
    as long as the server runs. The database finds "ada" for a login as "Ada"; the login
    succeeds and clears "ada" of the pending accounts, not "Ada". Once its player has
    left and nothing is pending, queued or online, a login as "ada" is taken, but in
    every state that any frames, disconnections, completions and anything of the network
    and the clock then lead to, a login as "Ada" is refused as already pending, as long
    as the table has no row with just that spelling. *)
Theorem other_spelling_is_locked_out :
  connection_players_ (service (Nat.iter 4 db_serve (db_handle 1 login_Ada db_start)).1.1) = {[1 := 7]} ∧
  online_players_ (service after_Ada.1.1) = ∅ ∧
  pending_connections_ (service after_Ada.1.1) = ∅ ∧
  tasks_ (data_service after_Ada.1.1) = [] ∧
  connection_players_ (service (Nat.iter 4 db_serve (db_handle 3 login_ada after_Ada)).1.1) = {[3 := 7]} ∧
  ∀ w, rtc (served_step "Ada") after_Ada.1 w → "Ada"%string ∈ pending_accounts_ (service w.1) ∧
    ∀ c frame tok,
      message_type_of (message_id frame) = Some kLoginRequest →
      ParseProtobufPayload frame kLoginRequest LoginRequest_ = Some (LoginRequest "Ada" tok) →
      connection_players_ (service w.1) !! c = None → pending_connections_ (service w.1) !! c = None →
      tr_IsConnected w.2 c = true →
      HandleFrame c frame w = (Returns tt, (w.1, send_all w.2
        [(c, kLoginResponse, failed_login_response "account login is already pending")])).
Proof.
  do 5 (split; [vm_compute; reflexivity|]). intros w Hr.
  apply served_steps_inv in Hr as [[_ Hl] _].
  2: { split; [split; [apply after_Ada_inv|apply after_Ada_locked]|exact I]. }
  split; [apply Hl|]. intros c frame tok Hty Hp Hc Hpc Hconn. destruct w as [e t].
  rewrite (login_refused "Ada" c frame tok) by (apply Hl || done). cbn [fst snd] in *. by rewrite Hconn.
Qed.

(** ** Witnesses *)

(** After connection 3 has asked to log in as "ada", connection 2 is refused as "Ada". *)
Lemma other_spelling_is_locked_out_witness :
  let w := (db_handle 3 login_ada after_Ada).1 in
  rtc (served_step "Ada") after_Ada.1 w ∧
  HandleFrame 2 login_Ada w = (Returns tt, (w.1, send_all w.2
    [(2, kLoginResponse, failed_login_response "account login is already pending")])).
Proof.
  intros w. assert (rtc (served_step "Ada") after_Ada.1 w) as Hr.
  { apply rtc_once, (served_frame "Ada" 3 login_ada). vm_compute. reflexivity. }
  split; [exact Hr|]. destruct other_spelling_is_locked_out as (_ & _ & _ & _ & _ & H).
  destruct (H w Hr) as [_ Href]. apply (Href 2 login_Ada EmptyString).
  - vm_compute. reflexivity.
  - vm_compute. reflexivity.
  - vm_compute. reflexivity.
  - vm_compute. reflexivity.
  - vm_compute. reflexivity.
Defined.
