(* ===== verification/Kernel.v ===== *)
(** * The operating system under the network layer

    The system calls of [src/net/tcp_connection.cpp], [src/net/event_loop.cpp] and
    [src/server/game_server.cpp] as a type class over the kernel's state, with the
    behaviour the program relies on ([KernelLaws]), and a scripted kernel for
    concrete runs. The program's loops around a call end when the kernel has no
    more to give; the budgets bound how long that can take. *)

From Stdlib Require Import Strings.Byte.
From S2P Require Import Prelude FrameCodec.

(** The results a call site distinguishes; [Received []] is an orderly shutdown. *)
Inductive RecvResult := Received (data : list byte) | RecvEINTR | RecvEAGAIN | RecvError.
Inductive SendResult := Sent (count : Z) | SendEINTR | SendEAGAIN | SendError.
Inductive AcceptResult := Accepted (descriptor : Z) | AcceptEINTR | AcceptEAGAIN | AcceptError.

Class Kernel (K : Type) := {
  k_recv : K → Z → Z → RecvResult * K;
  k_send : K → Z → list byte → SendResult * K;
  k_accept : K → AcceptResult * K;
  k_close : K → Z → K;
  k_epoll_add : K → Z → Z → bool * K;
  k_epoll_mod : K → Z → Z → bool * K;
  k_epoll_del : K → Z → K;
  recv_budget : K → Z → nat;
  send_budget : K → Z → nat;
  accept_budget : K → nat
}.

(** [handed k fd] is what the kernel has accepted for the peer of [fd] so far;
    [open_fds] the descriptors of the process. [accept_budget] bounds the
    connections it will ever hand out, and its interruptions of [accept4]. *)
Class KernelLaws (K : Type) `{Kernel K} := {
  handed : K → Z → list byte;
  open_fds : K → gset Z;
  recv_law k fd n :
    match k_recv k fd n with
    | (Received (_ :: _), k') | (RecvEINTR, k') => (recv_budget k' fd < recv_budget k fd)%nat
    | _ => True
    end;
  recv_frame k fd n fd' :
    handed (k_recv k fd n).2 fd' = handed k fd' ∧ open_fds (k_recv k fd n).2 = open_fds k ∧
    (accept_budget (k_recv k fd n).2 <= accept_budget k)%nat;
  send_law k fd bs :
    match k_send k fd bs with
    | (Sent n, k') => 0 <= n <= size_of bs ∧ (send_budget k' fd <= send_budget k fd)%nat ∧
                      handed k' fd = handed k fd ++ take (Z.to_nat n) bs
    | (SendEINTR, k') => (send_budget k' fd < send_budget k fd)%nat ∧ handed k' fd = handed k fd
    | (_, k') => handed k' fd = handed k fd
    end;
  send_frame k fd bs : open_fds (k_send k fd bs).2 = open_fds k ∧
    (accept_budget (k_send k fd bs).2 <= accept_budget k)%nat;
  accept_law k :
    match k_accept k with
    | (Accepted fd, k') => 0 <= fd ∧ fd ∉ open_fds k ∧ open_fds k' = {[fd]} ∪ open_fds k ∧
                           handed k' fd = [] ∧ (accept_budget k' < accept_budget k)%nat
    | (AcceptEINTR, k') => open_fds k' = open_fds k ∧ (accept_budget k' < accept_budget k)%nat
    | (_, k') => open_fds k' = open_fds k ∧ (accept_budget k' <= accept_budget k)%nat
    end;
  close_law k fd :
    open_fds (k_close k fd) = open_fds k ∖ {[fd]} ∧ (accept_budget (k_close k fd) <= accept_budget k)%nat;
  epoll_add_frame k fd ev : open_fds (k_epoll_add k fd ev).2 = open_fds k ∧
    (accept_budget (k_epoll_add k fd ev).2 <= accept_budget k)%nat;
  epoll_mod_frame k fd ev : open_fds (k_epoll_mod k fd ev).2 = open_fds k ∧
    (accept_budget (k_epoll_mod k fd ev).2 <= accept_budget k)%nat;
  epoll_mod_handed k fd ev fd' : handed (k_epoll_mod k fd ev).2 fd' = handed k fd';
  epoll_del_frame k fd : open_fds (k_epoll_del k fd) = open_fds k ∧
    (accept_budget (k_epoll_del k fd) <= accept_budget k)%nat;
  send_other k fd bs fd' : fd' ≠ fd → handed (k_send k fd bs).2 fd' = handed k fd';
  accept_other k fd' : (k_accept k).1 ≠ Accepted fd' → handed (k_accept k).2 fd' = handed k fd';
  close_other k fd fd' : fd' ≠ fd → handed (k_close k fd) fd' = handed k fd';
  epoll_add_handed k fd ev fd' : handed (k_epoll_add k fd ev).2 fd' = handed k fd';
  epoll_del_handed k fd fd' : handed (k_epoll_del k fd) fd' = handed k fd'
}.

(** The same descriptors, and no more connections to come. *)
Definition same_fds {K} `{KernelLaws K} (k k' : K) : Prop :=
  open_fds k' = open_fds k ∧ (accept_budget k' <= accept_budget k)%nat.

#[export] Instance same_fds_preorder {K} `{KernelLaws K} : PreOrder same_fds.
Proof. split; [by split|]. intros k1 k2 k3 [E1 L1] [E2 L2]. split; [congruence|lia]. Qed.

(** ** A scripted kernel *)

(** What each descriptor will answer, in order: afterwards it has nothing to
    receive and takes everything sent. [epoll_fails] are the descriptors
    [epoll_ctl] refuses. *)
Record ScriptKernel := mkScriptKernel {
  recv_script : gmap Z (list RecvResult);
  send_script : gmap Z (list SendResult);
  accept_script : list AcceptResult;
  handed_ : gmap Z (list byte);
  open_fds_ : gset Z;
  epoll_set : gmap Z Z;
  epoll_fails : gset Z
}.

Definition script_recv (k : ScriptKernel) (fd : Z) : RecvResult * ScriptKernel :=
  match recv_script k !! fd with
  | Some (r :: rs) =>
      (r, {| recv_script := <[fd := rs]> (recv_script k); send_script := send_script k;
             accept_script := accept_script k; handed_ := handed_ k; open_fds_ := open_fds_ k;
             epoll_set := epoll_set k; epoll_fails := epoll_fails k |})
  | _ => (RecvEAGAIN, k)
  end.

Definition hand (k : ScriptKernel) (fd : Z) (script : gmap Z (list SendResult)) (bs : list byte)
    : ScriptKernel :=
  {| recv_script := recv_script k; send_script := script; accept_script := accept_script k;
     handed_ := <[fd := default [] (handed_ k !! fd) ++ bs]> (handed_ k);
     open_fds_ := open_fds_ k; epoll_set := epoll_set k; epoll_fails := epoll_fails k |}.

Definition script_send (k : ScriptKernel) (fd : Z) (bs : list byte) : SendResult * ScriptKernel :=
  match send_script k !! fd with
  | Some (r :: rs) =>
      let script := <[fd := rs]> (send_script k) in
      match r with
      | Sent n => let n := Z.max 0 (Z.min n (size_of bs)) in
                  (Sent n, hand k fd script (take (Z.to_nat n) bs))
      | r => (r, hand k fd script [])
      end
  | _ => (Sent (size_of bs), hand k fd (send_script k) bs)
  end.

(** A scripted descriptor that is already open is not handed out again. *)
Definition script_accept (k : ScriptKernel) : AcceptResult * ScriptKernel :=
  match accept_script k with
  | r :: rs =>
      let set open handed :=
        {| recv_script := recv_script k; send_script := send_script k; accept_script := rs;
           handed_ := handed; open_fds_ := open; epoll_set := epoll_set k;
           epoll_fails := epoll_fails k |} in
      match r with
      | Accepted fd =>
          if decide (0 <= fd ∧ fd ∉ open_fds_ k)
          then (r, set ({[fd]} ∪ open_fds_ k) (<[fd := []]> (handed_ k)))
          else (AcceptError, set (open_fds_ k) (handed_ k))
      | r => (r, set (open_fds_ k) (handed_ k))
      end
  | [] => (AcceptEAGAIN, k)
  end.

Definition script_epoll (k : ScriptKernel) (set : gmap Z Z) : ScriptKernel :=
  {| recv_script := recv_script k; send_script := send_script k; accept_script := accept_script k;
     handed_ := handed_ k; open_fds_ := open_fds_ k; epoll_set := set; epoll_fails := epoll_fails k |}.

Definition script_ctl (k : ScriptKernel) (fd ev : Z) : bool * ScriptKernel :=
  if decide (fd ∈ epoll_fails k) then (false, k) else (true, script_epoll k (<[fd := ev]> (epoll_set k))).

#[export] Instance script_kernel : Kernel ScriptKernel := {
  k_recv k fd _ := script_recv k fd;
  k_send := script_send;
  k_accept := script_accept;
  k_close k fd :=
    {| recv_script := recv_script k; send_script := send_script k; accept_script := accept_script k;
       handed_ := handed_ k; open_fds_ := open_fds_ k ∖ {[fd]}; epoll_set := epoll_set k;
       epoll_fails := epoll_fails k |};
  k_epoll_add := script_ctl;
  k_epoll_mod := script_ctl;
  k_epoll_del k fd := script_epoll k (delete fd (epoll_set k));
  recv_budget k fd := length (default [] (recv_script k !! fd));
  send_budget k fd := length (default [] (send_script k !! fd));
  accept_budget k := length (accept_script k)
}.

#[export] Instance script_kernel_laws : KernelLaws ScriptKernel.
Proof.
  refine {| handed k fd := default [] (handed_ k !! fd); open_fds := open_fds_ |}.
  - intros k fd n. cbn. unfold script_recv.
    destruct (recv_script k !! fd) as [[|[[|b bs]| | |] rs]|] eqn:E; cbn; try done;
      rewrite lookup_insert_eq; cbn; lia.
  - intros k fd n fd'. cbn. unfold script_recv. by destruct (recv_script k !! fd) as [[|]|].
  - intros k fd bs. cbn. unfold script_send, hand. assert (0 <= size_of bs) by (unfold size_of; lia).
    destruct (send_script k !! fd) as [[|[n| | |] rs]|] eqn:E; cbn; rewrite ?lookup_insert_eq, ?E; cbn;
      rewrite ?app_nil_r; try done; try lia.
    all: repeat split; try lia; try (unfold size_of; by rewrite Nat2Z.id, firstn_all).
  - intros k fd bs. cbn. unfold script_send.
    by destruct (send_script k !! fd) as [[|[n| | |] rs]|].
  - intros k. cbn. unfold script_accept. destruct (accept_script k) as [|[fd| | |] rs] eqn:E; cbn.
    2: { case_decide as Hd; cbn; [|by split; [|lia]]. destruct Hd. rewrite lookup_insert_eq. cbn.
         repeat split; try done; lia. }
    all: rewrite ?E; cbn; split; [done|lia].
  - intros k fd. cbn. split; [done|lia].
  - intros k fd ev. cbn. unfold script_ctl. by case_decide.
  - intros k fd ev. cbn. unfold script_ctl. by case_decide.
  - intros k fd ev fd'. cbn. unfold script_ctl. by case_decide.
  - done.
  - intros k fd bs fd' Hne. cbn. unfold script_send, hand.
    destruct (send_script k !! fd) as [[|[n| | |] rs]|]; cbn; by rewrite lookup_insert_ne.
  - intros k fd'. cbn. unfold script_accept.
    destruct (accept_script k) as [|[fd| | |] rs]; try done. case_decide; cbn; [|done].
    intros Hne. rewrite lookup_insert_ne; [done|]. congruence.
  - done.
  - intros k fd ev fd'. cbn. unfold script_ctl. by case_decide.
  - done.
Defined.
