(* ===== verification/Sockets.v ===== *)
(** * Sockets

    The socket calls of [src/server/game_server.cpp] ([OpenListener]) and
    [src/client/blocking_client.cpp] besides those of [Kernel], and those that create
    the descriptors of the event loop, with what their manual pages promise. An IPv4
    address is the number [inet_pton] gives. *)

From Stdlib Require Import Strings.Byte.
From S2P Require Import Prelude FrameCodec Kernel.

(** [inet_pton(AF_INET, ...)], when it returns 1. *)
Class InetPton := { inet_pton : string → option Z }.

Class SocketApi (K : Type) := {
  sk_socket : K → option Z * K;
  sk_setsockopt_reuseaddr : K → Z → bool * K;
  sk_bind : K → Z → Z → Z → bool * K;
  sk_listen : K → Z → Z → bool * K;
  sk_getsockname : K → Z → option Z * K;
  sk_connect : K → Z → Z → Z → bool * K;
  sk_shutdown : K → Z → K;
  sk_epoll_create1 : K → option Z * K;
  sk_eventfd : K → option Z * K
}.

(** A call that creates a descriptor: none was open under its number. *)
Definition creates {K} `{KernelLaws K} (k : K) (r : option Z * K) : Prop :=
  (accept_budget r.2 <= accept_budget k)%nat ∧
  match r.1 with
  | Some fd => 0 <= fd ∧ fd ∉ open_fds k ∧ open_fds r.2 = {[fd]} ∪ open_fds k ∧ handed r.2 fd = []
  | None => open_fds r.2 = open_fds k
  end.

(** [delivered k fd]: what [recv] has returned on [fd] since it was created. *)
Class SocketLaws (K : Type) `{KernelLaws K} `{SocketApi K} := {
  delivered : K → Z → list byte;
  socket_law k : creates k (sk_socket k) ∧
    ∀ fd, (sk_socket k).1 = Some fd → delivered (sk_socket k).2 fd = [];
  epoll_create1_law k : creates k (sk_epoll_create1 k);
  eventfd_law k : creates k (sk_eventfd k);
  setsockopt_frame k fd : same_fds k (sk_setsockopt_reuseaddr k fd).2;
  bind_frame k fd a p : same_fds k (sk_bind k fd a p).2;
  listen_frame k fd n : same_fds k (sk_listen k fd n).2;
  getsockname_frame k fd : same_fds k (sk_getsockname k fd).2;
  connect_frame k fd a p : same_fds k (sk_connect k fd a p).2 ∧
    handed (sk_connect k fd a p).2 fd = handed k fd ∧ delivered (sk_connect k fd a p).2 fd = delivered k fd;
  shutdown_frame k fd fd' : same_fds k (sk_shutdown k fd) ∧
    handed (sk_shutdown k fd) fd' = handed k fd' ∧ delivered (sk_shutdown k fd) fd' = delivered k fd';
  recv_delivered k fd n :
    delivered (k_recv k fd n).2 fd =
      delivered k fd ++ match (k_recv k fd n).1 with Received bs => bs | _ => [] end;
  send_delivered k fd bs : delivered (k_send k fd bs).2 fd = delivered k fd
}.

#[export] Hint Resolve setsockopt_frame bind_frame listen_frame getsockname_frame : mmo.

(** ** [UniqueFd]

    [include/mmo/net/unique_fd.h]: an owner is the descriptor it holds, [-1] when none. *)
Section unique_fd.
Context {K : Type} `{Kernel K}.

Definition UniqueFd_valid (descriptor : Z) : bool := 0 <=? descriptor.

(** [Release]: the descriptor, and the owner it leaves. *)
Definition UniqueFd_Release (descriptor : Z) : Z * Z := (descriptor, -1).

(** [Reset(next)] *)
Definition UniqueFd_Reset (descriptor next : Z) (k : K) : Z * K :=
  (next, if UniqueFd_valid descriptor then k_close k descriptor else k).

(** [descriptor = std::move(other)], of another object: both owners afterwards. *)
Definition UniqueFd_move (descriptor other : Z) (k : K) : Z * Z * K :=
  let '(released, other) := UniqueFd_Release other in
  let '(descriptor, k) := UniqueFd_Reset descriptor released k in
  (descriptor, other, k).

(** [~UniqueFd] *)
Definition UniqueFd_destroy (descriptor : Z) (k : K) : K := (UniqueFd_Reset descriptor (-1) k).2.
End unique_fd.

(** Moving an owner and destroying both closes each descriptor exactly once. *)
Lemma unique_fd_closes_once {K} `{KernelLaws K} (a b : Z) (k : K) :
  let '(a', b', k') := UniqueFd_move a b k in
  a' = b ∧ open_fds (UniqueFd_destroy b' (UniqueFd_destroy a' k')) =
    open_fds k ∖ ((if UniqueFd_valid a then {[a]} else ∅) ∪ (if UniqueFd_valid b then {[b]} else ∅)).
Proof.
  unfold UniqueFd_destroy, UniqueFd_Reset. cbn. split; [done|].
  destruct (UniqueFd_valid b); [destruct (close_law (if UniqueFd_valid a then k_close k a else k) b) as [-> _]|];
    (destruct (UniqueFd_valid a); [destruct (close_law k a) as [-> _]|]); set_solver.
Qed.

(** ** On the scripted kernel *)

(** A dotted quad of one-digit numbers, enough for the runs. *)
Definition quad_pton : InetPton := {|
  inet_pton s :=
    match list_ascii_of_string s with
    | [a; "."; b; "."; c; "."; d]%char =>
        let v x := Z.of_nat (Ascii.nat_of_ascii x) - 48 in
        if forallb (λ x, (0 <=? v x) && (v x <=? 9)) [a; b; c; d] then
          Some (((v a * 256 + v b) * 256 + v c) * 256 + v d)
        else None
    | _ => None
    end
|}.

(** The scripted kernel with a history of what each descriptor received, the
    descriptors its next calls create, and the answers of the calls that may fail. *)
Record NetKernel := mkNetKernel {
  base : ScriptKernel;
  history : gmap Z (list byte);
  next_fds : list (option Z);
  sock_faults : list bool;
  bound : Z;
  clock_ns : Z
}.

Definition net_with (k : ScriptKernel) (n : NetKernel) : NetKernel :=
  {| base := k; history := history n; next_fds := next_fds n; sock_faults := sock_faults n; bound := bound n; clock_ns := clock_ns n |}.

Definition net_recv (n : NetKernel) (fd : Z) : RecvResult * NetKernel :=
  let '(r, k) := script_recv (base n) fd in
  (r, {| base := k;
         history := match r with
                    | Received bs => <[fd := default [] (history n !! fd) ++ bs]> (history n)
                    | _ => history n
                    end;
         next_fds := next_fds n; sock_faults := sock_faults n; bound := bound n; clock_ns := clock_ns n |}).

Definition net_lift {A} (r : A * ScriptKernel) (n : NetKernel) : A * NetKernel := (r.1, net_with r.2 n).

#[export] Instance net_kernel : Kernel NetKernel := {
  k_recv n fd _ := net_recv n fd;
  k_send n fd bs := net_lift (script_send (base n) fd bs) n;
  k_accept n := net_lift (script_accept (base n)) n;
  k_close n fd := net_with (k_close (base n) fd) n;
  k_epoll_add n fd ev := net_lift (script_ctl (base n) fd ev) n;
  k_epoll_mod n fd ev := net_lift (script_ctl (base n) fd ev) n;
  k_epoll_del n fd := net_with (k_epoll_del (base n) fd) n;
  recv_budget n := recv_budget (base n);
  send_budget n := send_budget (base n);
  accept_budget n := accept_budget (base n)
}.

#[export] Instance net_kernel_laws : KernelLaws NetKernel.
Proof.
  refine {| handed n fd := handed (base n) fd; open_fds n := open_fds (base n) |}.
  - intros n fd m. pose proof (recv_law (base n) fd m) as Hl. cbn in *. unfold net_recv.
    destruct (script_recv (base n) fd) as [r k]. by destruct r.
  - intros n fd m fd'. pose proof (recv_frame (base n) fd m fd') as Hl. cbn in *. unfold net_recv.
    by destruct (script_recv (base n) fd) as [r k].
  - intros n fd bs. pose proof (send_law (base n) fd bs) as Hl. cbn in *. unfold net_lift.
    by destruct (script_send (base n) fd bs) as [[] k].
  - intros n fd bs. exact (send_frame (base n) fd bs).
  - intros n. pose proof (accept_law (base n)) as Hl. cbn in *. unfold net_lift.
    by destruct (script_accept (base n)) as [[] k].
  - intros n fd. exact (close_law (base n) fd).
  - intros n fd ev. exact (epoll_add_frame (base n) fd ev).
  - intros n fd ev. exact (epoll_mod_frame (base n) fd ev).
  - intros n fd ev fd'. exact (epoll_mod_handed (base n) fd ev fd').
  - intros n fd. exact (epoll_del_frame (base n) fd).
  - intros n fd bs fd'. exact (send_other (base n) fd bs fd').
  - intros n fd'. exact (accept_other (base n) fd').
  - intros n fd fd'. exact (close_other (base n) fd fd').
  - intros n fd ev fd'. exact (epoll_add_handed (base n) fd ev fd').
  - intros n fd fd'. exact (epoll_del_handed (base n) fd fd').
Defined.

(** The next descriptor of the list, unless it is open. *)
Definition net_create (n : NetKernel) : option Z * NetKernel :=
  match next_fds n with
  | Some fd :: fds =>
      let k := base n in
      if decide (0 <= fd ∧ fd ∉ open_fds_ k) then
        (Some fd, {| base := {| recv_script := recv_script k; send_script := send_script k;
                                accept_script := accept_script k; handed_ := <[fd := []]> (handed_ k);
                                open_fds_ := {[fd]} ∪ open_fds_ k; epoll_set := epoll_set k;
                                epoll_fails := epoll_fails k |};
                     history := <[fd := []]> (history n);
                     next_fds := fds; sock_faults := sock_faults n; bound := bound n; clock_ns := clock_ns n |})
      else (None, n)
  | None :: fds => (None, {| base := base n; history := history n; next_fds := fds;
                             sock_faults := sock_faults n; bound := bound n; clock_ns := clock_ns n |})
  | [] => (None, n)
  end.

Definition net_try (n : NetKernel) : bool * NetKernel :=
  (negb (default false (head (sock_faults n))),
   {| base := base n; history := history n; next_fds := next_fds n; sock_faults := tail (sock_faults n);
      bound := bound n; clock_ns := clock_ns n |}).

Definition net_bind (n : NetKernel) (port : Z) : bool * NetKernel :=
  let '(ok, n) := net_try n in
  (ok, {| base := base n; history := history n; next_fds := next_fds n; sock_faults := sock_faults n;
          bound := if port =? 0 then 32768 else port; clock_ns := clock_ns n |}).

#[export] Instance net_sockets : SocketApi NetKernel := {
  sk_socket := net_create;
  sk_setsockopt_reuseaddr n _ := net_try n;
  sk_bind n _ _ port := net_bind n port;
  sk_listen n _ _ := net_try n;
  sk_getsockname n _ := let '(ok, n) := net_try n in ((if ok then Some (bound n) else None), n);
  sk_connect n _ _ _ := net_try n;
  sk_shutdown n _ := n;
  sk_epoll_create1 := net_create;
  sk_eventfd := net_create
}.

Lemma net_create_law n : creates n (net_create n).
Proof.
  unfold creates, net_create. destruct (next_fds n) as [|[fd|] fds]; try by split.
  case_decide as Hd; [|by split]. destruct Hd. cbn. split; [done|]. rewrite lookup_insert_eq. by repeat split.
Qed.

#[export] Instance net_socket_laws : SocketLaws NetKernel.
Proof.
  refine {| delivered n fd := default [] (history n !! fd) |}; try (intros; apply net_create_law); try done.
  - intros n. split; [apply net_create_law|]. intros fd. cbn. unfold net_create.
    destruct (next_fds n) as [|[fd'|] fds]; try done. case_decide; [|done]. intros [= ->]. cbn.
    by rewrite lookup_insert_eq.
  - intros n fd m. cbn. unfold net_recv. destruct (script_recv (base n) fd) as [[bs| | |] k]; cbn;
      rewrite ?app_nil_r; try done. by rewrite lookup_insert_eq.
Defined.
