(* ===== verification/TcpConnection.v ===== *)
(** * A non-blocking TCP connection

    [src/net/tcp_connection.cpp]: reading everything the socket has into the frame
    decoder, and the bounded output buffer with its offset of what is already sent.
    Sizes are [size_t] with their subtraction written out. *)

From Stdlib Require Import Strings.Byte.
From S2P Require Import Prelude FrameCodec FrameStream Kernel.

Inductive IoStatus := kOpen | kPeerClosed | kProtocolError | kIoError | kSlowConsumer.

#[export] Instance IoStatus_eq_dec : EqDecision IoStatus.
Proof. solve_decision. Defined.

Record TcpConnection := mkTcpConnection {
  descriptor_ : Z;
  decoder_ : FrameDecoder;
  output_ : list byte;
  output_offset_ : Z;
  maximum_pending_bytes_ : Z
}.

Definition set_decoder (d : FrameDecoder) (c : TcpConnection) : TcpConnection :=
  {| descriptor_ := descriptor_ c; decoder_ := d; output_ := output_ c;
     output_offset_ := output_offset_ c; maximum_pending_bytes_ := maximum_pending_bytes_ c |}.
Definition set_output (o : list byte) (offset : Z) (c : TcpConnection) : TcpConnection :=
  {| descriptor_ := descriptor_ c; decoder_ := decoder_ c; output_ := o;
     output_offset_ := offset; maximum_pending_bytes_ := maximum_pending_bytes_ c |}.

Definition TcpConnection_new (descriptor maximum_pending_bytes : Z) : Outcome TcpConnection :=
  decoder ← FrameDecoder_new kDefaultMaxPayloadSize;
  if (descriptor <? 0) || (maximum_pending_bytes =? 0) then
    Throws (invalid_argument "invalid TCP connection configuration")
  else
    Returns {| descriptor_ := descriptor; decoder_ := decoder; output_ := []; output_offset_ := 0;
               maximum_pending_bytes_ := maximum_pending_bytes |}.

Definition WantsWrite (c : TcpConnection) : bool := output_offset_ c <? size_of (output_ c).
Definition PendingBytes (c : TcpConnection) : Z := u64 (size_of (output_ c) - output_offset_ c).

(** The bytes queued and not yet sent. *)
Definition unsent (c : TcpConnection) : list byte := drop (Z.to_nat (output_offset_ c)) (output_ c).

Definition CompactOutput (c : TcpConnection) : TcpConnection :=
  if output_offset_ c =? 0 then c
  else if output_offset_ c =? size_of (output_ c) then set_output [] 0 c
  else set_output (unsent c) 0 c.

Definition QueueBytes (bytes : list byte) (c : TcpConnection) : bool * TcpConnection :=
  if bool_decide (bytes = []) then (true, c)
  else
    let c := CompactOutput c in
    if u64 (maximum_pending_bytes_ c - PendingBytes c) <? size_of bytes then (false, c)
    else (true, set_output (output_ c ++ bytes) (output_offset_ c) c).

Section io.
Context {K : Type} `{Kernel K}.

(** How the [recv] loop of [ReadAvailable] ends. *)
Inductive ReadEnd := ReadClosed | ReadBlocked | ReadFailed.

Fixpoint recv_loop (fuel : nat) : M (TcpConnection * K) ReadEnd := λ '(c, k),
  match fuel with
  | O => (Returns ReadFailed, (c, k))
  | Datatypes.S fuel =>
      let '(r, k) := k_recv k (descriptor_ c) (16 * 1024) in
      match r with
      | Received [] => (Returns ReadClosed, (c, k))
      | Received data =>
          match Append (decoder_ c) data with
          | Returns d => recv_loop fuel (set_decoder d c, k)
          | Throws e => (Throws e, (c, k))
          end
      | RecvEINTR => recv_loop fuel (c, k)
      | RecvEAGAIN => (Returns ReadBlocked, (c, k))
      | RecvError => (Returns ReadFailed, (c, k))
      end
  end.

(** [ReadAvailable(frames)], with what it adds to [frames]. The fuel is the
    kernel's budget, which [ReadAvailable_run] shows is enough. *)
Definition decode_received (ending : ReadEnd) : M (TcpConnection * K) (IoStatus * list Frame) :=
  match ending with
  | ReadFailed => mret (kIoError, [])
  | ReadClosed | ReadBlocked => λ '(c, k),
      let '(frames, status, d) := DrainFrames (decoder_ c) in
      (Returns
         ((if bool_decide (status = kNeedMoreData)
           then match ending with ReadClosed => kPeerClosed | _ => kOpen end
           else kProtocolError), frames),
       (set_decoder d c, k))
  end.

Definition ReadAvailable : M (TcpConnection * K) (IoStatus * list Frame) := λ s,
  (recv_loop (Datatypes.S (recv_budget s.2 (descriptor_ s.1))) ≫= decode_received) s.

(** Each [send] that does not end the loop sends a byte or was interrupted. *)
Fixpoint flush_loop (fuel : nat) (c : TcpConnection) (k : K) : IoStatus * TcpConnection * K :=
  match fuel with
  | O => (kIoError, c, k)
  | Datatypes.S fuel =>
      if WantsWrite c then
        let '(r, k) := k_send k (descriptor_ c) (unsent c) in
        match r with
        | Sent n =>
            if 0 <? n then flush_loop fuel (set_output (output_ c) (u64 (output_offset_ c + n)) c) k
            else (kIoError, c, k)
        | SendEINTR => flush_loop fuel c k
        | SendEAGAIN => (kOpen, c, k)
        | SendError => (kIoError, c, k)
        end
      else (kOpen, set_output [] 0 c, k)
  end.

Definition Flush (c : TcpConnection) (k : K) : IoStatus * TcpConnection * K :=
  flush_loop (Datatypes.S (length (unsent c) + send_budget k (descriptor_ c))) c k.
End io.

(** ** Invariant *)

(** The offset is inside the buffer, and what is pending is within the limit, so
    that no [size_t] subtraction wraps around. *)
Record TcpInv (c : TcpConnection) : Prop := {
  tcp_descriptor : 0 <= descriptor_ c;
  tcp_decoder : DecoderInv (decoder_ c);
  tcp_offset : 0 <= output_offset_ c <= size_of (output_ c);
  tcp_size : size_of (output_ c) < 2 ^ 64;
  tcp_limit : 0 < maximum_pending_bytes_ c < 2 ^ 64;
  tcp_pending : size_of (unsent c) <= maximum_pending_bytes_ c
}.

Lemma size_unsent c :
  0 <= output_offset_ c <= size_of (output_ c) →
  size_of (unsent c) = size_of (output_ c) - output_offset_ c.
Proof. intros Ho. unfold unsent, size_of in *. rewrite length_drop. lia. Qed.

Lemma PendingBytes_unsent c : TcpInv c → PendingBytes c = size_of (unsent c).
Proof.
  intros [_ _ Ho Hs _ _]. unfold PendingBytes. rewrite size_unsent by done.
  apply u64_small. unfold is_u64. lia.
Qed.

Lemma TcpConnection_new_inv fd max c :
  max < 2 ^ 64 → 0 <= max → TcpConnection_new fd max = Returns c →
  TcpInv c ∧ descriptor_ c = fd ∧ unsent c = [] ∧ maximum_pending_bytes_ c = max.
Proof.
  intros Hm Hm0. unfold TcpConnection_new.
  destruct (FrameDecoder_new kDefaultMaxPayloadSize) as [d|] eqn:Ed; [|done]. cbn.
  destruct ((fd <? 0) || (max =? 0)) eqn:E; [done|]. intros [= <-]. 
  apply orb_false_iff in E as [E1 E2]. apply Z.ltb_ge in E1. apply Z.eqb_neq in E2.
  split; [|done]. split; cbn; try done; try lia. by eapply new_decoder_inv.
Qed.

Lemma CompactOutput_spec c :
  TcpInv c → TcpInv (CompactOutput c) ∧ unsent (CompactOutput c) = unsent c ∧
  descriptor_ (CompactOutput c) = descriptor_ c ∧
  maximum_pending_bytes_ (CompactOutput c) = maximum_pending_bytes_ c ∧
  output_offset_ (CompactOutput c) = 0.
Proof.
  intros Hc. pose proof Hc as [Hd Hdec Ho Hs Hl Hp]. unfold CompactOutput.
  destruct (output_offset_ c =? 0) eqn:E0; [by apply Z.eqb_eq in E0|].
  destruct (output_offset_ c =? size_of (output_ c)) eqn:E1.
  - apply Z.eqb_eq in E1. assert (unsent c = []) as Hu.
    { unfold unsent. apply drop_ge. unfold size_of in E1. lia. }
    rewrite Hu. split; [|done]. split; cbn; try done; try lia.
    unfold unsent, size_of. cbn. rewrite drop_nil. cbn. lia.
  - split; [|done]. split; cbn; try done.
    + unfold size_of at 1. lia.
    + rewrite size_unsent by done. lia.
Qed.

Lemma QueueBytes_spec bytes c b c' :
  TcpInv c → QueueBytes bytes c = (b, c') →
  TcpInv c' ∧ descriptor_ c' = descriptor_ c ∧
  maximum_pending_bytes_ c' = maximum_pending_bytes_ c ∧
  (b = true ↔ size_of (unsent c) + size_of bytes <= maximum_pending_bytes_ c) ∧
  unsent c' = unsent c ++ (if b then bytes else []).
Proof.
  intros Hc. unfold QueueBytes. pose proof Hc as [Hd Hdec Ho Hs Hl Hp]. case_bool_decide as Hb.
  - intros [= <- <-]. subst. rewrite app_nil_r. split; [done|]. split; [done|]. split; [done|].
    split; [|done]. split; [|done]. intros _. unfold size_of at 2. cbn. lia.
  - destruct (CompactOutput_spec c Hc) as (Hcc & Hu & Hd' & Hm & Hoff).
    rewrite (PendingBytes_unsent _ Hcc), Hu, Hm.
    rewrite u64_small by (unfold is_u64; unfold size_of in *; lia).
    destruct (_ <? _) eqn:E; intros [= <- <-].
    + apply Z.ltb_lt in E. rewrite app_nil_r. split; [done|]. split; [done|]. split; [done|].
      split; [|done]. split; [done|]. lia.
    + apply Z.ltb_ge in E.
      assert (unsent (set_output (output_ (CompactOutput c) ++ bytes) (output_offset_ (CompactOutput c))
                (CompactOutput c)) = unsent c ++ bytes) as Hu'.
      { rewrite <- Hu. unfold unsent at 1 2. cbn. rewrite Hoff. by rewrite !drop_0. }
      assert (size_of (output_ (CompactOutput c)) = size_of (unsent c)) as Ho'.
      { rewrite <- Hu. unfold unsent. by rewrite Hoff. }
      assert (size_of (unsent c ++ bytes) = size_of (unsent c) + size_of bytes) as Hsz
        by (unfold size_of; rewrite length_app; lia).
      split; [|split; [done|]; split; [done|]; split; [split; [lia|done]|done]].
      destruct Hcc. split; try done.
      * cbn. rewrite Hoff. unfold size_of at 1. lia.
      * cbn. replace (size_of (output_ (CompactOutput c) ++ bytes))
          with (size_of (output_ (CompactOutput c)) + size_of bytes)
          by (unfold size_of; rewrite length_app; lia). lia.
      * rewrite Hu'. cbn. rewrite Hm, Hsz. lia.
Qed.

(** ** The loops *)

Section loops.
Context {K : Type} `{KernelLaws K}.

(** What the kernel gives a [recv] loop: the data, how it ends, and itself. *)
Fixpoint recv_trace (fuel : nat) (k : K) (fd : Z) : list byte * ReadEnd * K :=
  match fuel with
  | O => ([], ReadFailed, k)
  | S fuel =>
      let '(r, k) := k_recv k fd (16 * 1024) in
      match r with
      | Received [] => ([], ReadClosed, k)
      | Received data =>
          let '(more, ending, k) := recv_trace fuel k fd in (data ++ more, ending, k)
      | RecvEINTR => recv_trace fuel k fd
      | RecvEAGAIN => ([], ReadBlocked, k)
      | RecvError => ([], ReadFailed, k)
      end
  end.

(** The budget is enough: with it, only the kernel ends the loop. *)
Lemma recv_trace_fuel n1 n2 k fd :
  (recv_budget k fd < n1)%nat → (recv_budget k fd < n2)%nat → recv_trace n1 k fd = recv_trace n2 k fd.
Proof.
  revert n2 k. induction n1 as [|n1 IH]; intros [|n2] k H1 H2; try lia. cbn [recv_trace].
  pose proof (recv_law k fd (16 * 1024)) as Hl.
  destruct (k_recv k fd (16 * 1024)) as [[[|b bs]| | |] k']; try done.
  - by rewrite (IH n2 k') by lia.
  - by rewrite (IH n2 k') by lia.
Qed.

Lemma recv_trace_failed n k fd data k' :
  (recv_budget k fd < n)%nat → recv_trace n k fd = (data, ReadFailed, k') →
  ∃ k0, k_recv k0 fd (16 * 1024) = (RecvError, k').
Proof.
  revert k data. induction n as [|n IH]; intros k data Hn; [lia|]. cbn [recv_trace].
  pose proof (recv_law k fd (16 * 1024)) as Hl.
  destruct (k_recv k fd (16 * 1024)) as [[[|b bs]| | |] k1] eqn:E; try done.
  - destruct (recv_trace n k1 fd) as [[more ending] k2] eqn:Er. intros [= _ -> ->].
    eapply IH; [|exact Er]. lia.
  - intros Er. eapply IH; [|exact Er]. lia.
  - intros [= _ <-]. by exists k.
Qed.

Lemma recv_trace_open n k fd : same_fds k (recv_trace n k fd).2.
Proof.
  revert k. induction n as [|n IH]; intros k; [done|]. cbn [recv_trace].
  pose proof (recv_frame k fd (16 * 1024) fd) as [_ Hf]. fold (same_fds k (k_recv k fd (16 * 1024)).2) in Hf.
  destruct (k_recv k fd (16 * 1024)) as [[[|b bs]| | |] k']; cbn in Hf; try done.
  - specialize (IH k'). destruct (recv_trace n k' fd) as [[? ?] ?]. cbn in *. by etrans.
  - by etrans.
Qed.

Lemma set_decoder_inv d c : DecoderInv d → TcpInv c → TcpInv (set_decoder d c).
Proof. intros Hd []. by split. Qed.

Lemma recv_loop_run n c k :
  TcpInv c →
  let '(data, ending, k') := recv_trace n k (descriptor_ c) in
  ∃ d, recv_loop n (c, k) = (Returns ending, (set_decoder d c, k')) ∧ DecoderInv d ∧
    stream_of d = stream_append (stream_of (decoder_ c)) data.
Proof.
  revert c k. induction n as [|n IH]; intros c k Hc; cbn [recv_trace recv_loop].
  { exists (decoder_ c). destruct c. split; [done|]. split; [apply Hc|]. unfold stream_append, stream_of.
    cbn. by rewrite app_nil_r. }
  assert (∃ d, set_decoder d c = c ∧ DecoderInv d ∧
    stream_of d = stream_append (stream_of (decoder_ c)) []) as Hsame.
  { exists (decoder_ c). destruct c. split; [done|]. split; [apply Hc|]. unfold stream_append, stream_of.
    cbn. by rewrite app_nil_r. }
  destruct (k_recv k (descriptor_ c) (16 * 1024)) as [[[|b bs]| | |] k'].
  2: { destruct (Append (decoder_ c) (b :: bs)) as [d|x] eqn:Ea; [|by rewrite Append_returns in Ea].
       destruct (Append_refines _ _ _ (tcp_decoder c Hc) Ea) as [Hd Hs].
       specialize (IH (set_decoder d c) k' (set_decoder_inv d c Hd Hc)).
       cbn [descriptor_ set_decoder decoder_] in IH.
       destruct (recv_trace n k' (descriptor_ c)) as [[more ending] k2]. destruct IH as (d' & E & Hd' & Hs').
       exists d'. split; [exact E|]. split; [done|]. rewrite Hs', Hs. unfold stream_append; cbn.
       by rewrite <- app_assoc. }
  2: { apply (IH c k' Hc). }
  all: destruct Hsame as (d & E & Hd & Hs); exists d; by rewrite E.
Qed.

(** [ReadAvailable] is the stream's parser on what the kernel gave. *)
Lemma ReadAvailable_run c k :
  TcpInv c →
  let '(data, ending, k') := recv_trace (S (recv_budget k (descriptor_ c))) k (descriptor_ c) in
  ∃ d' st fs, ReadAvailable (c, k) = (Returns (st, fs), (set_decoder d' c, k')) ∧ DecoderInv d' ∧
    let s := stream_append (stream_of (decoder_ c)) data in
    match ending with
    | ReadFailed => st = kIoError ∧ fs = [] ∧ stream_of d' = s
    | _ => drain_all s = (fs, stream_of d') ∧
           st = if failed_ d' then kProtocolError
                else match ending with ReadClosed => kPeerClosed | _ => kOpen end
    end.
Proof.
  intros Hc. pose proof (recv_loop_run (S (recv_budget k (descriptor_ c))) c k Hc) as Hr.
  destruct (recv_trace _ k (descriptor_ c)) as [[data ending] k']. destruct Hr as (d & E & Hd & Hs).
  unfold ReadAvailable. cbn [fst snd]. erewrite bind_run by exact E. unfold decode_received.
  pose proof (DrainFrames_refines d Hd) as Hdr. pose proof (DrainFrames_status d) as Hst.
  destruct ending.
  3: { exists d. by eexists _, _. }
  all: cbn [decoder_ set_decoder]; destruct (DrainFrames d) as [[fs st] d'] eqn:Ed;
    destruct Hdr as [Hd' Hdr]; specialize (Hst fs st d' Hd eq_refl);
    exists d'; eexists _, fs; split; [reflexivity|]; split; [done|]; cbv zeta; rewrite <- Hs;
    split; [done|]; destruct (failed_ d'), (bool_decide (st = kNeedMoreData)) eqn:Eb; try done;
    first [apply bool_decide_eq_true in Eb|apply bool_decide_eq_false in Eb]; naive_solver.
Qed.

(** Why a flush stops: everything is sent, the socket is full, or it failed. *)
Definition flush_stops (fd : Z) (st : IoStatus) (c : TcpConnection) (k : K) : Prop :=
  (st = kOpen ∧ (unsent c = [] ∨ ∃ k0, k_send k0 fd (unsent c) = (SendEAGAIN, k))) ∨
  (st = kIoError ∧
     ∃ k0, k_send k0 fd (unsent c) = (SendError, k) ∨ k_send k0 fd (unsent c) = (Sent 0, k)).

Lemma set_output_inv c n :
  TcpInv c → 0 <= n <= size_of (unsent c) →
  let c' := set_output (output_ c) (u64 (output_offset_ c + n)) c in
  TcpInv c' ∧ unsent c' = drop (Z.to_nat n) (unsent c).
Proof.
  intros Hc Hn c'. pose proof Hc as [Hd Hdec Ho Hs Hl Hp]. pose proof (size_unsent c Ho) as Hu.
  assert (output_offset_ c' = output_offset_ c + n) as Eo.
  { unfold c'. cbn. apply u64_small. unfold is_u64. lia. }
  assert (unsent c' = drop (Z.to_nat n) (unsent c)) as Eu.
  { unfold unsent. rewrite Eo, drop_drop. f_equal. lia. }
  split; [|done]. split; try done.
  - rewrite Eo. cbn. lia.
  - rewrite Eu. unfold size_of in *. rewrite length_drop. cbn. lia.
Qed.

Lemma flush_loop_spec n c k st c' k' :
  TcpInv c → (length (unsent c) + send_budget k (descriptor_ c) < n)%nat →
  flush_loop n c k = (st, c', k') →
  TcpInv c' ∧ descriptor_ c' = descriptor_ c ∧ decoder_ c' = decoder_ c ∧
  maximum_pending_bytes_ c' = maximum_pending_bytes_ c ∧
  same_fds k k' ∧
  handed k' (descriptor_ c) ++ unsent c' = handed k (descriptor_ c) ++ unsent c ∧
  flush_stops (descriptor_ c) st c' k'.
Proof.
  revert c k. induction n as [|n IH]; intros c k Hc Hn; [lia|]. cbn [flush_loop].
  pose proof Hc as [Hd Hdec Ho Hs Hl Hp].
  destruct (WantsWrite c) eqn:Ew.
  - pose proof (send_law k (descriptor_ c) (unsent c)) as Hsend.
    pose proof (send_frame k (descriptor_ c) (unsent c)) as Hopen. fold (same_fds k (k_send k (descriptor_ c) (unsent c)).2) in Hopen.
    destruct (k_send k (descriptor_ c) (unsent c)) as [[m| | |] k1] eqn:Ek; cbn in Hopen.
    + destruct Hsend as (Hm & Hb & Hh). destruct (0 <? m) eqn:Em.
      * apply Z.ltb_lt in Em. destruct (set_output_inv c m Hc ltac:(lia)) as [Hc1 Eu].
        intros E. apply IH in E; [|done|].
        2: { rewrite Eu, length_drop. cbn [descriptor_ set_output]. unfold size_of in Hm. lia. }
        destruct E as (E1 & E2 & E3 & E4 & E5 & E6 & E7). cbn [descriptor_ set_output] in *.
        do 4 (split; [done|]). split; [by etrans|]. split; [|done].
        rewrite E6, Eu, Hh, <- app_assoc. by rewrite take_drop.
      * apply Z.ltb_ge in Em. intros [= <- <- <-]. do 5 (split; [done|]).
        assert (m = 0) as -> by lia. rewrite Hh. split; [by rewrite app_nil_r|].
        right. split; [done|]. exists k. by right.
    + destruct Hsend as [Hb Hh]. intros E. apply IH in E; [|done|lia].
      destruct E as (E1 & E2 & E3 & E4 & E5 & E6 & E7).
      do 4 (split; [done|]). split; [by etrans|]. by rewrite E6, Hh.
    + intros [= <- <- <-]. do 5 (split; [done|]). split; [by rewrite Hsend|].
      left. split; [done|]. right. by exists k.
    + intros [= <- <- <-]. do 5 (split; [done|]). split; [by rewrite Hsend|].
      right. split; [done|]. exists k. by left.
  - apply Z.ltb_ge in Ew. assert (unsent c = []) as Hu.
    { apply length_zero_iff_nil. pose proof (size_unsent c Ho). unfold size_of in *. lia. }
    intros [= <- <- <-]. rewrite Hu.
    assert (TcpInv (set_output [] 0 c)) as Hc'.
    { split; try done; try (cbn; lia). unfold unsent, size_of. cbn. rewrite drop_nil. cbn. lia. }
    split; [done|].
    do 5 (split; [done|]). left. split; [done|]. by left.
Qed.

Lemma Flush_spec c k st c' k' :
  TcpInv c → Flush c k = (st, c', k') →
  TcpInv c' ∧ descriptor_ c' = descriptor_ c ∧ decoder_ c' = decoder_ c ∧
  maximum_pending_bytes_ c' = maximum_pending_bytes_ c ∧
  same_fds k k' ∧
  handed k' (descriptor_ c) ++ unsent c' = handed k (descriptor_ c) ++ unsent c ∧
  flush_stops (descriptor_ c) st c' k'.
Proof. intros Hc. apply flush_loop_spec; [done|lia]. Qed.

(** Other descriptors see nothing of a flush. *)
Lemma Flush_other c k st c' k' fd :
  fd ≠ descriptor_ c → Flush c k = (st, c', k') → handed k' fd = handed k fd.
Proof.
  intros Hne. unfold Flush. generalize (S (length (unsent c) + send_budget k (descriptor_ c))) as n.
  intros n. revert c k Hne. induction n as [|n IH]; intros c k Hne; cbn [flush_loop]; [congruence|].
  destruct (WantsWrite c); [|congruence]. pose proof (send_other k (descriptor_ c) (unsent c) fd Hne) as Ho.
  destruct (k_send k (descriptor_ c) (unsent c)) as [[m| | |] k1]; cbn in Ho; rewrite <- Ho; try congruence.
  - destruct (0 <? m); [|congruence]. by apply IH.
  - by apply IH.
Qed.

(** *** Sequences of operations *)

Inductive ConnectionOp := OpQueue (bytes : list byte) | OpFlush | OpRead.

(** The bytes of the accepted [QueueBytes], in order. *)
Fixpoint run_connection (ops : list ConnectionOp) (c : TcpConnection) (k : K)
    : list byte * TcpConnection * K :=
  match ops with
  | [] => ([], c, k)
  | op :: ops =>
      let '(accepted, c, k) :=
        match op with
        | OpQueue bytes => let '(b, c) := QueueBytes bytes c in ((if b then bytes else []), c, k)
        | OpFlush => let '(_, c, k) := Flush c k in ([], c, k)
        | OpRead => let '(_, (c, k)) := ReadAvailable (c, k) in ([], c, k)
        end in
      let '(more, c, k) := run_connection ops c k in (accepted ++ more, c, k)
  end.

Lemma recv_trace_handed n k fd fd' : handed (recv_trace n k fd).2 fd' = handed k fd'.
Proof.
  revert k. induction n as [|n IH]; intros k; [done|]. cbn [recv_trace].
  pose proof (recv_frame k fd (16 * 1024) fd') as [Hf _].
  destruct (k_recv k fd (16 * 1024)) as [[[|b bs]| | |] k']; cbn in Hf; try done.
  - specialize (IH k'). destruct (recv_trace n k' fd) as [[? ?] ?]. cbn in *. by rewrite IH.
  - by rewrite IH.
Qed.

Lemma run_connection_spec ops c k accepted c' k' :
  TcpInv c → run_connection ops c k = (accepted, c', k') →
  TcpInv c' ∧ descriptor_ c' = descriptor_ c ∧
  handed k' (descriptor_ c) ++ unsent c' = handed k (descriptor_ c) ++ unsent c ++ accepted.
Proof.
  revert c k accepted. induction ops as [|op ops IH]; intros c k accepted Hc; cbn [run_connection].
  { intros [= <- <- <-]. by rewrite app_nil_r. }
  assert (∃ a1 c1 k1,
    match op with
    | OpQueue bytes => let '(b, c) := QueueBytes bytes c in ((if b then bytes else []), c, k)
    | OpFlush => let '(_, c, k) := Flush c k in ([], c, k)
    | OpRead => let '(_, (c, k)) := ReadAvailable (c, k) in ([], c, k)
    end = (a1, c1, k1) ∧ TcpInv c1 ∧ descriptor_ c1 = descriptor_ c ∧
    handed k1 (descriptor_ c) ++ unsent c1 = handed k (descriptor_ c) ++ unsent c ++ a1)
    as (a1 & c1 & k1 & -> & Hc1 & Hd1 & Hh1).
  { destruct op as [bytes| |].
    - destruct (QueueBytes bytes c) as [b c1] eqn:E. apply QueueBytes_spec in E as (? & ? & _ & _ & Hu); [|done].
      eexists _, _, _. split; [reflexivity|]. by rewrite Hu.
    - destruct (Flush c k) as [[st c1] k1] eqn:E. apply Flush_spec in E as (? & ? & _ & _ & _ & Hu & _); [|done].
      eexists _, _, _. split; [reflexivity|]. by rewrite app_nil_r.
    - pose proof (ReadAvailable_run c k Hc) as Hr.
      pose proof (recv_trace_handed (S (recv_budget k (descriptor_ c))) k (descriptor_ c) (descriptor_ c)) as Hh.
      destruct (recv_trace _ k (descriptor_ c)) as [[data ending] k1]. destruct Hr as (d' & st & fs & -> & Hd' & _).
      eexists _, _, _. split; [reflexivity|]. split; [by apply set_decoder_inv|]. split; [done|].
      cbn in Hh. rewrite Hh, app_nil_r. done. }
  destruct (run_connection ops c1 k1) as [[more c2] k2] eqn:E. intros [= <- <- <-].
  apply IH in E as (Hc2 & Hd2 & Hh2); [|done]. split; [done|]. split; [congruence|].
  rewrite Hd1 in Hh2. rewrite Hh2, !app_assoc. f_equal. by rewrite <- !app_assoc.
Qed.
End loops.

(** ** Properties *)

(** C11: Bytes leave in order and exactly once: over any sequence of [QueueBytes],
    [Flush] and [ReadAvailable] calls, with partial writes, interruptions and a full
    socket wherever the kernel likes, what the kernel was handed followed by what is
    still queued is exactly the concatenation of the accepted buffers, and the bytes
    queued never exceed the connection's limit. *)
Theorem connection_output_in_order `{KernelLaws K} ops c (k : K) accepted c' k' :
  TcpInv c → run_connection ops c k = (accepted, c', k') →
  handed k' (descriptor_ c) ++ unsent c' = handed k (descriptor_ c) ++ unsent c ++ accepted ∧
  PendingBytes c' = size_of (unsent c') ∧ PendingBytes c' <= maximum_pending_bytes_ c'.
Proof.
  intros Hc E. apply run_connection_spec in E as (Hc' & _ & E); [|done]. split; [done|].
  rewrite PendingBytes_unsent by done. split; [done|]. apply Hc'.
Qed.

(** C32: [QueueBytes] accepts a buffer exactly when it fits under the limit beside
    what is pending, appends it whole or not at all, and its [size_t] subtractions
    never wrap around. *)
Theorem queue_bytes_bounded bytes c b c' :
  TcpInv c → QueueBytes bytes c = (b, c') →
  (b = true ↔ PendingBytes c + size_of bytes <= maximum_pending_bytes_ c) ∧
  unsent c' = (if b then unsent c ++ bytes else unsent c) ∧
  PendingBytes c' = PendingBytes c + (if b then size_of bytes else 0) ∧ TcpInv c'.
Proof.
  intros Hc E. apply QueueBytes_spec in E as (Hc' & _ & _ & Hb & Hu); [|done].
  rewrite !PendingBytes_unsent by done. rewrite Hu.
  destruct b; (split; [done|]); (split; [by rewrite ?app_nil_r|]); (split; [|done]).
  - unfold size_of. rewrite length_app. lia.
  - unfold size_of. rewrite app_nil_r. lia.
Qed.

(** [Flush] stops only because everything is sent, the socket would block (then
    the rest stays queued and the connection open) or the socket failed; the loop
    ends within the bytes pending plus the interruptions of the kernel. *)
Theorem flush_stops_for_a_reason `{KernelLaws K} c (k : K) st c' k' :
  TcpInv c → Flush c k = (st, c', k') →
  flush_stops (descriptor_ c) st c' k' ∧
  handed k' (descriptor_ c) ++ unsent c' = handed k (descriptor_ c) ++ unsent c.
Proof. intros Hc E. apply Flush_spec in E as (_ & _ & _ & _ & _ & E1 & E2); done. Qed.

(** C16: One [ReadAvailable] delivers exactly the complete frames of the bytes the
    socket had, after those left over from before, and keeps the incomplete rest:
    its status is the protocol error if the bytes have one, else whether the peer
    closed; a socket error delivers nothing, and only the socket can end the loop. *)
Theorem read_available_delivers_frames `{KernelLaws K} c (k : K) :
  TcpInv c →
  let '(data, ending, k') := recv_trace (S (recv_budget k (descriptor_ c))) k (descriptor_ c) in
  (ending = ReadFailed → ∃ k0, k_recv k0 (descriptor_ c) (16 * 1024) = (RecvError, k')) ∧
  ∃ d' st fs, ReadAvailable (c, k) = (Returns (st, fs), (set_decoder d' c, k')) ∧
    let s := stream_append (stream_of (decoder_ c)) data in
    match ending with
    | ReadFailed => st = kIoError ∧ fs = [] ∧ stream_of d' = s
    | _ => drain_all s = (fs, stream_of d') ∧
           st = if failed_ d' then kProtocolError
                else match ending with ReadClosed => kPeerClosed | _ => kOpen end
    end.
Proof.
  intros Hc. pose proof (ReadAvailable_run c k Hc) as Hr.
  destruct (recv_trace _ k (descriptor_ c)) as [[data ending] k'] eqn:E. split.
  - intros ->. eapply recv_trace_failed; [|exact E]. lia.
  - destruct Hr as (d' & st & fs & Er & _ & Hs). by exists d', st, fs.
Qed.

(** ** Witnesses *)

(** A connection on descriptor 5 with a limit of 8 bytes, and a kernel that takes
    two bytes, is interrupted, blocks, and received one heartbeat frame in two
    pieces before the peer closed. *)
Definition small_connection : TcpConnection :=
  {| descriptor_ := 5; decoder_ := fresh_decoder; output_ := []; output_offset_ := 0;
     maximum_pending_bytes_ := 8 |}.

Definition busy_kernel : ScriptKernel :=
  {| recv_script := {[5 := [Received [x00; x00; x00]; RecvEINTR;
                            Received [x00; x00; x00; x00; x04]; Received []]]};
     send_script := {[5 := [Sent 2; SendEINTR; SendEAGAIN]]};
     accept_script := []; handed_ := ∅; open_fds_ := {[5]}; epoll_set := ∅; epoll_fails := ∅ |}.

Lemma small_connection_inv : TcpInv small_connection.
Proof. split; try done. apply fresh_decoder_inv. Qed.

Definition five_bytes : list byte := [x01; x02; x03; x04; x05].

Lemma connection_output_in_order_witness :
  let r := run_connection [OpQueue five_bytes; OpFlush; OpQueue five_bytes; OpQueue five_bytes; OpRead]
             small_connection busy_kernel in
  handed r.2 5 ++ unsent r.1.2 = five_bytes ++ five_bytes ∧ handed r.2 5 = [x01; x02].
Proof.
  destruct (run_connection [OpQueue five_bytes; OpFlush; OpQueue five_bytes; OpQueue five_bytes; OpRead]
             small_connection busy_kernel) as [[acc c'] k'] eqn:E.
  destruct (connection_output_in_order _ small_connection busy_kernel acc c' k' small_connection_inv E)
    as [H _].
  vm_compute in E. injection E as <- <- <-. split; [exact H|]. vm_compute. reflexivity.
Defined.

Lemma queue_bytes_bounded_witness :
  let r := QueueBytes five_bytes (QueueBytes five_bytes small_connection).2 in
  r.1 = false ∧ PendingBytes r.2 = 5.
Proof.
  destruct (QueueBytes five_bytes small_connection) as [b1 c1] eqn:E1.
  destruct (queue_bytes_bounded five_bytes small_connection b1 c1 small_connection_inv E1)
    as (_ & _ & P1 & I1).
  destruct (QueueBytes five_bytes c1) as [b2 c2] eqn:E2. cbn [snd]. rewrite E2.
  destruct (queue_bytes_bounded five_bytes c1 b2 c2 I1 E2) as (_ & _ & P2 & _).
  vm_compute in E1. injection E1 as <- <-. vm_compute in E2. injection E2 as <- <-.
  split; [reflexivity|exact P2].
Defined.

Lemma flush_stops_for_a_reason_witness :
  let c := (QueueBytes five_bytes small_connection).2 in
  let r := Flush c busy_kernel in
  flush_stops 5 r.1.1 r.1.2 r.2 ∧ r.1.1 = kOpen ∧ unsent r.1.2 = [x03; x04; x05].
Proof.
  destruct (QueueBytes five_bytes small_connection) as [b1 c1] eqn:E1.
  destruct (queue_bytes_bounded five_bytes small_connection b1 c1 small_connection_inv E1)
    as (_ & _ & _ & I1).
  destruct (Flush c1 busy_kernel) as [[st c'] k'] eqn:E. cbn [snd]. rewrite E.
  destruct (flush_stops_for_a_reason c1 busy_kernel st c' k' I1 E) as [H _].
  vm_compute in E1. injection E1 as <- <-. vm_compute in E. injection E as <- <- <-.
  split; [exact H|]. split; reflexivity.
Defined.

Lemma read_available_delivers_frames_witness :
  (ReadAvailable (small_connection, busy_kernel)).1 = Returns (kPeerClosed, [heartbeat]).
Proof.
  pose proof (read_available_delivers_frames small_connection busy_kernel small_connection_inv) as H.
  destruct (recv_trace _ busy_kernel _) as [[data ending] k'] eqn:E.
  vm_compute in E. injection E as <- <- <-.
  destruct H as [_ (d' & st & fs & -> & Hs & Hst)]. cbn [fst].
  assert (drain_all (stream_append (stream_of fresh_decoder) [x00; x00; x00; x00; x00; x00; x00; x04])
    = ([heartbeat], {| limit := kDefaultMaxPayloadSize; pending := []; failure := None |})) as E
    by (vm_compute; reflexivity).
  cbn [decoder_ small_connection] in Hs. rewrite E in Hs. injection Hs as <- Hl Hp Hf.
  rewrite Hst. destruct (failed_ d'); [discriminate Hf|reflexivity].
Defined.
