(* ===== verification/BlockingClient.v ===== *)
(** * The blocking client

    [src/client/blocking_client.cpp]: one connection, its decoder, and the loops of
    [Send] and [Receive] over [Kernel], [Sockets] and the calls of [ClientClock]. The
    invariant relates the decoder to the bytes [recv] has delivered. *)

From Stdlib Require Import Strings.Byte.
From S2P Require Import Prelude FrameCodec FrameStream ProtobufCodec Kernel Sockets.

(** ** The calls with a timeout *)

Inductive PollResult := PollTimeout | PollReady (revents : Z) | PollEINTR | PollError.

Definition POLLIN : Z := 0x1.
Definition POLLERR : Z := 0x8.
Definition POLLNVAL : Z := 0x20.

(** [steady_clock::now()] in nanoseconds, [poll] of one descriptor for [POLLIN], and
    the number of readings of the clock that can still be before an instant. *)
Class ClientClock (K : Type) := {
  steady_now : K → Z * K;
  k_poll : K → Z → Z → PollResult * K;
  readings_before : K → Z → nat
}.

(** Time passes: the clock reaches every instant, whatever else is called. *)
Class ClientClockLaws (K : Type) `{SocketLaws K} `{ClientClock K} := {
  now_law k d :
    let '(t, k') := steady_now k in
    (readings_before k' d <= readings_before k d)%nat ∧
    (t < d → (readings_before k' d < readings_before k d)%nat) ∧
    (∀ fd, delivered k' fd = delivered k fd ∧ handed k' fd = handed k fd) ∧ same_fds k k';
  poll_law k fd t d :
    let k' := (k_poll k fd t).2 in
    (readings_before k' d <= readings_before k d)%nat ∧
    (∀ fd, delivered k' fd = delivered k fd ∧ handed k' fd = handed k fd) ∧ same_fds k k';
  recv_readings k fd n d : (readings_before (k_recv k fd n).2 d <= readings_before k d)%nat
}.

(** How long the calls take: [instant] is the steady clock's time. A reading lies within
    its call; [poll] waits no longer than its timeout, when that is not negative, and
    the whole of it before it says that nothing came; when it says that something came
    [recv] does not wait. Besides the waiting a call takes [latency] at most. *)
Class ClientTimeLaws (K : Type) `{ClientClockLaws K} := {
  instant : K → Z;
  latency : Z;
  readable : K → Z → Prop;
  now_time k :
    let '(t, k') := steady_now k in
    instant k <= t <= instant k' ∧ instant k' <= instant k + latency;
  poll_time k fd t : 0 <= t →
    let '(r, k') := k_poll k fd t in
    instant k <= instant k' <= instant k + t * 1000000 + latency ∧
    (r = PollTimeout → instant k + t * 1000000 <= instant k') ∧
    (∀ revents, r = PollReady revents → readable k' fd);
  recv_time k fd n : readable k fd →
    instant k <= instant (k_recv k fd n).2 <= instant k + latency
}.

(** ** The client *)

Inductive ReceiveStatus := rs_kFrameReady | rs_kTimeout | rs_kClosed | rs_kProtocolError | rs_kIoError.

#[export] Instance ReceiveStatus_eq_dec : EqDecision ReceiveStatus.
Proof. solve_decision. Defined.

Record BlockingClient := mkBlockingClient {
  bc_descriptor_ : Z;
  bc_decoder_ : FrameDecoder;
  bc_shutdown_ : bool
}.

Definition with_decoder (d : FrameDecoder) (c : BlockingClient) : BlockingClient :=
  {| bc_descriptor_ := bc_descriptor_ c; bc_decoder_ := d; bc_shutdown_ := bc_shutdown_ c |}.

(** [BlockingClient() = default]; the decoder has its default limit. *)
Definition BlockingClient_new : BlockingClient :=
  {| bc_descriptor_ := -1;
     bc_decoder_ := {| max_payload_size_ := kDefaultMaxPayloadSize; buffer_ := []; read_offset_ := 0;
                       failure_status_ := kNeedMoreData; failed_ := false |};
     bc_shutdown_ := false |}.

Definition Connected (c : BlockingClient) : bool := UniqueFd_valid (bc_descriptor_ c) && negb (bc_shutdown_ c).

Section client.
Context {K : Type} `{!Kernel K} `{!SocketApi K} `{!InetPton} `{!ClientClock K} `{!Protobuf}.

Definition Client_Connect (address : string) (port : Z) : St (BlockingClient * K) bool := λ '(c, k),
  let k := if UniqueFd_valid (bc_descriptor_ c)
           then UniqueFd_destroy (bc_descriptor_ c) (sk_shutdown k (bc_descriptor_ c)) else k in
  let c := {| bc_descriptor_ := -1; bc_decoder_ := bc_decoder_ c; bc_shutdown_ := false |} in
  let '(descriptor, k) := sk_socket k in
  match descriptor with
  | None => (false, (c, k))
  | Some descriptor =>
      let '(connected, k) :=
        match inet_pton address with
        | None => (false, k)
        | Some address => sk_connect k descriptor address port
        end in
      if negb connected then (false, (c, UniqueFd_destroy descriptor k))
      else (true, ({| bc_descriptor_ := descriptor; bc_decoder_ := Reset_ (bc_decoder_ c);
                      bc_shutdown_ := false |}, k))
  end.

(** The loop of [Send] over the bytes from [offset]; a call that does not end it has
    sent a byte or was interrupted. *)
Fixpoint client_send_loop (fuel : nat) (descriptor : Z) (bytes : list byte) (k : K) : bool * K :=
  match fuel, bytes with
  | _, [] => (true, k)
  | O, _ => (false, k)
  | S fuel, _ =>
      let '(sent, k) := k_send k descriptor bytes in
      match sent with
      | Sent n => if 0 <? n then client_send_loop fuel descriptor (drop (Z.to_nat n) bytes) k else (false, k)
      | SendEINTR => client_send_loop fuel descriptor bytes k
      | _ => (false, k)
      end
  end.

Definition Client_Send (type : MessageType) (message : ProtoMessage) : St (BlockingClient * K) bool := λ '(c, k),
  if negb (Connected c) then (false, (c, k))
  else
    match EncodeProtobufFrame type message kDefaultMaxPayloadSize with
    | Throws _ => (false, (c, k))
    | Returns bytes =>
        let '(ok, k) := client_send_loop (S (length bytes + send_budget k (bc_descriptor_ c))) (bc_descriptor_ c) bytes k in
        (ok, (c, k))
    end.

(** [duration_cast<milliseconds>(deadline - now)], and its conversion to [int]. *)
Definition remaining_ms (deadline now : Z) : Z := Z.quot (deadline - now) 1000000.
Definition s32 (z : Z) : Z := (z + 2 ^ 31) mod 2 ^ 32 - 2 ^ 31.

(** One turn of [Receive]'s loop: its result, or none to go round again. *)
Definition receive_turn (deadline : Z) (frame : Frame)
    : M (BlockingClient * K) (Frame * option ReceiveStatus) := λ '(c, k),
  let '(decode_status, frame, d) := Next (bc_decoder_ c) frame in
  let c := with_decoder d c in
  let return_ st k := (Returns (frame, Some st), (c, k)) in
  let continue_ c k := (Returns (frame, None), (c, k)) in
  if decide (decode_status = kFrameReady) then return_ rs_kFrameReady k
  else if decide (decode_status ≠ kNeedMoreData) then return_ rs_kProtocolError k
  else
    let '(now, k) := steady_now k in
    let remaining := remaining_ms deadline now in
    if remaining <=? 0 then return_ rs_kTimeout k
    else
      let '(poll_result, k) := k_poll k (bc_descriptor_ c) (s32 remaining) in
      match poll_result with
      | PollTimeout => return_ rs_kTimeout k
      | PollEINTR => continue_ c k
      | PollError => return_ rs_kIoError k
      | PollReady revents =>
          if negb (Z.land revents (Z.lor POLLERR POLLNVAL) =? 0) then return_ rs_kIoError k
          else
            let '(received, k) := k_recv k (bc_descriptor_ c) (16 * 1024) in
            match received with
            | Received [] => return_ rs_kClosed k
            | Received data =>
                match Append (bc_decoder_ c) data with
                | Returns d => continue_ (with_decoder d c) k
                | Throws e => (Throws e, (c, k))
                end
            | RecvEINTR | RecvEAGAIN => continue_ c k
            | RecvError => return_ rs_kIoError k
            end
      end.

(** The loop; the fuel bounds the readings of the clock before the deadline. *)
Fixpoint receive_loop (fuel : nat) (deadline : Z) (frame : Frame)
    : M (BlockingClient * K) (Frame * option ReceiveStatus) :=
  match fuel with
  | O => mret (frame, None)
  | S fuel =>
      r ← receive_turn deadline frame;
      match r.2 with
      | Some _ => mret r
      | None => receive_loop fuel deadline r.1
      end
  end.

(** [Receive(frame, timeout)], with [timeout] in milliseconds: the frame it leaves and
    its result, which is always there ([receive_refines_stream]). The deadline, a 64-bit
    count of nanoseconds in the code, does not wrap; how long the call takes is
    [Receive_time]. *)
Definition Receive (frame : Frame) (timeout : Z) : M (BlockingClient * K) (Frame * option ReceiveStatus) := λ '(c, k),
  if negb (Connected c) then (Returns (frame, Some rs_kClosed), (c, k))
  else
    let '(now, k) := steady_now k in
    let deadline := now + timeout * 1000000 in
    receive_loop (S (readings_before k deadline)) deadline frame (c, k).

Definition Client_Shutdown : St (BlockingClient * K) unit := λ '(c, k),
  if UniqueFd_valid (bc_descriptor_ c) && negb (bc_shutdown_ c) then
    (tt, ({| bc_descriptor_ := bc_descriptor_ c; bc_decoder_ := bc_decoder_ c; bc_shutdown_ := true |},
          sk_shutdown k (bc_descriptor_ c)))
  else (tt, (c, k)).
End client.

(** ** One call *)

Definition client_stream (c : BlockingClient) : Stream := stream_of (bc_decoder_ c).

(** What the frames still to come are, whether they are taken before or after. *)
Definition yields (s : Stream) (taken : list Frame) (s' : Stream) : Prop :=
  drain_all s = let '(fs, r) := drain_all s' in (taken ++ fs, r).

Lemma yields_refl s : yields s [] s.
Proof. unfold yields. by destruct (drain_all s). Qed.

Lemma yields_trans s1 s2 s3 more f1 f2 :
  yields s1 f1 s2 → yields (stream_append s2 more) f2 s3 → yields (stream_append s1 more) (f1 ++ f2) s3.
Proof.
  unfold yields. rewrite (drain_all_append s1), (drain_all_append s2). intros ->.
  destruct (drain_all s2) as [g1 r1]. destruct (drain_all (stream_append r1 more)) as [g2 r2].
  destruct (drain_all s3) as [g3 r3]. intros [= E ->]. by rewrite <- !app_assoc, E.
Qed.

Lemma stream_append_nil s : stream_append s [] = s.
Proof. unfold stream_append. rewrite app_nil_r. by destruct s. Qed.

Lemma stream_append_app s d1 d2 : stream_append (stream_append s d1) d2 = stream_append s (d1 ++ d2).
Proof. unfold stream_append. cbn. by rewrite app_assoc. Qed.

Lemma parse_frame_malformed max bs e :
  parse_frame max bs = Malformed e → e = kPayloadTooLarge ∨ e = kUnknownMessageId.
Proof. unfold parse_frame. repeat case_match; intros; simplify_eq; auto. Qed.

Lemma stream_next_need s f0 f s' : stream_next s f0 = (kNeedMoreData, f, s') → f = f0 ∧ s' = s.
Proof.
  unfold stream_next. destruct (failure s); [by intros [=]|].
  destruct (parse_frame _ _) as [|e|] eqn:E; [by intros [= <- <-]| |by intros [=]].
  intros [= -> _ _]. apply parse_frame_malformed in E as [|]; done.
Qed.

Lemma stream_next_not_ready s f0 e f s' : stream_next s f0 = (e, f, s') → e ≠ kFrameReady → f = f0.
Proof.
  unfold stream_next. destruct (failure s); [by intros [= _ <- _]|].
  destruct (parse_frame _ _); [by intros [= _ <- _]..|by intros [= <- _ _]].
Qed.

Lemma yields_ready s f0 f s' : stream_next s f0 = (kFrameReady, f, s') → yields s [f] s'.
Proof.
  unfold stream_next, yields. rewrite drain_all_step. destruct (failure s); [done|].
  destruct (parse_frame (limit s) (pending s)) as [|e|g rest] eqn:E; [done| |].
  - intros [= -> _ _]. apply parse_frame_malformed in E as [|]; done.
  - intros [= <- <-]. by destruct (drain_all _).
Qed.

(** A stream that failed yields nothing more. *)
Lemma yields_failed s f0 e f s' :
  stream_next s f0 = (e, f, s') → e ≠ kFrameReady → e ≠ kNeedMoreData → yields s [] s' ∧ is_Some (failure s').
Proof.
  unfold stream_next, yields. rewrite drain_all_step, (drain_all_step s'). destruct (failure s) as [e0|] eqn:Ef.
  { intros [= <- <- <-] _ _. by rewrite Ef. }
  destruct (parse_frame (limit s) (pending s)) as [|e'|g rest]; [by intros [= <- _ _]| |by intros [= <- _ _]].
  by intros [= <- <- <-].
Qed.

Lemma yields_failed_iff s l s' : yields s l s' → stream_failed s ↔ stream_failed s'.
Proof. unfold yields, stream_failed. intros ->. by destruct (drain_all s'). Qed.

(** [c], [k] and [c'], [k'] are the same connection, which has received [data]. *)
Definition received `{SocketLaws K} (data : list byte) (s s' : BlockingClient * K) : Prop :=
  bc_descriptor_ s'.1 = bc_descriptor_ s.1 ∧ bc_shutdown_ s'.1 = bc_shutdown_ s.1 ∧
  delivered s'.2 (bc_descriptor_ s.1) = delivered s.2 (bc_descriptor_ s.1) ++ data ∧
  handed s'.2 (bc_descriptor_ s.1) = handed s.2 (bc_descriptor_ s.1) ∧
  DecoderInv (bc_decoder_ s'.1) ∧ same_fds s.2 s'.2.

Lemma received_trans `{SocketLaws K} d1 d2 (s1 s2 s3 : BlockingClient * K) :
  received d1 s1 s2 → received d2 s2 s3 → received (d1 ++ d2) s1 s3.
Proof.
  intros (A1 & B1 & C1 & D1 & E1 & F1) (A2 & B2 & C2 & D2 & E2 & F2). rewrite A1 in *.
  repeat split; try congruence; try done; try apply E2; [|apply (transitivity F1 F2)..].
  by rewrite C2, C1, app_assoc.
Qed.

Section receive.
Context {K : Type} `{ClientClockLaws K}.
Implicit Types (c : BlockingClient) (k : K) (s : BlockingClient * K).

(** A state of the same connection that has received nothing more. *)
Lemma received_nothing c d k k' :
  DecoderInv d → (∀ fd, delivered k' fd = delivered k fd ∧ handed k' fd = handed k fd) → same_fds k k' →
  received [] (c, k) (with_decoder d c, k').
Proof.
  intros Hd Hf Hs. destruct (Hf (bc_descriptor_ c)) as [E1 E2]. unfold received. cbn. rewrite app_nil_r.
  do 4 (split; [done|]). by split.
Qed.

(** What a turn and a call have in common: [data] was received, and the stream it
    extends was read as the result says. *)
Definition read_as (s : BlockingClient * K) (f0 : Frame) (data : list byte) (r : Frame * option ReceiveStatus)
    (s' : BlockingClient * K) : Prop :=
  received data s s' ∧
  let S := stream_append (client_stream s.1) data in
  match r.2 with
  | Some rs_kFrameReady => stream_next S f0 = (kFrameReady, r.1, client_stream s'.1)
  | Some rs_kProtocolError => r.1 = f0 ∧
      ∃ e, e ≠ kFrameReady ∧ e ≠ kNeedMoreData ∧ stream_next S f0 = (e, f0, client_stream s'.1)
  | Some _ => r.1 = f0 ∧ client_stream s'.1 = S ∧ stream_next S f0 = (kNeedMoreData, f0, S)
  | None => r.1 = f0 ∧ client_stream s'.1 = S
  end.

Lemma receive_turn_spec deadline f0 s :
  DecoderInv (bc_decoder_ s.1) →
  wp (receive_turn deadline f0) (λ r s', ∃ data, read_as s f0 data r s' ∧
    match r.2 with
    | Some _ => data = []
    | None => (readings_before s'.2 deadline < readings_before s.2 deadline)%nat
    end) s.
Proof.
  destruct s as [c k]. cbn [fst snd]. intros Hd. pose proof (Next_refines (bc_decoder_ c) f0 Hd) as Hn.
  unfold wp, receive_turn. destruct (Next (bc_decoder_ c) f0) as [[st f] d]. destruct Hn as [Hd1 Hn].
  assert (∀ r st' k1, (∀ fd, delivered k1 fd = delivered k fd ∧ handed k1 fd = handed k fd) → same_fds k k1 →
    (match st' with
     | Some rs_kFrameReady => stream_next (client_stream c) f0 = (kFrameReady, r, stream_of d)
     | Some rs_kProtocolError => r = f0 ∧
         ∃ e, e ≠ kFrameReady ∧ e ≠ kNeedMoreData ∧ stream_next (client_stream c) f0 = (e, f0, stream_of d)
     | Some _ => r = f0 ∧ stream_of d = client_stream c ∧
         stream_next (client_stream c) f0 = (kNeedMoreData, f0, client_stream c)
     | None => r = f0 ∧ stream_of d = client_stream c
     end) → read_as (c, k) f0 [] (r, st') (with_decoder d c, k1)) as Hnil.
  { intros r st' k1 Hf Hs Hr. split; [by apply received_nothing|]. cbn [fst snd]. rewrite stream_append_nil.
    destruct st' as [[]|]; exact Hr. }
  case_decide as Hst.
  { exists []. split; [|done]. subst st. by apply Hnil. }
  case_decide as Hst2.
  { exists []. split; [|done]. apply Hnil; [done..|].
    assert (f = f0) as ->; [|by eauto]. by eapply stream_next_not_ready. }
  assert (st = kNeedMoreData) as -> by (destruct (decide (st = kNeedMoreData)); [done|by destruct Hst2]). clear Hst2.
  assert (f = f0 ∧ stream_of d = client_stream c) as [-> Es].
  { by apply stream_next_need in Hn as [? ?]. }
  unfold client_stream in Hnil, Es. rewrite Es in Hn, Hnil.
  pose proof (now_law k deadline) as Ht. destruct (steady_now k) as [now k1].
  destruct Ht as (Hb1 & Hb2 & Hf1 & Hs1). destruct (remaining_ms deadline now <=? 0) eqn:Er.
  { exists []. split; [|done]. by apply Hnil. }
  assert (now < deadline) as Hlt.
  { apply Z.leb_gt in Er. unfold remaining_ms in Er.
    destruct (Z.lt_ge_cases now deadline); [done|]. exfalso.
    pose proof (Z.quot_opp_l (deadline - now) 1000000 ltac:(done)).
    pose proof (Z.quot_pos (- (deadline - now)) 1000000 ltac:(lia) ltac:(lia)). lia. }
  specialize (Hb2 Hlt). pose proof (poll_law k1 (bc_descriptor_ c) (s32 (remaining_ms deadline now)) deadline) as Hp.
  cbn [with_decoder bc_descriptor_]. destruct (k_poll k1 _ _) as [pr k2]. cbn [snd] in Hp. destruct Hp as (Hb3 & Hf2 & Hs2).
  assert (∀ fd, delivered k2 fd = delivered k fd ∧ handed k2 fd = handed k fd) as Hf3.
  { intros fd. destruct (Hf1 fd), (Hf2 fd). split; congruence. }
  assert (same_fds k k2) as Hs3 by (by etrans).
  destruct pr as [|revents| |].
  { exists []. split; [|done]. by apply Hnil. }
  2: { exists []. split; [|cbn [fst snd]; lia]. by apply Hnil. }
  2: { exists []. split; [|done]. by apply Hnil. }
  destruct (negb _). { exists []. split; [|done]. by apply Hnil. }
  pose proof (recv_frame k2 (bc_descriptor_ c) (16 * 1024) (bc_descriptor_ c)) as (Hh & Ho & Ha).
  pose proof (recv_delivered k2 (bc_descriptor_ c) (16 * 1024)) as Hdl.
  pose proof (recv_readings k2 (bc_descriptor_ c) (16 * 1024) deadline) as Hrd.
  destruct (k_recv k2 (bc_descriptor_ c) (16 * 1024)) as [rc k3]. cbn [fst snd] in *.
  assert (same_fds k k3) as Hs4 by (etrans; [exact Hs3|by split]).
  destruct (Hf3 (bc_descriptor_ c)) as [Ed Eh].
  assert (∀ data d', DecoderInv d' → delivered k3 (bc_descriptor_ c) = delivered k2 (bc_descriptor_ c) ++ data →
    received data (c, k) (with_decoder d' c, k3)) as Hrec.
  { intros data d' Hd' E. unfold received. cbn. rewrite E, Ed, Hh, Eh. do 4 (split; [done|]). by split. }
  assert (∀ st', match st' with Some rs_kFrameReady | Some rs_kProtocolError => False | _ => True end →
    delivered k3 (bc_descriptor_ c) = delivered k2 (bc_descriptor_ c) ++ [] →
    read_as (c, k) f0 [] (f0, st') (with_decoder d c, k3)) as Hnone.
  { intros st' Hst' E. split; [by apply Hrec|]. cbn [fst snd client_stream with_decoder bc_decoder_].
    unfold client_stream. cbn [bc_decoder_ with_decoder]. rewrite stream_append_nil, Es. by destruct st' as [[]|]. }
  destruct rc as [[|b bs]| | |]; cbn [app] in Hdl.
  - exists []. split; [|done]. by apply Hnone.
  - cbn [bc_decoder_ with_decoder]. rewrite Append_returns. exists (b :: bs). cbn [fst snd]. split; [|lia].
    set (d' := mkFrameDecoder _ _ _ _ _).
    destruct (Append_refines d (b :: bs) d' Hd1) as [Hd' E']; [apply Append_returns|].
    split; [by apply Hrec|]. cbn [fst snd]. split; [done|]. unfold client_stream. cbn [bc_decoder_ with_decoder].
    by rewrite E', Es.
  - exists []. split; [|cbn [fst snd]; lia]. by apply Hnone.
  - exists []. split; [|cbn [fst snd]; lia]. by apply Hnone.
  - exists []. split; [|done]. by apply Hnone.
Qed.

(** The loop ends, and reads the stream of all that was received. *)
Lemma receive_loop_spec fuel deadline f0 s :
  DecoderInv (bc_decoder_ s.1) → (readings_before s.2 deadline < fuel)%nat →
  wp (receive_loop fuel deadline f0) (λ r s', ∃ data, read_as s f0 data r s' ∧ is_Some r.2) s.
Proof.
  revert s. induction fuel as [|fuel IH]; intros s Hd Hfuel; [lia|]. cbn [receive_loop]. apply wp_bind.
  eapply wp_wand; [by apply receive_turn_spec|]. intros [f st] s1 (data & Hread & Hend). cbn [fst snd] in *.
  destruct st as [st|].
  { apply wp_ret. exists data. by split. }
  destruct Hread as [Hrec [Hf Hst]]. cbn [fst snd] in *. subst f.
  eapply wp_wand; [apply IH; [apply Hrec|lia]|]. intros r s2 (data2 & [Hrec2 Hread2] & Hr).
  exists (data ++ data2). split; [|done]. split; [by eapply received_trans|]. cbn [fst snd] in *.
  by rewrite Hst, stream_append_app in Hread2.
Qed.

Lemma Receive_spec f0 timeout s :
  DecoderInv (bc_decoder_ s.1) → Connected s.1 = true →
  wp (Receive f0 timeout) (λ r s', ∃ data, read_as s f0 data r s' ∧ is_Some r.2) s.
Proof.
  destruct s as [c k]. intros Hd Hc. cbn [fst] in *. unfold wp, Receive. rewrite Hc. cbn [negb].
  pose proof (now_law k 0) as Ht. destruct (steady_now k) as [now k1]. destruct Ht as (_ & _ & Hf & Hs).
  pose proof (receive_loop_spec (S (readings_before k1 (now + timeout * 1000000))) (now + timeout * 1000000) f0
    (c, k1) Hd ltac:(cbn; lia)) as Hl. unfold wp in Hl. destruct (receive_loop _ _ _ _) as [[r|e] s']; [|done].
  destruct Hl as (data & [Hrec Hread] & Hr). exists data. split; [|done]. split; [|done].
  apply (received_trans [] data _ (c, k1)); [|done]. by destruct c; apply received_nothing.
Qed.
End receive.

(** *** How long [Receive] takes *)

Section time.
Context {K : Type} `{ClientTimeLaws K}.
Implicit Types (c : BlockingClient) (k : K) (s : BlockingClient * K).

(** The milliseconds left: whole ones, and an [int] when they fit. *)
Lemma remaining_ms_spec deadline now :
  0 < remaining_ms deadline now → deadline <= now + (2 ^ 31 - 1) * 1000000 →
  s32 (remaining_ms deadline now) = remaining_ms deadline now ∧
  now + remaining_ms deadline now * 1000000 <= deadline < now + (remaining_ms deadline now + 1) * 1000000.
Proof.
  unfold remaining_ms, s32. intros Hpos Hmax.
  assert (0 <= deadline - now) as Hge.
  { destruct (Z.le_gt_cases 0 (deadline - now)) as [|Hlt]; [done|].
    pose proof (Z.quot_opp_l (deadline - now) 1000000 ltac:(done)).
    pose proof (Z.quot_pos (- (deadline - now)) 1000000 ltac:(lia) ltac:(lia)). lia. }
  rewrite Z.quot_div_nonneg in * by lia.
  pose proof (Z.mul_div_le (deadline - now) 1000000 ltac:(lia)).
  pose proof (Z.mul_succ_div_gt (deadline - now) 1000000 ltac:(lia)).
  rewrite Z.mod_small by lia. lia.
Qed.

Lemma remaining_ms_none deadline now :
  remaining_ms deadline now <= 0 → deadline < now + 1000000.
Proof.
  unfold remaining_ms. intros Hr. destruct (Z.lt_ge_cases deadline now); [lia|].
  rewrite Z.quot_div_nonneg in Hr by lia. pose proof (Z.mul_succ_div_gt (deadline - now) 1000000 ltac:(lia)). lia.
Qed.

(** A turn: it reads the clock before the deadline or ends, and never waits beyond it. *)
Definition turn_time (deadline : Z) (s s' : BlockingClient * K) (st : option ReceiveStatus) : Prop :=
  instant s.2 <= instant s'.2 ∧
  instant s'.2 <= Z.max (instant s.2 + latency) (deadline + 3 * latency) ∧
  match st with
  | None => instant s'.2 <= deadline + 3 * latency
  | Some rs_kTimeout => deadline < instant s'.2 + 1000000
  | Some _ => True
  end.

Lemma receive_turn_time deadline f0 s :
  deadline <= instant s.2 + (2 ^ 31 - 1) * 1000000 →
  wp (receive_turn deadline f0) (λ r s', turn_time deadline s s' r.2) s.
Proof.
  destruct s as [c k]. cbn [snd]. intros Hmax. unfold wp, receive_turn, turn_time.
  destruct (Next (bc_decoder_ c) f0) as [[st f] d]. pose proof (now_time k) as Ht.
  destruct (steady_now k) as [now k1]. destruct Ht as [Ht1 Ht2].
  case_decide; [cbn; lia|]. case_decide; [cbn; lia|].
  destruct (remaining_ms deadline now <=? 0) eqn:Er.
  { apply Z.leb_le, remaining_ms_none in Er. cbn. lia. }
  apply Z.leb_gt in Er. destruct (remaining_ms_spec deadline now Er) as [-> Hr]; [lia|].
  pose proof (poll_time k1 (bc_descriptor_ (with_decoder d c)) (remaining_ms deadline now) ltac:(lia)) as Hp.
  set (rem := remaining_ms deadline now) in *. clearbody rem.
  destruct (k_poll k1 _ _) as [pr k2]. destruct Hp as (Hp & Hto & Hready).
  destruct pr as [|revents| |]; [specialize (Hto eq_refl); cbn; lia| |cbn; lia..].
  destruct (negb _); [cbn; lia|].
  pose proof (recv_time k2 (bc_descriptor_ (with_decoder d c)) (16 * 1024) (Hready revents eq_refl)) as Hrv.
  destruct (k_recv k2 _ _) as [rc k3]. cbn [snd] in Hrv.
  destruct rc as [[|b bs]| | |]; try (cbn; lia). rewrite Append_returns. cbn. lia.
Qed.

Lemma receive_loop_time fuel deadline f0 s :
  instant s.2 <= deadline + 3 * latency → deadline <= instant s.2 + (2 ^ 31 - 1) * 1000000 →
  wp (receive_loop fuel deadline f0) (λ r s',
    instant s'.2 <= deadline + 4 * latency ∧ (r.2 = Some rs_kTimeout → deadline < instant s'.2 + 1000000)) s.
Proof.
  assert (0 <= latency) as Hl.
  { pose proof (now_time s.2) as Ht. destruct (steady_now s.2). lia. }
  revert f0 s. induction fuel as [|fuel IH]; intros f0 s Hs Hmax; cbn [receive_loop].
  { apply wp_ret. cbn. split; [lia|done]. }
  apply wp_bind. eapply wp_wand; [by apply receive_turn_time|]. intros [f st] s1 (Hle & Hmid & Hst). cbn [fst snd] in *.
  destruct st as [st|]; [|apply IH; lia].
  apply wp_ret. cbn [snd]. split; [lia|]. intros [= ->]. exact Hst.
Qed.

(** [Receive] is back by its timeout, up to the calls' own time, and reports it after no
    less than the timeout, up to a millisecond. *)
Lemma Receive_time f0 timeout s :
  Connected s.1 = true → 0 <= timeout < 2 ^ 31 →
  wp (Receive f0 timeout) (λ r s',
    instant s'.2 <= instant s.2 + timeout * 1000000 + 5 * latency ∧
    (r.2 = Some rs_kTimeout → instant s.2 + (timeout - 1) * 1000000 < instant s'.2)) s.
Proof.
  destruct s as [c k]. cbn [fst snd]. intros Hc Htm. unfold wp, Receive. rewrite Hc. cbn [negb].
  pose proof (now_time k) as Ht. destruct (steady_now k) as [now k1].
  pose proof (receive_loop_time (S (readings_before k1 (now + timeout * 1000000))) (now + timeout * 1000000) f0 (c, k1)
    ltac:(cbn; lia) ltac:(cbn; lia)) as Hl. unfold wp in Hl.
  destruct (receive_loop _ _ _ _) as [[r|e] s']; [|done]. destruct Hl as [Hl1 Hl2]. split; [lia|].
  intros Hst. specialize (Hl2 Hst). lia.
Qed.
End time.

(** *** [Send] *)

Section send.
Context {K : Type} `{SocketLaws K} `{!Protobuf}.
Implicit Types (c : BlockingClient) (k : K).

(** A successful loop has handed over all the bytes, a failed one a part of them. *)
Lemma client_send_loop_spec fuel fd bytes k :
  (length bytes + send_budget k fd < fuel)%nat →
  let '(ok, k') := client_send_loop fuel fd bytes k in
  same_fds k k' ∧ delivered k' fd = delivered k fd ∧
  ∃ part, handed k' fd = handed k fd ++ part ∧ part `prefix_of` bytes ∧ (ok = true → part = bytes).
Proof.
  revert bytes k. induction fuel as [|fuel IH]; intros bytes k Hf; [lia|].
  destruct bytes as [|b bytes']; [cbn; split; [done|split; [done|]]; exists []; by rewrite app_nil_r|].
  cbn [client_send_loop]. set (bytes := b :: bytes') in *.
  pose proof (send_law k fd bytes) as Hl. pose proof (send_frame k fd bytes) as Hs.
  pose proof (send_delivered k fd bytes) as Hd. destruct (k_send k fd bytes) as [r k1]. cbn [fst snd] in *.
  assert (∀ ok k2, handed k1 fd = handed k fd →
    same_fds k1 k2 ∧ delivered k2 fd = delivered k1 fd ∧
    (∃ part, handed k2 fd = handed k1 fd ++ part ∧ part `prefix_of` bytes ∧ (ok = true → part = bytes)) →
    same_fds k k2 ∧ delivered k2 fd = delivered k fd ∧
    (∃ part, handed k2 fd = handed k fd ++ part ∧ part `prefix_of` bytes ∧ (ok = true → part = bytes))) as Hstep.
  { intros ok k2 E (A & B & C). split; [by etrans|]. split; [congruence|]. by rewrite <- E. }
  assert (∀ k2, handed k2 fd = handed k fd → same_fds k k2 → delivered k2 fd = delivered k fd →
    same_fds k k2 ∧ delivered k2 fd = delivered k fd ∧
    (∃ part, handed k2 fd = handed k fd ++ part ∧ part `prefix_of` bytes ∧ (false = true → part = bytes))) as Hfail.
  { intros k2 E ? ?. split; [done|]. split; [done|]. exists []. rewrite app_nil_r. split; [done|].
    split; [apply prefix_nil|done]. }
  destruct r as [n| | |]; [| |by apply Hfail..].
  - destruct Hl as (Hn & Hb & Hh). destruct (0 <? n) eqn:En.
    + apply Z.ltb_lt in En. pose proof (IH (drop (Z.to_nat n) bytes) k1) as Hi.
      destruct (client_send_loop fuel fd _ k1) as [ok k2]. destruct Hi as (A & B & part & C & D & E).
      { rewrite length_drop. unfold size_of in Hn. cbn [length] in *. lia. }
      split; [by etrans|]. split; [congruence|]. exists (take (Z.to_nat n) bytes ++ part).
      rewrite C, Hh, app_assoc. split; [done|]. split.
      * rewrite <- (take_drop (Z.to_nat n) bytes) at 2. by apply prefix_app.
      * intros ->. rewrite E by done. apply take_drop.
    + apply Z.ltb_ge in En. assert (n = 0) as -> by lia. apply Hfail; [|done|done]. by rewrite Hh, app_nil_r.
  - destruct Hl as [Hb Hh]. pose proof (IH bytes k1 ltac:(lia)) as Hi.
    destruct (client_send_loop fuel fd bytes k1) as [ok k2]. by apply Hstep.
Qed.

Lemma Client_Send_spec ty m c k :
  sp (Client_Send ty m) (λ ok s', s'.1 = c ∧ same_fds k s'.2 ∧
    delivered s'.2 (bc_descriptor_ c) = delivered k (bc_descriptor_ c) ∧
    ∃ part, handed s'.2 (bc_descriptor_ c) = handed k (bc_descriptor_ c) ++ part ∧
      (part = [] ∨ ∃ bytes, EncodeProtobufFrame ty m kDefaultMaxPayloadSize = Returns bytes ∧ part `prefix_of` bytes) ∧
      (ok = true → EncodeProtobufFrame ty m kDefaultMaxPayloadSize = Returns part)) (c, k).
Proof.
  unfold sp, Client_Send.
  assert (∃ part, handed k (bc_descriptor_ c) = handed k (bc_descriptor_ c) ++ part ∧
    (part = [] ∨ ∃ bytes, EncodeProtobufFrame ty m kDefaultMaxPayloadSize = Returns bytes ∧ part `prefix_of` bytes) ∧
    (false = true → EncodeProtobufFrame ty m kDefaultMaxPayloadSize = Returns part)) as Hnone.
  { exists []. rewrite app_nil_r. by split; [|split; [left|]]. }
  destruct (negb (Connected c)); [done|]. destruct (EncodeProtobufFrame _ _ _) as [bytes|e]; [|done].
  pose proof (client_send_loop_spec (S (length bytes + send_budget k (bc_descriptor_ c))) (bc_descriptor_ c) bytes k
    ltac:(lia)) as Hl.
  destruct (client_send_loop _ _ _ _) as [ok k']. destruct Hl as (A & B & part & C & D & E). cbn [fst snd].
  split; [done|]. split; [done|]. split; [done|]. exists part. split; [done|]. split; [right; by exists bytes|].
  intros Hok. by rewrite (E Hok).
Qed.
End send.

(** ** A session *)

Inductive ClientOp := CReceive (timeout : Z) | CSend (type : MessageType) (message : ProtoMessage) | CShutdown.

Inductive ClientEvent :=
| Got (status : option ReceiveStatus) (frame : Frame)
| DidSend (ok : bool) (type : MessageType) (message : ProtoMessage)
| DidShutdown.

Definition run_client_op {K} `{Kernel K} `{!SocketApi K} `{!ClientClock K} `{!Protobuf} (op : ClientOp)
    : M (BlockingClient * K) ClientEvent :=
  match op with
  | CReceive timeout => r ← Receive empty_frame timeout; mret (Got r.2 r.1)
  | CSend type message => λ s, let '(ok, s) := Client_Send type message s in (Returns (DidSend ok type message), s)
  | CShutdown => λ s, let '(_, s) := Client_Shutdown s in (Returns DidShutdown, s)
  end.

Fixpoint run_client {K} `{Kernel K} `{!SocketApi K} `{!ClientClock K} `{!Protobuf} (ops : list ClientOp)
    : M (BlockingClient * K) (list ClientEvent) :=
  match ops with
  | [] => mret []
  | op :: ops => e ← run_client_op op; es ← run_client ops; mret (e :: es)
  end.

(** The frames received, and the bytes of the messages sent. *)
Definition got_frame (e : ClientEvent) : option Frame :=
  match e with Got (Some rs_kFrameReady) f => Some f | _ => None end.

Definition sent_bytes `{Protobuf} (e : ClientEvent) : list byte :=
  match e with
  | DidSend true ty m =>
      match EncodeProtobufFrame ty m kDefaultMaxPayloadSize with Returns bytes => bytes | Throws _ => [] end
  | _ => []
  end.

Definition send_failed (e : ClientEvent) : bool := match e with DidSend false _ _ => true | _ => false end.

Section session.
Context {K : Type} `{ClientClockLaws K} `{!Protobuf}.
Implicit Types (s : BlockingClient * K).

(** What an event says of the state before and after it. *)
Definition event_spec (e : ClientEvent) s s' : Prop :=
  bc_descriptor_ s'.1 = bc_descriptor_ s.1 ∧ DecoderInv (bc_decoder_ s'.1) ∧ same_fds s.2 s'.2 ∧
  (∃ data, delivered s'.2 (bc_descriptor_ s.1) = delivered s.2 (bc_descriptor_ s.1) ++ data ∧
     yields (stream_append (client_stream s.1) data) (option_list (got_frame e)) (client_stream s'.1)) ∧
  (send_failed e = false →
     handed s'.2 (bc_descriptor_ s.1) = handed s.2 (bc_descriptor_ s.1) ++ sent_bytes e) ∧
  (∀ st f, e = Got st f → is_Some st ∧
     (st = Some rs_kTimeout → drain_all (client_stream s'.1) = ([], client_stream s'.1)) ∧
     (st = Some rs_kProtocolError → is_Some (failure (client_stream s'.1)))).

Lemma quiet_event e s s' :
  bc_descriptor_ s'.1 = bc_descriptor_ s.1 → bc_decoder_ s'.1 = bc_decoder_ s.1 → DecoderInv (bc_decoder_ s.1) →
  same_fds s.2 s'.2 →
  delivered s'.2 (bc_descriptor_ s.1) = delivered s.2 (bc_descriptor_ s.1) →
  (send_failed e = false → handed s'.2 (bc_descriptor_ s.1) = handed s.2 (bc_descriptor_ s.1) ++ sent_bytes e) →
  got_frame e = None → (∀ st f, e = Got st f → st = Some rs_kClosed) → event_spec e s s'.
Proof.
  intros E1 E2 Hd Hs E3 E4 Eg Est. split; [done|]. split; [by rewrite E2|]. split; [done|]. split.
  { exists []. rewrite app_nil_r, stream_append_nil, Eg. split; [done|]. unfold client_stream. rewrite E2. apply yields_refl. }
  split; [done|]. intros st f ->. rewrite (Est st f eq_refl). by split.
Qed.

Lemma drain_all_need S f0 : stream_next S f0 = (kNeedMoreData, f0, S) → drain_all S = ([], S).
Proof.
  unfold stream_next. rewrite drain_all_step. destruct (failure S); [by intros [=]|].
  destruct (parse_frame _ _) as [|e|] eqn:E; [done| |by intros [=]].
  intros [= -> _]. apply parse_frame_malformed in E as [|]; done.
Qed.

Lemma run_client_op_spec op s :
  DecoderInv (bc_decoder_ s.1) → wp (run_client_op op) (λ e s', event_spec e s s') s.
Proof.
  intros Hd. destruct op as [timeout|ty m|].
  - apply wp_bind. destruct (Connected s.1) eqn:Hc.
    2: { destruct s as [c k]. cbn [fst] in Hc. unfold wp, Receive. rewrite Hc. cbn.
         apply quiet_event; try done; [by rewrite app_nil_r|by intros st f [= <- <-]]. }
    eapply wp_wand; [by apply Receive_spec|]. intros [f st] s' (data & [(A & _ & B & C & D & E) Hr] & [st' Hst]).
    cbn [fst snd] in *. subst st. apply wp_ret. split; [done|]. split; [done|]. split; [done|]. cbn [fst snd].
    set (S := stream_append (client_stream s.1) data) in *. split; [|split; [by rewrite app_nil_r|]].
    + exists data. split; [done|]. fold S. destruct st'; cbn [got_frame option_list].
      * by eapply yields_ready.
      * destruct Hr as (_ & -> & _). apply yields_refl.
      * destruct Hr as (_ & -> & _). apply yields_refl.
      * destruct Hr as (_ & e & He1 & He2 & He3). by eapply yields_failed.
      * destruct Hr as (_ & -> & _). apply yields_refl.
    + intros st f' [= <- <-]. split; [done|]. split.
      * intros [= ->]. destruct Hr as (_ & -> & Hn). by eapply drain_all_need.
      * intros [= ->]. destruct Hr as (_ & e & He1 & He2 & He3). by eapply yields_failed.
  - destruct s as [c k]. pose proof (Client_Send_spec ty m c k) as Hs. unfold sp in Hs. unfold wp. cbn [run_client_op].
    destruct (Client_Send ty m (c, k)) as [ok [c' k']]. cbn [fst snd] in *.
    destruct Hs as (-> & A & B & part & C & _ & E). apply quiet_event; try done. cbn [send_failed].
    destruct ok; [|done]. intros _. cbn [sent_bytes fst snd]. by rewrite E, C.
  - destruct s as [c k]. unfold wp. cbn [run_client_op]. unfold Client_Shutdown.
    destruct (shutdown_frame k (bc_descriptor_ c) (bc_descriptor_ c)) as (A & B & C).
    destruct (_ && _); apply quiet_event; try done; cbn [fst snd sent_bytes]; intros; by rewrite ?app_nil_r.
Qed.

(** The same of a whole run. *)
Lemma run_client_spec ops s :
  DecoderInv (bc_decoder_ s.1) →
  wp (run_client ops) (λ es s',
    bc_descriptor_ s'.1 = bc_descriptor_ s.1 ∧ DecoderInv (bc_decoder_ s'.1) ∧ same_fds s.2 s'.2 ∧
    (∃ data, delivered s'.2 (bc_descriptor_ s.1) = delivered s.2 (bc_descriptor_ s.1) ++ data ∧
       yields (stream_append (client_stream s.1) data) (omap got_frame es) (client_stream s'.1)) ∧
    (existsb send_failed es = false →
       handed s'.2 (bc_descriptor_ s.1) = handed s.2 (bc_descriptor_ s.1) ++ concat (sent_bytes <$> es)) ∧
    (∀ f, last es = Some (Got (Some rs_kTimeout) f) → drain_all (client_stream s'.1) = ([], client_stream s'.1)) ∧
    (∀ f, Got (Some rs_kProtocolError) f ∈ es → stream_failed (client_stream s'.1)) ∧
    (∀ st f, Got st f ∈ es → is_Some st) ∧ (es = [] → s' = s)) s.
Proof.
  revert s. induction ops as [|op ops IH]; intros s Hd.
  { apply wp_ret. split; [done|]. split; [done|]. split; [done|]. split.
    { exists []. rewrite app_nil_r, stream_append_nil. split; [done|apply yields_refl]. }
    split; [by rewrite app_nil_r|]. split; [done|]. split; [by intros f ?%elem_of_nil|].
    split; [by intros st f ?%elem_of_nil|done]. }
  apply wp_bind. eapply wp_wand; [by apply run_client_op_spec|].
  intros e s1 (A1 & B1 & C1 & (data1 & D1 & Y1) & S1 & G1). apply wp_bind.
  eapply wp_wand; [by apply IH|]. intros es s2 (A2 & B2 & C2 & (data2 & D2 & Y2) & S2 & T2 & P2 & G2 & N2).
  apply wp_ret. rewrite A1 in *. split; [congruence|]. split; [done|]. split; [by etrans|].
  pose proof (yields_trans _ _ _ data2 _ _ Y1 Y2) as Y. rewrite stream_append_app in Y. split; [|split; [|split; [|split; [|split]]]].
  - exists (data1 ++ data2). rewrite D2, D1, app_assoc. split; [done|]. cbn [omap list_omap].
    by destruct (got_frame e).
  - cbn [existsb fmap list_fmap concat]. intros [E1 E2]%orb_false_iff. by rewrite S2, S1, app_assoc.
  - intros f. destruct es as [|e2 es]; [|by apply T2]. cbn [last]. intros [= ->].
    destruct (G1 _ _ eq_refl) as (_ & Ht & _). specialize (Ht eq_refl).
    by rewrite N2.
  - intros f [E|Hf]%elem_of_cons; [|by eapply P2]. destruct (G1 _ _ (eq_sym E)) as (_ & _ & Hp).
    apply (yields_failed_iff _ _ _ Y2), stream_failed_append. unfold stream_failed.
    rewrite drain_all_failed; by apply Hp.
  - intros st f [E|Hf]%elem_of_cons; [|by eapply G2]. by destruct (G1 _ _ (eq_sym E)).
  - done.
Qed.
End session.
