(* ===== verification/ClientProperties.v ===== *)
(** * What the client guarantees

    The properties of [BlockingClient], the composition of a server's connection with
    a client across the wire, and concrete runs on [NetKernel]. *)

From Stdlib Require Import Strings.Byte.
From S2P Require Import Prelude FrameCodec FrameStream ProtobufCodec Kernel Sockets TcpConnection BlockingClient.

(** Each reading takes a nanosecond; [poll] waits its timeout out when the script has
    nothing to deliver. *)
#[export] Instance net_clock : ClientClock NetKernel := {
  steady_now n :=
    (clock_ns n, {| base := base n; history := history n; next_fds := next_fds n; sock_faults := sock_faults n;
                    bound := bound n; clock_ns := clock_ns n + 1 |});
  k_poll n fd t :=
    match recv_script (base n) !! fd with
    | Some (_ :: _) => (PollReady POLLIN, n)
    | _ => (PollTimeout, {| base := base n; history := history n; next_fds := next_fds n; sock_faults := sock_faults n;
                            bound := bound n; clock_ns := clock_ns n + Z.max 0 t * 1000000 |})
    end;
  readings_before n d := Z.to_nat (d - clock_ns n)
}.

#[export] Instance net_clock_laws : ClientClockLaws NetKernel.
Proof.
  split; cbn.
  - intros n d. repeat split; cbn; lia.
  - intros n fd t d. destruct (recv_script (base n) !! fd) as [[|]|]; repeat split; cbn; lia.
  - intros n fd m d. unfold net_recv. by destruct (script_recv (base n) fd) as [r k].
Qed.

#[export] Instance net_time_laws : ClientTimeLaws NetKernel.
Proof.
  refine {| instant := clock_ns; latency := 1; readable n fd := True |}.
  - intros n. cbn. lia.
  - intros n fd t Ht. cbn. by destruct (recv_script (base n) !! fd) as [[|]|]; cbn; repeat split; intros; try done; lia.
  - intros n fd m _. cbn. unfold net_recv. destruct (script_recv (base n) fd) as [r k]. cbn. lia.
Defined.

Section facts.
Context {K : Type} `{SocketLaws K} `{!InetPton}.

Definition connected_ok (old : Z) (k : K) (ok : bool) (s' : BlockingClient * K) (max : Z) : Prop :=
  let '(c', k') := s' in
  open_fds k' = (if ok then {[bc_descriptor_ c']} else ∅) ∪ (if 0 <=? old then open_fds k ∖ {[old]} else open_fds k) ∧
  BlockingClient.Connected c' = ok ∧
  if ok then
    (bc_descriptor_ c' = old ∨ bc_descriptor_ c' ∉ open_fds k) ∧ DecoderInv (bc_decoder_ c') ∧
    client_stream c' = {| limit := max; pending := []; failure := None |} ∧
    delivered k' (bc_descriptor_ c') = [] ∧ handed k' (bc_descriptor_ c') = []
  else bc_descriptor_ c' = -1.

Lemma Client_Connect_spec address port (c : BlockingClient) (k : K) :
  sp (Client_Connect address port) (λ ok s',
    connected_ok (bc_descriptor_ c) k ok s' (max_payload_size_ (bc_decoder_ c))) (c, k).
Proof.
  unfold sp, Client_Connect, UniqueFd_destroy, UniqueFd_Reset, UniqueFd_valid. set (old := bc_descriptor_ c).
  set (k0 := if 0 <=? old then _ else k).
  assert (open_fds k0 = if 0 <=? old then open_fds k ∖ {[old]} else open_fds k) as Ho.
  { unfold k0. destruct (0 <=? old); [|done]. cbn [snd]. destruct (close_law (sk_shutdown k old) old) as [-> _].
    by destruct (shutdown_frame k old old) as ([-> _] & _). }
  destruct (socket_law k0) as [[_ Hc] Hdl]. destruct (sk_socket k0) as [[fd|] k1]; cbn [fst snd] in *.
  2: { cbn. rewrite Hc, Ho. split; [by rewrite (left_id_L ∅ _)|done]. }
  destruct Hc as (Hfd & Hnew & Hk1 & Hh). specialize (Hdl fd eq_refl).
  destruct (match inet_pton address with Some a => sk_connect k1 fd a port | None => (false, k1) end) as [ok k2] eqn:E.
  assert (same_fds k1 k2 ∧ handed k2 fd = [] ∧ delivered k2 fd = []) as ([Hs _] & Hh2 & Hd2).
  { destruct (inet_pton address) as [a|]; [|by injection E as <- <-].
    pose proof (connect_frame k1 fd a port) as (A & B & D). rewrite E in A, B, D. cbn in *. by rewrite B, D. }
  destruct ok; cbn [negb fst snd].
  - cbn. rewrite Hs, Hk1, Ho. split; [done|]. unfold BlockingClient.Connected, UniqueFd_valid. cbn.
    rewrite (proj2 (Z.leb_le 0 fd)) by done. split; [done|]. split.
    { rewrite Ho in Hnew. destruct (decide (fd = old)) as [->|]; [by left|right].
      destruct (0 <=? old); set_solver. }
    by destruct (Reset_refines (bc_decoder_ c)) as [Hi Hr].
  - unfold connected_ok. cbn [bc_descriptor_]. rewrite (proj2 (Z.leb_le 0 fd)) by done. cbn [snd].
    destruct (close_law k2 fd) as [-> _]. rewrite Hs, Hk1, <- Ho.
    split; [set_solver|done].
Qed.

(** A prefix of the wire form of some frames yields a prefix of them, and no error. *)
Lemma drain_prefix max fs data :
  Forall (encodable max) fs → data `prefix_of` concat (frame_wire <$> fs) →
  (drain_all {| limit := max; pending := data; failure := None |}).1 `prefix_of` fs ∧
  ¬ stream_failed {| limit := max; pending := data; failure := None |}.
Proof.
  intros Hfs [more E]. pose proof (drain_all_wire max fs [] Hfs) as Hw. rewrite app_nil_r, drain_all_nil, app_nil_r in Hw.
  set (S := {| limit := max; pending := data; failure := None |}).
  assert (drain_all (stream_append S more) = (fs, {| limit := max; pending := []; failure := None |})) as Ha.
  { unfold stream_append, S. cbn [limit pending failure]. by rewrite <- E. }
  split.
  - rewrite drain_all_append in Ha. destruct (drain_all S) as [fs1 s1].
    destruct (drain_all (stream_append s1 more)) as [fs2 s2]. injection Ha as <- _. by exists fs2.
  - intros Hf. apply (stream_failed_append _ more) in Hf. unfold stream_failed in Hf. rewrite Ha in Hf. by destruct Hf.
Qed.
End facts.

(** *** The server's end of a connection, queueing whole frames *)

Inductive WireOp := Put (f : Frame) | FlushOut | ReadIn.

Definition connection_op (op : WireOp) : ConnectionOp :=
  match op with Put f => OpQueue (frame_wire f) | FlushOut => OpFlush | ReadIn => OpRead end.

Definition put_frame (op : WireOp) : option Frame := match op with Put f => Some f | _ => None end.

(** The frames accepted are some of those queued, in order. *)
Lemma run_connection_frames {K} `{Kernel K} ops (c : TcpConnection) (k : K) accepted c' k' :
  run_connection (connection_op <$> ops) c k = (accepted, c', k') →
  ∃ fs, fs `sublist_of` omap put_frame ops ∧ accepted = concat (frame_wire <$> fs).
Proof.
  revert c k accepted. induction ops as [|op ops IH]; intros c k accepted; cbn [run_connection fmap list_fmap].
  { intros [= <- _ _]. by exists []. }
  destruct op as [f| |]; cbn [connection_op omap list_omap put_frame].
  - destruct (QueueBytes (frame_wire f) c) as [b c1]. destruct (run_connection _ c1 k) as [[more c2] k2] eqn:E.
    intros [= <- <- <-]. apply IH in E as (fs & Hs & ->). destruct b.
    + exists (f :: fs). split; [by apply sublist_skip|done].
    + exists fs. split; [by apply sublist_cons|done].
  - destruct (Flush c k) as [[st c1] k1]. destruct (run_connection _ c1 k1) as [[more c2] k2] eqn:E.
    intros [= <- <- <-]. by apply IH in E.
  - destruct (ReadAvailable (c, k)) as [r [c1 k1]]. destruct (run_connection _ c1 k1) as [[more c2] k2] eqn:E.
    intros [= <- <- <-]. by apply IH in E.
Qed.

Definition session_start (max : Z) (c : BlockingClient) : Prop :=
  DecoderInv (bc_decoder_ c) ∧ client_stream c = {| limit := max; pending := []; failure := None |}.

(** A session that has received a prefix of some frames was given the first of them. *)
Lemma session_reads `{ClientClockLaws K} `{Protobuf} max fs ops (c : BlockingClient) (k : K) es c' k' :
  session_start max c → delivered k (bc_descriptor_ c) = [] → Forall (encodable max) fs →
  run_client ops (c, k) = (Returns es, (c', k')) →
  delivered k' (bc_descriptor_ c) `prefix_of` concat (frame_wire <$> fs) →
  omap got_frame es `prefix_of` fs ∧ (∀ f, Got (Some rs_kProtocolError) f ∉ es) ∧
  (∀ f, delivered k' (bc_descriptor_ c) = concat (frame_wire <$> fs) →
     last es = Some (Got (Some rs_kTimeout) f) → omap got_frame es = fs).
Proof.
  intros [Hd Hs] Hdl Hfs Hrun Hpre. pose proof (run_client_spec ops (c, k) Hd) as Hr. unfold wp in Hr. rewrite Hrun in Hr.
  destruct Hr as (_ & _ & _ & (data & D & Y) & _ & T & P & _). cbn [fst snd] in *.
  rewrite Hdl in D. cbn [app] in D. rewrite D in *. rewrite Hs in Y. unfold stream_append in Y. cbn [limit pending failure app] in Y.
  destruct (drain_prefix max fs data Hfs Hpre) as [Hd1 Hd2].
  pose proof (yields_failed_iff _ _ _ Y) as Hf. unfold yields in Y. split; [|split].
  - etrans; [|exact Hd1]. rewrite Y. destruct (drain_all (client_stream c')) as [gs r]. by apply prefix_app_r.
  - intros f Hp. by apply Hd2, Hf, (P f).
  - intros f Hall Hl%T. rewrite Hl, app_nil_r in Y.
    pose proof (drain_all_wire max fs [] Hfs) as Hw. rewrite app_nil_r, drain_all_nil, app_nil_r in Hw.
    rewrite <- Hall, Y in Hw. by injection Hw.
Qed.

(** ** Properties *)

(** C18: [Receive] returns, whatever the peer, the kernel and interruptions do, and what
    it returns is what the stream of the bytes received so far says: [kFrameReady] with
    the next frame, which leaves the rest of the stream; [kProtocolError] when the
    stream has no next frame, ever; and for [kTimeout], [kClosed] and [kIoError] no
    complete frame is pending, no byte was dropped and the caller's frame is left alone.
    With a timeout below 2^31 ms, which [poll] can be given, it is back by the timeout,
    up to the time five system calls take, and it reports [kTimeout] no more than a
    millisecond early. *)
Theorem receive_refines_stream `{ClientTimeLaws K} f0 timeout (c : BlockingClient) (k : K) :
  DecoderInv (bc_decoder_ c) → BlockingClient.Connected c = true →
  ∃ f st c' k' data, Receive f0 timeout (c, k) = (Returns (f, Some st), (c', k')) ∧
    delivered k' (bc_descriptor_ c) = delivered k (bc_descriptor_ c) ++ data ∧
    handed k' (bc_descriptor_ c) = handed k (bc_descriptor_ c) ∧
    bc_descriptor_ c' = bc_descriptor_ c ∧ DecoderInv (bc_decoder_ c') ∧
    (let s := stream_append (client_stream c) data in
     match st with
     | rs_kFrameReady => stream_next s f0 = (kFrameReady, f, client_stream c')
     | rs_kProtocolError => f = f0 ∧ stream_failed s ∧ (drain_all s).1 = []
     | _ => f = f0 ∧ client_stream c' = s ∧ stream_next s f0 = (kNeedMoreData, f0, s)
     end) ∧
    (0 <= timeout < 2 ^ 31 →
     instant k' <= instant k + timeout * 1000000 + 5 * latency ∧
     (st = rs_kTimeout → instant k + (timeout - 1) * 1000000 < instant k')).
Proof.
  intros Hd Hc. pose proof (Receive_spec f0 timeout (c, k) Hd Hc) as Hr. unfold wp in Hr.
  pose proof (λ H, Receive_time f0 timeout (c, k) Hc H) as Ht. unfold wp in Ht.
  destruct (Receive f0 timeout (c, k)) as [[[f st]|e] [c' k']]; [|done].
  destruct Hr as (data & [(A & _ & B & C & D & _) Hread] & [st' Hst]). cbn [fst snd] in *. subst st.
  exists f, st', c', k', data. do 5 (split; [done|]). split.
  2: { intros Hm. destruct (Ht Hm) as [Ht1 Ht2]. split; [done|]. intros ->. by apply Ht2. }
  destruct st'; try exact Hread.
  destruct Hread as (-> & e & He1 & He2 & He3). split; [done|].
  destruct (yields_failed _ _ _ _ _ He3 He1 He2) as [Hy Hf]. split.
  - apply (yields_failed_iff _ _ _ Hy). unfold stream_failed. by rewrite drain_all_failed.
  - unfold yields in Hy. rewrite Hy, drain_all_failed by done. done.
Qed.

(** A client's whole session, any calls of [Receive], [Send] and [Shutdown] after a
    connection: no call throws, the frames it was given are the first frames of the
    bytes received, in order, and all of them when the last call timed out; and as long
    as no [Send] failed the peer was handed exactly the frames sent, in order. *)
Theorem client_session_in_order `{ClientClockLaws K} `{Protobuf} max ops (c : BlockingClient) (k : K) :
  session_start max c → delivered k (bc_descriptor_ c) = [] → handed k (bc_descriptor_ c) = [] →
  ∃ es c' k', run_client ops (c, k) = (Returns es, (c', k')) ∧
    let come := drain_all {| limit := max; pending := delivered k' (bc_descriptor_ c); failure := None |} in
    omap got_frame es `prefix_of` come.1 ∧
    (∀ f, last es = Some (Got (Some rs_kTimeout) f) → omap got_frame es = come.1) ∧
    (∀ f, Got (Some rs_kProtocolError) f ∈ es → is_Some (failure come.2)) ∧
    (existsb send_failed es = false → handed k' (bc_descriptor_ c) = concat (sent_bytes <$> es)).
Proof.
  intros [Hd Hs] Hdl Hh. pose proof (run_client_spec ops (c, k) Hd) as Hr. unfold wp in Hr.
  destruct (run_client ops (c, k)) as [[es|e] [c' k']]; [|done].
  destruct Hr as (_ & _ & _ & (data & D & Y) & S & T & P & _). cbn [fst snd] in *.
  exists es, c', k'. split; [done|]. rewrite Hdl in D. rewrite Hh in S. cbn [app] in *.
  rewrite D. rewrite Hs in Y. unfold stream_append in Y. cbn [limit pending failure app] in Y.
  pose proof (yields_failed_iff _ _ _ Y) as Hf. unfold stream_failed in Hf at 1. unfold yields in Y.
  split; [|split; [|split; [|done]]].
  - rewrite Y. destruct (drain_all (client_stream c')) as [fs r]. by apply prefix_app_r.
  - intros f Hl%T. rewrite Y, Hl. by rewrite app_nil_r.
  - intros f Hp. by apply Hf, (P f).
Qed.

(** Frames cross the wire in order and at most once. On a server connection any
    sequence of queued frames, partial writes, interruptions and a full socket; then any
    cutting and delaying of the bytes by the network, and any sequence of calls on the
    client: the frames the client is given are the first of those the server accepted to
    queue, it never sees a protocol error, and once everything was flushed and delivered
    a call that times out means that they all have been given. *)
Theorem frames_cross_the_wire `{KernelLaws K1} `{ClientClockLaws K2} `{Protobuf}
    server_ops client_ops max (sc sc' : TcpConnection) (k1 k1' : K1) accepted (c : BlockingClient) (k2 : K2) es c' k2' :
  TcpInv sc → unsent sc = [] → handed k1 (descriptor_ sc) = [] →
  Forall (encodable max) (omap put_frame server_ops) →
  run_connection (connection_op <$> server_ops) sc k1 = (accepted, sc', k1') →
  session_start max c → delivered k2 (bc_descriptor_ c) = [] →
  run_client client_ops (c, k2) = (Returns es, (c', k2')) →
  delivered k2' (bc_descriptor_ c) `prefix_of` handed k1' (descriptor_ sc) →
  ∃ fs, fs `sublist_of` omap put_frame server_ops ∧ accepted = concat (frame_wire <$> fs) ∧
    omap got_frame es `prefix_of` fs ∧
    (∀ f, Got (Some rs_kProtocolError) f ∉ es) ∧
    (∀ f, unsent sc' = [] → delivered k2' (bc_descriptor_ c) = handed k1' (descriptor_ sc) →
       last es = Some (Got (Some rs_kTimeout) f) → omap got_frame es = fs).
Proof.
  intros Hi Hu Hh Henc Hrun Hstart Hdl Hclient Hwire.
  destruct (run_connection_frames _ _ _ _ _ _ Hrun) as (fs & Hsub & Hacc). exists fs.
  split; [done|]. split; [done|].
  apply run_connection_spec in Hrun as (_ & _ & Hout); [|done]. rewrite Hh, Hu in Hout. cbn [app] in Hout.
  assert (Forall (encodable max) fs) as Hfs by (rewrite Forall_forall in Henc |- *; eauto using elem_of_sublist).
  destruct (session_reads max fs client_ops c k2 es c' k2' Hstart Hdl Hfs Hclient) as (Hp & Hno & Hall).
  { rewrite <- Hacc, <- Hout. etrans; [done|]. by apply prefix_app_r. }
  split; [done|]. split; [done|]. intros f Hu' Hdel. apply (Hall f). by rewrite Hdel, <- Hacc, <- Hout, Hu', app_nil_r.
Qed.

(** [Connect] never leaks a descriptor: the old connection's is closed first, and
    afterwards the client owns exactly one new one when it returns true, with an empty
    decoder, and none when it returns false, whichever step failed. *)
Theorem connect_owns_one_descriptor `{SocketLaws K} `{InetPton} address port (c : BlockingClient) (k : K) :
  let '(ok, (c', k')) := Client_Connect address port (c, k) in
  open_fds k' = (if ok then {[bc_descriptor_ c']} else ∅)
                ∪ (if 0 <=? bc_descriptor_ c then open_fds k ∖ {[bc_descriptor_ c]} else open_fds k) ∧
  BlockingClient.Connected c' = ok ∧
  (ok = true → session_start (max_payload_size_ (bc_decoder_ c)) c' ∧
     delivered k' (bc_descriptor_ c') = [] ∧ handed k' (bc_descriptor_ c') = []) ∧
  (ok = false → bc_descriptor_ c' = -1).
Proof.
  pose proof (Client_Connect_spec address port c k) as Hc. unfold sp in Hc.
  destruct (Client_Connect address port (c, k)) as [ok [c' k']]. destruct Hc as (A & B & C). cbn [fst snd] in *.
  split; [done|]. split; [done|]. destruct ok; [|done]. split; [|done]. intros _. by destruct C as (_ & ? & ? & ? & ?).
Qed.

(** ** Witnesses *)

#[local] Instance chat_protobuf : Protobuf := table_protobuf chat_table.
#[local] Instance client_pton : InetPton := quad_pton.

Definition sender : TcpConnection :=
  {| descriptor_ := 6; decoder_ := fresh_decoder; output_ := []; output_offset_ := 0; maximum_pending_bytes_ := 4096 |}.

Definition sender_kernel : ScriptKernel :=
  {| recv_script := ∅; send_script := {[6 := [Sent 3; SendEINTR; SendEAGAIN]]}; accept_script := [];
     handed_ := ∅; open_fds_ := {[6]}; epoll_set := ∅; epoll_fails := ∅ |}.

Definition sender_ops : list WireOp := [Put chat_hi; FlushOut; Put heartbeat; FlushOut].
Definition sender_run := run_connection (connection_op <$> sender_ops) sender sender_kernel.

Lemma sender_inv : TcpInv sender.
Proof. split; cbn; try done; try lia. apply fresh_decoder_inv. Qed.

Definition client_on (fd : Z) : BlockingClient :=
  {| bc_descriptor_ := fd; bc_decoder_ := fresh_decoder; bc_shutdown_ := false |}.

Definition net_script (recvs : list RecvResult) (sends : list SendResult) : NetKernel :=
  {| base := {| recv_script := {[7 := recvs]}; send_script := {[7 := sends]}; accept_script := [];
                handed_ := ∅; open_fds_ := {[7]}; epoll_set := ∅; epoll_fails := ∅ |};
     history := ∅; next_fds := [Some 8]; sock_faults := []; bound := 0; clock_ns := 5000 |}.

Definition cut_wire : list RecvResult :=
  [Received (take 5 wire_chat_heartbeat); RecvEINTR; Received (drop 5 wire_chat_heartbeat)].

Definition client_ops : list ClientOp := [CReceive 100; CReceive 100; CReceive 3].
Definition client_run := run_client client_ops (client_on 7, net_script cut_wire []).

Lemma client_on_start fd : session_start kDefaultMaxPayloadSize (client_on fd).
Proof. split; [apply fresh_decoder_inv|done]. Qed.

Lemma frames_cross_the_wire_witness :
  client_run.1 = Returns [Got (Some rs_kFrameReady) chat_hi; Got (Some rs_kFrameReady) heartbeat;
                          Got (Some rs_kTimeout) empty_frame] ∧
  ∃ fs, fs `sublist_of` omap put_frame sender_ops ∧ sender_run.1.1 = concat (frame_wire <$> fs) ∧
    fs = [chat_hi; heartbeat].
Proof.
  assert (∃ es c' k2', client_run = (Returns es, (c', k2')) ∧
    es = [Got (Some rs_kFrameReady) chat_hi; Got (Some rs_kFrameReady) heartbeat; Got (Some rs_kTimeout) empty_frame] ∧
    delivered k2' 7 = wire_chat_heartbeat) as (es & c' & k2' & E & Ees & Ed).
  { eexists _, _, _. vm_compute. split; [reflexivity|]. by split. }
  assert (∃ accepted sc' k1', sender_run = (accepted, sc', k1') ∧ unsent sc' = [] ∧
    handed k1' 6 = wire_chat_heartbeat) as (accepted & sc' & k1' & E1 & Eu & Eh).
  { eexists _, _, _. vm_compute. split; [reflexivity|]. by split. }
  split; [rewrite E; cbn; by rewrite Ees|].
  destruct (frames_cross_the_wire sender_ops client_ops kDefaultMaxPayloadSize sender sc' sender_kernel k1' accepted
    (client_on 7) (net_script cut_wire []) es c' k2') as (fs & Hs & Ha & Hp & Hn & Hall).
  - apply sender_inv.
  - reflexivity.
  - reflexivity.
  - apply encodable_samples.
  - exact E1.
  - apply client_on_start.
  - reflexivity.
  - exact E.
  - change (bc_descriptor_ (client_on 7)) with 7. change (descriptor_ sender) with 6. by rewrite Ed, Eh.
  - exists fs. rewrite E1. split; [done|]. split; [done|].
    rewrite <- (Hall empty_frame); [by rewrite Ees|done| |by rewrite Ees].
    change (bc_descriptor_ (client_on 7)) with 7. change (descriptor_ sender) with 6. by rewrite Ed, Eh.
Defined.

Lemma receive_refines_stream_witness :
  ∃ c' k', Receive empty_frame 100 (client_on 7, net_script cut_wire []) = (Returns (chat_hi, Some rs_kFrameReady), (c', k')).
Proof.
  destruct (receive_refines_stream empty_frame 100 (client_on 7) (net_script cut_wire []))
    as (f & st & c' & k' & data & E & _).
  - apply fresh_decoder_inv.
  - reflexivity.
  - exists c', k'. rewrite E. vm_compute in E. injection E as <- <- <- <-. reflexivity.
Defined.

Lemma client_session_in_order_witness :
  ∃ es c' k', run_client [CSend kChatRequest (ChatRequest "hi"); CReceive 3; CShutdown; CReceive 3]
      (client_on 7, net_script cut_wire [Sent 4; SendEINTR]) = (Returns es, (c', k')) ∧
    omap got_frame es = [chat_hi] ∧ handed k' 7 = frame_wire {| message_id := 2; payload := [x0a; x02; x68; x69] |}.
Proof.
  destruct (client_session_in_order kDefaultMaxPayloadSize
    [CSend kChatRequest (ChatRequest "hi"); CReceive 3; CShutdown; CReceive 3] (client_on 7)
    (net_script cut_wire [Sent 4; SendEINTR])) as (es & c' & k' & E & _ & _ & _ & Hh).
  - apply client_on_start.
  - reflexivity.
  - reflexivity.
  - exists es, c', k'. split; [exact E|].
    assert (es = [DidSend true kChatRequest (ChatRequest "hi"); Got (Some rs_kFrameReady) chat_hi; DidShutdown;
                  Got (Some rs_kClosed) empty_frame]) as ->.
    { vm_compute in E. injection E as <- _ _. reflexivity. }
    split; [reflexivity|]. etrans; [exact (Hh eq_refl)|vm_compute; reflexivity].
Defined.

Lemma connect_owns_one_descriptor_witness :
  open_fds (Client_Connect "1.2.3.4" 9000 (client_on 7, net_script [] [])).2.2 = {[8]} ∧
  open_fds (Client_Connect "nowhere" 9000 (client_on 7, net_script [] [])).2.2 = ∅.
Proof.
  pose proof (connect_owns_one_descriptor "1.2.3.4" 9000 (client_on 7) (net_script [] [])) as H1.
  pose proof (connect_owns_one_descriptor "nowhere" 9000 (client_on 7) (net_script [] [])) as H2.
  destruct (Client_Connect "1.2.3.4" 9000 _) as [ok1 [c1 k1]] eqn:E1.
  destruct (Client_Connect "nowhere" 9000 _) as [ok2 [c2 k2]] eqn:E2.
  destruct H1 as [H1 _], H2 as [H2 _]. cbn [fst snd]. rewrite H1, H2.
  vm_compute in E1, E2. injection E1 as <- <- <-. injection E2 as <- <- <-. split; vm_compute; reflexivity.
Defined.
