(* ===== verification/ClientMain.v ===== *)
(** * The client program

    [apps/mmo_client_main.cpp]: its command line, the commands it reads from its
    input, what it prints of a frame, and its two threads over one [BlockingClient].
    A step of the main thread ([main_step]) is one reading of [running], one line, or
    one of the calls of its end; a step of the receiver ([receiver_step]) is one
    reading of [running] or one turn of [Receive]'s loop. [Send] and [Shutdown] of one
    thread and [Receive] of the other only share the descriptor and the flag of the
    shutdown. [std::getline] returns at every step: a main thread that waits for its
    user is one that has not taken its step yet. *)

From Stdlib Require Import Strings.Byte SpecFloat.
From stdpp Require Import pretty relations.
From S2P Require Import Prelude Double Numbers Streams FrameCodec FrameStream ProtobufCodec.
From S2P Require Import Kernel Sockets BlockingClient ClientProperties.

(** ** What it prints *)

(** What is inserted into [std::cout]. *)
Inductive OutItem := OutText (s : string) | OutUint (n : Z) | OutReal (d : double).

Definition newline : string := String (Ascii.ascii_of_nat 10) EmptyString.

(** The fields of a sub-message that is not set have their defaults. *)
Definition no_view : PlayerView := {| view_player_id := 0; view_nickname := EmptyString; view_position := None |}.
Definition no_position : PbPosition := {| pb_x := dzero; pb_y := dzero |}.

Definition PrintFrame `{Protobuf} (frame : Frame) : list OutItem :=
  let type := message_type_of (message_id frame) in
  if decide (type = Some kLoginResponse) then
    match ParseProtobufPayload frame kLoginResponse LoginResponse_ with
    | Some (LoginResponse success error self _ session_token) =>
        if success then
          let self := default no_view self in
          [OutText "login ok: id="; OutUint (view_player_id self); OutText " nickname="; OutText (view_nickname self);
           OutText " token="; OutText session_token; OutText newline]
        else [OutText "login failed: "; OutText error; OutText newline]
    | _ => []
    end
  else if decide (type = Some kChatBroadcast) then
    match ParseProtobufPayload frame kChatBroadcast ChatBroadcast_ with
    | Some (ChatBroadcast _ nickname text) => [OutText nickname; OutText ": "; OutText text; OutText newline]
    | _ => []
    end
  else if decide (type = Some kPlayerEnter) then
    match ParseProtobufPayload frame kPlayerEnter PlayerEnter_ with
    | Some (PlayerEnter player) =>
        [OutText "player entered: "; OutText (view_nickname (default no_view player)); OutText newline]
    | _ => []
    end
  else if decide (type = Some kPlayerLeave) then
    match ParseProtobufPayload frame kPlayerLeave PlayerLeave_ with
    | Some (PlayerLeave player_id) => [OutText "player left: "; OutUint player_id; OutText newline]
    | _ => []
    end
  else if decide (type = Some kPlayerMove) then
    match ParseProtobufPayload frame kPlayerMove PlayerMove_ with
    | Some (PlayerMove player_id position) =>
        let position := default no_position position in
        [OutText "player moved: "; OutUint player_id; OutText " -> ("; OutReal (pb_x position); OutText ", ";
         OutReal (pb_y position); OutText (")" +:+ newline)]
    | _ => []
    end
  else [].

(** ** Its commands *)

Inductive LineAction := Quit_ | SendMessage (type : MessageType) (message : ProtoMessage) | Nothing_.

(** What the loop of [main] does with a line. *)
Definition line_action (line : string) : LineAction :=
  let '(command, input) := extract_word (list_ascii_of_string line) in
  let command := string_of_list_ascii command in
  if decide (command = "quit"%string) then Quit_
  else if decide (command = "chat"%string) then
    SendMessage kChatRequest (ChatRequest (string_of_list_ascii (drop_space input)))
  else if decide (command = "move"%string) then
    match extract_double input with
    | Some (x, input) =>
        match extract_double input with
        | Some (y, _) => SendMessage kMoveRequest (MoveRequest (Some {| pb_x := x; pb_y := y |}))
        | None => Nothing_
        end
    | None => Nothing_
    end
  else if decide (command = "heartbeat"%string) then SendMessage kHeartbeat Heartbeat
  else Nothing_.

(** ** Its start *)

Section program.
Context {K : Type} `{!Kernel K} `{!SocketApi K} `{!InetPton} `{!ClientClock K} `{!Protobuf}.

Definition connect_and_login (host : string) (port : Z) (login : ProtoMessage)
    : M (BlockingClient * K) (Z + ProtoMessage) := λ s,
  let '(connected, s) := Client_Connect host port s in
  if negb connected then (Returns (inl 1), s)
  else
    let '(ok, s) := Client_Send kLoginRequest login s in
    if negb ok then (Returns (inl 1), s) else (Returns (inr login), s).

(** [main] up to the threads, over the arguments after the program's name: the exit
    status when it ends here, or the login it has sent. An exception of [stoul] is not
    caught. *)
Definition client_setup (argv : list string) : M (BlockingClient * K) (Z + ProtoMessage) :=
  match argv with
  | host :: port :: account :: ([] | [_]) =>
      port ← lift_outcome (stoul "stoul" port);
      connect_and_login host (u16 port.1) (LoginRequest account (default EmptyString (argv !! 3%nat)))
  | _ => mret (inl 1)
  end.

(** ** Its threads *)

(** The main thread reads [running], waits for a line, sets [running], calls
    [Shutdown], waits for the receiver, has returned. *)
Inductive MainPhase := MChecking | MReading | MStopping | MShutting | MJoining | MDone.

(** The receiver reads [running], calls [Receive], is in its loop, has returned; or an
    exception has left it. *)
Inductive ReceiverPhase :=
| RChecking | RCalling | RReceiving (deadline : Z) (frame : Frame) | RExited | RThrew (e : exn).

(** [p_input]: the lines [std::getline] will give, then the end of the input.
    [p_sent], [p_shown]: the calls of [Send] made with their results, and the frames
    given to [PrintFrame]. *)
Record Program := mkProgram {
  p_client : BlockingClient * K;
  p_running : bool;
  p_input : list string;
  p_main : MainPhase;
  p_receiver : ReceiverPhase;
  p_sent : list (bool * MessageType * ProtoMessage);
  p_shown : list Frame
}.

Definition program_start (login : ProtoMessage) (s : BlockingClient * K) (input : list string) : Program :=
  {| p_client := s; p_running := true; p_input := input; p_main := MChecking; p_receiver := RChecking;
     p_sent := [(true, kLoginRequest, login)]; p_shown := [] |}.

(** What the receiver has printed. *)
Definition p_output (p : Program) : list OutItem := p_shown p ≫= PrintFrame.

(** A step of the main thread, none when it waits or has returned. *)
Definition main_step (p : Program) : option Program :=
  let '(mkProgram s running input m r sent shown) := p in
  match m with
  | MChecking => Some (mkProgram s running input (if running then MReading else MStopping) r sent shown)
  | MReading =>
      match input with
      | [] => Some (mkProgram s running [] MStopping r sent shown)
      | line :: input =>
          match line_action line with
          | Quit_ => Some (mkProgram s running input MStopping r sent shown)
          | SendMessage type message =>
              let '(ok, s) := Client_Send type message s in
              Some (mkProgram s running input MChecking r (sent ++ [(ok, type, message)]) shown)
          | Nothing_ => Some (mkProgram s running input MChecking r sent shown)
          end
      end
  | MStopping => Some (mkProgram s false input MShutting r sent shown)
  | MShutting => Some (mkProgram (Client_Shutdown s).2 running input MJoining r sent shown)
  | MJoining =>
      match r with
      | RExited => Some (mkProgram s running input MDone r sent shown)
      | _ => None
      end
  | MDone => None
  end.

(** What the receiver does with the result of [Receive]. *)
Definition handle_status (status : ReceiveStatus) (frame : Frame) (s : BlockingClient * K) (p : Program) : Program :=
  let '(mkProgram _ running input m _ sent shown) := p in
  match status with
  | rs_kFrameReady => mkProgram s running input m RChecking sent (shown ++ [frame])
  | rs_kTimeout => mkProgram s running input m RChecking sent shown
  | _ => mkProgram s false input m RChecking sent shown
  end.

(** A step of the receiver, none when it has returned. *)
Definition receiver_step (p : Program) : option Program :=
  let '(mkProgram s running input m r sent shown) := p in
  match r with
  | RChecking => Some (mkProgram s running input m (if running then RCalling else RExited) sent shown)
  | RCalling =>
      if negb (Connected s.1) then Some (handle_status rs_kClosed empty_frame s p)
      else
        let '(now, k) := steady_now s.2 in
        Some (mkProgram (s.1, k) running input m (RReceiving (now + 250 * 1000000) empty_frame) sent shown)
  | RReceiving deadline frame =>
      match receive_turn deadline frame s with
      | (Returns (frame, None), s) => Some (mkProgram s running input m (RReceiving deadline frame) sent shown)
      | (Returns (frame, Some status), s) => Some (handle_status status frame s p)
      | (Throws e, s) => Some (mkProgram s running input m (RThrew e) sent shown)
      end
  | RExited | RThrew _ => None
  end.

(** The threads in any order. *)
Inductive program_step (p : Program) : Program → Prop :=
| step_main p' : main_step p = Some p' → program_step p p'
| step_receiver p' : receiver_step p = Some p' → program_step p p'.

(** The end of [main]: the destructor of the client. *)
Definition program_exit (p : Program) : K := UniqueFd_destroy (bc_descriptor_ (p_client p).1) (p_client p).2.
End program.
Arguments Program K : clear implicits.

(** ** Facts *)

Definition line_message (line : string) : option (MessageType * ProtoMessage) :=
  match line_action line with SendMessage type message => Some (type, message) | _ => None end.

Definition sent_wire `{Protobuf} (x : bool * MessageType * ProtoMessage) : list byte :=
  match EncodeProtobufFrame x.1.2 x.2 kDefaultMaxPayloadSize with Returns bytes => bytes | Throws _ => [] end.

Definition no_send_failed (sent : list (bool * MessageType * ProtoMessage)) : bool := forallb (λ x, x.1.1) sent.

(** The stream the received bytes make. *)
Definition come_in (data : list byte) : Stream := {| limit := kDefaultMaxPayloadSize; pending := data; failure := None |}.

Lemma read_as_yields `{SocketLaws K} (s : BlockingClient * K) f0 data f st s' :
  read_as s f0 data (f, st) s' →
  yields (stream_append (client_stream s.1) data) (match st with Some rs_kFrameReady => [f] | _ => [] end)
    (client_stream s'.1) ∧
  (st ≠ Some rs_kFrameReady → f = f0).
Proof.
  intros [_ Hr]. cbn [fst snd] in Hr. destruct st as [[]|].
  - split; [by eapply yields_ready|done].
  - destruct Hr as (-> & -> & _). split; [apply yields_refl|done].
  - destruct Hr as (-> & -> & _). split; [apply yields_refl|done].
  - destruct Hr as (-> & e & He1 & He2 & He3). split; [by eapply yields_failed|done].
  - destruct Hr as (-> & -> & _). split; [apply yields_refl|done].
  - destruct Hr as (-> & ->). split; [apply yields_refl|done].
Qed.

Section facts.
Context {K : Type} `{ClientClockLaws K} `{!Protobuf}.
Implicit Types (p : Program K) (s : BlockingClient * K).

(** The connection [fd] of a program among the descriptors [others]. *)
Record Linked (fd : Z) (others : gset Z) p : Prop := {
  ln_fd : bc_descriptor_ (p_client p).1 = fd;
  ln_decoder : DecoderInv (bc_decoder_ (p_client p).1);
  ln_fds : open_fds (p_client p).2 = {[fd]} ∪ others;
  ln_shown : yields (come_in (delivered (p_client p).2 fd)) (p_shown p) (client_stream (p_client p).1);
  ln_handed : no_send_failed (p_sent p) = true → handed (p_client p).2 fd = concat (sent_wire <$> p_sent p)
}.

(** What the program has read of [lines] and done with them. *)
Definition Obeyed (login : ProtoMessage) (lines : list string) p : Prop :=
  ∃ done, lines = done ++ p_input p ∧
    (λ x, (x.1.2, x.2)) <$> p_sent p = (kLoginRequest, login) :: omap line_message done.

(** Where the two threads can be. *)
Definition Phases p : Prop :=
  match p_receiver p with
  | RThrew _ => False
  | RReceiving _ f => f = empty_frame
  | RExited => p_running p = false
  | _ => True
  end ∧
  let shutdown := bc_shutdown_ (p_client p).1 in
  match p_main p with
  | MShutting => p_running p = false ∧ shutdown = false
  | MJoining => p_running p = false ∧ shutdown = true
  | MDone => p_running p = false ∧ shutdown = true ∧ p_receiver p = RExited
  | _ => shutdown = false
  end.

Lemma main_step_linked fd others p p' : Linked fd others p → main_step p = Some p' → Linked fd others p'.
Proof.
  intros Hl. destruct p as [[c k] running input m r sent shown]. cbn [main_step].
  assert (∀ running input m r, Linked fd others (mkProgram (c, k) running input m r sent shown)) as Hsame.
  { intros. destruct Hl as [L1 L2 L3 L4 L5]. by split. }
  destruct m; [by intros [= <-]| |by intros [= <-]| |destruct r; by intros [= <-]|done].
  - destruct input as [|line input]; [by intros [= <-]|]. destruct (line_action line) as [|ty msg|]; [by intros [= <-]| |by intros [= <-]].
    pose proof (Client_Send_spec ty msg c k) as Hs. unfold sp in Hs. destruct (Client_Send ty msg (c, k)) as [ok [c' k']].
    cbn [fst snd] in Hs. destruct Hs as (-> & [Hs _] & Hd & part & Hh & _ & Hok). intros [= <-].
    destruct Hl as [L1 L2 L3 L4 L5]. cbn [p_client p_shown p_sent fst snd] in *. rewrite L1 in *. split; cbn; [done..| | |].
    + by rewrite Hs.
    + by rewrite Hd.
    + unfold no_send_failed in *. rewrite forallb_app, fmap_app, concat_app. intros [E1 E2]%andb_true_iff.
      rewrite Hh, L5 by done. f_equal. destruct ok; [|done]. unfold sent_wire. cbn. by rewrite Hok, app_nil_r.
  - intros [= <-]. unfold Client_Shutdown. cbn. destruct (_ && _); [|by apply Hsame].
    destruct Hl as [L1 L2 L3 L4 L5]. cbn in *. destruct (shutdown_frame k (bc_descriptor_ c) fd) as ([A _] & B & C).
    split; cbn; [done|done|by rewrite A|by rewrite C|by rewrite B].
Qed.

Lemma receiver_step_linked fd others p p' :
  Linked fd others p → Phases p → receiver_step p = Some p' →
  Linked fd others p' ∧ Phases p'.
Proof.
  intros Hl Hp. destruct p as [[c k] running input m r sent shown]. cbn [receiver_step].
  assert (∀ running r, Linked fd others (mkProgram (c, k) running input m r sent shown)) as Hsame.
  { intros. destruct Hl as [L1 L2 L3 L4 L5]. by split. }
  destruct Hp as [Hr Hm]. cbn in Hr, Hm.
  assert (∀ r', r ≠ RExited → match r' with RThrew _ => False | RReceiving _ f => f = empty_frame | RExited => running = false | _ => True end →
    ∀ c', bc_shutdown_ c' = bc_shutdown_ c → ∀ k' shown', Phases (mkProgram (c', k') running input m r' sent shown')) as Hph.
  { intros r' Hne Hr' c' Hc' k' shown'. split; [done|]. cbn. rewrite Hc'. destruct m; [done..|]. by destruct Hm as (_ & _ & ->). }
  destruct r as [| |deadline f| |].
  - intros [= <-]. split; [done|]. apply Hph; [done| |done]. by destruct running.
  - cbn [fst snd]. destruct (negb (Connected c)) eqn:Hc.
    + intros [= <-]. split; [done|]. split; [done|]. cbn. destruct m; naive_solver.
    + pose proof (now_law k 0) as Ht. destruct (steady_now k) as [now k1]. destruct Ht as (_ & _ & Hf & [Hs _]).
      intros [= <-]. split; [|by apply Hph]. destruct (Hf fd) as [E1 E2]. destruct Hl as [L1 L2 L3 L4 L5].
      split; cbn in *; [done|done|by rewrite Hs|by rewrite E1|by rewrite E2].
  - subst f. pose proof (receive_turn_spec deadline empty_frame (c, k) (ln_decoder _ _ _ Hl)) as Hw. unfold wp in Hw.
    destruct (receive_turn deadline empty_frame (c, k)) as [[[f st]|e] [c' k']]; [|done].
    destruct Hw as (data & Hread & _). pose proof (read_as_yields _ _ _ _ _ _ Hread) as [Hy Hf].
    destruct Hread as [(A & B & C & D & E & [F _]) _]. cbn [fst snd] in *.
    assert (∀ running r', Linked fd others (mkProgram (c', k') running input m r' sent
      (shown ++ match st with Some rs_kFrameReady => [f] | _ => [] end))) as Hl'.
    { intros. destruct Hl as [L1 L2 L3 L4 L5]. cbn in *. rewrite L1 in *. split; cbn; [done|done|by rewrite F| |by rewrite D].
      rewrite C. pose proof (yields_trans _ _ _ data _ _ L4 Hy) as Hy'. done. }
    destruct st as [st|].
    + intros [= <-]. destruct st; cbn [handle_status]; try rewrite app_nil_r in Hl'; (split; [done|]);
        try (by apply Hph); (split; [done|]); cbn; rewrite B; destruct m; naive_solver.
    + intros [= <-]. rewrite app_nil_r in Hl'. split; [done|]. apply Hph; [done|by apply Hf|done].
  - done.
  - done.
Qed.

Lemma main_step_phases p p' : Phases p → UniqueFd_valid (bc_descriptor_ (p_client p).1) = true →
  main_step p = Some p' → Phases p'.
Proof.
  intros [Hr Hm] Hv. destruct p as [[c k] running input m r sent shown]. cbn in Hr, Hm, Hv. cbn [main_step].
  destruct m; [| | | | |done].
  - intros [= <-]. split; [done|]. by destruct running.
  - destruct input as [|line input]; [by intros [= <-]|].
    destruct (line_action line) as [|ty msg|]; [by intros [= <-]| |by intros [= <-]].
    pose proof (Client_Send_spec ty msg c k) as Hs. unfold sp in Hs. destruct (Client_Send ty msg (c, k)) as [ok [c' k']].
    cbn [fst snd] in Hs. destruct Hs as (-> & _). by intros [= <-].
  - intros [= <-]. split; [|done]. by destruct r.
  - intros [= <-]. unfold Client_Shutdown. cbn. rewrite Hv. destruct Hm as [-> Hm]. rewrite Hm. cbn. by split.
  - destruct r; [done..| |done]. intros [= <-]. split; [done|]. cbn. naive_solver.
Qed.

Lemma main_step_obeyed login lines p p' : Obeyed login lines p → main_step p = Some p' → Obeyed login lines p'.
Proof.
  intros (done & E1 & E2). destruct p as [s running input m r sent shown]. cbn in E1, E2. cbn [main_step].
  assert (∀ s running m r, Obeyed login lines (mkProgram s running input m r sent shown)) as Hsame by (intros; by exists done).
  destruct m; [by intros [= <-]| |by intros [= <-]|by intros [= <-]|destruct r; by intros [= <-]|done].
  destruct input as [|line input]; [by intros [= <-]|].
  assert (lines = (done ++ [line]) ++ input) as E1' by (by rewrite <- app_assoc).
  destruct (line_action line) as [|ty msg|] eqn:El.
  - intros [= <-]. exists (done ++ [line]). split; [done|]. cbn. rewrite omap_app. cbn. unfold line_message at 2.
    by rewrite El, app_nil_r.
  - destruct (Client_Send ty msg s) as [ok s']. intros [= <-]. exists (done ++ [line]). split; [done|]. cbn.
    rewrite omap_app, fmap_app, E2. cbn. unfold line_message at 3. by rewrite El.
  - intros [= <-]. exists (done ++ [line]). split; [done|]. cbn. rewrite omap_app. cbn. unfold line_message at 2.
    by rewrite El, app_nil_r.
Qed.

Lemma receiver_step_keeps p p' : receiver_step p = Some p' → p_input p' = p_input p ∧ p_sent p' = p_sent p ∧ p_main p' = p_main p ∧
  (p_running p = false → p_running p' = false).
Proof.
  destruct p as [s running input m r sent shown]. cbn [receiver_step].
  destruct r as [| |d f| |]; [by intros [= <-]| | |done..].
  - destruct (negb _); [by intros [= <-]|]. destruct (steady_now _). by intros [= <-].
  - destruct (receive_turn d f s) as [[[f' [st|]]|e] s']; [|by intros [= <-]..].
    intros [= <-]. by destruct st.
Qed.

Definition Good (fd : Z) (others : gset Z) p : Prop := Linked fd others p ∧ Phases p ∧ 0 <= fd.

Lemma step_good fd others p p' : program_step p p' → Good fd others p → Good fd others p'.
Proof.
  intros Hs (Hl & Hp & Hfd). destruct Hs as [p' Hs|p' Hs].
  - split; [by eapply main_step_linked|]. split; [|done]. eapply main_step_phases; [done| |done].
    unfold UniqueFd_valid. rewrite (ln_fd _ _ _ Hl). by apply Z.leb_le.
  - by destruct (receiver_step_linked fd others p p' Hl Hp Hs).
Qed.

Lemma step_obeyed login lines p p' : program_step p p' → Obeyed login lines p → Obeyed login lines p'.
Proof.
  intros [p1 Hs|p1 Hs] Ho; [by eapply main_step_obeyed|]. unfold Obeyed in *.
  by destruct (receiver_step_keeps _ _ Hs) as (-> & -> & _).
Qed.

(** *** The end *)

Definition main_rank p : nat :=
  match p_main p with MReading => 5 | MChecking => 4 | MStopping => 3 | MShutting => 2 | MJoining => 1 | MDone => 0 end.

Definition receiver_rank p : nat :=
  match p_receiver p with RCalling => 3 | RReceiving _ _ => 2 | RChecking => 1 | RExited | RThrew _ => 0 end.

Definition receiver_readings p : nat :=
  match p_receiver p with RReceiving d _ => readings_before (p_client p).2 d | _ => 0 end.

Lemma main_step_rank p p' : p_running p = false → main_step p = Some p' → p_running p' = false ∧ (main_rank p' < main_rank p)%nat.
Proof.
  destruct p as [s running input m r sent shown]. cbn. intros ->.
  destruct m; [by intros [= <-]; cbn; auto with lia| |intros [= <-]; cbn; auto with lia..|destruct r; intros [= <-]; cbn; auto with lia|done].
  destruct input as [|line input]; [intros [= <-]; cbn; auto with lia|].
  destruct (line_action line) as [|ty msg|]; [intros [= <-]; cbn; auto with lia| |intros [= <-]; cbn; auto with lia].
  destruct (Client_Send ty msg s) as [ok s']. intros [= <-]; cbn; auto with lia.
Qed.

Lemma receiver_step_rank fd others p p' :
  Good fd others p → p_running p = false → receiver_step p = Some p' →
  (receiver_rank p' < receiver_rank p)%nat ∨
  receiver_rank p' = receiver_rank p ∧ (receiver_readings p' < receiver_readings p)%nat.
Proof.
  intros (Hl & _ & _). apply ln_decoder in Hl. destruct p as [[c k] running input m r sent shown].
  cbn [p_client p_running fst snd receiver_step] in Hl |- *. intros ->.
  destruct r as [| |d f| |]; [intros [= <-]; cbn; auto with lia| | |done..].
  - destruct (negb _); [intros [= <-]; cbn; auto with lia|]. destruct (steady_now k). intros [= <-]. cbn. auto with lia.
  - pose proof (receive_turn_spec d f (c, k) Hl) as Hw. unfold wp in Hw.
    destruct (receive_turn d f (c, k)) as [[[f' st]|e] s']; [|done]. destruct Hw as (data & _ & Hend). cbn in Hend.
    destruct st as [st|]; intros [= <-]; [left; destruct st; cbn; lia|]. right. by split.
Qed.

(** Once [running] is false every schedule comes to an end. *)
Lemma stopped_ends fd others p : Good fd others p → p_running p = false → sn program_step p.
Proof.
  remember (main_rank p) as a eqn:Ea. remember (receiver_rank p) as b eqn:Eb. remember (receiver_readings p) as n eqn:En.
  revert b n p Ea Eb En. induction (lt_wf a) as [a _ IHa]. intros b. induction (lt_wf b) as [b _ IHb]. intros n.
  induction (lt_wf n) as [n _ IHn]. intros p -> -> -> Hg Hr. constructor. intros q Hs.
  pose proof (step_good _ _ _ _ Hs Hg) as Hq. destruct Hs as [q Hs|q Hs].
  - destruct (main_step_rank _ _ Hr Hs) as [Hr' Hlt]. by eapply IHa.
  - destruct (receiver_step_keeps _ _ Hs) as (_ & _ & Em & Hr').
    assert (main_rank q = main_rank p) as Ea by (unfold main_rank; by rewrite Em).
    destruct (receiver_step_rank _ _ _ _ Hg Hr Hs) as [Hlt|[Eb Hlt]]; [by eapply IHb; eauto|by eapply IHn; eauto].
Qed.

(** A program that can do nothing more has ended. *)
Lemma stuck_done p : Phases p → (∀ q, ¬ program_step p q) → p_main p = MDone ∧ p_receiver p = RExited.
Proof.
  intros [Hr Hm] Hn. destruct p as [[c k] running input m r sent shown]. cbn in *.
  assert (main_step (mkProgram (c, k) running input m r sent shown) = None) as E1.
  { destruct (main_step _) eqn:E; [|done]. exfalso. by eapply Hn, step_main. }
  assert (receiver_step (mkProgram (c, k) running input m r sent shown) = None) as E2.
  { destruct (receiver_step _) eqn:E; [|done]. exfalso. by eapply Hn, step_receiver. }
  cbn [main_step receiver_step fst snd] in E1, E2. destruct r as [| |d f| |]; [done| | |split; [|done]|done].
  - destruct (negb _); [done|]. by destruct (steady_now k).
  - by destruct (receive_turn d f (c, k)) as [[[f' [st|]]|e] s'].
  - destruct m; try done. destruct input as [|line input]; [done|]. destruct (line_action line); try done.
    by destruct (Client_Send _ _ _).
Qed.

(** After [running] was set to false the main thread takes at most one line more. *)
Definition lines_left p : nat := match p_main p with MReading => 1 | _ => 0 end.

Lemma main_step_input p p' : p_running p = false → main_step p = Some p' →
  lines_left p' = 0%nat ∧
  (p_input p' = p_input p ∨ lines_left p = 1%nat ∧ ∃ line, p_input p = line :: p_input p').
Proof.
  destruct p as [s running input m r sent shown]. cbn. intros ->.
  destruct m; [by intros [= <-]; cbn; auto| |by intros [= <-]; cbn; auto..|by destruct r; intros [= <-]; cbn; auto|done].
  destruct input as [|line input]; [by intros [= <-]; cbn; auto|].
  destruct (line_action line) as [|ty msg|]; [intros [= <-]; cbn; eauto| |intros [= <-]; cbn; eauto].
  destruct (Client_Send ty msg s) as [ok s']. intros [= <-]. cbn. eauto.
Qed.

Lemma stopped_input p p' : p_running p = false → rtc program_step p p' →
  p_input p' = p_input p ∨ lines_left p = 1%nat ∧ ∃ line, p_input p = line :: p_input p'.
Proof.
  intros Hr Hs. induction Hs as [p|p q p' Hs Hrest IH]; [by left|].
  destruct Hs as [q Hs|q Hs].
  - destruct (main_step_rank _ _ Hr Hs) as [Hr' _]. destruct (main_step_input _ _ Hr Hs) as [Hz Hi].
    destruct (IH Hr') as [->|[E _]]; [done|]. by rewrite Hz in E.
  - destruct (receiver_step_keeps _ _ Hs) as (Ei & _ & Em & Hr'). specialize (IH (Hr' Hr)).
    unfold lines_left in *. by rewrite <- Ei, <- Em.
Qed.
End facts.

Section setup.
Context {K : Type} `{ClientClockLaws K} `{!Protobuf} `{!InetPton}.

Lemma destroy_fds fd (k : K) : open_fds (UniqueFd_destroy fd k) = if 0 <=? fd then open_fds k ∖ {[fd]} else open_fds k.
Proof.
  unfold UniqueFd_destroy, UniqueFd_Reset, UniqueFd_valid. cbn [snd]. destruct (0 <=? fd); [|done].
  by destruct (close_law k fd) as [-> _].
Qed.

Lemma connect_and_login_spec host port login (k0 : K) :
  wp (connect_and_login host port login) (λ r '(c, k),
    match r with
    | inl status => status = 1 ∧ open_fds (UniqueFd_destroy (bc_descriptor_ c) k) = open_fds k0
    | inr login' => login' = login ∧ bc_descriptor_ c ∉ open_fds k0 ∧
        ∀ input, Good (bc_descriptor_ c) (open_fds k0) (program_start login (c, k) input)
    end) (BlockingClient_new, k0).
Proof.
  unfold wp, connect_and_login. pose proof (Client_Connect_spec host port BlockingClient_new k0) as Hc.
  unfold sp in Hc. destruct (Client_Connect host port _) as [ok [c k]]. destruct Hc as (Ho & Hcon & Hrest).
  change (0 <=? bc_descriptor_ BlockingClient_new) with false in Ho. cbv iota in Ho.
  destruct ok; cbn [negb].
  2: { split; [done|]. rewrite destroy_fds, Hrest. cbn. rewrite Ho. set_solver. }
  destruct Hrest as (Hnew & Hd & Hs & Hdl & Hh). unfold BlockingClient.Connected in Hcon.
  apply andb_true_iff in Hcon as [Hv Hsh]. unfold UniqueFd_valid in Hv.
  assert (bc_descriptor_ c ∉ open_fds k0) as Hnew'.
  { destruct Hnew as [E|]; [|done]. rewrite E in Hv. done. }
  pose proof (Client_Send_spec kLoginRequest login c k) as Hse. unfold sp in Hse.
  destruct (Client_Send kLoginRequest login (c, k)) as [ok [c' k']]. cbn [fst snd] in Hse.
  destruct Hse as (-> & [Hf _] & Hdl' & part & Hh' & _ & Hok). destruct ok; cbn [negb].
  - split; [done|]. split; [done|]. intros input. split; [|split; [split; [done|]|by apply Z.leb_le]].
    + split; cbn; [done|done|by rewrite Hf| |].
      * rewrite Hdl', Hdl, Hs. apply yields_refl.
      * intros _. rewrite Hh', Hh. unfold sent_wire. cbn. by rewrite Hok, app_nil_r.
    + cbn. by apply negb_true_iff in Hsh.
  - split; [done|]. rewrite destroy_fds, Hv, Hf, Ho. set_solver.
Qed.

Lemma client_setup_spec argv (k0 : K) :
  wpx (client_setup argv) (λ r '(c, k),
    match r with
    | inl status => status = 1 ∧ open_fds (UniqueFd_destroy (bc_descriptor_ c) k) = open_fds k0
    | inr login => (∃ host port account more, argv = host :: port :: account :: more ∧
          login = LoginRequest account (default EmptyString (head more))) ∧
        bc_descriptor_ c ∉ open_fds k0 ∧
        ∀ input, Good (bc_descriptor_ c) (open_fds k0) (program_start login (c, k) input)
    end) (λ e s, s = (BlockingClient_new, k0) ∧ ∃ port, argv !! 1%nat = Some port ∧ stoul "stoul" port = Throws e)
    (BlockingClient_new, k0).
Proof.
  unfold client_setup.
  assert (∀ status, status = 1 → status = 1 ∧ open_fds (UniqueFd_destroy (bc_descriptor_ BlockingClient_new) k0) = open_fds k0)
    as Hone by (intros; by rewrite destroy_fds).
  assert (∀ host port account more, more = [] ∨ (∃ token, more = [token]) → argv = host :: port :: account :: more →
    wpx (port ← lift_outcome (stoul "stoul" port);
         connect_and_login host (u16 port.1) (LoginRequest account (default EmptyString (argv !! 3%nat))))
      (λ r '(c, k),
        match r with
        | inl status => status = 1 ∧ open_fds (UniqueFd_destroy (bc_descriptor_ c) k) = open_fds k0
        | inr login => (∃ host port account more, argv = host :: port :: account :: more ∧
              login = LoginRequest account (default EmptyString (head more))) ∧
            bc_descriptor_ c ∉ open_fds k0 ∧
            ∀ input, Good (bc_descriptor_ c) (open_fds k0) (program_start login (c, k) input)
        end) (λ e s, s = (BlockingClient_new, k0) ∧ ∃ port, argv !! 1%nat = Some port ∧ stoul "stoul" port = Throws e)
      (BlockingClient_new, k0)) as Hmain.
  { intros host port account more Hmore ->. apply wpx_bind. unfold wpx at 1, lift_outcome.
    destruct (stoul "stoul" port) as [n|e] eqn:Ep; [|by split; [|exists port]]. cbn [lookup list_lookup].
    apply wp_wpx. eapply wp_wand; [apply connect_and_login_spec|]. intros [status|login] [c k]; [done|].
    intros (-> & Hn & Hg). split; [|done]. exists host, port, account, more. split; [done|].
    by destruct Hmore as [->|[token ->]]. }
  destruct argv as [|host [|port [|account [|token [|x more]]]]]; try (by apply Hone).
  - apply Hmain with (more := []); [by left|done].
  - apply Hmain with (more := [token]); [by right; exists token|done].
Qed.
End setup.

(** ** Properties *)

(** C10: What the user types reaches the server and what the server sends is shown, in
    order, whatever the two threads' interleaving, the cutting of the bytes and
    interrupted calls. At every moment after the program has logged in: no exception has
    left a thread; the messages it has tried to send are its login and those of the
    commands read so far, and while no [Send] has failed the socket was handed exactly
    their frames; the frames shown are the first of those the received bytes hold, so
    that a server that sends whole frames has them shown in order; and the program owns
    one descriptor. *)
Theorem client_program_relays `{ClientClockLaws K} `{Protobuf} `{InetPton} argv (k0 : K) login c k lines p :
  client_setup argv (BlockingClient_new, k0) = (Returns (inr login), (c, k)) →
  rtc program_step (program_start login (c, k) lines) p →
  let fd := bc_descriptor_ c in
  (∀ e, p_receiver p ≠ RThrew e) ∧
  (∃ done, lines = done ++ p_input p ∧
     (λ x, (x.1.2, x.2)) <$> p_sent p = (kLoginRequest, login) :: omap line_message done) ∧
  (no_send_failed (p_sent p) = true → handed (p_client p).2 fd = concat (sent_wire <$> p_sent p)) ∧
  p_shown p `prefix_of` (drain_all (come_in (delivered (p_client p).2 fd))).1 ∧
  (∀ fs, Forall (encodable kDefaultMaxPayloadSize) fs →
     delivered (p_client p).2 fd `prefix_of` concat (frame_wire <$> fs) → p_shown p `prefix_of` fs) ∧
  open_fds (p_client p).2 = {[fd]} ∪ open_fds k0 ∧ fd ∉ open_fds k0.
Proof.
  intros E Hsteps fd. pose proof (client_setup_spec argv k0) as Hs. unfold wpx in Hs. rewrite E in Hs.
  destruct Hs as (_ & Hnew & Hg). specialize (Hg lines). fold fd in Hg, Hnew.
  assert (Obeyed login lines (program_start login (c, k) lines)) as Ho by (by exists []).
  assert (Good fd (open_fds k0) p ∧ Obeyed login lines p) as [(Hl & [Hr _] & _) Ho'].
  { clear E. revert Hg Ho. induction Hsteps as [|p0 p1 p2 Hs _ IH]; [done|]. intros Hg Ho.
    apply IH; [by eapply step_good|by eapply step_obeyed]. }
  assert (p_shown p `prefix_of` (drain_all (come_in (delivered (p_client p).2 fd))).1) as Hshown.
  { pose proof (ln_shown _ _ _ Hl) as Hy. unfold yields in Hy. rewrite Hy.
    destruct (drain_all (client_stream _)) as [fs r]. by apply prefix_app_r. }
  split; [|split; [done|split; [by apply Hl|split; [done|split; [|split; [by apply Hl|done]]]]]].
  - intros e Ee. by rewrite Ee in Hr.
  - intros fs Hfs Hpre. etrans; [exact Hshown|]. by apply drain_prefix.
Qed.

(** C14: The client ends. Once [running] is false, by [quit], the end of the input, or a
    connection closed or broken, no schedule of the two threads goes on for ever, the
    receiver being in a call of [Receive] included; the main thread takes at most the
    one line it was waiting for; and where nothing can step any more both threads have
    returned, nobody waits for the other, and the client's destructor leaves exactly the
    descriptors that were open before the program. *)
Theorem client_program_ends `{ClientClockLaws K} `{Protobuf} `{InetPton} argv (k0 : K) login c k lines p :
  client_setup argv (BlockingClient_new, k0) = (Returns (inr login), (c, k)) →
  rtc program_step (program_start login (c, k) lines) p →
  p_running p = false →
  sn program_step p ∧
  ∀ p', rtc program_step p p' →
    (p_input p' = p_input p ∨ ∃ line, p_input p = line :: p_input p') ∧
    ((∀ q, ¬ program_step p' q) →
      p_main p' = MDone ∧ p_receiver p' = RExited ∧ open_fds (program_exit p') = open_fds k0).
Proof.
  intros E Hsteps Hr. pose proof (client_setup_spec argv k0) as Hs. unfold wpx in Hs. rewrite E in Hs.
  destruct Hs as (_ & Hnew & Hg). specialize (Hg lines). set (fd := bc_descriptor_ c) in *.
  assert (∀ p1 p2, rtc program_step p1 p2 → Good fd (open_fds k0) p1 → Good fd (open_fds k0) p2) as Hrtc.
  { intros p1 p2. induction 1 as [|p1 p2 p3 Hs _ IH]; [done|]. intros ?. apply IH. by eapply step_good. }
  assert (Good fd (open_fds k0) p) as Hp by (by eapply Hrtc). split; [by eapply stopped_ends|].
  intros p' Hp'. split.
  { destruct (stopped_input p p' Hr Hp') as [|[_ ?]]; auto. }
  intros Hn. destruct (Hrtc _ _ Hp' Hp) as (Hl & Hph & Hfd). destruct (stuck_done p' Hph Hn) as [-> ->].
  do 2 (split; [done|]). unfold program_exit. rewrite destroy_fds, (ln_fd _ _ _ Hl), (ln_fds _ _ _ Hl).
  rewrite (proj2 (Z.leb_le 0 fd)) by done. set_solver.
Qed.

(** How the program can end before its threads start: the usage for a wrong number of
    arguments, an exception of [stoul] that nothing catches, before any call of the
    system; or exit status 1 with every descriptor closed again. *)
Theorem client_setup_outcome `{ClientClockLaws K} `{Protobuf} `{InetPton} argv (k0 : K) :
  ((length argv < 3)%nat ∨ (4 < length argv)%nat →
     client_setup argv (BlockingClient_new, k0) = (Returns (inl 1), (BlockingClient_new, k0))) ∧
  (∀ e s, client_setup argv (BlockingClient_new, k0) = (Throws e, s) →
     s = (BlockingClient_new, k0) ∧ ∃ port, argv !! 1%nat = Some port ∧ stoul "stoul" port = Throws e) ∧
  (∀ status c k, client_setup argv (BlockingClient_new, k0) = (Returns (inl status), (c, k)) →
     status = 1 ∧ open_fds (UniqueFd_destroy (bc_descriptor_ c) k) = open_fds k0).
Proof.
  pose proof (client_setup_spec argv k0) as Hs. unfold wpx in Hs. split; [|split].
  - intros Hlen. destruct argv as [|host [|port [|account [|token [|x more]]]]]; try done; cbn in Hlen; lia.
  - intros e s E. by rewrite E in Hs.
  - intros status c k E. by rewrite E in Hs.
Qed.

(** C30: The commands mean what they say. [chat] followed by a text that does not start
    with white space sends that text, its inner and trailing spaces included; [move]
    followed by two integers sends the [double]s nearest to them; [heartbeat] and [quit]
    do so with anything after them; and white space before a command does not matter. *)
Theorem commands_are_read_back spaces text n m rest :
  Forall (λ c, is_space c = true) spaces → match text with String c _ => is_space c = false | EmptyString => True end →
  representable (double_of n) → representable (double_of m) → ends_word (list_ascii_of_string rest) →
  let before := string_of_list_ascii spaces in
  line_action (before +:+ "chat " +:+ text) = SendMessage kChatRequest (ChatRequest text) ∧
  line_action (before +:+ "move " +:+ pretty n +:+ " " +:+ pretty m +:+ rest)
    = SendMessage kMoveRequest (MoveRequest (Some {| pb_x := double_of n; pb_y := double_of m |})) ∧
  line_action (before +:+ "heartbeat" +:+ rest) = SendMessage kHeartbeat Heartbeat ∧
  line_action (before +:+ "quit" +:+ rest) = Quit_.
Proof.
  intros Hsp Ht Hn Hm Hr before.
  assert (∀ c w s, is_space c = false → Forall (λ c, is_space c = false) w → ends_word s →
    extract_word (spaces ++ (c :: w) ++ s) = (c :: w, s)) as Hword.
  { intros c w s Hc Hw Hs. unfold extract_word. assert (drop_space (spaces ++ (c :: w) ++ s) = (c :: w) ++ s) as ->.
    { clear -Hsp Hc. induction Hsp as [|x xs Hx _ IH]; cbn [app drop_space]; [by rewrite Hc|]. by rewrite Hx. }
    apply span_word_ends; [by constructor|done]. }
  assert (list_ascii_of_string before = spaces) as Eb by apply list_ascii_of_string_of_list_ascii.
  assert (∀ a b, list_ascii_of_string (a +:+ b) = list_ascii_of_string a ++ list_ascii_of_string b) as Happ.
  { intros a b. induction a as [|x a IH]; [done|]. cbn. by rewrite <- IH. }
  unfold line_action. rewrite !Happ, Eb. split; [|split; [|split]].
  - pose proof (Hword "c" ["h"; "a"; "t"] (" " :: list_ascii_of_string text))%char as E.
    cbn [list_ascii_of_string app] in E |- *. rewrite E by (done || by repeat constructor).
    cbn -[drop_space string_of_list_ascii]. rewrite drop_space_single. destruct text as [|c text]; [done|].
    cbn [list_ascii_of_string]. rewrite drop_space_id by done. do 2 f_equal.
    apply (string_of_list_ascii_of_string (String c text)).
  - pose proof (Hword "m" ["o"; "v"; "e"] (" " :: list_ascii_of_string (pretty n) ++ " " ::
      list_ascii_of_string (pretty m) ++ list_ascii_of_string rest))%char as E.
    cbn [list_ascii_of_string app] in E |- *. rewrite E by (done || by repeat constructor).
    cbn [string_of_list_ascii]. rewrite !decide_False, decide_True by done.
    rewrite (extract_double_pretty n) by done. by rewrite extract_double_pretty.
  - pose proof (Hword "h" ["e"; "a"; "r"; "t"; "b"; "e"; "a"; "t"] (list_ascii_of_string rest))%char as E.
    cbn [list_ascii_of_string app] in E |- *. by rewrite E by (done || by repeat constructor).
  - pose proof (Hword "q" ["u"; "i"; "t"] (list_ascii_of_string rest))%char as E.
    cbn [list_ascii_of_string app] in E |- *. by rewrite E by (done || by repeat constructor).
Qed.

(** ** Concrete runs *)

(** A schedule: whose step is next, [true] for the main thread. *)
Fixpoint run_schedule {K} `{Kernel K} `{!SocketApi K} `{!ClientClock K} `{!Protobuf} (turns : list bool) (p : Program K)
    : option (Program K) :=
  match turns with
  | [] => Some p
  | t :: turns => p ← (if t then main_step p else receiver_step p); run_schedule turns p
  end.

Lemma run_schedule_rtc {K} `{Kernel K} `{!SocketApi K} `{!ClientClock K} `{!Protobuf} turns (p q : Program K) :
  run_schedule turns p = Some q → rtc program_step p q.
Proof.
  revert p. induction turns as [|t turns IH]; intros p; cbn [run_schedule].
  { by intros [= ->]. }
  destruct t; intros (p1 & E1 & E2)%bind_Some; (eapply rtc_l; [|by apply IH]).
  - by apply step_main.
  - by apply step_receiver.
Qed.

(** The receiver's turns, with no step of the main thread between them, are a call of
    [Receive]. *)
Lemma receiver_calls_Receive {K} `{Kernel K} `{!SocketApi K} `{!ClientClock K} `{!Protobuf}
    (p : Program K) f st s :
  p_receiver p = RCalling → Receive empty_frame 250 (p_client p) = (Returns (f, Some st), s) →
  ∃ n, run_schedule (replicate n false) p = Some (handle_status st f s p).
Proof.
  destruct p as [[c k] running input m r sent shown]. cbn [p_receiver p_client]. intros ->. unfold Receive.
  destruct (negb (Connected c)) eqn:Ec.
  { intros [= <- <- <-]. exists 1%nat. cbn [replicate run_schedule receiver_step fst]. by rewrite Ec. }
  destruct (steady_now k) as [now k1] eqn:Et. set (d := now + 250 * 1000000). intros Hl.
  assert (∀ fuel f0 s0, receive_loop fuel d f0 s0 = (Returns (f, Some st), s) →
    ∃ n, run_schedule (replicate n false) (mkProgram s0 running input m (RReceiving d f0) sent shown)
         = Some (handle_status st f s (mkProgram (c, k) running input m RCalling sent shown))) as Hloop.
  { intros fuel. induction fuel as [|fuel IH]; intros f0 s0; [done|]. cbn [receive_loop]. unfold mbind at 1, M_bind.
    destruct (receive_turn d f0 s0) as [[[f1 [st1|]]|e] s1] eqn:Er; [| |done].
    - intros [= -> -> ->]. exists 1%nat. cbn [replicate run_schedule receiver_step]. rewrite Er. by destruct st.
    - intros [n Hn]%IH. exists (S n). cbn [replicate run_schedule receiver_step]. by rewrite Er. }
  destruct (Hloop _ _ _ Hl) as [n Hn]. exists (S n). cbn [replicate run_schedule receiver_step fst snd].
  by rewrite Ec, Et.
Qed.

Definition client_table : table :=
  [([x0a; x02; x68; x69], ChatRequest "hi"); ([x01], LoginRequest "ada" EmptyString); ([], Heartbeat);
   ([x01], PlayerMove 7 None); ([x02], ChatBroadcast 7 "ada" "hi");
   ([x03], LoginResponse true EmptyString None [] "t0")].

#[local] Instance client_protobuf : Protobuf := table_protobuf client_table.
#[local] Instance main_pton : InetPton := quad_pton.

Example print_chat :
  PrintFrame {| message_id := 105; payload := [x02] |}
  = [OutText "ada"; OutText ": "; OutText "hi"; OutText newline].
Proof. vm_compute. reflexivity. Qed.
Example print_defaults :
  PrintFrame {| message_id := 101; payload := [x03] |}
  = [OutText "login ok: id="; OutUint 0; OutText " nickname="; OutText EmptyString; OutText " token="; OutText "t0";
     OutText newline].
Proof. vm_compute. reflexivity. Qed.
Example print_other_type : PrintFrame {| message_id := 106; payload := [x02] |} = [].
Proof. vm_compute. reflexivity. Qed.

Example move_fraction :
  line_action " move  -0.5 1e2" = SendMessage kMoveRequest
    (MoveRequest (Some {| pb_x := S754_finite true 4503599627370496 (-53); pb_y := double_of 100 |})).
Proof. vm_compute. reflexivity. Qed.
Example move_incomplete : line_action "move 1" = Nothing_ ∧ line_action "move a 1" = Nothing_ ∧ line_action "  " = Nothing_.
Proof. vm_compute. done. Qed.

(** The server's first bytes are cut inside its first frame. *)
Definition broadcast : Frame := {| message_id := 105; payload := [x02] |}.
Definition moved : Frame := {| message_id := 104; payload := [x01] |}.
Definition server_bytes : list byte := concat (frame_wire <$> [broadcast; moved]).

Definition client_net : NetKernel :=
  {| base := {| recv_script := {[8 := [Received (take 3 server_bytes); Received (drop 3 server_bytes)]]};
                send_script := {[8 := [Sent 2; SendEINTR]]}; accept_script := []; handed_ := ∅; open_fds_ := {[0; 1; 2]};
                epoll_set := ∅; epoll_fails := ∅ |};
     history := ∅; next_fds := [Some 8]; sock_faults := []; bound := 0; clock_ns := 5000 |}.

Definition client_argv : list string := ["1.2.3.4"; "9000"; "ada"]%string.
Definition client_login : ProtoMessage := LoginRequest "ada" EmptyString.
Definition client_started := Eval vm_compute in (client_setup client_argv (BlockingClient_new, client_net)).2.
Definition client_lines : list string := ["chat hi"; "quit"; "move 1 2"]%string.

(** The receiver is in a call of [Receive] when [quit] is read. *)
Definition schedule_quit : list bool :=
  [false; true; false; false; true; false; false; false; false; true; true; true].
Definition client_quit : option (Program NetKernel) :=
  Eval vm_compute in run_schedule schedule_quit (program_start client_login client_started client_lines).

Lemma client_started_eq : client_setup client_argv (BlockingClient_new, client_net) = (Returns (inr client_login), client_started).
Proof. vm_compute. reflexivity. Qed.

Lemma client_program_relays_witness :
  ∃ p, client_quit = Some p ∧ p_running p = false ∧ p_shown p = [broadcast] ∧ p_shown p `prefix_of` [broadcast; moved] ∧
    p_input p = ["move 1 2"%string] ∧
    handed (p_client p).2 8 = frame_wire {| message_id := 1; payload := [x01] |}
      ++ frame_wire {| message_id := 2; payload := [x0a; x02; x68; x69] |}.
Proof.
  destruct client_quit as [p|] eqn:E; [|vm_compute in E; discriminate E].
  assert (run_schedule schedule_quit (program_start client_login client_started client_lines) = Some p) as Ep.
  { rewrite <- E. vm_compute. reflexivity. }
  destruct (client_program_relays client_argv client_net client_login client_started.1 client_started.2 client_lines p)
    as (_ & _ & Hh & _ & Hshown & _).
  - exact client_started_eq.
  - exact (run_schedule_rtc _ _ _ Ep).
  - exists p. specialize (Hshown [broadcast; moved]). vm_compute in E. injection E as <-.
    split; [reflexivity|]. split; [reflexivity|]. split; [reflexivity|]. split.
    + apply Hshown; [by repeat constructor|by exists []].
    + split; [reflexivity|]. etrans; [exact (Hh eq_refl)|vm_compute; reflexivity].
Defined.

Lemma client_program_ends_witness :
  ∃ p p', client_quit = Some p ∧ sn program_step p ∧
    run_schedule [true; false; false; true] p = Some p' ∧
    p_main p' = MDone ∧ p_receiver p' = RExited ∧ open_fds (program_exit p') = {[0; 1; 2]}.
Proof.
  destruct client_quit as [p|] eqn:E; [|vm_compute in E; discriminate E].
  assert (run_schedule schedule_quit (program_start client_login client_started client_lines) = Some p) as Ep.
  { rewrite <- E. vm_compute. reflexivity. }
  destruct (client_program_ends client_argv client_net client_login client_started.1 client_started.2 client_lines p)
    as [Hsn Hend].
  - exact client_started_eq.
  - exact (run_schedule_rtc _ _ _ Ep).
  - vm_compute in E. by injection E as <-.
  - destruct (run_schedule [true; false; false; true] p) as [p'|] eqn:E'.
    2: { vm_compute in E. injection E as <-. vm_compute in E'. discriminate E'. }
    exists p, p'. split; [reflexivity|]. split; [done|]. split; [done|].
    destruct (Hend p' (run_schedule_rtc _ _ _ E')) as [_ Hdone]. apply Hdone.
    intros q Hq. vm_compute in E. injection E as <-. vm_compute in E'. injection E' as <-.
    destruct Hq as [q Hq|q Hq]; vm_compute in Hq; discriminate Hq.
Defined.

Lemma client_setup_outcome_witness :
  (∃ s, client_setup ["1.2.3.4"; "many"; "ada"]%string (BlockingClient_new, client_net) = (Throws (invalid_argument "stoul"), s)) ∧
  client_setup ["1.2.3.4"]%string (BlockingClient_new, client_net) = (Returns (inl 1), (BlockingClient_new, client_net)).
Proof.
  split; [eexists; vm_compute; reflexivity|].
  apply (client_setup_outcome ["1.2.3.4"]%string client_net). left. cbn. lia.
Defined.

Lemma commands_are_read_back_witness :
  line_action (string_of_list_ascii [" "%char] +:+ "move " +:+ "-12" +:+ " " +:+ "30" +:+ " east")
    = SendMessage kMoveRequest (MoveRequest (Some {| pb_x := double_of (-12); pb_y := double_of 30 |})).
Proof.
  apply (commands_are_read_back [" "%char] "hello" (-12) 30 " east").
  - by repeat constructor.
  - reflexivity.
  - vm_compute. exact I.
  - vm_compute. exact I.
  - reflexivity.
Defined.
