(* ===== verification/EventLoop.v ===== *)
(** * The event loop

    [src/net/event_loop.cpp]: the callback table and the dispatch of the events of
    one [epoll_wait]. [CB] is the type of the callbacks; [PollOnce] runs over the
    state [S] of the whole program, in which a callback may add and remove
    callbacks. *)

From S2P Require Import Prelude Kernel.

Definition EPOLLIN : Z := 0x1.
Definition EPOLLOUT : Z := 0x4.
Definition EPOLLERR : Z := 0x8.
Definition EPOLLHUP : Z := 0x10.
Definition EPOLLRDHUP : Z := 0x2000.

(** [(events & flag) != 0] *)
Definition has_flag (events flag : Z) : bool := negb (Z.land events flag =? 0).

Section table.
Context {K CB : Type} `{Kernel K}.

Abbreviation Callbacks := (gmap Z CB).

Definition EventLoop_Add (callbacks : Callbacks) (k : K) (descriptor events : Z) (callback : option CB)
    : bool * Callbacks * K :=
  match callback with
  | None => (false, callbacks, k)
  | Some callback =>
      if (descriptor <? 0) || bool_decide (is_Some (callbacks !! descriptor)) then (false, callbacks, k)
      else
        let '(ok, k) := k_epoll_add k descriptor events in
        if negb ok then (false, callbacks, k)
        else (true, <[descriptor := callback]> callbacks, k)
  end.

Definition EventLoop_Modify (callbacks : Callbacks) (k : K) (descriptor events : Z) : bool * K :=
  if bool_decide (callbacks !! descriptor = None) then (false, k)
  else k_epoll_mod k descriptor events.

Definition EventLoop_Remove (callbacks : Callbacks) (k : K) (descriptor : Z) : Callbacks * K :=
  (delete descriptor callbacks, k_epoll_del k descriptor).
End table.

(** The result of [epoll_wait]: the ready descriptors with their events. *)
Inductive WaitResult := Ready (events : list (Z * Z)) | WaitEINTR | WaitError.

Section poll.
Context {S CB : Type}.
Context (callbacks_of : S → gmap Z CB) (invoke : CB → Z → M S unit).

(** One event: the callback is looked up when its turn comes. *)
Definition dispatch (event : Z * Z) : M S unit :=
  callbacks ← gets callbacks_of;
  match callbacks !! event.1 with
  | Some callback => invoke callback event.2
  | None => mret tt
  end.

Definition PollOnce (result : WaitResult) : M S Z :=
  match result with
  | WaitEINTR => mret 0
  | WaitError => lift_outcome (Throws (system_error "epoll_wait"))
  | Ready events => for_each events dispatch ;; mret (size_of events)
  end.

(** ** Properties *)

(** An event whose descriptor has no callback by the time of its turn is dropped. *)
Lemma dispatch_removed event s :
  callbacks_of s !! event.1 = None → dispatch event s = (Returns tt, s).
Proof. unfold dispatch. intros E. erewrite bind_run by reflexivity. by rewrite E. Qed.

Lemma dispatch_present event s cb :
  callbacks_of s !! event.1 = Some cb → dispatch event s = invoke cb event.2 s.
Proof. unfold dispatch. intros E. erewrite bind_run by reflexivity. by rewrite E. Qed.
End poll.
