(* ===== verification/RunStop.v ===== *)
(** * Running and stopping

    [GameServer::Run] and [Stop] over [EventLoop::Run] and [Stop]
    ([src/server/game_server.cpp], [src/net/event_loop.cpp]), called from the thread of
    the loop and from any number of other threads or signal handlers: every load and
    store of the two atomics and every use of the stop eventfd is a step. *)

From S2P Require Import Prelude.

(** The thread in [GameServer::Run]: before [stopped_.store(false)], before
    [running_.store(true)], before [running_.load()], in [PollOnce(-1)], returned. *)
Inductive RunPhase := StoreStopped | StoreRunning | LoadRunning | InPoll | RunReturned.

(** A call of [GameServer::Stop]: before [stopped_.exchange(true)], before
    [running_.store(false)], before [stop_wakeup_.Notify()], returned. *)
Inductive StopPhase := Exchange | StoreNotRunning | NotifyStop | StopReturned.

#[export] Instance RunPhase_eq_dec : EqDecision RunPhase.
Proof. solve_decision. Defined.
#[export] Instance StopPhase_eq_dec : EqDecision StopPhase.
Proof. solve_decision. Defined.

(** The atomics, whether the stop eventfd is readable, and the threads. *)
Record RunState := mkRunState {
  stopped_ : bool;
  running_ : bool;
  stop_pending : bool;
  runner : RunPhase;
  stoppers : list StopPhase
}.

Definition run_init : RunState :=
  {| stopped_ := false; running_ := false; stop_pending := false; runner := StoreStopped; stoppers := [] |}.

(** A step of the thread of the loop. [PollOnce] returns when the eventfd is readable,
    whose callback consumes it, or for [other] events. *)
Definition run_next (other : bool) (s : RunState) : option RunState :=
  match runner s with
  | StoreStopped => Some {| stopped_ := false; running_ := running_ s; stop_pending := stop_pending s;
                            runner := StoreRunning; stoppers := stoppers s |}
  | StoreRunning => Some {| stopped_ := stopped_ s; running_ := true; stop_pending := stop_pending s;
                            runner := LoadRunning; stoppers := stoppers s |}
  | LoadRunning => Some {| stopped_ := stopped_ s; running_ := running_ s; stop_pending := stop_pending s;
                           runner := if running_ s then InPoll else RunReturned; stoppers := stoppers s |}
  | InPoll =>
      if stop_pending s || other then
        Some {| stopped_ := stopped_ s; running_ := running_ s; stop_pending := false;
                runner := LoadRunning; stoppers := stoppers s |}
      else None
  | RunReturned => None
  end.

(** A step of the [i]-th call of [Stop]. *)
Definition stop_next (i : nat) (s : RunState) : option RunState :=
  let put ph stopped running pending :=
    Some {| stopped_ := stopped; running_ := running; stop_pending := pending; runner := runner s;
            stoppers := <[i := ph]> (stoppers s) |} in
  match stoppers s !! i with
  | Some Exchange => put (if stopped_ s then StopReturned else StoreNotRunning) true (running_ s) (stop_pending s)
  | Some StoreNotRunning => put NotifyStop (stopped_ s) false (stop_pending s)
  | Some NotifyStop => put StopReturned (stopped_ s) (running_ s) true
  | Some StopReturned | None => None
  end.

Definition call_stop (s : RunState) : RunState :=
  {| stopped_ := stopped_ s; running_ := running_ s; stop_pending := stop_pending s; runner := runner s;
     stoppers := stoppers s ++ [Exchange] |}.

Inductive run_step : RunState → RunState → Prop :=
| step_run other s s' : run_next other s = Some s' → run_step s s'
| step_stop i s s' : stop_next i s = Some s' → run_step s s'
| step_call s : run_step s (call_stop s).

Definition looping (s : RunState) : Prop := runner s = LoadRunning ∨ runner s = InPoll.
Definition all_returned (s : RunState) : Prop := Forall (λ ph, ph = StopReturned) (stoppers s).

(** ** Invariants *)

(** While the loop has been told to stop, it is about to look, or the eventfd is or
    will be readable. *)
Definition StopInv (s : RunState) : Prop :=
  running_ s = false → runner s = InPoll → stop_pending s = true ∨ NotifyStop ∈ stoppers s.

Lemma stop_next_inv i s s' : StopInv s → stop_next i s = Some s' → StopInv s'.
Proof.
  unfold StopInv, stop_next. intros Hs. destruct (stoppers s !! i) as [[]|] eqn:Hi; intros [= <-]; cbn; intros Hr Hp.
  - destruct (Hs Hr Hp) as [|Hn]; [by left|right]. apply list_elem_of_lookup in Hn as [j Hj].
    apply list_elem_of_lookup. exists j. rewrite list_lookup_insert_ne; [done|]. intros ->. congruence.
  - right. apply list_elem_of_lookup. exists i. apply list_lookup_insert_eq. by eapply lookup_lt_Some.
  - by left.
Qed.

Lemma run_next_inv other s s' : StopInv s → run_next other s = Some s' → StopInv s'.
Proof.
  unfold StopInv, run_next. intros Hs. destruct (runner s) eqn:Er; try by intros [= <-].
  - intros [= <-]. cbn. intros ->. done.
  - destruct (_ || _); [|done]. by intros [= <-].
Qed.

Lemma run_step_inv s s' : StopInv s → run_step s s' → StopInv s'.
Proof.
  intros Hs Hstep. destruct Hstep as [other s1 s1' E|i s1 s1' E|s1]; [by eapply run_next_inv|by eapply stop_next_inv|].
  intros Hr Hp. destruct (Hs Hr Hp); [by left|right]. cbn. apply elem_of_app. by left.
Qed.

Lemma run_reachable_inv s s' : StopInv s → rtc run_step s s' → StopInv s'.
Proof. intros Hs Hr. induction Hr; eauto using run_step_inv. Qed.

(** Once the loop runs, [running_] only goes from true to false. *)
Lemma stays_stopped s s' :
  running_ s = false → runner s ≠ StoreStopped → runner s ≠ StoreRunning → run_step s s' →
  running_ s' = false ∧ runner s' ≠ StoreStopped ∧ runner s' ≠ StoreRunning.
Proof.
  intros Hr H1 H2 Hstep. destruct Hstep as [other s s' E|i s s' E|s]; [| |done]; revert E.
  - unfold run_next. destruct (runner s) eqn:Er; try done; repeat case_match; intros; by simplify_eq/=.
  - unfold stop_next. destruct (stoppers s !! i) as [[]|]; intros; by simplify_eq/=.
Qed.

Lemma stays_stopped_rtc s s' :
  running_ s = false → runner s ≠ StoreStopped → runner s ≠ StoreRunning → rtc run_step s s' →
  running_ s' = false ∧ runner s' ≠ StoreStopped ∧ runner s' ≠ StoreRunning.
Proof. intros H1 H2 H3 Hr. revert H1 H2 H3. induction Hr; [done|]. intros. apply IHHr; by eapply stays_stopped. Qed.

(** From a running loop: until the first [exchange] every call is before its own, and
    then the one that found [stopped_] unset has cleared [running_] or is about to. *)
Definition Started (s : RunState) : Prop :=
  (looping s ∨ runner s = RunReturned) ∧
  if stopped_ s then running_ s = false ∨ StoreNotRunning ∈ stoppers s
  else ∀ ph, ph ∈ stoppers s → ph = Exchange.

Lemma started_step s s' : Started s → run_step s s' → Started s'.
Proof.
  intros [Hr Hs] Hstep. destruct Hstep as [other s s' E|i s s' E|s].
  - unfold run_next in E. destruct Hr as [[Er|Er]|Er]; rewrite Er in E; [| |done].
    + injection E as <-. split; [|done]. destruct (running_ s); [left; by right|by right].
    + destruct (_ || _); [|done]. injection E as <-. split; [left; by left|done].
  - unfold stop_next in E. destruct (stoppers s !! i) as [ph|] eqn:Ei; [|done].
    assert (ph ∈ stoppers s) as Hph by (by eapply list_elem_of_lookup_2).
    destruct (stopped_ s) eqn:Est.
    + destruct ph; [..|done]; injection E as <-; (split; [done|]); cbn; rewrite ?Est.
      * destruct Hs; [by left|right]. by eapply elem_of_insert_keep.
      * by left.
      * destruct Hs; [by left|right]. by eapply elem_of_insert_keep.
    + pose proof (Hs ph Hph) as ->. injection E as <-. split; [done|]. cbn. right. by eapply elem_of_insert_new.
  - split; [done|]. cbn. destruct (stopped_ s).
    + destruct Hs; [by left|right]. apply elem_of_app. by left.
    + intros ph [Hp|Hp]%elem_of_app; [by apply Hs|]. by apply list_elem_of_singleton in Hp.
Qed.

Lemma started_rtc s s' : Started s → rtc run_step s s' → Started s'.
Proof. intros Hs Hr. induction Hr; eauto using started_step. Qed.

(** The states of a server that can no longer be stopped: every [Stop] finds
    [stopped_] set. *)
Definition Unstoppable (s : RunState) : Prop :=
  stopped_ s = true ∧ running_ s = true ∧ looping s ∧
  ∀ ph, ph ∈ stoppers s → ph ≠ StoreNotRunning.

Lemma unstoppable_step s s' : Unstoppable s → run_step s s' → Unstoppable s'.
Proof.
  intros (H1 & H2 & H3 & H4) Hstep. destruct Hstep as [other s1 s1' E|i s1 s1' E|s1].
  - unfold run_next in E. destruct H3 as [Er|Er]; rewrite Er in E.
    + rewrite H2 in E. injection E as <-. split; [done|]. split; [done|]. split; [by right|done].
    + destruct (_ || _); [|done]. injection E as <-. split; [done|]. split; [done|]. split; [by left|done].
  - unfold stop_next in E. destruct (stoppers s1 !! i) as [ph|] eqn:Ei; [|done].
    pose proof (H4 ph ltac:(by eapply list_elem_of_lookup_2)) as Hph. rewrite H1 in E.
    destruct ph; try done; injection E as <-; (split; [done|split; [done|split; [done|]]]); cbn;
      intros ph [->|Hp]%elem_of_insert_inv; by auto.
  - split; [done|]. split; [done|]. split; [done|]. cbn. intros ph [Hp|Hp]%elem_of_app; [by apply H4|].
    by apply list_elem_of_singleton in Hp as ->.
Qed.

Lemma unstoppable_rtc s s' : Unstoppable s → rtc run_step s s' → Unstoppable s'.
Proof. intros Hs Hr. induction Hr; eauto using unstoppable_step. Qed.

(** The loop's own steps. *)
Fixpoint run_alone (n : nat) (s : RunState) : RunState :=
  match n with
  | O => s
  | S n => match run_next false s with Some s' => run_alone n s' | None => s end
  end.

(** ** Properties *)

(** C21: A [Stop] that finds the loop running ends it. From any state of a running server
    in which no [Stop] has been called yet, whatever the threads do from then on: when
    a call of [Stop] has returned and none is under way, [running_] is false, the loop
    is not asleep in [epoll_wait], after at most two steps of its own [Run] has
    returned, and nothing sets [running_] again. *)
Theorem stop_ends_a_running_loop s s' :
  looping s → stopped_ s = false → running_ s = true → stoppers s = [] →
  rtc run_step s s' → all_returned s' → stoppers s' ≠ [] →
  running_ s' = false ∧ runner (run_alone 2 s') = RunReturned ∧
  ∀ s'', rtc run_step s' s'' → running_ s'' = false.
Proof.
  intros Hl Hst Hrun Hno Hr Hall Hne.
  assert (Started s') as [Hph Hs].
  { apply (started_rtc s); [|done]. split; [by left|]. rewrite Hst, Hno. by intros ph ?%elem_of_nil. }
  assert (StopInv s') as Hi by (apply (run_reachable_inv s); [intros ?; congruence|done]).
  assert (∀ ph, ph ∈ stoppers s' → ph = StopReturned) as Hret by (by apply Forall_forall).
  assert (running_ s' = false) as Hf.
  { destruct (stopped_ s').
    - destruct Hs as [|Hp]; [done|by apply Hret in Hp].
    - destruct (stoppers s') as [|ph l] eqn:E; [done|]. assert (ph ∈ ph :: l) as Hp by set_solver.
      pose proof (Hs ph Hp). pose proof (Hret ph Hp). congruence. }
  split; [done|]. split.
  - cbn [run_alone]. unfold run_next. destruct Hph as [[E|E]|E]; rewrite E.
    + cbn. by rewrite Hf.
    + destruct (Hi Hf E) as [->|Hn]; [|by apply Hret in Hn]. cbn. by rewrite Hf.
    + by rewrite E.
  - intros s'' Hr'. apply (stays_stopped_rtc s'); [done|..|done]; destruct Hph as [[E|E]|E]; rewrite E; done.
Qed.

(** C37: A [Stop] between [GameServer::Run]'s [stopped_.store(false)] and
    [EventLoop::Run]'s [running_.store(true)] returns, and is lost: the server then
    runs, and no later call of [Stop], however many there are and however they
    interleave, can end it; whereas a [Stop] before [Run] is called is lost too but
    leaves the server stoppable. *)
Theorem stop_during_startup_is_lost :
  ∃ lost early,
    rtc run_step run_init lost ∧ all_returned lost ∧ length (stoppers lost) = 1%nat ∧
    (∀ s, rtc run_step lost s → running_ s = true ∧ runner s ≠ RunReturned) ∧
    rtc run_step run_init early ∧ all_returned early ∧ length (stoppers early) = 1%nat ∧
    looping early ∧ running_ early = true ∧ stopped_ early = false.
Proof.
  set (step other s := default s (run_next other s)). set (stop i s := default s (stop_next i s)).
  exists (step false (stop 0%nat (stop 0%nat (stop 0%nat (call_stop (step false run_init)))))).
  exists (step false (step false (stop 0%nat (stop 0%nat (stop 0%nat (call_stop run_init)))))).
  assert (∀ b s s1, rtc run_step s1 s → rtc run_step s1 (step b s)) as Hrun.
  { intros b s s1 H1. unfold step. destruct (run_next b s) eqn:E; [|done]. eapply rtc_r; [done|by eapply step_run]. }
  assert (∀ i s s1, rtc run_step s1 s → rtc run_step s1 (stop i s)) as Hstop.
  { intros i s s1 H1. unfold stop. destruct (stop_next i s) eqn:E; [|done]. eapply rtc_r; [done|by eapply step_stop]. }
  assert (∀ s s1, rtc run_step s1 s → rtc run_step s1 (call_stop s)) as Hcall.
  { intros s s1 H1. eapply rtc_r; [done|apply step_call]. }
  split; [|split; [by repeat constructor|split; [done|split; [|split; [|split; [by repeat constructor|]]]]]].
  - by apply Hrun, Hstop, Hstop, Hstop, Hcall, Hrun.
  - intros s Hs. apply unstoppable_rtc in Hs as (_ & Hr & Hl & _).
    + split; [done|]. by destruct Hl as [-> | ->].
    + split; [done|]. split; [done|]. split; [by left|]. cbn. intros ph Hp.
      by apply list_elem_of_singleton in Hp as ->.
  - by apply Hrun, Hrun, Hstop, Hstop, Hstop, Hcall.
  - split; [done|]. by split; [left|].
Qed.

(** ** Witness *)

Definition run_looping : RunState :=
  {| stopped_ := false; running_ := true; stop_pending := false; runner := InPoll; stoppers := [] |}.
Definition run_stopping : RunState :=
  {| stopped_ := true; running_ := false; stop_pending := true; runner := InPoll; stoppers := [StopReturned] |}.

Lemma stop_ends_a_running_loop_witness :
  runner (run_alone 2 run_stopping) = RunReturned ∧ rtc run_step run_looping run_stopping.
Proof.
  assert (rtc run_step run_looping run_stopping) as Hr.
  { eapply rtc_l; [apply step_call|]. do 2 (eapply rtc_l; [by apply (step_stop 0%nat)|]).
    by eapply rtc_once, (step_stop 0%nat). }
  split; [|exact Hr].
  destruct (stop_ends_a_running_loop run_looping run_stopping) as (_ & H & _).
  - by right.
  - reflexivity.
  - reflexivity.
  - reflexivity.
  - exact Hr.
  - by repeat constructor.
  - discriminate.
  - exact H.
Defined.
