(* ===== verification/GameServer.v ===== *)
(** * The game server

    [src/server/game_server.cpp]: connections, the event callbacks, and the
    implementation of [GameTransport] on them.

    The transport state is the server's tables and the kernel
    ([GameServer * K]); the calls into the game service are those of [GameService]
    over this transport, so that [Disconnect] re-enters [OnDisconnected] as in the
    source. A [std::unique_ptr] that is erased closes its descriptor. *)

From S2P Require Import Prelude Double FrameCodec FrameStream AoiWorld DataTypes AsyncData.
From S2P Require Import ProtobufCodec GameTransport Mt19937 GameService Kernel TcpConnection EventLoop.

Record ServerConfig := mkServerConfig {
  bind_address : string;
  port : Z;
  listen_backlog : Z;
  maximum_connections : Z;
  maximum_pending_bytes_per_connection : Z;
  database_worker_count : Z;
  database_queue_capacity : Z;
  game_config : GameConfig
}.

Definition default_server_config : ServerConfig :=
  {| bind_address := "127.0.0.1"; port := 9000; listen_backlog := 128;
     maximum_connections := 4096; maximum_pending_bytes_per_connection := 4 * 1024 * 1024;
     database_worker_count := 2; database_queue_capacity := 1024; game_config := default_game_config |}.

Record Client := mkClient { client_id : Z; connection : TcpConnection }.

(** The lambdas registered with the event loop. *)
Inductive LoopCallback :=
| OnStopWakeup
| OnListener
| OnDatabaseWakeup
| OnClient (client_descriptor : Z).

(** What [Send] is asked to send. *)
Definition Request : Type := MessageType * ProtoMessage.

(** [requests_] is a history that the code does not have and that nothing reads: what
    [Send] has been asked to send on each connection, oldest first. *)
Record GameServer := mkGameServer {
  server_config_ : ServerConfig;
  callbacks_ : gmap Z LoopCallback;
  clients_ : gmap Z Client;
  connection_descriptors_ : gmap Z Z;
  marked_for_close_ : gset Z;
  next_connection_id_ : Z;
  requests_ : gmap Z (list Request)
}.

Definition set_callbacks (cbs : gmap Z LoopCallback) (g : GameServer) : GameServer :=
  {| server_config_ := server_config_ g; callbacks_ := cbs; clients_ := clients_ g;
     connection_descriptors_ := connection_descriptors_ g;
     marked_for_close_ := marked_for_close_ g; next_connection_id_ := next_connection_id_ g; requests_ := requests_ g |}.
Definition set_clients (cs : gmap Z Client) (g : GameServer) : GameServer :=
  {| server_config_ := server_config_ g; callbacks_ := callbacks_ g; clients_ := cs;
     connection_descriptors_ := connection_descriptors_ g;
     marked_for_close_ := marked_for_close_ g; next_connection_id_ := next_connection_id_ g; requests_ := requests_ g |}.
Definition set_descriptors (ds : gmap Z Z) (g : GameServer) : GameServer :=
  {| server_config_ := server_config_ g; callbacks_ := callbacks_ g; clients_ := clients_ g;
     connection_descriptors_ := ds;
     marked_for_close_ := marked_for_close_ g; next_connection_id_ := next_connection_id_ g; requests_ := requests_ g |}.
Definition set_marked (m : gset Z) (g : GameServer) : GameServer :=
  {| server_config_ := server_config_ g; callbacks_ := callbacks_ g; clients_ := clients_ g;
     connection_descriptors_ := connection_descriptors_ g;
     marked_for_close_ := m; next_connection_id_ := next_connection_id_ g; requests_ := requests_ g |}.
Definition set_next_connection_id (n : Z) (g : GameServer) : GameServer :=
  {| server_config_ := server_config_ g; callbacks_ := callbacks_ g; clients_ := clients_ g;
     connection_descriptors_ := connection_descriptors_ g;
     marked_for_close_ := marked_for_close_ g; next_connection_id_ := n; requests_ := requests_ g |}.

Definition requests_of (g : GameServer) (c : Z) : list Request := default [] (requests_ g !! c).

(** The history with another request; what is asked of a connection that is not there
    is no part of it. *)
Definition note_request (c : Z) (type : MessageType) (message : ProtoMessage) (g : GameServer) : GameServer :=
  match connection_descriptors_ g !! c with
  | None => g
  | Some _ =>
      {| server_config_ := server_config_ g; callbacks_ := callbacks_ g; clients_ := clients_ g;
         connection_descriptors_ := connection_descriptors_ g; marked_for_close_ := marked_for_close_ g;
         next_connection_id_ := next_connection_id_ g;
         requests_ := <[c := requests_of g c ++ [(type, message)]]> (requests_ g) |}
  end.

Definition mark_for_close (c : Z) (g : GameServer) : GameServer :=
  set_marked ({[c]} ∪ marked_for_close_ g) g.
Definition unmark (c : Z) (g : GameServer) : GameServer :=
  set_marked (marked_for_close_ g ∖ {[c]}) g.

(** The client of a descriptor replaced by itself with another connection state. *)
Definition put_connection (fd : Z) (conn : TcpConnection) (g : GameServer) : GameServer :=
  set_clients (alter (λ cl, {| client_id := client_id cl; connection := conn |}) fd (clients_ g)) g.

Section transport.
Context {K : Type} `{!Kernel K} `{!Protobuf}.

Definition UpdateInterest (cl : Client) (s : GameServer * K) : GameServer * K :=
  let '(g, k) := s in
  let events := Z.lor EPOLLIN EPOLLRDHUP in
  let events := if WantsWrite (connection cl) then Z.lor events EPOLLOUT else events in
  let '(ok, k) := EventLoop_Modify (callbacks_ g) k (descriptor_ (connection cl)) events in
  if negb ok then (mark_for_close (client_id cl) g, k) else (g, k).

Definition server_Send (s : GameServer * K) (connection_id : Z) (type : MessageType)
    (message : ProtoMessage) : bool * (GameServer * K) :=
  let '(g, k) := s in
  match connection_descriptors_ g !! connection_id with
  | None => (false, s)
  | Some fd =>
      match clients_ g !! fd with
      | None => (false, s)
      | Some client =>
          match EncodeProtobufFrame type message kDefaultMaxPayloadSize with
          | Throws _ => (false, (mark_for_close connection_id g, k))
          | Returns bytes =>
              let '(queued, conn) := QueueBytes bytes (connection client) in
              let g := put_connection fd conn g in
              if negb queued then (false, (mark_for_close connection_id g, k))
              else
                let '(status, conn, k) := Flush conn k in
                let g := put_connection fd conn g in
                if negb (bool_decide (status = kOpen)) then (false, (mark_for_close connection_id g, k))
                else (true, UpdateInterest {| client_id := client_id client; connection := conn |} (g, k))
          end
      end
  end.

Definition server_IsConnected (s : GameServer * K) (connection_id : Z) : bool :=
  bool_decide (is_Some (connection_descriptors_ s.1 !! connection_id))
  && negb (bool_decide (connection_id ∈ marked_for_close_ s.1)).

(** [clients_.erase(fd)]: the client's destructor closes its descriptor. *)
Definition erase_client (fd : Z) (s : GameServer * K) : GameServer * K :=
  let '(g, k) := s in
  match clients_ g !! fd with
  | None => (g, k)
  | Some client => (set_clients (delete fd (clients_ g)) g, k_close k (descriptor_ (connection client)))
  end.

(** [CloseConnection], calling [on_disconnected] for the game service. *)
Definition CloseConnection {G} (on_disconnected : Z → M (G * (GameServer * K)) unit)
    (connection_id : Z) : M (G * (GameServer * K)) unit := λ w,
  let '(e, (g, k)) := w in
  match connection_descriptors_ g !! connection_id with
  | None => (Returns tt, (e, (unmark connection_id g, k)))
  | Some native_handle =>
      let '(cbs, k) := EventLoop_Remove (callbacks_ g) k native_handle in
      (on_disconnected connection_id ;;
       modify (λ w, let '(e, s) := w in
                    let '(g, k) := erase_client native_handle s in
                    let g := set_descriptors (delete connection_id (connection_descriptors_ g)) g in
                    (e, (unmark connection_id g, k))))
      (e, (set_callbacks cbs g, k))
  end.

(** The transport of the game service; [Send] with its history. *)
#[export] Instance server_transport : GameTransport (GameServer * K) := {
  tr_Send s c type message := server_Send (note_request c type message s.1, s.2) c type message;
  tr_IsConnected := server_IsConnected;
  tr_Disconnect G cb c := CloseConnection cb c
}.
End transport.

(** ** The event callbacks *)

Section server.
Context {K D C : Type} `{!Kernel K}.
Context `{!DataService D PlayerCallback SessionCallback OperationCallback}.
Context `{!SystemClock C} `{!Platform} `{!Protobuf}.

Abbreviation ServerWorld := (World (GameServer * K) D C).

Definition get_server : M ServerWorld GameServer := gets (λ w, w.2.1).

Definition update_server (f : GameServer → GameServer) : M ServerWorld unit :=
  modify (λ w, (w.1, (f w.2.1, w.2.2))).

Definition on_network {A} (f : GameServer * K → A * (GameServer * K)) : M ServerWorld A := λ w,
  let '(r, s) := f w.2 in (Returns r, (w.1, s)).

Definition Close (connection_id : Z) : M ServerWorld unit := CloseConnection OnDisconnected connection_id.

(** [CloseMarkedConnections]. Each round either takes a connection out of
    [connection_descriptors_] or a mark that has none out of [marked_for_close_],
    and only open connections are marked: the fuel is enough
    ([CloseMarked_empty]). *)
Fixpoint close_marked (fuel : nat) : M ServerWorld unit :=
  match fuel with
  | O => mret tt
  | Datatypes.S fuel =>
      g ← get_server;
      match elements (marked_for_close_ g) with
      | [] => mret tt
      | connection_id :: _ => Close connection_id ;; close_marked fuel
      end
  end.

Definition CloseMarkedConnections : M ServerWorld unit :=
  g ← get_server;
  close_marked (size (connection_descriptors_ g) + size (marked_for_close_ g)).

(** The body of [accept4]'s loop. *)
Definition add_client (descriptor : Z) : M ServerWorld unit :=
  g ← get_server;
  if maximum_connections (server_config_ g) <=? Z.of_nat (size (clients_ g)) then
    on_network (λ '(g, k), (tt, (g, k_close k descriptor)))
  else
    update_server (λ g, set_next_connection_id (u64 (next_connection_id_ g + 1)) g) ;;
    g ← get_server;
    let connection_id := next_connection_id_ g in
    match TcpConnection_new descriptor (maximum_pending_bytes_per_connection (server_config_ g)) with
    | Throws ex =>
        on_network (λ '(g, k), (tt, (g, k_close k descriptor))) ;; lift_outcome (Throws ex)
    | Returns conn =>
        let client := {| client_id := connection_id; connection := conn |} in
        update_server (λ g, set_clients (emplace descriptor client (clients_ g)) g) ;;
        update_server (λ g, set_descriptors (<[connection_id := descriptor]> (connection_descriptors_ g)) g) ;;
        ok ← on_network (λ '(g, k),
          let '(ok, cbs, k) := EventLoop_Add (callbacks_ g) k descriptor
                                 (Z.lor EPOLLIN EPOLLRDHUP) (Some (OnClient descriptor)) in
          (ok, (set_callbacks cbs g, k)));
        if negb ok then Close connection_id else mret tt
    end.

(** [accept4]'s loop; the fuel is the kernel's budget. *)
Fixpoint accept_loop (fuel : nat) : M ServerWorld unit :=
  match fuel with
  | O => mret tt
  | Datatypes.S fuel =>
      r ← on_network (λ '(g, k), let '(r, k) := k_accept k in (r, (g, k)));
      match r with
      | Accepted descriptor => add_client descriptor ;; accept_loop fuel
      | AcceptEINTR => accept_loop fuel
      | AcceptEAGAIN => mret tt
      | AcceptError => lift_outcome (Throws (system_error "accept4"))
      end
  end.

Definition AcceptReady : M ServerWorld unit := λ w,
  accept_loop (Datatypes.S (accept_budget w.2.2)) w.

(** [client->second->connection.ReadAvailable(frames)] on the client of [fd]. *)
Definition read_client (fd : Z) (conn : TcpConnection) : M ServerWorld (IoStatus * list Frame) := λ w,
  let '(r, (conn, k)) := ReadAvailable (conn, w.2.2) in
  (r, (w.1, (put_connection fd conn w.2.1, k))).

Fixpoint handle_frames (connection_id : Z) (frames : list Frame) : M ServerWorld unit :=
  match frames with
  | [] => mret tt
  | frame :: frames =>
      connected ← IsConnected connection_id;
      if connected : bool then HandleFrame connection_id frame ;; handle_frames connection_id frames
      else mret tt
  end.

(** The end of [ClientReady], from the second [IsConnected]. *)
Definition client_written (descriptor connection_id events : Z) (should_close : bool)
    : M ServerWorld unit :=
  connected ← IsConnected connection_id;
  if negb connected then CloseMarkedConnections
  else
    g ← get_server;
    let client := clients_ g !! descriptor in
    flushed ← match client with
              | Some cl =>
                  if has_flag events EPOLLOUT then
                    on_network (λ '(g, k), let '(status, conn, k) := Flush (connection cl) k in
                                           (status, (put_connection descriptor conn g, k)))
                  else mret kOpen
              | None => mret kOpen
              end;
    let should_close :=
      should_close || negb (bool_decide (flushed = kOpen)) || has_flag events EPOLLRDHUP in
    (if should_close : bool then update_server (mark_for_close connection_id)
     else
       g ← get_server;
       match clients_ g !! descriptor with
       | Some cl => on_network (λ s, (tt, UpdateInterest cl s))
       | None => mret tt
       end) ;;
    CloseMarkedConnections.

Definition ClientReady (descriptor events : Z) : M ServerWorld unit :=
  g ← get_server;
  match clients_ g !! descriptor with
  | None => mret tt
  | Some client =>
      let connection_id := client_id client in
      let should_close := has_flag events (Z.lor EPOLLERR EPOLLHUP) in
      should_close ←
        (if has_flag events EPOLLIN then
           '(status, frames) ← read_client descriptor (connection client);
           match status with
           | kProtocolError | kIoError => mret true
           | kPeerClosed => handle_frames connection_id frames ;; mret true
           | kOpen | kSlowConsumer => handle_frames connection_id frames ;; mret should_close
           end
         else mret should_close);
      client_written descriptor connection_id events should_close
  end.

(** The lambda of the database eventfd. What [Consume] reads and which completions
    [cs] [Drain] finds is the other side's, in [CompletionQueue]; here they are run. *)
Definition DatabaseReady (cs : list (Completion PlayerCallback SessionCallback OperationCallback))
    : M ServerWorld unit :=
  for_each cs run_completion ;;
  CloseMarkedConnections.

(** The callbacks as the event loop runs them; [drained] are the completions a
    database wake-up finds. *)
Definition invoke_callback
    (drained : list (Completion PlayerCallback SessionCallback OperationCallback))
    (callback : LoopCallback) (events : Z) : M ServerWorld unit :=
  match callback with
  | OnStopWakeup => mret tt
  | OnListener => AcceptReady
  | OnDatabaseWakeup => DatabaseReady drained
  | OnClient descriptor => ClientReady descriptor events
  end.

Definition server_poll drained (result : WaitResult) : M ServerWorld Z :=
  PollOnce (λ w, callbacks_ w.2.1) (invoke_callback drained) result.

(** The destructor, up to the shutdown of the pool. *)
Definition close_all : M ServerWorld unit :=
  g ← get_server;
  for_each ((map_to_list (connection_descriptors_ g)).*1) Close.
End server.
