(* ===== verification/GameServerInv.v ===== *)
(** * The server's tables and streams

    [ServerOk] ties [clients_], [connection_descriptors_], [marked_for_close_] and the
    event loop's callbacks together; [StreamsOk] ties what went out to each client, and
    what waits to go, to what [Send] was asked. [server_transport] satisfies the laws
    the game service relies on, with both ([NetworkOk]) as the well-formed states. *)

From Stdlib Require Import Strings.Byte.
From S2P Require Import Prelude Double FrameCodec FrameStream AoiWorld DataTypes AsyncData.
From S2P Require Import ProtobufCodec GameTransport Mt19937 GameService Kernel TcpConnection EventLoop.
From S2P Require Import GameServer.

(** ** Streams of frames *)

Section frames.
Context `{!Protobuf}.

(** [f] is the frame that carries a request. *)
Definition sent_as (r : Request) (f : Frame) : Prop :=
  EncodeProtobufFrame r.1 r.2 kDefaultMaxPayloadSize = Returns (frame_wire f) ∧
  encodable kDefaultMaxPayloadSize f.

(** [bs] is the frames of the requests [rs], in order. *)
Definition carries (rs : list Request) (bs : list byte) : Prop :=
  ∃ fs, Forall2 sent_as rs fs ∧ bs = concat (frame_wire <$> fs).

Lemma carries_nil : carries [] [].
Proof. by exists []. Qed.

Lemma carries_app rs bs ty m more :
  carries rs bs → EncodeProtobufFrame ty m kDefaultMaxPayloadSize = Returns more →
  carries (rs ++ [(ty, m)]) (bs ++ more).
Proof.
  intros (fs & Hf & ->) E. pose proof E as E'. unfold EncodeProtobufFrame in E.
  destruct (_ || _); [done|].
  destruct (if 0 <? ByteSizeLong m then _ else _) as [p|x]; [|done]. cbn [mbind Outcome_bind] in E.
  apply EncodeFrame_Returns in E as (H1 & H2 & ->).
  exists (fs ++ [{| message_id := message_id_of ty; payload := p |}]). split.
  - apply Forall2_app; [done|]. repeat constructor; [done|by destruct ty|done..].
  - rewrite fmap_app, concat_app. cbn. by rewrite app_nil_r.
Qed.
End frames.

Section tables.
Context {K : Type} `{!Kernel K} `{!KernelLaws K} `{!Protobuf}.
Implicit Types (g : GameServer) (k : K).

(** Connections and clients are in bijection, each client on its own descriptor,
    which is open, and there are at most [maximum_connections]; a client callback
    belongs to a client; only open connections are marked; connection ids were given out by the counter, which does not wrap. *)
Record ServerOk (s : GameServer * K) : Prop := {
  ok_descriptor c fd : connection_descriptors_ s.1 !! c = Some fd →
    ∃ cl, clients_ s.1 !! fd = Some cl ∧ client_id cl = c;
  ok_client fd cl : clients_ s.1 !! fd = Some cl →
    connection_descriptors_ s.1 !! client_id cl = Some fd ∧
    descriptor_ (connection cl) = fd ∧ TcpInv (connection cl) ∧ fd ∈ open_fds s.2;
  ok_callback fd fd' : callbacks_ s.1 !! fd = Some (OnClient fd') →
    fd' = fd ∧ is_Some (clients_ s.1 !! fd);
  ok_marked c : c ∈ marked_for_close_ s.1 → is_Some (connection_descriptors_ s.1 !! c);
  ok_ids c : is_Some (connection_descriptors_ s.1 !! c) → 0 < c <= next_connection_id_ s.1;
  ok_next : 0 <= next_connection_id_ s.1 ∧
    next_connection_id_ s.1 + Z.of_nat (accept_budget s.2) < 2 ^ 64;
  ok_count : Z.of_nat (size (clients_ s.1)) <= maximum_connections (server_config_ s.1);
  ok_limit : 0 < maximum_pending_bytes_per_connection (server_config_ s.1) < 2 ^ 64
}.

(** The same connections, clients and callbacks. *)
Record same_tables (s s' : GameServer * K) : Prop := {
  same_config : server_config_ s'.1 = server_config_ s.1;
  same_callbacks : callbacks_ s'.1 = callbacks_ s.1;
  same_clients fd : client_id <$> clients_ s'.1 !! fd = client_id <$> clients_ s.1 !! fd;
  same_descriptors : connection_descriptors_ s'.1 = connection_descriptors_ s.1;
  same_next : next_connection_id_ s'.1 = next_connection_id_ s.1
}.

#[export] Instance same_tables_preorder : PreOrder same_tables.
Proof.
  split; [by split|]. intros s1 s2 s3 [A1 A2 A3 A4 A5] [B1 B2 B3 B4 B5].
  split; [congruence|congruence|intros fd; by rewrite B3|congruence|congruence].
Qed.

Definition connection_open (s : GameServer * K) (c : Z) : bool :=
  bool_decide (is_Some (connection_descriptors_ s.1 !! c)).

Lemma kernel_ok g k k' : same_fds k k' → ServerOk (g, k) → ServerOk (g, k').
Proof.
  intros [E L] [H1 H2 H3 H4 H5 H6 H7 H8]. split; try done; cbn in *; [|lia].
  intros fd cl. rewrite E. apply H2.
Qed.

Lemma mark_ok c g k :
  is_Some (connection_descriptors_ g !! c) → ServerOk (g, k) →
  ServerOk (mark_for_close c g, k) ∧ same_tables (g, k) (mark_for_close c g, k).
Proof.
  intros Hc [H1 H2 H3 H4 H5 H6 H7 H8]. split; [|by split]. split; try done. intros c'. cbn.
  rewrite elem_of_union, elem_of_singleton. intros [->|?]; [done|by apply H4].
Qed.

Lemma unmark_ok c g k : ServerOk (g, k) → ServerOk (unmark c g, k).
Proof. intros [H1 H2 H3 H4 H5 H6 H7 H8]. split; try done. intros c'. cbn. set_solver. Qed.

Lemma put_ok fd conn g k k' :
  ServerOk (g, k) → is_Some (clients_ g !! fd) → descriptor_ conn = fd → TcpInv conn →
  same_fds k k' →
  ServerOk (put_connection fd conn g, k') ∧ same_tables (g, k) (put_connection fd conn g, k').
Proof.
  intros [H1 H2 H3 H4 H5 H6 H7 H8] [cl Hcl] Hd Hi [Ho Hb].
  assert (∀ fd', client_id <$> alter (λ cl, {| client_id := client_id cl; connection := conn |}) fd (clients_ g) !! fd'
    = client_id <$> clients_ g !! fd') as Hids.
  { intros fd'. destruct (decide (fd = fd')) as [<-|Hne]; [|by rewrite lookup_alter_ne].
    rewrite lookup_alter_eq, Hcl. done. }
  split; [|split; try done]. split; cbn in *; try done; try lia.
  - intros c fd' (cl' & Hcl' & Hid)%H1. specialize (Hids fd'). rewrite Hcl' in Hids.
    destruct (alter _ fd (clients_ g) !! fd') as [cl''|]; [|done]. exists cl''. split; [done|].
    cbn in Hids. congruence.
  - intros fd' cl'. rewrite Ho. destruct (decide (fd = fd')) as [<-|Hne].
    + rewrite lookup_alter_eq, Hcl. intros [= <-]. cbn. destruct (H2 _ _ Hcl) as (? & ? & ? & ?). done.
    + rewrite lookup_alter_ne by done. apply H2.
  - intros fd' fd'' [-> Hs]%H3. split; [done|]. specialize (Hids fd').
    destruct (alter _ fd (clients_ g) !! fd'); [by eexists|]. by destruct Hs as [? Hs]; rewrite Hs in Hids.
  - by rewrite <- size_dom, dom_alter_L, size_dom.
Qed.

Lemma UpdateInterest_ok cl g k :
  is_Some (connection_descriptors_ g !! client_id cl) → ServerOk (g, k) →
  ServerOk (UpdateInterest cl (g, k)) ∧ same_tables (g, k) (UpdateInterest cl (g, k)).
Proof.
  intros Hc Hok. unfold UpdateInterest, EventLoop_Modify. set (ev := if WantsWrite _ then _ else _).
  case_bool_decide; [by apply mark_ok|].
  pose proof (epoll_mod_frame k (descriptor_ (connection cl)) ev) as E. fold (same_fds k (k_epoll_mod k (descriptor_ (connection cl)) ev).2) in E.
  destruct (k_epoll_mod _ _ _) as [ok k']. cbn in E. pose proof (kernel_ok g k k' E Hok) as Hk.
  destruct (negb ok).
  - destruct (mark_ok (client_id cl) g k' Hc Hk) as [Hm Hs]. split; [done|]. by split.
  - split; [done|by split].
Qed.

Lemma server_Send_ok s c ty m :
  ServerOk s → ServerOk (server_Send s c ty m).2 ∧ same_tables s (server_Send s c ty m).2.
Proof.
  destruct s as [g k]. intros Hok. unfold server_Send.
  destruct (connection_descriptors_ g !! c) as [fd|] eqn:Hfd; [|done].
  destruct (clients_ g !! fd) as [cl|] eqn:Hcl; [|done].
  assert (is_Some (connection_descriptors_ g !! c)) as Hc by (by eexists).
  destruct (EncodeProtobufFrame _ _ _) as [bytes|ex]; [|by apply mark_ok].
  destruct (ok_client _ Hok _ _ Hcl) as (_ & Hd & Hi & _).
  destruct (QueueBytes bytes (connection cl)) as [queued conn] eqn:Eq.
  apply QueueBytes_spec in Eq as (Hi1 & Hd1 & _); [|done].
  destruct (put_ok fd conn g k k Hok (mk_is_Some _ _ Hcl)) as [Hok1 Hs1]; [congruence|done|done|].
  set (g1 := put_connection fd conn g) in *. destruct queued; cbn [negb].
  2: { destruct (mark_ok c g1 k Hc Hok1) as [? ?]. split; [done|]. by etrans. }
  destruct (Flush conn k) as [[st conn2] k2] eqn:Ef.
  apply Flush_spec in Ef as (Hi2 & Hd2 & _ & _ & Ho2 & _); [|done].
  assert (is_Some (clients_ g1 !! fd)) as Hcl1.
  { unfold g1. cbn. rewrite lookup_alter_eq, Hcl. by eexists. }
  destruct (put_ok fd conn2 g1 k k2 Hok1 Hcl1) as [Hok2 Hs2]; [congruence|done|done|].
  set (g2 := put_connection fd conn2 g1) in *.
  assert (client_id cl = c) as Hid.
  { destruct (ok_descriptor _ Hok _ _ Hfd) as (cl' & Hcl' & <-). cbn in Hcl'. congruence. }
  destruct (negb _).
  - destruct (mark_ok c g2 k2 Hc Hok2) as [? ?]. split; [done|]. etrans; [exact Hs1|]. by etrans.
  - destruct (UpdateInterest_ok {| client_id := client_id cl; connection := conn2 |} g2 k2) as [? ?];
      [cbn; by rewrite Hid|done|]. split; [done|]. etrans; [exact Hs1|]. by etrans.
Qed.

(** Erasing a connection everywhere. *)
Lemma close_ok c fd g k :
  ServerOk (g, k) → connection_descriptors_ g !! c = Some fd → (∀ fd', callbacks_ g !! fd ≠ Some (OnClient fd')) →
  let '(g', k') := erase_client fd (g, k) in
  ServerOk (unmark c (set_descriptors (delete c (connection_descriptors_ g')) g'), k') ∧
  connection_descriptors_ g' = connection_descriptors_ g.
Proof.
  intros [H1 H2 H3 H4 H5 H6 H7 H8] Hc Hcb. unfold erase_client. cbn in *.
  destruct (H1 _ _ Hc) as (cl & Hcl & Hid). rewrite Hcl. split; [|done].
  destruct (H2 _ _ Hcl) as (_ & Hd & _ & _). rewrite Hd.
  assert (∀ c' fd', connection_descriptors_ g !! c' = Some fd' → c' ≠ c → fd' ≠ fd) as Hinj.
  { intros c' fd' Hc' Hne ->. destruct (H1 _ _ Hc') as (cl' & Hcl' & Hid'). congruence. }
  split; cbn; try done; try (pose proof (proj2 (close_law k fd)); cbn in *; lia).
  - intros c' fd' [Hne Hc']%lookup_delete_Some. destruct (H1 _ _ Hc') as (cl' & Hcl' & Hid').
    exists cl'. rewrite lookup_delete_ne; [done|]. apply not_eq_sym. by eapply Hinj.
  - intros fd' cl' [Hne Hcl']%lookup_delete_Some. destruct (H2 _ _ Hcl') as (Hc' & Hd' & Hi' & Ho').
    split; [|split; [done|split; [done|]]].
    + rewrite lookup_delete_ne; [done|]. intros E. rewrite <- E in Hc'. congruence.
    + rewrite (proj1 (close_law k fd)). set_solver.
  - intros fd' fd'' Hcb'. destruct (H3 _ _ Hcb') as [-> Hs]. split; [done|].
    rewrite lookup_delete_ne; [done|]. intros ->. by apply (Hcb fd').
  - intros c' Hc'. apply elem_of_difference in Hc' as [Hc' Hne]. rewrite lookup_delete_ne by set_solver.
    by apply H4.
  - intros c' [fd' [_ Hc']%lookup_delete_Some]. apply H5. by eexists.
  - rewrite map_size_delete_Some by (by eexists). lia.
Qed.

Lemma same_tables_open s s' c : same_tables s s' → connection_open s' c = connection_open s c.
Proof. intros Hs. unfold connection_open. by rewrite (same_descriptors _ _ Hs). Qed.

Lemma server_connected_open s c : server_IsConnected s c = true → connection_open s c = true.
Proof. unfold server_IsConnected. by intros [Hc _]%andb_true_iff. Qed.

(** ** The streams *)

(** What is asked of a connection whose id is still to come: nothing. *)
Definition ids_fresh g : Prop := ∀ c, next_connection_id_ g < c → requests_of g c = [].

(** What went out to a client and what waits to go carry all that was asked of it. *)
Definition client_carries g k (fd : Z) (cl : Client) : Prop :=
  carries (requests_of g (client_id cl)) (handed k fd ++ unsent (connection cl)).

(** The clients that stay, all but that of [c]. *)
Definition carries_but (c : Z) (s : GameServer * K) : Prop :=
  ∀ fd cl, clients_ s.1 !! fd = Some cl → client_id cl ∉ marked_for_close_ s.1 → client_id cl ≠ c →
    client_carries s.1 s.2 fd cl.

Record StreamsOk (s : GameServer * K) : Prop := {
  so_fresh : ids_fresh s.1;
  so_client fd cl : clients_ s.1 !! fd = Some cl → client_id cl ∉ marked_for_close_ s.1 →
    client_carries s.1 s.2 fd cl
}.

Record NetworkOk (s : GameServer * K) : Prop := { no_tables : ServerOk s; no_streams : StreamsOk s }.

(** The same bytes went out to every client. *)
Definition same_handed g k k' : Prop := ∀ fd, is_Some (clients_ g !! fd) → handed k' fd = handed k fd.

Lemma StreamsOk_same g g' k k' :
  clients_ g' = clients_ g → marked_for_close_ g ⊆ marked_for_close_ g' →
  next_connection_id_ g' = next_connection_id_ g → requests_ g' = requests_ g →
  same_handed g k k' → StreamsOk (g, k) → StreamsOk (g', k').
Proof.
  intros Ec Em En Er Eh [H1 H2]. split; unfold ids_fresh, client_carries, requests_of in *; cbn in *;
    rewrite ?En, ?Er, ?Ec; [done|].
  intros fd cl Hcl Hm. rewrite (Eh fd) by by eexists. apply H2; [done|set_solver].
Qed.

Lemma network_kernel g k k' : same_fds k k' → same_handed g k k' → NetworkOk (g, k) → NetworkOk (g, k').
Proof. intros Hk Hh [H1 H2]. split; [by eapply kernel_ok|by eapply (StreamsOk_same g)]. Qed.

Lemma network_mark c g k :
  is_Some (connection_descriptors_ g !! c) → NetworkOk (g, k) →
  NetworkOk (mark_for_close c g, k) ∧ same_tables (g, k) (mark_for_close c g, k).
Proof.
  intros Hc [H1 H2]. destruct (mark_ok c g k Hc H1) as [Hm Hs]. split; [|done]. split; [done|].
  apply (StreamsOk_same g _ k); try done. cbn. set_solver.
Qed.

(** The client of [fd] with another state of its connection, and what went out on [fd]
    only: the streams of the others. *)
Lemma carries_but_put fd cl conn g k k' :
  clients_ g !! fd = Some cl → (∀ fd', fd' ≠ fd → handed k' fd' = handed k fd') →
  carries_but (client_id cl) (g, k) → carries_but (client_id cl) (put_connection fd conn g, k').
Proof.
  intros Hcl Hh Hc fd' cl'. cbn. destruct (decide (fd' = fd)) as [->|Hne].
  - rewrite lookup_alter_eq, Hcl. by intros [= <-].
  - rewrite lookup_alter_ne by done. intros Hcl' Hm Hid. unfold client_carries. rewrite Hh by done. by apply (Hc fd' cl').
Qed.

(** When [c] is marked, or its own stream is as asked, all are. *)
Lemma carries_marked c g k : ids_fresh g → carries_but c (g, k) → StreamsOk (mark_for_close c g, k).
Proof.
  intros Hf Hc. split; [done|]. cbn. intros fd cl Hcl Hm.
  apply (Hc fd cl Hcl); cbn; set_solver.
Qed.

Lemma carries_all fd cl g k :
  ServerOk (g, k) → ids_fresh g → clients_ g !! fd = Some cl → carries_but (client_id cl) (g, k) →
  (client_id cl ∉ marked_for_close_ g → client_carries g k fd cl) → StreamsOk (g, k).
Proof.
  intros Hok Hf Hcl Hc Hown. split; [done|]. intros fd' cl' Hcl' Hm.
  destruct (decide (client_id cl' = client_id cl)) as [E|Hne]; [|by apply Hc].
  destruct (ok_client _ Hok _ _ Hcl) as [H1 _]. destruct (ok_client _ Hok _ _ Hcl') as [H2 _]. cbn in H1, H2, Hcl'.
  rewrite E, H1 in H2. injection H2 as <-. rewrite Hcl in Hcl'. injection Hcl' as <-. by apply Hown.
Qed.

(** *** Sending *)

Lemma network_put fd cl conn g k k' :
  NetworkOk (g, k) → clients_ g !! fd = Some cl → descriptor_ conn = fd → TcpInv conn → same_fds k k' →
  (∀ fd', fd' ≠ fd → handed k' fd' = handed k fd') →
  handed k' fd ++ unsent conn = handed k fd ++ unsent (connection cl) →
  NetworkOk (put_connection fd conn g, k') ∧ same_tables (g, k) (put_connection fd conn g, k').
Proof.
  intros [Hok [Hf Hs]] Hcl Hd Hi Hk Hh Hu.
  destruct (put_ok fd conn g k k' Hok (mk_is_Some _ _ Hcl) Hd Hi Hk) as [Hok' Ht]. split; [|done].
  split; [done|]. split; [done|]. intros fd' cl'. cbn. destruct (decide (fd' = fd)) as [->|Hne].
  - rewrite lookup_alter_eq, Hcl. intros [= <-]. cbn. intros Hm. unfold client_carries. cbn. rewrite Hu. by apply Hs.
  - rewrite lookup_alter_ne by done. intros Hcl' Hm. unfold client_carries. rewrite Hh by done. by apply (Hs fd' cl').
Qed.

Lemma UpdateInterest_streams cl (s : GameServer * K) : StreamsOk s → StreamsOk (UpdateInterest cl s).
Proof.
  destruct s as [g k]. intros Hs. unfold UpdateInterest, EventLoop_Modify. set (ev := if WantsWrite _ then _ else _).
  case_bool_decide; cbn [negb]; [apply (StreamsOk_same g _ k); try done; cbn; set_solver|].
  pose proof (λ fd', epoll_mod_handed k (descriptor_ (connection cl)) ev fd') as Hh.
  destruct (k_epoll_mod _ _ _) as [[] k']; cbn [snd negb] in *; apply (StreamsOk_same g _ k); try done;
    try (intros fd _; apply Hh). cbn. set_solver.
Qed.

Lemma note_request_ok c ty m g k :
  ServerOk (g, k) → ServerOk (note_request c ty m g, k) ∧ same_tables (g, k) (note_request c ty m g, k).
Proof.
  intros [H1 H2 H3 H4 H5 H6 H7 H8]. unfold note_request.
  destruct (connection_descriptors_ g !! c); [|done]. split; by split.
Qed.

(** What is asked of [c] is no business of the others. *)
Lemma note_request_streams c fd ty m g k :
  NetworkOk (g, k) → connection_descriptors_ g !! c = Some fd →
  let g' := note_request c ty m g in
  ids_fresh g' ∧ carries_but c (g', k) ∧ requests_of g' c = requests_of g c ++ [(ty, m)] ∧
  clients_ g' = clients_ g ∧ connection_descriptors_ g' = connection_descriptors_ g ∧
  marked_for_close_ g' = marked_for_close_ g.
Proof.
  intros [Hok [Hf Hs]] Hfd. cbn zeta. unfold note_request. rewrite Hfd.
  assert (∀ c', c' ≠ c → default [] (<[c:=requests_of g c ++ [(ty, m)]]> (requests_ g) !! c') = requests_of g c')
    as Hother by (intros c' Hne; by rewrite lookup_insert_ne).
  split; [|split; [|split; [|done]]].
  - intros c' Hc'. cbn in Hc'. unfold requests_of. cbn. rewrite Hother; [by apply Hf|].
    pose proof (ok_ids _ Hok c (mk_is_Some _ _ Hfd)) as Hle. cbn in Hle. lia.
  - intros fd' cl Hcl Hm Hne. unfold client_carries, requests_of. cbn. rewrite Hother by done. by apply Hs.
  - unfold requests_of. cbn. by rewrite lookup_insert_eq.
Qed.

(** A request reaches the stream of its client, or its connection is given up. *)
Lemma Send_streams (s : GameServer * K) c ty m : NetworkOk s → StreamsOk (tr_Send s c ty m).2.
Proof.
  destruct s as [g k]. intros Hn. cbn [tr_Send server_transport fst snd]. unfold server_Send.
  destruct (connection_descriptors_ g !! c) as [fd|] eqn:Hfd.
  2: { unfold note_request. rewrite Hfd, Hfd. apply Hn. }
  pose proof (note_request_streams c fd ty m g k Hn Hfd) as (Hf & Hbut & Hr & Ec & Ed & Em).
  destruct (note_request_ok c ty m g k (no_tables _ Hn)) as [Hok0 _].
  set (g0 := note_request c ty m g) in *. rewrite Ed, Hfd, Ec.
  destruct (ok_descriptor _ (no_tables _ Hn) _ _ Hfd) as (cl & Hcl & Hid). cbn in Hcl. rewrite Hcl. subst c.
  rewrite <- Ec in Hcl. destruct (EncodeProtobufFrame _ _ _) as [bytes|ex] eqn:Ee; [|by apply carries_marked].
  destruct (ok_client _ Hok0 _ _ Hcl) as (_ & Hd & Hi & _).
  destruct (QueueBytes bytes (connection cl)) as [queued conn] eqn:Eq.
  apply QueueBytes_spec in Eq as (Hi1 & Hd1 & _ & _ & Hu); [|done].
  pose proof (carries_but_put fd cl conn g0 k k Hcl (λ _ _, eq_refl) Hbut) as Hbut1.
  destruct queued; cbn [negb]; [|by apply carries_marked].
  set (g1 := put_connection fd conn g0) in *. set (cl1 := {| client_id := client_id cl; connection := conn |}).
  assert (clients_ g1 !! fd = Some cl1) as Hcl1 by (unfold g1; cbn; by rewrite lookup_alter_eq, Hcl).
  destruct (put_ok fd conn g0 k k Hok0 (mk_is_Some _ _ Hcl)) as [Hok1 _]; [congruence|done|done|].
  destruct (Flush conn k) as [[st conn2] k2] eqn:Ef.
  pose proof (λ fd' H, Flush_other _ _ _ _ _ fd' H Ef) as Hother. rewrite Hd1, Hd in Hother.
  apply Flush_spec in Ef as (Hi2 & Hd2 & _ & _ & Ho2 & Hh & _); [|done]. rewrite Hd1, Hd in Hh.
  pose proof (carries_but_put fd cl1 conn2 g1 k k2 Hcl1 Hother Hbut1) as Hbut2.
  destruct (negb _); [by apply carries_marked|]. apply UpdateInterest_streams.
  destruct (put_ok fd conn2 g1 k k2 Hok1 (mk_is_Some _ _ Hcl1)) as [Hok2 _]; [congruence|done|done|].
  apply (carries_all fd {| client_id := client_id cl; connection := conn2 |}); [done|done| |done|].
  - cbn. by rewrite !lookup_alter_eq, Hcl.
  - intros Hm. destruct Hn as [Hok [_ Hs]]. unfold client_carries. cbn [connection client_id].
    change (requests_of (put_connection fd conn2 g1) (client_id cl)) with (requests_of g0 (client_id cl)).
    rewrite Hr, Hh, Hu, app_assoc. apply carries_app; [|done]. rewrite Ec in Hcl.
    apply Hs; [done|]. cbn in Hm |- *. by rewrite Em in Hm.
Qed.

Lemma Send_ok (s : GameServer * K) c ty m :
  NetworkOk s → NetworkOk (tr_Send s c ty m).2 ∧ same_tables s (tr_Send s c ty m).2.
Proof.
  intros Hn. pose proof (Send_streams s c ty m Hn) as Hs. destruct s as [g k].
  destruct (note_request_ok c ty m g k (no_tables _ Hn)) as [Hok H1].
  destruct (server_Send_ok _ c ty m Hok) as [Hok' H2]. split; [by split|]. by etrans.
Qed.

(** *** Closing *)

(** The event loop no longer watches [fd]. *)
Lemma network_remove fd g k :
  NetworkOk (g, k) → NetworkOk (set_callbacks (delete fd (callbacks_ g)) g, k_epoll_del k fd).
Proof.
  intros Hn. apply (network_kernel _ k); [apply epoll_del_frame|intros fd' _; apply epoll_del_handed|].
  destruct Hn as [[H1 H2 H3 H4 H5 H6 H7 H8] Hs]. split; [|by apply (StreamsOk_same g _ k)].
  split; cbn in *; try done. intros fd' fd'' [_ Hcb]%lookup_delete_Some. by apply H3.
Qed.

Lemma network_unmark c g k :
  NetworkOk (g, k) → connection_descriptors_ g !! c = None → NetworkOk (unmark c g, k).
Proof.
  intros [Hok [Hf Hs]] Hc. split; [by apply unmark_ok|]. split; [done|]. intros fd cl Hcl Hm. cbn in *.
  apply (Hs fd cl Hcl). assert (client_id cl ≠ c); [|set_solver].
  intros <-. destruct (ok_client _ Hok _ _ Hcl) as [Hfd _]. cbn in Hfd. congruence.
Qed.

Lemma close_streams c fd g k :
  NetworkOk (g, k) → connection_descriptors_ g !! c = Some fd →
  let '(g', k') := erase_client fd (g, k) in
  StreamsOk (unmark c (set_descriptors (delete c (connection_descriptors_ g')) g'), k').
Proof.
  intros [Hok [Hf Hs]] Hc. unfold erase_client. destruct (ok_descriptor _ Hok _ _ Hc) as (cl & Hcl & Hid).
  cbn in Hcl. rewrite Hcl. destruct (ok_client _ Hok _ _ Hcl) as (_ & -> & _ & _). split; [done|]. cbn.
  intros fd' cl' [Hne Hcl']%lookup_delete_Some Hm. unfold client_carries. rewrite close_other by done.
  apply (Hs fd' cl' Hcl'). assert (client_id cl' ≠ c); [|set_solver]. intros E.
  destruct (ok_client _ Hok _ _ Hcl') as [Hfd' _]. cbn in Hfd'. congruence.
Qed.

Lemma CloseConnection_law {G} (cb : Z → M (G * (GameServer * K)) unit) c (Q : G → Prop) (e : G) s :
  NetworkOk s →
  (connection_open s c = true → ∀ s', NetworkOk s' →
     (∀ c', connection_open s' c' = connection_open s c') →
     wp (cb c) (λ _ w, Q w.1 ∧ NetworkOk w.2 ∧ same_tables s' w.2) (e, s')) →
  (connection_open s c = false → Q e) →
  wp (CloseConnection cb c)
    (λ _ w, Q w.1 ∧ NetworkOk w.2 ∧
            ∀ c', connection_open w.2 c' = connection_open s c' && negb (c' =? c)) (e, s).
Proof.
  destruct s as [g k]. intros Hok Hopen Hclosed. unfold CloseConnection. unfold connection_open in *.
  cbn [fst] in *. unfold wp.
  destruct (connection_descriptors_ g !! c) as [fd|] eqn:Hc.
  - unfold EventLoop_Remove. set (g1 := set_callbacks _ g). set (k1 := k_epoll_del k fd).
    assert (NetworkOk (g1, k1)) as Hok1 by (by apply network_remove).
    specialize (Hopen eq_refl (g1, k1) Hok1 (λ _, eq_refl)).
    apply (wp_bind (cb c)). eapply wp_wand; [exact Hopen|].
    intros [] [e' [g2 k2]] (HQ & Hok2 & [S1 S2 S3 S4 S5]). cbn [fst snd] in *.
    assert (connection_descriptors_ g2 !! c = Some fd) as Hc2 by (by rewrite S4).
    pose proof (close_ok c fd g2 k2 (no_tables _ Hok2) Hc2) as Hcl. pose proof (close_streams c fd g2 k2 Hok2 Hc2) as Hst.
    unfold wp, modify. destruct (erase_client fd (g2, k2)) as [g3 k3]. destruct Hcl as [Hok3 E3].
    { intros fd' E. rewrite S2 in E. cbn in E. by rewrite lookup_delete_eq in E. }
    split; [done|]. split; [by split|]. rewrite E3, S4. intros c'. cbn.
    destruct (Z.eqb_spec c' c) as [->|Hne]; cbn.
    + rewrite lookup_delete_eq, andb_false_r. by apply bool_decide_eq_false; intros [].
    + by rewrite lookup_delete_ne, andb_true_r.
  - split; [by apply Hclosed|]. split; [by apply network_unmark|]. intros c'. cbn.
    destruct (Z.eqb_spec c' c) as [->|Hne]; cbn; [|by rewrite andb_true_r].
    rewrite Hc, andb_false_r. by apply bool_decide_eq_false; intros [].
Qed.

#[export] Instance server_transport_laws : GameTransportLaws (GameServer * K) := {
  tr_ok := NetworkOk;
  tr_open := connection_open;
  tr_same := same_tables;
  same_open := same_tables_open;
  connected_open := server_connected_open;
  send_law := Send_ok;
  disconnect_law G := CloseConnection_law
}.
End tables.
