(* ===== verification/GameServerLoop.v ===== *)
(** * The server's event loop

    Every callback of the event loop keeps the tables of the server and of the game
    service consistent with each other ([ServerInv]), whatever events, bytes,
    completions and failures arrive and in whatever order; connections that break
    the protocol or go away are closed by the end of the callback that saw it; and
    the loops end. *)

From S2P Require Import Prelude Double FrameCodec FrameStream AoiWorld DataTypes AsyncData.
From S2P Require Import ProtobufCodec GameTransport Mt19937 GameService Kernel TcpConnection EventLoop.
From S2P Require Import GameServer GameServerInv GameLogic GameServiceInv GameNotify GameLogin GameLinked.

Section loop.
Context {K D C : Type} `{!Kernel K} `{!KernelLaws K}.
Context `{!DataService D PlayerCallback SessionCallback OperationCallback}.
Context `{!SystemClock C} `{!Platform} `{!Protobuf}.

Abbreviation ServerWorld := (World (GameServer * K) D C).
Implicit Types (w : ServerWorld) (g : GameServer) (k : K).

Record ServerInv w : Prop := {
  si_game : GameInv (service w.1);
  si_network : NetworkOk w.2;
  si_linked : Linked w
}.

Lemma si_tables w : ServerInv w → ServerOk w.2.
Proof. intros Hw. apply (no_tables _ (si_network _ Hw)). Qed.

Definition marks w : gset Z := marked_for_close_ w.2.1.
Definition opened w (c : Z) : bool := connection_open w.2 c.

Lemma opened_true w c : opened w c = true ↔ is_Some (connection_descriptors_ w.2.1 !! c).
Proof. apply bool_decide_eq_true. Qed.

Lemma opened_false w c : opened w c = false ↔ connection_descriptors_ w.2.1 !! c = None.
Proof. rewrite <- not_true_iff_false, opened_true. by rewrite eq_None_not_Some. Qed.

(** A change of the tables that opens and closes nothing. *)
Lemma ServerInv_same e s s' : NetworkOk s' → same_tables s s' → ServerInv (e, s) → ServerInv (e, s').
Proof.
  intros Hok Hs [H1 H2 H3]. split; [done|done|]. intros c Hc.
  etrans; [exact (same_tables_open s s' c Hs)|by apply (H3 c)].
Qed.

Lemma marks_open w c : ServerInv w → c ∈ marks w → opened w c = true.
Proof. intros Hw Hc. apply opened_true. by apply (ok_marked _ (si_tables _ Hw)). Qed.

(** ** Marks only grow while sending *)

Lemma UpdateInterest_marks cl (s : GameServer * K) :
  marked_for_close_ s.1 ⊆ marked_for_close_ (UpdateInterest cl s).1.
Proof.
  destruct s as [g k]. unfold UpdateInterest. destruct (EventLoop_Modify _ _ _ _) as [ok k'].
  destruct ok; cbn; set_solver.
Qed.

Lemma server_Send_marks (s : GameServer * K) c ty m :
  marked_for_close_ s.1 ⊆ marked_for_close_ (server_Send s c ty m).2.1.
Proof.
  destruct s as [g k]. unfold server_Send.
  destruct (_ !! c) as [fd|]; [|done]. destruct (clients_ g !! fd) as [cl|]; [|done].
  destruct (EncodeProtobufFrame _ _ _) as [bytes|ex]; [|cbn; set_solver].
  destruct (QueueBytes _ _) as [[] conn]; cbn [negb]; [|cbn; set_solver].
  destruct (Flush _ _) as [[st conn2] k2]. destruct (negb _); [cbn; set_solver|].
  etrans; [|apply UpdateInterest_marks]. done.
Qed.

Lemma Send_marks (s : GameServer * K) c ty m :
  marked_for_close_ s.1 ⊆ marked_for_close_ (tr_Send s c ty m).2.1.
Proof.
  etrans; [|apply server_Send_marks]. cbn. unfold note_request. by destruct (_ !! c).
Qed.

Lemma send_all_marks (s : GameServer * K) l :
  marked_for_close_ s.1 ⊆ marked_for_close_ (send_all s l).1.
Proof.
  revert s. induction l as [|[[c ty] m] l IH]; intros s; [done|]. cbn [send_all foldl].
  etrans; [apply (Send_marks s c ty m)|apply IH].
Qed.

(** ** Closing *)

Lemma Close_marks c w :
  GameInv (service w.1) → wp (Close c) (λ _ w', marks w ∖ {[c]} ⊆ marks w') w.
Proof.
  destruct w as [e [g k]]. intros Hs. unfold Close, CloseConnection, wp.
  destruct (connection_descriptors_ g !! c) as [fd|]; [|cbn; set_solver].
  destruct (EventLoop_Remove _ _ _) as [cbs k1].
  destruct (OnDisconnected_sends c e (set_callbacks cbs g, k1) Hs) as [l E].
  rewrite (bind_run _ _ _ _ _ E). unfold modify.
  pose proof (send_all_marks (set_callbacks cbs g, k1) l) as Hm. cbn [fst marked_for_close_ set_callbacks] in Hm.
  destruct (send_all _ l) as [g2 k2]. cbn [fst] in Hm. unfold erase_client, marks.
  destruct (clients_ g2 !! fd); cbn; set_solver.
Qed.

Lemma Close_spec c w :
  ServerInv w →
  wp (Close c) (λ _ w', ServerInv w' ∧ (∀ c', opened w' c' = opened w c' && negb (c' =? c)) ∧
                        marks w ∖ {[c]} ⊆ marks w') w.
Proof.
  intros Hw. destruct w as [e s]. destruct Hw as [Hs Ht Hl].
  eapply wp_wand; [apply wp_and; [apply wp_and|by apply Close_marks]|].
  - exact (Disconnect_links_same c (e, s) Hs Ht Hl).
  - exact (Disconnect_wp c (λ _, True) e s Hs Ht (λ _, I) (λ _, I)).
  - intros [] w' [[(Hl' & Hs' & Ht' & _) (_ & _ & Ho)] Hm]. split; [done|]. split; [|done]. exact Ho.
Qed.

Lemma opened_size w w' c :
  opened w c = true → (∀ c', opened w' c' = opened w c' && negb (c' =? c)) →
  (size (connection_descriptors_ w'.2.1) < size (connection_descriptors_ w.2.1))%nat.
Proof.
  intros Hc Ho. rewrite <- !size_dom.
  assert (dom (connection_descriptors_ w'.2.1) = dom (connection_descriptors_ w.2.1) ∖ {[c]}) as ->.
  { apply set_eq. intros c'. rewrite elem_of_difference, elem_of_singleton, !elem_of_dom, <- !opened_true, Ho.
    destruct (Z.eqb_spec c' c); rewrite ?andb_true_r, ?andb_false_r; naive_solver. }
  apply subset_size. apply opened_true, elem_of_dom in Hc. set_solver.
Qed.

(** What [CloseMarkedConnections] owes its callers: no mark is left, and what was
    marked, or already closed, is closed. *)
Definition swept w w' : Prop :=
  ServerInv w' ∧ marks w' = ∅ ∧ ∀ c, c ∈ marks w ∨ opened w c = false → opened w' c = false.

Lemma CloseMarked_empty n w :
  ServerInv w → (size (connection_descriptors_ w.2.1) <= n)%nat →
  wp (close_marked n) (λ _, swept w) w.
Proof.
  revert w. induction n as [|n IH]; intros w Hw Hn; cbn [close_marked].
  - split; [done|]. assert (marks w = ∅) as E.
    { apply elem_of_equiv_empty_L. intros c Hc. apply (marks_open w c Hw), opened_true in Hc as [fd Hc].
      rewrite (map_size_empty_inv (connection_descriptors_ w.2.1)) in Hc by lia. done. }
    split; [done|]. intros c [Hc|?]; [by rewrite E in Hc|done].
  - apply wp_bind, wp_gets. destruct (elements (marked_for_close_ w.2.1)) as [|c cs] eqn:E.
    + apply elements_empty_inv, leibniz_equiv in E. split; [done|]. split; [done|].
      intros c [Hc|?]; [|done]. unfold marks in Hc. by rewrite E in Hc.
    + assert (c ∈ marks w) as Hc by (apply elem_of_elements; unfold marks; rewrite E; set_solver).
      apply wp_bind. eapply wp_wand; [by apply (Close_spec c w)|]. intros [] w1 (Hw1 & Ho1 & Hm1).
      pose proof (opened_size w w1 c (marks_open w c Hw Hc) Ho1) as Hlt.
      eapply wp_wand; [apply (IH w1 Hw1); lia|]. intros [] w2 (Hw2 & Hm2 & Ho2).
      split; [done|]. split; [done|]. intros c' Hc'. apply Ho2. rewrite Ho1.
      destruct (Z.eqb_spec c' c) as [->|Hne]; [right; apply andb_false_r|]. cbn. rewrite andb_true_r.
      destruct Hc' as [Hc'|?]; [left; set_solver|by right].
Qed.

(** More fuel than open connections changes nothing. *)
Lemma close_marked_fuel n m w :
  ServerInv w → (size (connection_descriptors_ w.2.1) <= n)%nat →
  (size (connection_descriptors_ w.2.1) <= m)%nat → close_marked n w = close_marked m w.
Proof.
  assert (∀ n w, ServerInv w → size (connection_descriptors_ w.2.1) = 0%nat →
    close_marked n w = (Returns tt, w)) as Hnone.
  { clear. intros [|n] w Hw Hn; [done|]. cbn [close_marked]. erewrite bind_run by reflexivity. cbn [fst snd].
    destruct (elements (marked_for_close_ w.2.1)) as [|c cs] eqn:E; [done|].
    assert (c ∈ marks w) as Hc by (apply elem_of_elements; unfold marks; rewrite E; set_solver).
    apply (marks_open w c Hw), opened_true in Hc as [fd Hc].
    by rewrite (map_size_empty_inv (connection_descriptors_ w.2.1)) in Hc. }
  revert m w. induction n as [|n IH]; intros [|m] w Hw Hn Hm; [done|symmetry; apply Hnone; [done|lia]
    |apply Hnone; [done|lia]|]. cbn [close_marked]. unfold get_server. erewrite !bind_run by reflexivity. cbn [fst snd].
  destruct (elements (marked_for_close_ w.2.1)) as [|c cs] eqn:E; [done|].
  assert (c ∈ marks w) as Hc by (apply elem_of_elements; unfold marks; rewrite E; set_solver).
  pose proof (Close_spec c w Hw) as Hcl. unfold wp in Hcl.
  destruct (Close c w) as [[[]|x] w1] eqn:Ec; [|done]. destruct Hcl as (Hw1 & Ho1 & _).
  pose proof (opened_size w w1 c (marks_open w c Hw Hc) Ho1) as Hlt.
  erewrite !bind_run by exact Ec. apply IH; [done|lia|lia].
Qed.

Lemma CloseMarkedConnections_spec w : ServerInv w → wp CloseMarkedConnections (λ _, swept w) w.
Proof. intros Hw. apply wp_bind, wp_gets, CloseMarked_empty; [done|lia]. Qed.

(** ** A client's event *)

Lemma connected_opened w c : server_IsConnected w.2 c = true → opened w c = true.
Proof. apply server_connected_open. Qed.

Lemma swept_trans w w1 w2 :
  marks w ⊆ marks w1 → (∀ c, opened w c = false → opened w1 c = false) → swept w1 w2 → swept w w2.
Proof.
  intros Hm Ho (Hw & He & Hc). split; [done|]. split; [done|]. intros c Hc'. apply Hc.
  destruct Hc'; [left; set_solver|right; by apply Ho].
Qed.

(** The last writes of [ClientReady]: they change the client of an existing
    descriptor, or mark an open connection. *)
Lemma put_connection_spec fd cl conn k' w :
  ServerInv w → clients_ w.2.1 !! fd = Some cl → descriptor_ conn = descriptor_ (connection cl) →
  TcpInv conn → same_fds w.2.2 k' → (∀ fd', fd' ≠ fd → handed k' fd' = handed w.2.2 fd') →
  handed k' fd ++ unsent conn = handed w.2.2 fd ++ unsent (connection cl) →
  ServerInv (w.1, (put_connection fd conn w.2.1, k')) ∧
  same_tables w.2 (put_connection fd conn w.2.1, k').
Proof.
  destruct w as [e [g k]]. cbn. intros Hw Hcl Hd Hi Hk Hh Hu.
  destruct (ok_client _ (si_tables _ Hw) _ _ Hcl) as (_ & Hfd & _).
  destruct (network_put fd cl conn g k k' (si_network _ Hw) Hcl) as [Hok Hs]; [cbn in Hfd; congruence|done..|].
  split; [|done]. by eapply ServerInv_same.
Qed.

Lemma interest_spec fd cl w :
  ServerInv w → clients_ w.2.1 !! fd = Some cl →
  ServerInv (w.1, UpdateInterest cl w.2) ∧ same_tables w.2 (UpdateInterest cl w.2).
Proof.
  destruct w as [e [g k]]. cbn. intros Hw Hcl.
  destruct (ok_client _ (si_tables _ Hw) _ _ Hcl) as (Hc & _).
  destruct (UpdateInterest_ok cl g k) as [Hok Hs]; [by eexists|by apply si_tables in Hw|].
  split; [|done]. eapply ServerInv_same; [|exact Hs|exact Hw]. split; [done|].
  exact (UpdateInterest_streams cl (g, k) (no_streams _ (si_network _ Hw))).
Qed.

Lemma mark_spec c w :
  ServerInv w → opened w c = true → ServerInv (w.1, (mark_for_close c w.2.1, w.2.2)).
Proof.
  destruct w as [e [g k]]. cbn. intros Hw Hc%opened_true.
  destruct (network_mark c g k Hc (si_network _ Hw)) as [Hok Hs]. by eapply ServerInv_same.
Qed.

Lemma opened_same w s' c : same_tables w.2 s' → opened (w.1, s') c = opened w c.
Proof. apply (same_tables_open w.2 s' c). Qed.

Lemma client_written_spec fd c ev b w :
  ServerInv w →
  wp (client_written fd c ev b)
    (λ _ w', ServerInv w' ∧ marks w' = ∅ ∧ (∀ c', opened w c' = false → opened w' c' = false) ∧
             (b || has_flag ev EPOLLRDHUP = true → opened w' c = false)) w.
Proof.
  intros Hw. unfold client_written. apply wp_bind, wp_gets. cbn [tr_IsConnected server_transport].
  destruct (server_IsConnected w.2 c) eqn:Ec; cbn [negb].
  2: { eapply wp_wand; [by apply CloseMarkedConnections_spec|]. intros [] w' (Hw' & Hm & Hc).
       split; [done|]. split; [done|]. split; [intros c' Hc'; apply Hc; by right|]. intros _. apply Hc.
       unfold server_IsConnected in Ec. apply andb_false_iff in Ec as [?|Hk]; [by right|left].
       apply negb_false_iff, bool_decide_eq_true in Hk. done. }
  apply connected_opened in Ec. apply wp_bind, wp_gets. apply wp_bind.
  match goal with |- wp ?m _ _ => assert (wp m (λ _ w', ServerInv w' ∧ ∀ c', opened w' c' = opened w c') w) as Hflush end.
  { destruct (clients_ w.2.1 !! fd) as [cl|] eqn:Hcl; [|done].
    destruct (has_flag ev EPOLLOUT); [|done]. destruct w as [e [g k]]. unfold on_network, wp. cbn [fst snd] in *.
    destruct (ok_client _ (si_tables _ Hw) _ _ Hcl) as (_ & Hd & Hi & _).
    destruct (Flush (connection cl) k) as [[st conn] k'] eqn:Ef.
    pose proof (λ fd' H, Flush_other _ _ _ _ _ fd' H Ef) as Hother. rewrite Hd in Hother.
    apply Flush_spec in Ef as (Hi' & Hd' & _ & _ & Hk & Hh & _); [|done]. rewrite Hd in Hh.
    destruct (put_connection_spec fd cl conn k' (e, (g, k)) Hw Hcl Hd' Hi' Hk Hother Hh) as [Hw' Hs].
    split; [done|]. intros c'. by apply (opened_same (e, (g, k))). }
  eapply wp_wand; [exact Hflush|]. clear Hflush. intros flushed w1 [Hw1 Ho1].
  set (close := b || _ || _). apply wp_bind.
  match goal with |- wp ?m _ _ => assert (wp m (λ _ w', ServerInv w' ∧ (∀ c', opened w' c' = opened w c') ∧
      (close = true → c ∈ marks w')) w1) as Hmark end.
  { destruct close.
    - unfold update_server, wp, modify. split; [apply mark_spec; [done|by rewrite Ho1]|].
      split; [done|]. intros _. unfold marks. cbn. set_solver.
    - apply wp_bind, wp_gets. destruct (clients_ w1.2.1 !! fd) as [cl|] eqn:Hcl; [|done].
      unfold on_network, wp. destruct (interest_spec fd cl w1 Hw1 Hcl) as [Hw2 Hs].
      split; [done|]. split; [|done]. intros c'. etrans; [apply (opened_same w1); exact Hs|done]. }
  eapply wp_wand; [exact Hmark|]. clear Hmark. intros [] w2 (Hw2 & Ho2 & Hm2).
  eapply wp_wand; [by apply CloseMarkedConnections_spec|]. intros [] w' (Hw' & Hm & Hc).
  split; [done|]. split; [done|]. split; [intros c' Hc'; apply Hc; right; by rewrite Ho2|].
  intros Hb. apply Hc. left. apply Hm2. unfold close. destruct b; [done|]. cbn in Hb. by rewrite Hb, orb_true_r.
Qed.

Lemma HandleFrame_spec c frame w :
  ServerInv w → opened w c = true → wp (HandleFrame c frame) (λ _, ServerInv) w.
Proof.
  destruct w as [e s]. intros [Hs Ht Hl] Hc. eapply wp_wand; [apply wp_and|].
  - exact (HandleFrame_keeps c frame e Hs s Ht).
  - exact (HandleFrame_links c frame e s Hs Ht Hc Hl).
  - intros [] w' [[Hs' Ht'] Hl']. by split.
Qed.

Lemma run_completion_spec x w : ServerInv w → wp (run_completion x) (λ _, ServerInv) w.
Proof.
  destruct w as [e s]. intros [Hs Ht Hl]. eapply wp_wand; [apply wp_and|].
  - exact (run_completion_keeps x e Hs s Ht).
  - exact (run_completion_links x (e, s) Hs Ht Hl).
  - intros [] w' [[Hs' Ht'] Hl']. by split.
Qed.

Lemma handle_frames_spec c frames w : ServerInv w → wp (handle_frames c frames) (λ _, ServerInv) w.
Proof.
  revert w. induction frames as [|frame frames IH]; intros w Hw; [done|]. cbn [handle_frames].
  apply wp_bind, wp_gets. cbn [tr_IsConnected server_transport].
  destruct (server_IsConnected w.2 c) eqn:Ec; [|done]. apply connected_opened in Ec.
  apply wp_bind. eapply wp_wand; [by apply HandleFrame_spec|]. intros [] w'. apply IH.
Qed.

Lemma read_client_spec fd cl w :
  ServerInv w → clients_ w.2.1 !! fd = Some cl →
  wp (read_client fd (connection cl))
    (λ r w', ServerInv w' ∧ (ReadAvailable (connection cl, w.2.2)).1 = Returns r ∧
             r.1 ≠ kSlowConsumer) w.
Proof.
  destruct w as [e [g k]]. cbn [fst snd]. intros Hw Hcl.
  destruct (ok_client _ (si_tables _ Hw) _ _ Hcl) as (_ & Hd & Hi & _).
  pose proof (ReadAvailable_run (connection cl) k Hi) as Hr.
  pose proof (recv_trace_open (Datatypes.S (recv_budget k (descriptor_ (connection cl)))) k
    (descriptor_ (connection cl))) as Hk.
  pose proof (recv_trace_handed (Datatypes.S (recv_budget k (descriptor_ (connection cl)))) k
    (descriptor_ (connection cl))) as Hh.
  destruct (recv_trace _ k _) as [[data ending] k']. destruct Hr as (d & st & fs & E & Hd' & Hst).
  unfold read_client, wp. cbn [fst snd] in *. rewrite E. split; [|split; [done|]].
  - refine (proj1 (put_connection_spec fd cl (set_decoder d (connection cl)) k' (e, (g, k)) Hw Hcl eq_refl _ Hk _ _)).
    + by apply set_decoder_inv.
    + intros fd' _. apply Hh.
    + cbn in Hh |- *. by rewrite Hh.
  - cbv zeta in Hst. destruct ending; destruct Hst as [? Hst]; cbn; subst; by repeat case_match.
Qed.

(** The events after which [ClientReady] does not keep a connection. *)
Definition ends_connection (ev : Z) (cl : Client) (k : K) : bool :=
  has_flag ev (Z.lor EPOLLERR EPOLLHUP) || has_flag ev EPOLLRDHUP
  || has_flag ev EPOLLIN
     && match (ReadAvailable (connection cl, k)).1 with
        | Returns (kOpen, _) => false
        | _ => true
        end.

Lemma ClientReady_spec fd ev cl w :
  ServerInv w → clients_ w.2.1 !! fd = Some cl →
  wp (ClientReady fd ev)
    (λ _ w', ServerInv w' ∧ marks w' = ∅ ∧
             (ends_connection ev cl w.2.2 = true → opened w' (client_id cl) = false)) w.
Proof.
  intros Hw Hcl. unfold ClientReady. apply wp_bind, wp_gets. rewrite Hcl. apply wp_bind.
  eapply wp_wand with (Q := λ b w', ServerInv w' ∧
    (ends_connection ev cl w.2.2 = true → b || has_flag ev EPOLLRDHUP = true)).
  2: { intros b w1 [Hw1 Hb]. eapply wp_wand; [by apply client_written_spec|].
       intros [] w2 (Hw2 & Hm & _ & Hc). naive_solver. }
  unfold ends_connection. set (hup := has_flag ev (Z.lor EPOLLERR EPOLLHUP)).
  destruct (has_flag ev EPOLLIN); cbn [andb].
  2: { split; [done|]. by rewrite orb_false_r. }
  apply wp_bind. eapply wp_wand; [by apply (read_client_spec fd cl)|].
  intros [st fs] w1 (Hw1 & -> & Hst). destruct st.
  - apply wp_bind. eapply wp_wand; [by apply handle_frames_spec|]. intros [] w2 Hw2.
    split; [done|]. by rewrite orb_false_r.
  - apply wp_bind. eapply wp_wand; [by apply handle_frames_spec|]. by intros [] w2 Hw2.
  - by split.
  - by split.
  - by destruct Hst.
Qed.

(** ** Accepting *)

Lemma Close_untracked c w :
  GameInv (service w.1) → connection_players_ (service w.1) !! c = None →
  wp (Close c) (λ _ w', marks w' = marks w ∖ {[c]} ∧
                        (accept_budget w'.2.2 <= accept_budget w.2.2)%nat) w.
Proof.
  destruct w as [e [g k]]. intros Hs Hc. unfold Close, CloseConnection, wp, marks.
  destruct (connection_descriptors_ g !! c) as [fd|]; [|done]. unfold EventLoop_Remove.
  pose proof (epoll_del_frame k fd) as [_ Hk1]. set (k1 := k_epoll_del k fd) in *.
  destruct (OnDisconnected_run c e (set_callbacks (delete fd (callbacks_ g)) g, k1) Hs) as (v & _ & E).
  cbn [fst] in Hs, Hc. rewrite (proj2 (PlayerForConnection_None _ _ Hs) Hc) in E. rewrite (bind_run _ _ _ _ _ E).
  unfold modify, erase_client. cbn. destruct (clients_ g !! fd) as [cl|]; [|done]. cbn.
  split; [done|]. etrans; [apply close_law|done].
Qed.

(** Closing a descriptor that belongs to no client. *)
Lemma close_other_ok fd g k :
  clients_ g !! fd = None → ServerOk (g, k) → ServerOk (g, k_close k fd).
Proof.
  intros Hfd [H1 H2 H3 H4 H5 H6 H7 H8]. destruct (close_law k fd) as [Eo Eb].
  split; cbn in *; try done; [|lia]. intros fd' cl Hcl. destruct (H2 _ _ Hcl) as (? & ? & ? & Ho).
  do 3 (split; [done|]). rewrite Eo. assert (fd' ≠ fd) by congruence. set_solver.
Qed.

Lemma network_close_other fd g k :
  clients_ g !! fd = None → NetworkOk (g, k) → NetworkOk (g, k_close k fd).
Proof.
  intros Hfd [Hok Hs]. split; [by apply close_other_ok|]. apply (StreamsOk_same g _ k); try done.
  intros fd' [cl Hcl]. apply close_other. congruence.
Qed.

(** The tables with the client of a new descriptor, before its callback. *)
Definition with_client (fd : Z) (conn : TcpConnection) (g : GameServer) : GameServer :=
  let id := next_connection_id_ g + 1 in
  set_descriptors (<[id := fd]> (connection_descriptors_ g))
    (set_clients (<[fd := {| client_id := id; connection := conn |}]> (clients_ g))
      (set_next_connection_id id g)).

Lemma with_client_ok fd conn g k :
  ServerOk (g, k) → clients_ g !! fd = None → fd ∈ open_fds k →
  Z.of_nat (size (clients_ g)) < maximum_connections (server_config_ g) →
  next_connection_id_ g + 1 + Z.of_nat (accept_budget k) < 2 ^ 64 →
  descriptor_ conn = fd → TcpInv conn →
  connection_descriptors_ g !! (next_connection_id_ g + 1) = None ∧ ServerOk (with_client fd conn g, k).
Proof.
  intros [H1 H2 H3 H4 H5 H6 H7 H8] Hfd Ho Hsize Hid Hd Hi. cbn in *.
  assert (∀ c, is_Some (connection_descriptors_ g !! c) → c ≠ next_connection_id_ g + 1) as Hnew
    by (intros c Hc%H5; lia).
  assert (connection_descriptors_ g !! (next_connection_id_ g + 1) = None) as Hnone.
  { apply eq_None_not_Some. intros Hc. by apply (Hnew _ Hc). }
  split; [done|]. split; cbn; try done.
  - intros c fd'. destruct (decide (c = next_connection_id_ g + 1)) as [->|Hne].
    + rewrite lookup_insert_eq. intros [= <-]. rewrite lookup_insert_eq. by eexists.
    + rewrite lookup_insert_ne by done. intros (cl & Hcl & Hc)%H1. exists cl.
      rewrite lookup_insert_ne by congruence. done.
  - intros fd' cl. destruct (decide (fd' = fd)) as [->|Hne].
    + rewrite lookup_insert_eq. intros [= <-]. cbn. by rewrite lookup_insert_eq.
    + rewrite lookup_insert_ne by done. intros Hcl. destruct (H2 _ _ Hcl) as (Hc & ? & ? & ?).
      rewrite lookup_insert_ne; [done|]. apply not_eq_sym, Hnew. by eexists.
  - intros fd' fd'' [-> Hs]%H3. split; [done|]. destruct (decide (fd' = fd)) as [->|Hne].
    + rewrite lookup_insert_eq. by eexists.
    + by rewrite lookup_insert_ne.
  - intros c Hc%H4. rewrite lookup_insert_ne; [done|]. by apply not_eq_sym, Hnew.
  - intros c. destruct (decide (c = next_connection_id_ g + 1)) as [->|Hne]; [intros _; lia|].
    rewrite lookup_insert_ne by done. intros Hc%H5. lia.
  - lia.
  - rewrite map_size_insert_None by done. lia.
Qed.

(** Nothing was asked of it yet, and nothing went out. *)
Lemma with_client_streams fd conn g k :
  NetworkOk (g, k) → handed k fd = [] → unsent conn = [] → StreamsOk (with_client fd conn g, k).
Proof.
  intros [Hok [Hf Hs]] Hh Hu. cbn in Hf. split.
  - intros c Hc. cbn in Hc. apply Hf. lia.
  - intros fd' cl. cbn. destruct (decide (fd' = fd)) as [->|Hne].
    + rewrite lookup_insert_eq. intros [= <-]. unfold client_carries. cbn. intros _. rewrite Hh, Hu.
      change (requests_of (with_client fd conn g) (next_connection_id_ g + 1)) with (requests_of g (next_connection_id_ g + 1)).
      rewrite (Hf (next_connection_id_ g + 1)) by lia. apply carries_nil.
    + rewrite lookup_insert_ne by done. apply Hs.
Qed.

Lemma set_callbacks_id g : set_callbacks (callbacks_ g) g = g.
Proof. by destruct g. Qed.

(** Between two callbacks nothing is marked. *)
Definition ServerIdle w : Prop := ServerInv w ∧ marks w = ∅.

Lemma TcpConnection_new_valid fd max :
  0 <= fd → 0 < max < 2 ^ 64 →
  ∃ conn, TcpConnection_new fd max = Returns conn ∧ TcpInv conn ∧ descriptor_ conn = fd ∧ unsent conn = [].
Proof.
  intros Hfd Hmax. destruct (TcpConnection_new fd max) as [conn|x] eqn:E.
  - exists conn. split; [done|]. apply TcpConnection_new_inv in E; naive_solver lia.
  - unfold TcpConnection_new in E. cbn in E.
    rewrite (proj2 (Z.ltb_ge fd 0)), (proj2 (Z.eqb_neq max 0)) in E by lia. done.
Qed.

Lemma add_client_spec fd w :
  ServerIdle w → 0 <= fd → clients_ w.2.1 !! fd = None → fd ∈ open_fds w.2.2 →
  handed w.2.2 fd = [] → next_connection_id_ w.2.1 + 1 + Z.of_nat (accept_budget w.2.2) < 2 ^ 64 →
  wp (add_client fd) (λ _ w', ServerIdle w' ∧ (accept_budget w'.2.2 <= accept_budget w.2.2)%nat) w.
Proof.
  destruct w as [e [g k]]. cbn [fst snd]. intros [Hw Hm] Hpos Hfd Hopen Hnew Hid. pose proof Hw as [Hs Hnet Hl].
  cbn [fst snd] in Hs, Hnet. pose proof (no_tables _ Hnet) as Ht. unfold add_client. apply wp_bind, wp_gets. cbn [fst snd].
  destruct (maximum_connections _ <=? _) eqn:Esize.
  { unfold on_network, wp. cbn [fst snd]. split; [|apply close_law]. split; [|done].
    split; [done|by apply network_close_other|]. intros c Hc. exact (Hl c Hc). }
  apply Z.leb_gt in Esize. unfold update_server. do 2 (apply wp_bind; apply wp_modify || apply wp_gets). 
  cbn [fst snd next_connection_id_ set_next_connection_id maximum_pending_bytes_per_connection server_config_].
  destruct (ok_next _ Ht) as [Hn _]. cbn in Hn.
  rewrite u64_small by (unfold is_u64; lia).
  pose proof (ok_limit _ Ht) as Hlim. cbn [fst] in Hlim.
  destruct (TcpConnection_new_valid fd _ Hpos Hlim) as (conn & -> & Hi & Hd & Hu).
  destruct (with_client_ok fd conn g k Ht Hfd Hopen Esize Hid Hd Hi) as [Hnone Hok].
  assert (NetworkOk (with_client fd conn g, k)) as Hnet' by (split; [done|by apply with_client_streams]). clear Hok.
  do 2 (apply wp_bind, wp_modify). unfold emplace.
  cbn [fst snd clients_ connection_descriptors_ set_clients set_next_connection_id]. rewrite Hfd.
  match goal with |- context [set_descriptors ?d ?x] =>
    change (set_descriptors d x) with (with_client fd conn g) end. set (g1 := with_client fd conn g) in *.
  set (c := next_connection_id_ g + 1) in *.
  assert (∀ k', same_fds k k' → (∀ fd', handed k' fd' = handed k fd') → ServerInv (e, (g1, k'))) as Hw1.
  { intros k' Hk Hh. split; [done|apply (network_kernel _ k); [done|by intros ? _|done]|]. intros c' Hc'. specialize (Hl c' Hc').
    apply (opened_true (e, (g, k))) in Hl. apply (opened_true (e, (g1, k'))). cbn in *.
    destruct (decide (c' = c)) as [->|Hne]; [rewrite lookup_insert_eq; by eexists|by rewrite lookup_insert_ne]. }
  apply wp_bind. unfold on_network, wp at 1, EventLoop_Add. cbn [fst snd].
  assert (∀ k', same_fds k k' → (∀ fd', handed k' fd' = handed k fd') → wp (Close c) (λ _ w', ServerIdle w' ∧
      (accept_budget w'.2.2 <= accept_budget k)%nat) (e, (set_callbacks (callbacks_ g1) g1, k'))) as Hfail.
  { intros k' Hk Hh. rewrite set_callbacks_id. eapply wp_wand; [apply wp_and|].
    - by apply Close_spec, Hw1.
    - apply Close_untracked; [done|]. cbn. apply eq_None_not_Some. intros Hc.
      assert (opened (e, (g, k)) c = true) as Ho%opened_true by (apply Hl; by left).
      cbn in Ho. rewrite Hnone in Ho. by destruct Ho.
    - intros [] w' [(Hw' & _) [Hm' Hb]]. destruct Hk as [_ Hk]. split; [|cbn in Hb; lia].
      split; [done|]. rewrite Hm'. unfold marks in *. cbn in *. rewrite Hm. set_solver. }
  destruct (_ || _); [by apply Hfail|]. pose proof (epoll_add_frame k fd (Z.lor EPOLLIN EPOLLRDHUP)) as Hk.
  fold (same_fds k (k_epoll_add k fd (Z.lor EPOLLIN EPOLLRDHUP)).2) in Hk.
  pose proof (epoll_add_handed k fd (Z.lor EPOLLIN EPOLLRDHUP)) as Hh.
  destruct (k_epoll_add _ _ _) as [[] k']; cbn [negb snd] in *; [|by apply Hfail].
  split; [|apply Hk]. split; [|done]. split; [done| |by intros c' Hc'; apply (Hw1 k' Hk Hh)].
  destruct (si_network _ (Hw1 k' Hk Hh)) as [[H1 H2 H3 H4 H5 H6 H7 H8] Hst]. cbn [snd] in Hst.
  split; [|by apply (StreamsOk_same g1 _ k')]. split; try done.
  intros fd' fd''. cbn. destruct (decide (fd' = fd)) as [->|Hne].
  - rewrite !lookup_insert_eq. intros [= <-]. split; [done|]. by eexists.
  - rewrite lookup_insert_ne by done. apply H3.
Qed.

(** What the kernel's part of the state may become. *)
Lemma ServerIdle_kernel e g k k' :
  open_fds k ⊆ open_fds k' → (accept_budget k' <= accept_budget k)%nat → same_handed g k k' →
  ServerIdle (e, (g, k)) → ServerIdle (e, (g, k')).
Proof.
  intros Ho Hb Hh [[Hs [[H1 H2 H3 H4 H5 H6 H7 H8] Hst] Hl] Hm]. split; [|done].
  split; [done| |exact Hl]. split; [|by apply (StreamsOk_same g _ k)]. split; cbn in *; try done; [|lia].
  intros fd cl Hcl. destruct (H2 _ _ Hcl) as (? & ? & ? & ?). do 3 (split; [done|]). set_solver.
Qed.

(** The only exception of the server's callbacks. *)
Definition accept_failure (x : exn) w : Prop := x = system_error "accept4" ∧ ServerIdle w.

(** What [accept4] leaves as it was. *)
Lemma accept_same g k r k' :
  ServerOk (g, k) → k_accept k = (r, k') → same_handed g k k'.
Proof.
  intros Hok Ek fd [cl Hcl]. destruct (ok_client _ Hok _ _ Hcl) as (_ & _ & _ & Ho). cbn in Ho.
  pose proof (accept_law k) as Ha. pose proof (accept_other k fd) as Hother. rewrite Ek in Ha, Hother. apply Hother.
  cbn. intros ->. by destruct Ha as (_ & Hfresh & _).
Qed.

(** A connection that was accepted uses up some of the budget. *)
Lemma accepted_spec e g k fd k' :
  ServerIdle (e, (g, k)) → k_accept k = (Accepted fd, k') →
  (accept_budget k' < accept_budget k)%nat ∧
  wp (add_client fd) (λ _ w', ServerIdle w' ∧ (accept_budget w'.2.2 <= accept_budget k')%nat) (e, (g, k')).
Proof.
  intros Hw Ek. pose proof (accept_law k) as Ha. rewrite Ek in Ha. destruct Ha as (Hpos & Hfresh & Eo & Hnew & Hb).
  pose proof (accept_same g k _ k' (si_tables _ (proj1 Hw)) Ek) as Hh.
  split; [done|]. assert (ServerIdle (e, (g, k'))) as Hw' by (apply (ServerIdle_kernel e g k k'); [set_solver|lia|done|done]).
  apply (add_client_spec fd (e, (g, k'))); [done|done| | |done|].
  - destruct (clients_ g !! fd) as [cl|] eqn:Hcl; [|done]. exfalso. apply Hfresh.
    by apply (ok_client _ (si_tables _ (proj1 Hw)) fd cl).
  - cbn. set_solver.
  - pose proof (ok_next _ (si_tables _ (proj1 Hw))) as Hn'. cbn in *. lia.
Qed.

Lemma accept_loop_spec n w :
  ServerIdle w → (accept_budget w.2.2 < n)%nat → wpx (accept_loop n) (λ _, ServerIdle) accept_failure w.
Proof.
  revert w. induction n as [|n IH]; intros [e [g k]] Hw Hn; [lia|]. cbn [accept_loop fst snd] in *.
  apply wpx_bind. unfold on_network, wpx at 1. cbn [snd fst].
  pose proof (accept_law k) as Ha. pose proof (accept_same g k _ _ (si_tables _ (proj1 Hw)) (surjective_pairing _)) as Hh.
  destruct (k_accept k) as [[fd| | |] k'] eqn:Ek; cbn [snd] in Hh.
  - destruct (accepted_spec e g k fd k' Hw Ek) as [Hb Hadd].
    apply wpx_bind. eapply wpx_wand; [by apply wp_wpx| |intros x s Hx; exact Hx].
    intros [] w1 [Hw1 Hb1]. apply IH; [done|lia].
  - destruct Ha as [Eo Hb]. apply IH; [|cbn; lia]. apply (ServerIdle_kernel e g k k'); [set_solver|lia|done|done].
  - destruct Ha as [Eo Hb]. apply (ServerIdle_kernel e g k k'); [set_solver|lia|done|done].
  - destruct Ha as [Eo Hb]. split; [done|]. apply (ServerIdle_kernel e g k k'); [set_solver|lia|done|done].
Qed.

(** More fuel than the budget changes nothing: only [accept4] ends the loop. *)
Lemma accept_loop_fuel n m w :
  ServerIdle w → (accept_budget w.2.2 < n)%nat → (accept_budget w.2.2 < m)%nat →
  accept_loop n w = accept_loop m w.
Proof.
  revert m w. induction n as [|n IH]; intros [|m] [e [g k]] Hw Hn Hm; try lia. cbn [accept_loop fst snd] in *.
  pose proof (accept_law k) as Ha. pose proof (accept_same g k _ _ (si_tables _ (proj1 Hw)) (surjective_pairing _)) as Hh.
  destruct (k_accept k) as [r k'] eqn:Ek. cbn [snd] in Hh.
  erewrite !(bind_run (on_network _)) by (unfold on_network; cbn [fst snd]; rewrite Ek; reflexivity).
  cbn [fst snd] in *. destruct r as [fd| | |]; [| |done..].
  - destruct (accepted_spec e g k fd k' Hw Ek) as [Hb Hadd]. unfold wp in Hadd.
    destruct (add_client fd _) as [[[]|x] w1] eqn:Ea; [|done]. destruct Hadd as [Hw1 Hb1].
    erewrite !bind_run by exact Ea. apply IH; [done|lia|lia].
  - destruct Ha as [Eo Hb]. apply IH; [|cbn; lia..]. apply (ServerIdle_kernel e g k k'); [set_solver|lia|done|done].
Qed.

Lemma AcceptReady_spec w : ServerIdle w → wpx AcceptReady (λ _, ServerIdle) accept_failure w.
Proof. intros Hw. apply accept_loop_spec; [done|lia]. Qed.

(** ** The other callbacks, the poll and the shutdown *)

Lemma DatabaseReady_spec cs w : ServerInv w → wp (DatabaseReady cs) (λ _, ServerIdle) w.
Proof.
  intros Hw. apply wp_bind. eapply wp_wand.
  - apply (wp_for_each ServerInv); [done|]. intros x w' _. apply run_completion_spec.
  - intros [] w1 Hw1. eapply wp_wand; [by apply CloseMarkedConnections_spec|]. by intros [] w2 (? & ? & _).
Qed.

Lemma invoke_callback_spec drained cb ev w :
  ServerIdle w → wpx (invoke_callback drained cb ev) (λ _, ServerIdle) accept_failure w.
Proof.
  intros Hw. destruct cb as [| | |fd]; cbn [invoke_callback]; [done|by apply AcceptReady_spec| |].
  - apply wp_wpx, DatabaseReady_spec, Hw.
  - apply wp_wpx. destruct (clients_ w.2.1 !! fd) as [cl|] eqn:Hcl.
    + eapply wp_wand; [apply ClientReady_spec; [apply Hw|exact Hcl]|]. by intros [] w' (? & ? & _).
    + unfold ClientReady. apply wp_bind, wp_gets. by rewrite Hcl.
Qed.

Lemma server_poll_spec drained events w :
  ServerIdle w →
  wpx (server_poll drained (Ready events)) (λ n w', n = size_of events ∧ ServerIdle w') accept_failure w.
Proof.
  intros Hw. apply wpx_bind. eapply wpx_wand with (Q := λ _, ServerIdle); [|by intros [] w' Hw'|done].
  apply wpx_for_each; [done|]. intros [fd ev] w' Hw'. unfold dispatch. apply wpx_bind, wp_wpx, wp_gets.
  destruct (_ !! _) as [cb|]; [|done]. by apply invoke_callback_spec.
Qed.

Lemma close_all_spec w :
  ServerInv w → wp close_all (λ _ w', ServerInv w' ∧ connection_descriptors_ w'.2.1 = ∅) w.
Proof.
  intros Hw. apply wp_bind, wp_gets.
  assert (∀ (l : list Z) w1, ServerInv w1 →
    wp (for_each l Close) (λ _ w', ServerInv w' ∧
      ∀ c, opened w1 c = false ∨ c ∈ l → opened w' c = false) w1) as Hl.
  { induction l as [|c l IH]; intros w1 Hw1; [split; [done|set_solver]|]. cbn [for_each]. apply wp_bind.
    eapply wp_wand; [by apply Close_spec|]. intros [] w2 (Hw2 & Ho2 & _).
    eapply wp_wand; [by apply IH|]. intros [] w3 [Hw3 Ho3]. split; [done|]. intros c' Hc'. apply Ho3.
    rewrite Ho2. destruct (Z.eqb_spec c' c) as [->|Hne]; [left; apply andb_false_r|]. cbn. rewrite andb_true_r.
    set_solver. }
  eapply wp_wand; [by apply Hl|]. intros [] w' [Hw' Ho]. split; [done|]. apply map_empty. intros c.
  apply opened_false, Ho. destruct (opened w c) eqn:E; [right|by left]. apply opened_true in E as [fd Hc].
  apply list_elem_of_fmap. exists (c, fd). split; [done|]. by apply elem_of_map_to_list.
Qed.
End loop.
