(* ===== verification/ServerDescriptors.v ===== *)
(** * Descriptors of the server

    What holds of the server's descriptors whatever the game service does with its
    transport ([NetOk]): every client has its own open descriptor; and the process has,
    besides the clients' descriptors, those it had before: none leaks, and none that is
    not the server's is closed. *)

From Stdlib Require Import Strings.Byte.
From S2P Require Import Prelude Double FrameCodec FrameStream AoiWorld DataTypes AsyncData.
From S2P Require Import ProtobufCodec GameTransport Mt19937 GameService GameFrame Kernel TcpConnection.
From S2P Require Import EventLoop GameServer.

(** ** The network state *)

Section net.
Context {K : Type} `{!Kernel K} `{!KernelLaws K} `{!Protobuf}.
Implicit Types (g : GameServer) (k : K).

Definition client_fds (s : GameServer * K) : gset Z := dom (clients_ s.1).

(** The descriptors of the process that are not a client's. *)
Definition other_fds (s : GameServer * K) : gset Z := open_fds s.2 ∖ client_fds s.

Record NetOk (others : gset Z) (s : GameServer * K) : Prop := {
  net_client fd cl : clients_ s.1 !! fd = Some cl →
    descriptor_ (connection cl) = fd ∧ TcpInv (connection cl) ∧ fd ∈ open_fds s.2;
  net_others : other_fds s = others;
  net_limit : 0 <= maximum_pending_bytes_per_connection (server_config_ s.1) < 2 ^ 64
}.

(** A change of the tables and of the kernel that touches no client. *)
Lemma NetOk_same others g g' k k' :
  clients_ g' = clients_ g → server_config_ g' = server_config_ g → open_fds k' = open_fds k →
  NetOk others (g, k) → NetOk others (g', k').
Proof.
  intros Ec Es Eo [H1 H2 H3]. unfold other_fds, client_fds in *. split; unfold other_fds, client_fds; cbn in *;
    rewrite ?Ec, ?Es, ?Eo; done.
Qed.

Lemma NetOk_tables others g g' k :
  clients_ g' = clients_ g → server_config_ g' = server_config_ g → NetOk others (g, k) → NetOk others (g', k).
Proof. intros Ec Es. by apply NetOk_same. Qed.

(** A client with another state of its connection. *)
Lemma NetOk_put others fd cl conn g k k' :
  clients_ g !! fd = Some cl → descriptor_ conn = fd → TcpInv conn → open_fds k' = open_fds k →
  NetOk others (g, k) → NetOk others (put_connection fd conn g, k').
Proof.
  intros Hcl Hd Hi Eo [H1 H2 H3]. split; unfold other_fds, client_fds in *; cbn in *; rewrite ?Eo; try done.
  - intros fd' cl'. destruct (decide (fd' = fd)) as [->|Hne].
    + rewrite lookup_alter_eq, Hcl. intros [= <-]. cbn. by destruct (H1 fd cl Hcl) as (_ & _ & Ho).
    + rewrite lookup_alter_ne by done. apply H1.
  - by rewrite dom_alter_L.
Qed.

Lemma NetOk_UpdateInterest others cl (s : GameServer * K) : NetOk others s → NetOk others (UpdateInterest cl s).
Proof.
  destruct s as [g k]. intros Hn. unfold UpdateInterest, EventLoop_Modify. case_bool_decide; [by apply (NetOk_tables _ g)|].
  set (ev := if WantsWrite _ then _ else _).
  pose proof (epoll_mod_frame k (descriptor_ (connection cl)) ev) as [Ho _].
  destruct (k_epoll_mod _ _ _) as [[] k']; cbn in *; by apply (NetOk_same _ g _ k).
Qed.

(** Flushing what a connection has queued. *)
Lemma NetOk_Flush others fd cl st conn g k k' :
  clients_ g !! fd = Some cl → Flush (connection cl) k = (st, conn, k') →
  NetOk others (g, k) → NetOk others (put_connection fd conn g, k').
Proof.
  intros Hcl Ef Hn. destruct (net_client _ _ Hn fd cl Hcl) as (Hd & Hi & _).
  apply Flush_spec in Ef as (Hi' & Hd' & _ & _ & [Ho _] & _); [|done]. rewrite Hd in *. by eapply NetOk_put.
Qed.

Lemma NetOk_server_Send others (s : GameServer * K) c ty m :
  NetOk others s → NetOk others (server_Send s c ty m).2.
Proof.
  destruct s as [g k]. intros Hn. unfold server_Send.
  destruct (connection_descriptors_ g !! c) as [fd|]; [|done].
  destruct (clients_ g !! fd) as [cl|] eqn:Hcl; [|done].
  destruct (EncodeProtobufFrame _ _ _) as [bytes|ex] eqn:Ee; [|by apply (NetOk_tables _ g)].
  destruct (net_client _ _ Hn fd cl Hcl) as (Hd & Hi & _).
  destruct (QueueBytes bytes (connection cl)) as [queued conn] eqn:Eq.
  apply QueueBytes_spec in Eq as (Hi1 & Hd1 & _); [|done].
  assert (NetOk others (put_connection fd conn g, k)) as Hn1 by (eapply NetOk_put; try done; congruence).
  destruct queued; cbn [negb]; [|by eapply (NetOk_tables _ (put_connection fd conn g))].
  destruct (Flush conn k) as [[st conn2] k2] eqn:Ef.
  assert (NetOk others (put_connection fd conn2 (put_connection fd conn g), k2)) as Hn2.
  { eapply (NetOk_Flush _ _ {| client_id := client_id cl; connection := conn |}); [|exact Ef|done].
    cbn. by rewrite lookup_alter_eq, Hcl. }
  destruct (negb _); [by eapply (NetOk_tables _ (put_connection fd conn2 (put_connection fd conn g)))|].
  by apply NetOk_UpdateInterest.
Qed.

Lemma NetOk_Send others (s : GameServer * K) c ty m : NetOk others s → NetOk others (tr_Send s c ty m).2.
Proof.
  destruct s as [g k]. intros Hn. apply NetOk_server_Send. cbn. unfold note_request.
  destruct (_ !! c); [by apply (NetOk_tables _ g)|done].
Qed.

(** Erasing a client closes its descriptor and no other. *)
Lemma NetOk_erase others fd (s : GameServer * K) : NetOk others s → NetOk others (erase_client fd s).
Proof.
  destruct s as [g k]. intros Hn. unfold erase_client. destruct (clients_ g !! fd) as [cl|] eqn:Hcl; [|done].
  destruct Hn as [H1 H2 H3]. destruct (H1 fd cl Hcl) as (-> & _ & Hopen). cbn in *.
  destruct (close_law k fd) as [Ho _]. split; unfold other_fds, client_fds in *; cbn in *; [| |done].
  - intros fd' cl' [Hne Hcl']%lookup_delete_Some. destruct (H1 fd' cl' Hcl') as (? & ? & ?).
    rewrite Ho. split; [done|]. split; [done|set_solver].
  - rewrite Ho, dom_delete_L, <- H2. apply elem_of_dom_2 in Hcl. clear -Hcl.
    apply leibniz_equiv. intros x. destruct (decide (x = fd)); set_solver.
Qed.

Lemma NetOk_CloseConnection others {G} (cb : Z → M (G * (GameServer * K)) unit) c s :
  (∀ c s, NetOk others s.2 → NetOk others (cb c s).2.2) → NetOk others s.2 →
  NetOk others (CloseConnection cb c s).2.2.
Proof.
  destruct s as [e [g k]]. cbn. intros Hcb Hn. unfold CloseConnection.
  destruct (connection_descriptors_ g !! c) as [fd|]; [|by apply (NetOk_tables _ g)].
  unfold EventLoop_Remove. set (s1 := (e, (set_callbacks _ g, k_epoll_del k fd))).
  assert (NetOk others s1.2) as Hn1.
  { destruct (epoll_del_frame k fd) as [Ho _]. by apply (NetOk_same _ g _ k). }
  specialize (Hcb c s1 Hn1). unfold mbind, M_bind. destruct (cb c s1) as [[[]|x] [e2 [g2 k2]]]; [|done].
  pose proof (NetOk_erase others fd (g2, k2) Hcb) as He. unfold modify.
  destruct (erase_client fd (g2, k2)) as [g3 k3]. cbn [fst snd].
  by apply (NetOk_tables _ g3).
Qed.

#[export] Instance server_preserves others : TransportKeeps (GameServer * K) (NetOk others).
Proof. split; [apply NetOk_Send|intros; by apply NetOk_CloseConnection]. Qed.
End net.

(** ** The callbacks of the event loop *)

Section loop.
Context {K D C : Type} `{!Kernel K} `{!KernelLaws K}.
Context `{!DataService D PlayerCallback SessionCallback OperationCallback}.
Context `{!SystemClock C} `{!Platform} `{!Protobuf}.

Abbreviation ServerWorld := (World (GameServer * K) D C).
Implicit Types (w : ServerWorld) (others : gset Z).

Lemma preserves_from_server {A} (P : GameServer * K → Prop) (f : GameServer → M ServerWorld A) :
  (∀ w, P w.2 → P (f w.2.1 w).2.2) → preserves P (get_server ≫= f).
Proof. intros Hf w Hw. by apply Hf. Qed.

Lemma preserves_mark others c : preserves (NetOk others) (update_server (mark_for_close c) : M ServerWorld _).
Proof. intros [e [g k]] Hw. by apply (NetOk_tables _ g). Qed.

Lemma preserves_interest others cl : preserves (NetOk others) (on_network (λ s, (tt, UpdateInterest cl s)) : M ServerWorld _).
Proof. intros w Hw. by apply NetOk_UpdateInterest. Qed.

Lemma preserves_Close others c : preserves (NetOk others) (Close c : M ServerWorld _).
Proof. intros w Hw. apply NetOk_CloseConnection; [|done]. intros c'. apply preserves_OnDisconnected. apply _. Qed.
Hint Resolve preserves_mark preserves_interest preserves_Close : preserves.

Lemma preserves_close_marked others n : preserves (NetOk others) (close_marked n : M ServerWorld _).
Proof. induction n as [|n IH]; cbn [close_marked]; unfold get_server; preserves. Qed.
Hint Resolve preserves_close_marked : preserves.

Lemma preserves_CloseMarked others : preserves (NetOk others) (CloseMarkedConnections : M ServerWorld _).
Proof. unfold CloseMarkedConnections, get_server. preserves. Qed.
Hint Resolve preserves_CloseMarked : preserves.

Lemma preserves_DatabaseReady others cs : preserves (NetOk others) (DatabaseReady cs : M ServerWorld _).
Proof. unfold DatabaseReady. preserves. Qed.

Lemma preserves_close_all others : preserves (NetOk others) (close_all : M ServerWorld _).
Proof. unfold close_all, get_server. preserves. Qed.

Lemma preserves_handle_frames others c frames : preserves (NetOk others) (handle_frames c frames : M ServerWorld _).
Proof. induction frames as [|f fs IH]; cbn [handle_frames]; preserves. Qed.
Hint Resolve preserves_handle_frames : preserves.

(** Reading changes the client's decoder only. *)
Lemma read_client_preserves others fd cl w :
  clients_ w.2.1 !! fd = Some cl → NetOk others w.2 → NetOk others (read_client fd (connection cl) w).2.2.
Proof.
  destruct w as [e [g k]]. cbn [fst snd]. intros Hcl Hn. unfold read_client. cbn [fst snd].
  destruct (net_client _ _ Hn fd cl Hcl) as (Hd & Hi & _).
  pose proof (ReadAvailable_run (connection cl) k Hi) as Hr.
  pose proof (recv_trace_open (S (recv_budget k (descriptor_ (connection cl)))) k (descriptor_ (connection cl))) as Ho.
  destruct (recv_trace _ k _) as [[data ending] k']. cbn [snd] in *.
  destruct Hr as (d & st & fs & -> & Hdec & _). cbn [fst snd].
  eapply NetOk_put; [done|done|by apply set_decoder_inv|apply Ho|done].
Qed.

Lemma client_written_preserves others fd c ev b : preserves (NetOk others) (client_written fd c ev b : M ServerWorld _).
Proof.
  unfold client_written. apply preserves_bind; [preserves|]. intros []; cbn [negb]; [|preserves].
  apply preserves_from_server. intros w Hw.
  set (flush := match clients_ w.2.1 !! fd with Some cl => _ | None => _ end : M ServerWorld IoStatus).
  assert (NetOk others (flush w).2.2) as Hf.
  { subst flush. destruct (clients_ w.2.1 !! fd) as [cl|] eqn:Hcl; [|done]. destruct (has_flag ev EPOLLOUT); [|done].
    destruct w as [e [g k]]. unfold on_network. cbn [fst snd] in *.
    destruct (Flush (connection cl) k) as [[st conn] k'] eqn:Ef. cbn. by eapply NetOk_Flush. }
  unfold mbind at 1, M_bind. destruct (flush w) as [[st|x] w1]; [|done]. cbn [snd] in Hf.
  revert w1 Hf. unfold get_server. change (preserves (NetOk others) (
    (if b || negb (bool_decide (st = kOpen)) || has_flag ev EPOLLRDHUP then update_server (mark_for_close c)
     else g ← gets (λ w, w.2.1); match clients_ g !! fd with
                               | Some cl => on_network (λ s, (tt, UpdateInterest cl s)) | None => mret tt end) ;;
    CloseMarkedConnections : M ServerWorld unit)). preserves.
Qed.
Hint Resolve client_written_preserves : preserves.

Lemma ClientReady_preserves others fd ev : preserves (NetOk others) (ClientReady fd ev : M ServerWorld _).
Proof.
  unfold ClientReady. apply preserves_from_server. intros w Hw.
  destruct (clients_ w.2.1 !! fd) as [cl|] eqn:Hcl; [|done]. unfold mbind at 1, M_bind at 1.
  set (m := if has_flag ev EPOLLIN then _ else _ : M ServerWorld bool).
  assert (NetOk others (m w).2.2) as Hm.
  2: { destruct (m w) as [[b|x] w1]; [|done]. by apply client_written_preserves. }
  subst m. destruct (has_flag ev EPOLLIN); [|done]. pose proof (read_client_preserves others fd cl w Hcl Hw) as Hr.
  unfold mbind at 1, M_bind at 1. destruct (read_client fd (connection cl) w) as [[[st fs]|x] w1]; [|done].
  cbn [snd] in Hr. destruct st; (apply (preserves_run (NetOk others) _ w1); [preserves|exact Hr]).
Qed.

(** A new connection is the server's before it is a client. *)
Lemma add_client_preserves others fd w :
  0 <= fd → fd ∉ others → clients_ w.2.1 !! fd = None →
  NetOk ({[fd]} ∪ others) w.2 → NetOk others (add_client fd w).2.2.
Proof.
  destruct w as [e [g k]]. cbn [fst snd]. intros Hpos Hfresh Hcl Hn.
  assert (fd ∈ open_fds k) as Hopen.
  { pose proof (net_others _ _ Hn) as E. unfold other_fds in E. cbn in E. set_solver. }
  assert (∀ g', clients_ g' = clients_ g → server_config_ g' = server_config_ g →
    NetOk others (g', k_close k fd)) as Hclosed.
  { intros g' Ec Es. destruct Hn as [H1 H2 H3]. destruct (close_law k fd) as [Ho _].
    unfold other_fds, client_fds in *. cbn in *. split; unfold other_fds, client_fds; cbn; rewrite ?Ec, ?Es; [| |done].
    - intros fd' cl' Hcl'. destruct (H1 fd' cl' Hcl') as (? & ? & ?). assert (fd' ≠ fd) by congruence.
      rewrite Ho. split; [done|]. split; [done|set_solver].
    - rewrite Ho. clear -H2 Hfresh. set_solver. }
  unfold add_client. unfold mbind at 1, M_bind at 1. cbn [get_server gets fst snd].
  destruct (_ <=? _); [by apply Hclosed|]. unfold update_server. erewrite bind_run by reflexivity. cbn [fst snd].
  erewrite bind_run by reflexivity. cbn [fst snd server_config_ set_next_connection_id].
  destruct (TcpConnection_new fd _) as [conn|x] eqn:Et; [|by apply Hclosed].
  apply TcpConnection_new_inv in Et as (Hi & Hd & _); [|apply (net_limit _ _ Hn)..].
  do 2 (erewrite bind_run by reflexivity; cbn [fst snd]). unfold emplace. cbn [clients_ set_next_connection_id]. rewrite Hcl.
  set (c := next_connection_id_ _). set (g1 := set_descriptors _ _).
  assert (NetOk others (g1, k)) as Hn1.
  { destruct Hn as [H1 H2 H3]. unfold other_fds, client_fds in *. split; unfold other_fds, client_fds; cbn in *; [| |done].
    - intros fd' cl'. destruct (decide (fd' = fd)) as [->|Hne].
      + rewrite lookup_insert_eq. intros [= <-]. cbn. done.
      + rewrite lookup_insert_ne by done. apply H1.
    - rewrite dom_insert_L. clear -H2 Hfresh. set_solver. }
  apply (preserves_bind (NetOk others)); [|intros []; cbn [negb]; preserves|done].
  intros [e2 [g2 k2]] Hn2. unfold on_network, EventLoop_Add. cbn [fst snd]. destruct (_ || _); [by apply (NetOk_tables _ g2)|].
  destruct (epoll_add_frame k2 fd (Z.lor EPOLLIN EPOLLRDHUP)) as [Ho _].
  destruct (k_epoll_add _ _ _) as [[] k3]; cbn in *; by apply (NetOk_same _ g2 _ k2).
Qed.

Lemma accept_loop_preserves others n : preserves (NetOk others) (accept_loop n : M ServerWorld _).
Proof.
  induction n as [|n IH]; cbn [accept_loop]; [preserves|]. intros [e [g k]] Hn.
  pose proof (accept_law k) as Ha.
  destruct (k_accept k) as [r k'] eqn:Ek.
  erewrite bind_run by (unfold on_network; cbn [fst snd]; rewrite Ek; reflexivity). cbn [fst snd] in *.
  assert (open_fds k' = open_fds k → NetOk others (g, k')) as Hsame by (intros Eo; by apply (NetOk_same _ g _ k)).
  destruct r as [fd| | |]; [|destruct Ha; cbn; first [apply IH|idtac]; by apply Hsame..].
  destruct Ha as (Hpos & Hfresh & Eo & _).
  assert (clients_ g !! fd = None) as Hcl.
  { destruct (clients_ g !! fd) as [cl|] eqn:E; [|done]. by destruct (net_client _ _ Hn fd cl E) as (_ & _ & ?). }
  destruct Hn as [H1 H2 H3]. unfold other_fds, client_fds in *. cbn [fst snd] in *.
  assert (NetOk ({[fd]} ∪ others) (g, k')) as Hn'.
  { split; unfold other_fds, client_fds; cbn [fst snd]; [| |done].
    - intros fd' cl' Hcl'. destruct (H1 fd' cl' Hcl') as (? & ? & ?). rewrite Eo.
      split; [done|]. split; [done|set_solver].
    - apply not_elem_of_dom in Hcl. rewrite Eo. clear -H2 Hcl. set_solver. }
  assert (fd ∉ others) as Hfo by (clear -H2 Hfresh; set_solver).
  pose proof (add_client_preserves others fd (e, (g, k')) Hpos Hfo Hcl Hn') as Hadd. unfold mbind, M_bind.
  destruct (add_client fd _) as [[[]|x] w1]; [|done]. by apply IH.
Qed.

Lemma server_poll_preserves others drained r : preserves (NetOk others) (server_poll drained r : M ServerWorld _).
Proof.
  unfold server_poll, PollOnce. destruct r as [events| |]; [|preserves..]. apply preserves_bind; [|intros; preserves].
  apply preserves_for_each. intros [fd ev]. unfold dispatch. apply preserves_bind; [preserves|]. intros cbs.
  destruct (cbs !! _) as [[| | |fd']|]; cbn [invoke_callback]; [preserves| |apply preserves_DatabaseReady|apply ClientReady_preserves|preserves].
  intros w Hw. by apply accept_loop_preserves.
Qed.
End loop.
