(* ===== verification/ServerStart.v ===== *)
(** * Starting the server

    The constructors of [EventLoop], [EventFdWakeup] and [GameServer] and
    [OpenListener], with what is destroyed when one of them throws
    ([src/net/event_loop.cpp], [src/concurrency/event_fd_wakeup.cpp],
    [src/server/game_server.cpp]). *)

From S2P Require Import Prelude Double FrameCodec AoiWorld DataTypes ThreadPool AsyncData ProtobufCodec.
From S2P Require Import GameTransport Mt19937 GameService Kernel Sockets TcpConnection EventLoop GameServer GameServerInv.

(** An object that is destroyed when what follows its construction throws. *)
Definition unwinding {S A} (destroy : S → S) (m : M S A) : M S A := λ s,
  match m s with
  | (Throws e, s) => (Throws e, destroy s)
  | r => r
  end.

Lemma wpx_unwinding {S A} (destroy : S → S) (m : M S A) Q E s :
  wpx m Q (λ e s', E e (destroy s')) s → wpx (unwinding destroy m) Q E s.
Proof. unfold wpx, unwinding. by destruct (m s) as [[a|e] s']. Qed.

(** A system call, and the exception when it fails. *)
Definition or_throw {S A} (e : exn) (f : S → option A * S) : M S A := λ s,
  let '(r, s) := f s in
  match r with Some a => (Returns a, s) | None => (Throws e, s) end.

Definition check_ok {S} (e : exn) (f : S → bool * S) : M S unit := λ s,
  let '(ok, s) := f s in (if ok : bool then Returns tt else Throws e, s).

Definition throw {S A} (e : exn) : M S A := lift_outcome (Throws e).

(** What the server owns once it is built. *)
Record Started := mkStarted {
  st_epoll : Z;
  st_stop : Z;
  st_listener : Z;
  st_database : Z;
  st_port : Z;
  st_workers : BoundedThreadPool (DataTask PlayerCallback SessionCallback OperationCallback);
  st_service : GameService;
  st_server : GameServer
}.

Section construct.
Context {K : Type} `{!Kernel K} `{!SocketApi K} `{!InetPton}.

Definition close_opt (fd : option Z) (k : K) : K := match fd with Some fd => k_close k fd | None => k end.

Definition EventFdWakeup_new : M K Z := or_throw (system_error "eventfd") sk_eventfd.

(** [event_loop.Add] with the exception its caller throws when it fails. *)
Definition add_or_throw (what : string) (cbs : gmap Z LoopCallback) (fd : Z) (cb : LoopCallback)
    : M K (gmap Z LoopCallback) := λ k,
  let '(ok, cbs, k) := EventLoop_Add cbs k fd EPOLLIN (Some cb) in
  (if ok : bool then Returns cbs else Throws (runtime_error what), k).

(** The epoll descriptor is looked at once [stop_wakeup_] has been constructed. *)
Definition EventLoop_new : M K (Z * Z * gmap Z LoopCallback) :=
  epoll ← (λ k, let '(fd, k) := sk_epoll_create1 k in (Returns fd, k));
  unwinding (close_opt epoll)
    (stop ← EventFdWakeup_new;
     unwinding (λ k, k_close k stop)
       (match epoll with
        | None => throw (system_error "epoll_create1")
        | Some epoll =>
            cbs ← add_or_throw "failed to register event-loop wakeup" ∅ stop OnStopWakeup;
            mret (epoll, stop, cbs)
        end)).

(** [OpenListener], over [listener_] and the kernel; it returns [bound_port_]. *)
Definition OpenListener (config : ServerConfig) : M (Z * K) Z := λ '(listener, k),
  let '(fd, k) := sk_socket k in
  let '(listener, k) := UniqueFd_Reset listener (default (-1) fd) k in
  match fd with
  | None => (Throws (system_error "socket"), (listener, k))
  | Some fd =>
      let '(r, k) :=
        (check_ok (system_error "setsockopt") (λ k, sk_setsockopt_reuseaddr k fd) ;;
         address ← lift_outcome (match inet_pton (bind_address config) with
                                 | Some address => Returns address
                                 | None => Throws (invalid_argument "invalid IPv4 bind address")
                                 end);
         check_ok (system_error "bind") (λ k, sk_bind k fd address (port config)) ;;
         check_ok (system_error "listen") (λ k, sk_listen k fd (listen_backlog config)) ;;
         or_throw (system_error "getsockname") (λ k, sk_getsockname k fd)) k in
      (r, (listener, k))
  end.

(** The body of the constructor; on a throw [listener_] holds what it held. *)
Definition on_listener {A} (f : Z → M K A) : M (Z * K) A := λ '(listener, k),
  let '(r, k) := f listener k in (r, (listener, k)).

Definition open_and_register (config : ServerConfig) (database : Z) (cbs : gmap Z LoopCallback)
    : M (Z * K) (Z * gmap Z LoopCallback) :=
  port ← OpenListener config;
  cbs ← on_listener (λ listener, add_or_throw "failed to register listening socket" cbs listener OnListener);
  cbs ← on_listener (λ _, add_or_throw "failed to register database eventfd" cbs database OnDatabaseWakeup);
  mret (port, cbs).

(** [listener_], [-1] at first, around what may open it; a throw closes it. *)
Definition with_listener {A} (m : M (Z * K) A) : M K A := λ k,
  let '(r, (listener, k)) := m (-1, k) in
  match r with
  | Throws e => (Throws e, UniqueFd_destroy listener k)
  | Returns a => (Returns a, k)
  end.

(** [GameServer::GameServer]; [seed] is what [std::random_device] gives. The members
    are built in the order of their declarations and destroyed in the reverse one. *)
Definition GameServer_new (config : ServerConfig) (seed : Z) : M K Started :=
  '(epoll, stop, cbs) ← EventLoop_new;
  unwinding (λ k, k_close (k_close k stop) epoll)
    (with_listener
      (database ← on_listener (λ _, EventFdWakeup_new);
       unwinding (λ '(listener, k), (listener, k_close k database))
         (workers ← lift_outcome (BoundedThreadPool_new (Z.to_nat (database_worker_count config))
                                    (Z.to_nat (database_queue_capacity config)));
          service ← lift_outcome (GameService_new (game_config config) seed);
          '(port, cbs) ← open_and_register config database cbs;
          listener ← gets fst;
          mret {| st_epoll := epoll; st_stop := stop; st_listener := listener; st_database := database;
                  st_port := port; st_workers := workers; st_service := service;
                  st_server := {| server_config_ := config; callbacks_ := cbs; clients_ := ∅;
                                  connection_descriptors_ := ∅; marked_for_close_ := ∅;
                                  next_connection_id_ := 0; requests_ := ∅ |} |}))).
End construct.

(** ** What it opens and closes *)

Section specs.
Context {K : Type} `{SocketLaws K} `{!InetPton}.
Implicit Types (k : K).

(** [k'] has [new] open besides what [k] had. *)
Definition opened_since (k : K) (new : gset Z) (k' : K) : Prop :=
  open_fds k' = new ∪ open_fds k ∧ new ## open_fds k ∧ (accept_budget k' <= accept_budget k)%nat.

Lemma opened_none k k' : same_fds k k' ↔ opened_since k ∅ k'.
Proof.
  unfold opened_since, same_fds. rewrite (left_id_L ∅ (∪)). split; [intros []; split; [done|split; [set_solver|done]]|].
  by intros (? & _ & ?).
Qed.

Lemma opened_trans k k1 k2 new1 new2 :
  opened_since k new1 k1 → opened_since k1 new2 k2 → opened_since k (new2 ∪ new1) k2.
Proof.
  intros (A1 & B1 & C1) (A2 & B2 & C2). split; [rewrite A2, A1; set_solver|]. split; [|lia].
  rewrite A1 in B2. set_solver.
Qed.

Lemma opened_then_same k k1 k2 new : opened_since k new k1 → same_fds k1 k2 → opened_since k new k2.
Proof. intros Ho Hs%opened_none. rewrite <- (left_id_L ∅ (∪) new). by eapply opened_trans. Qed.

(** Closing what was opened. *)
Lemma opened_close k k1 fd new :
  opened_since k ({[fd]} ∪ new) k1 → fd ∉ new → opened_since k new (k_close k1 fd).
Proof.
  intros (A & B & C) Hfd. destruct (close_law k1 fd) as [Ho Hb]. split; [rewrite Ho, A; set_solver|].
  split; [set_solver|lia].
Qed.

Lemma creates_opened k r fd k1 : creates k r → r = (Some fd, k1) → 0 <= fd ∧ fd ∉ open_fds k ∧ opened_since k {[fd]} k1.
Proof.
  intros [Hb Hc] ->. destruct Hc as (Hz & Hn & Ho & _). split; [done|]. split; [done|]. split; [done|]. split; [set_solver|done].
Qed.

Lemma creates_none k r k1 : creates k r → r = (None, k1) → same_fds k k1.
Proof. intros [Hb Hc] ->. by split. Qed.

Lemma EventFdWakeup_new_spec k :
  wpx EventFdWakeup_new (λ fd k', 0 <= fd ∧ fd ∉ open_fds k ∧ opened_since k {[fd]} k') (λ _ k', same_fds k k') k.
Proof.
  unfold wpx, EventFdWakeup_new, or_throw. pose proof (eventfd_law k) as Hc.
  destruct (sk_eventfd k) as [[fd|] k1]; [by apply (creates_opened _ _ _ _ Hc)|by apply (creates_none _ _ _ Hc)].
Qed.

Lemma add_or_throw_spec what cbs fd cb k :
  wpx (add_or_throw what cbs fd cb) (λ cbs' k', same_fds k k' ∧ cbs' = <[fd := cb]> cbs) (λ _ k', same_fds k k') k.
Proof.
  unfold wpx, add_or_throw, EventLoop_Add. destruct (_ || _); [done|].
  pose proof (epoll_add_frame k fd EPOLLIN) as Hk. destruct (k_epoll_add k fd EPOLLIN) as [ok k1].
  by destruct ok; cbn.
Qed.

Lemma EventLoop_new_spec k :
  wpx EventLoop_new (λ '(epoll, stop, cbs) k',
    epoll ≠ stop ∧ opened_since k {[epoll; stop]} k' ∧ cbs = {[stop := OnStopWakeup]}) (λ _ k', same_fds k k') k.
Proof.
  apply wpx_bind. pose proof (epoll_create1_law k) as Hc. unfold wpx at 1.
  destruct (sk_epoll_create1 k) as [epoll k1]. apply wpx_unwinding, wpx_bind.
  eapply wpx_wand; [apply EventFdWakeup_new_spec| |].
  - intros stop k2 (_ & Hst & Ho). apply wpx_unwinding. destruct epoll as [epoll|].
    + destruct (creates_opened _ _ _ _ Hc eq_refl) as (_ & Hne & Ho1).
      assert (stop ∉ ({[epoll]} : gset Z)) as Hd by (destruct Ho1 as [E1 _]; rewrite E1 in Hst; set_solver).
      pose proof (opened_trans _ _ _ _ _ Ho1 Ho) as Ho2. apply wpx_bind.
      eapply wpx_wand; [apply add_or_throw_spec| |].
      * intros cbs k3 [Hs ->]. unfold wpx. cbn. split; [set_solver|]. split; [|done].
        rewrite (comm_L (∪)). by eapply opened_then_same.
      * intros e k3 Hs. cbn. apply opened_none.
        assert (opened_since k {[epoll]} (k_close k3 stop)) as Ho3
          by (eapply opened_close; [by eapply opened_then_same|done]).
        apply opened_close; [by rewrite (right_id_L ∅ (∪))|set_solver].
    + unfold wpx. cbn. pose proof (creates_none _ _ _ Hc eq_refl) as Hs. etrans; [exact Hs|]. apply opened_none.
      apply opened_close; [by rewrite (right_id_L ∅ (∪))|set_solver].
  - intros e k2 Hs. cbn. destruct epoll as [epoll|]; cbn.
    + destruct (creates_opened _ _ _ _ Hc eq_refl) as (_ & _ & Ho1). apply opened_none.
      apply opened_close; [|set_solver]. rewrite (right_id_L ∅ (∪)). by eapply opened_then_same.
    + etrans; [by apply (creates_none _ _ _ Hc)|done].
Qed.

(** [OpenListener] from no listener: [listener_] holds what it opened. *)
Definition holds (k : K) (s : Z * K) : Prop :=
  if 0 <=? s.1 then opened_since k {[s.1]} s.2 else same_fds k s.2.

Lemma check_ok_spec e f k :
  same_fds k (f k).2 → wpx (check_ok e f) (λ _ k', same_fds k k') (λ _ k', same_fds k k') k.
Proof. unfold wpx, check_ok. destruct (f k) as [[] k']; done. Qed.

Lemma OpenListener_spec config k :
  wpx (OpenListener config) (λ _ s, 0 <= s.1 ∧ opened_since k {[s.1]} s.2) (λ _ s, holds k s) (-1, k).
Proof.
  unfold wpx, OpenListener, UniqueFd_Reset. destruct (socket_law k) as [Hc _]. change (UniqueFd_valid (-1)) with false. cbv iota.
  destruct (sk_socket k) as [[fd|] k1]; [|by apply (creates_none _ _ _ Hc)].
  destruct (creates_opened _ _ _ _ Hc eq_refl) as (Hfd & _ & Ho).
  match goal with |- match (let '(r, k) := ?m k1 in _) with _ => _ end => set (m0 := m) end.
  assert (wpx m0 (λ _ k', same_fds k1 k') (λ _ k', same_fds k1 k') k1) as Hm.
  { unfold m0. apply wpx_bind. eapply wpx_wand; [apply check_ok_spec, setsockopt_frame| |done].
    intros [] k2 S2. apply wpx_bind. destruct (inet_pton (bind_address config)) as [a|]; [|done].
    unfold wpx at 1. cbn. apply wpx_bind. eapply wpx_wand; [apply check_ok_spec, bind_frame| |].
    2: { intros e k3 S3. by etrans. }
    intros [] k3 S3. apply wpx_bind. eapply wpx_wand; [apply check_ok_spec, listen_frame| |].
    2: { intros e k4 S4. etrans; [exact S2|by etrans]. }
    intros [] k4 S4. unfold wpx, or_throw. pose proof (getsockname_frame k4 fd) as S5.
    destruct (sk_getsockname k4 fd) as [[p|] k5]; cbn in *; (etrans; [exact S2|etrans; [exact S3|by etrans]]). }
  unfold wpx in Hm. destruct (m0 k1) as [[p|e] k2]; cbn in *; pose proof (opened_then_same _ _ _ _ Ho Hm) as Hok.
  - by split.
  - unfold holds. cbn. by rewrite (proj2 (Z.leb_le 0 fd)).
Qed.

Lemma on_listener_wpx {A} (f : Z → M K A) Q E (s : Z * K) :
  wpx (f s.1) (λ a k', Q a (s.1, k')) (λ e k', E e (s.1, k')) s.2 → wpx (on_listener f) Q E s.
Proof. destruct s as [l k]. unfold wpx, on_listener. cbn. by destruct (f l k) as [[a|e] k']. Qed.

Lemma open_and_register_spec config database cbs k :
  wpx (open_and_register config database cbs) (λ r s, 0 <= s.1 ∧ opened_since k {[s.1]} s.2 ∧
    r.2 = <[database := OnDatabaseWakeup]> (<[s.1 := OnListener]> cbs)) (λ _ s, holds k s) (-1, k).
Proof.
  apply wpx_bind. eapply wpx_wand; [apply OpenListener_spec| |done]. intros port [l k1] [Hl Ho]. cbn in Hl, Ho.
  assert (∀ k2, same_fds k1 k2 → holds k (l, k2)) as Hh.
  { intros k2 Hs. unfold holds. cbn. rewrite (proj2 (Z.leb_le 0 l)) by done. by eapply opened_then_same. }
  apply wpx_bind, on_listener_wpx. eapply wpx_wand; [apply add_or_throw_spec| |].
  2: { intros e k2 Hs. by apply Hh. }
  intros cbs1 k2 [S2 ->]. apply wpx_bind, on_listener_wpx. eapply wpx_wand; [apply add_or_throw_spec| |].
  2: { intros e k3 S3. apply Hh. by etrans. }
  intros cbs2 k3 [S3 ->]. unfold wpx. cbn. split; [done|]. split; [|done]. eapply opened_then_same; [done|by etrans].
Qed.

(** The whole constructor. *)
Record StartedOk (config : ServerConfig) (seed : Z) (k : K) (s : Started) (k' : K) : Prop := {
  started_fds : opened_since k {[st_epoll s; st_stop s; st_listener s; st_database s]} k';
  started_distinct : NoDup [st_epoll s; st_stop s; st_listener s; st_database s];
  started_callbacks : callbacks_ (st_server s) =
    <[st_database s := OnDatabaseWakeup]> (<[st_listener s := OnListener]> {[st_stop s := OnStopWakeup]});
  started_tables : st_server s = {| server_config_ := config; callbacks_ := callbacks_ (st_server s); clients_ := ∅;
    connection_descriptors_ := ∅; marked_for_close_ := ∅; next_connection_id_ := 0; requests_ := ∅ |};
  started_service : GameService_new (game_config config) seed = Returns (st_service s);
  started_workers : BoundedThreadPool_new (Z.to_nat (database_worker_count config))
    (Z.to_nat (database_queue_capacity config)) = Returns (st_workers s);
  started_listener : 0 <= st_listener s
}.

Lemma GameServer_new_spec config seed k :
  wpx (GameServer_new config seed) (StartedOk config seed k) (λ _ k', same_fds k k') k.
Proof.
  apply wpx_bind. eapply wpx_wand; [apply EventLoop_new_spec| |done].
  intros [[epoll stop] cbs0] k1 (Hne & Ho1 & ->). apply wpx_unwinding.
  assert (∀ k2, opened_since k {[epoll; stop]} k2 → same_fds k (k_close (k_close k2 stop) epoll)) as Hundo.
  { intros k2 Ho2. apply opened_none. apply opened_close; [|set_solver]. rewrite (right_id_L ∅ (∪)).
    apply opened_close; [|set_solver]. by rewrite (comm_L (∪)). }
  unfold wpx. unfold with_listener, UniqueFd_destroy, UniqueFd_Reset, UniqueFd_valid.
  match goal with |- context [?m (-1, k1)] => set (body := m) end.
  assert (wpx body (λ s q, StartedOk config seed k s q.2) (λ _ q, holds k1 q) (-1, k1)) as Hbody.
  2: { unfold wpx in Hbody. destruct (body (-1, k1)) as [[s|e] [l k2]]; cbn in *; [done|]. apply Hundo.
       unfold holds in Hbody. cbn in Hbody. destruct (0 <=? l); [|by eapply opened_then_same].
       eapply opened_then_same; [done|]. apply opened_none, opened_close; [|set_solver].
       by rewrite (right_id_L ∅ (∪)). }
  unfold body. apply wpx_bind, on_listener_wpx. eapply wpx_wand; [apply EventFdWakeup_new_spec| |].
  2: { intros e k2 Hs. by unfold holds. }
  intros database k2 (_ & Hdb & Ho2). cbn [fst snd] in *. apply wpx_unwinding.
  assert (∀ q, holds k2 q → holds k1 (q.1, k_close q.2 database)) as Hdrop.
  { intros [l k3]. unfold holds. cbn. destruct (0 <=? l) eqn:El; intros Hq.
    - apply opened_close; [rewrite (comm_L (∪)); by eapply opened_trans|].
      destruct Hq as (_ & Hd & _). destruct Ho2 as (E2 & _ & _). rewrite E2 in Hd. set_solver.
    - apply opened_none, opened_close; [|set_solver]. rewrite (right_id_L ∅ (∪)). by eapply opened_then_same. }
  assert (∀ (e : exn) (q : Z * K), holds k2 q →
    holds k1 (let '(listener, k) := q in (listener, k_close k database))) as Hdrop'.
  { intros _ [l k3] Hq. apply (Hdrop (l, k3) Hq). }
  apply wpx_bind. destruct (BoundedThreadPool_new _ _) as [workers|e] eqn:Ew; [|apply (Hdrop (-1, k2)); by unfold holds].
  apply wpx_bind. unfold wpx at 1. cbn [lift_outcome].
  destruct (GameService_new _ _) as [service|e] eqn:Es; [|apply (Hdrop (-1, k2)); by unfold holds].
  unfold wpx at 1. apply wpx_bind. eapply wpx_wand; [apply open_and_register_spec| |by intros; apply Hdrop'].
  intros [port cbs] [l k3] (Hl & Ho3 & Ecbs). cbn [fst snd] in *.
  apply wpx_bind. unfold wpx at 1. cbn [gets fst]. unfold wpx. cbn.
  assert (epoll ∈ open_fds k1 ∧ stop ∈ open_fds k1) as [He Hs] by (destruct Ho1 as [-> _]; set_solver).
  assert (database ∈ open_fds k2 ∧ open_fds k1 ⊆ open_fds k2) as [Hd Hsub] by (destruct Ho2 as [-> _]; set_solver).
  assert (l ∉ open_fds k2) as Hnew by (destruct Ho3 as (_ & Hx & _); set_solver).
  split; cbn; try done.
  - replace ({[epoll; stop; l; database]} : gset Z) with ({[l]} ∪ ({[database]} ∪ {[epoll; stop]}) : gset Z) by set_solver.
    eapply opened_trans; [|done]. by eapply opened_trans.
  - repeat constructor; set_solver.
Qed.
End specs.

(** ** Properties *)

(** Starting the server is all or nothing. When the constructor returns, the process
    has exactly four more descriptors open, distinct and new: the epoll instance, the
    two eventfds and the listening socket, whose callbacks are the only ones registered,
    and there is no client; when it throws, whichever of its steps failed, every
    descriptor it had opened is closed again. *)
Theorem start_is_all_or_nothing `{SocketLaws K} `{InetPton} config seed (k : K) :
  match GameServer_new config seed k with
  | (Returns s, k') =>
      NoDup [st_epoll s; st_stop s; st_listener s; st_database s] ∧
      {[st_epoll s; st_stop s; st_listener s; st_database s]} ## open_fds k ∧
      open_fds k' = {[st_epoll s; st_stop s; st_listener s; st_database s]} ∪ open_fds k ∧
      callbacks_ (st_server s) =
        <[st_database s := OnDatabaseWakeup]> (<[st_listener s := OnListener]> {[st_stop s := OnStopWakeup]}) ∧
      clients_ (st_server s) = ∅ ∧ connection_descriptors_ (st_server s) = ∅
  | (Throws _, k') => open_fds k' = open_fds k
  end.
Proof.
  pose proof (GameServer_new_spec config seed k) as Hn. unfold wpx in Hn.
  destruct (GameServer_new config seed k) as [[s|e] k']; [|by destruct Hn].
  destruct Hn as [(Ho & Hd & _) Hnd Hcb Ht _ _]. split; [done|]. split; [done|]. split; [done|]. split; [done|].
  by rewrite Ht.
Qed.

(** The server's start on the scripted kernel, when call number [n] that can fail does. *)
Definition start_failing (faults : list bool) (fds : list (option Z)) : NetKernel :=
  {| base := {| recv_script := ∅; send_script := ∅; accept_script := []; handed_ := ∅; open_fds_ := {[0; 1]};
                epoll_set := ∅; epoll_fails := ∅ |};
     history := ∅; next_fds := fds; sock_faults := faults; bound := 0; clock_ns := 0 |}.

(** What stops the server from starting: the exception names the call that failed,
    in the order the constructor makes them; a bind address that is no IPv4 address,
    and a thread pool without workers or capacity, are [invalid_argument]s; and no
    descriptor of the failed server stays open. *)
Theorem start_failures :
  let config := {| bind_address := "0.0.0.0"; port := 0; listen_backlog := 128; maximum_connections := 1;
                   maximum_pending_bytes_per_connection := 1; database_worker_count := 2;
                   database_queue_capacity := 1; game_config := default_game_config |} in
  let start config faults fds :=
    let '(r, k) := @GameServer_new _ net_kernel net_sockets quad_pton config 1 (start_failing faults fds) in
    (match r with Returns s => inl (st_port s) | Throws e => inr e end, set_iter (open_fds k)) in
  let fds := [Some 2; Some 3; Some 4; Some 5] in
  start config [] [None; Some 3] = (inr (system_error "epoll_create1"), [0; 1]) ∧
  start config [] [Some 2; None] = (inr (system_error "eventfd"), [0; 1]) ∧
  start config [] [Some 2; Some 3; Some 4; None] = (inr (system_error "socket"), [0; 1]) ∧
  start config [true] fds = (inr (system_error "setsockopt"), [0; 1]) ∧
  start config [false; true] fds = (inr (system_error "bind"), [0; 1]) ∧
  start config [false; false; true] fds = (inr (system_error "listen"), [0; 1]) ∧
  start config [false; false; false; true] fds = (inr (system_error "getsockname"), [0; 1]) ∧
  start {| bind_address := "localhost"; port := 0; listen_backlog := 128; maximum_connections := 1;
           maximum_pending_bytes_per_connection := 1; database_worker_count := 2; database_queue_capacity := 1;
           game_config := default_game_config |} [] fds
    = (inr (invalid_argument "invalid IPv4 bind address"), [0; 1]) ∧
  start {| bind_address := "0.0.0.0"; port := 0; listen_backlog := 128; maximum_connections := 1;
           maximum_pending_bytes_per_connection := 1; database_worker_count := 0; database_queue_capacity := 1;
           game_config := default_game_config |} [] fds
    = (inr (invalid_argument "worker count and queue capacity must be positive"), [0; 1]) ∧
  (start config [] fds).1 = inl 32768.
Proof. vm_compute. repeat split; reflexivity. Qed.

Definition failing_config : ServerConfig :=
  {| bind_address := "localhost"; port := 0; listen_backlog := 128; maximum_connections := 1;
     maximum_pending_bytes_per_connection := 1; database_worker_count := 2; database_queue_capacity := 1;
     game_config := default_game_config |}.

Lemma start_is_all_or_nothing_witness :
  open_fds (@GameServer_new _ net_kernel net_sockets quad_pton failing_config 1
              (start_failing [] [Some 2; Some 3; Some 4; Some 5])).2 = {[0; 1]}.
Proof.
  pose proof (@start_is_all_or_nothing _ net_kernel net_kernel_laws net_sockets net_socket_laws quad_pton
    failing_config 1 (start_failing [] [Some 2; Some 3; Some 4; Some 5])) as H.
  destruct (@GameServer_new _ net_kernel net_sockets quad_pton failing_config 1 _) as [[s|e] k'] eqn:E.
  - vm_compute in E. discriminate E.
  - exact H.
Defined.
