(* ===== verification/ServerProperties.v ===== *)
(** * What the server guarantees

    The properties of the event loop over the whole server, for any kernel, storage
    and clock, and concrete runs on a scripted kernel. *)

From Stdlib Require Import Strings.Byte.
From S2P Require Import Prelude Double FrameCodec FrameStream AoiWorld DataTypes ThreadPool AsyncData.
From S2P Require Import ProtobufCodec GameTransport Mt19937 GameService GameScenario Kernel TcpConnection.
From S2P Require Import EventLoop GameServer GameServerInv GameLogic GameServiceInv GameNotify GameLogin.
From S2P Require Import GameLinked GameServerLoop Sockets ServerStart.

Section server.
Context {K D C : Type} `{!Kernel K} `{!KernelLaws K}.
Context `{!DataService D PlayerCallback SessionCallback OperationCallback}.
Context `{!SystemClock C} `{!Platform} `{!Protobuf}.

Abbreviation ServerWorld := (World (GameServer * K) D C).

(** What the storage, the clock and the kernel do between two polls: descriptors may
    be opened, and nobody else writes to the server's sockets. The descriptors of the
    storage's own connections, which come and go with each request, are not counted
    among those of the process. *)
Inductive outside : ServerWorld → ServerWorld → Prop :=
| outside_step s d d' ck ck' g k k' :
    open_fds k ⊆ open_fds k' → (accept_budget k' <= accept_budget k)%nat →
    (∀ fd, is_Some (clients_ g !! fd) → handed k' fd = handed k fd) →
    outside ({| service := s; data_service := d; clock := ck |}, (g, k))
            ({| service := s; data_service := d'; clock := ck' |}, (g, k')).

(** A poll of the event loop with any events, in any order, and any completions;
    or what happens outside. *)
Inductive server_step : ServerWorld → ServerWorld → Prop :=
| step_poll drained events r w w' :
    server_poll drained (Ready events) w = (Returns r, w') → server_step w w'
| step_outside w w' : outside w w' → server_step w w'.

Lemma outside_idle w w' : ServerIdle w → outside w w' → ServerIdle w'.
Proof.
  intros Hw Hout. destruct Hout as [s d d' ck ck' g k k' Ho Hb Hh]. apply (ServerIdle_kernel _ g k k' Ho Hb Hh).
  destruct Hw as [[Hs Ht Hl] Hm]. split; [|done]. by split.
Qed.

Lemma server_step_idle w w' : ServerIdle w → server_step w w' → ServerIdle w'.
Proof.
  intros Hw Hstep. destruct Hstep as [drained events r w w' E|w w' Hout]; [|by eapply outside_idle].
  pose proof (server_poll_spec drained events w Hw) as Hp. unfold wpx in Hp. rewrite E in Hp. apply Hp.
Qed.

Lemma server_steps_idle w w' : ServerIdle w → rtc server_step w w' → ServerIdle w'.
Proof. intros Hw Hr. induction Hr; eauto using server_step_idle. Qed.

(** The server as its constructor leaves it. *)
Lemma Started_tables config seed (k k' : K) st `{!SocketApi K} `{!SocketLaws K} :
  0 < maximum_pending_bytes_per_connection config < 2 ^ 64 → 0 <= maximum_connections config →
  Z.of_nat (accept_budget k) < 2 ^ 64 → StartedOk config seed k st k' → NetworkOk (st_server st, k').
Proof.
  intros Hmax Hcount Hb [(_ & _ & Hk) _ Hcb Ht _ _]. rewrite Ht in *. cbn in Hcb. split; [|by split].
  split; cbn; try done; try lia; [|by intros c [? ?]].
  intros fd fd'. rewrite Hcb. rewrite !lookup_insert_Some, lookup_singleton_Some. naive_solver.
Qed.

Lemma GameServer_new_idle `{!SocketApi K} `{!SocketLaws K} `{!InetPton} config seed (k k' : K) st d ck :
  0 < maximum_pending_bytes_per_connection config < 2 ^ 64 → 0 <= maximum_connections config →
  Z.of_nat (accept_budget k) < 2 ^ 64 → ConfigOk (aoi (game_config config)) →
  GameServer_new config seed k = (Returns st, k') →
  ServerIdle ({| service := st_service st; data_service := (d : D); clock := (ck : C) |}, (st_server st, k')).
Proof.
  intros Hmax Hcount Hb Hok E. pose proof (GameServer_new_spec config seed k) as Hn. unfold wpx in Hn. rewrite E in Hn.
  pose proof (Started_tables _ _ _ _ _ Hmax Hcount Hb Hn) as Ht. destruct Hn as [_ _ _ Hst Es _].
  assert (GameInv (st_service st) ∧ connection_players_ (st_service st) = ∅ ∧ pending_connections_ (st_service st) = ∅)
    as (Hs & E1 & E2).
  { revert Es. unfold GameService_new. destruct (AoiWorld_new (aoi (game_config config))) as [wd|] eqn:Ew; [|done].
    intros [= <-]. split; [|done]. destruct (AoiWorld_new_inv _ _ Hok Ew) as [Hw Hp].
    split; cbn; try done. intros p. by rewrite Hp. }
  split; [|by rewrite Hst]. split; [done|done|]. intros c. unfold tracked. cbn. rewrite E1, E2. by intros [[]|[]].
Qed.

(** The pieces of a frame's way out. *)
Lemma UpdateInterest_same cl (s : GameServer * K) :
  clients_ (UpdateInterest cl s).1 = clients_ s.1 ∧
  connection_descriptors_ (UpdateInterest cl s).1 = connection_descriptors_ s.1 ∧
  ∀ fd, handed (UpdateInterest cl s).2 fd = handed s.2 fd.
Proof.
  destruct s as [g k]. unfold UpdateInterest, EventLoop_Modify. case_bool_decide; [done|].
  set (ev := if WantsWrite _ then _ else _).
  pose proof (λ fd, epoll_mod_handed k (descriptor_ (connection cl)) ev fd) as Hh.
  by destruct (k_epoll_mod _ _ _) as [[] k'].
Qed.

Lemma marked_not_connected c g (k : K) : server_IsConnected (mark_for_close c g, k) c = false.
Proof.
  unfold server_IsConnected. cbn. rewrite (bool_decide_eq_true_2 (c ∈ _)) by set_solver. apply andb_false_r.
Qed.

(** A closed connection is not one of a player. *)
Lemma closed_untracked (w : ServerWorld) c : ServerInv w → opened w c = false → ¬ tracked (service w.1) c.
Proof. intros Hw Hc Ht%(si_linked _ Hw). unfold opened in Hc. cbn in Ht. congruence. Qed.
End server.

(** ** Properties *)

(** C1: In every reachable state of the server (any events in any order, stale ones
    included, any bytes, completions, clock and kernel) each online player and each
    pending login has an open connection with its own client and descriptor, at most
    the configured number of clients is connected, nothing is left marked for
    closing, and a poll whose [epoll_wait] returned events returns unless [accept4]
    fails, which it can only do by throwing that error. *)
Theorem server_invariant
    `{SocketLaws K} `{InetPton} `{DataService D PlayerCallback SessionCallback OperationCallback}
    `{SystemClock C} `{Platform} `{Protobuf} config seed (k k' : K) st (d : D) (ck : C) w :
  0 < maximum_pending_bytes_per_connection config < 2 ^ 64 → 0 <= maximum_connections config →
  Z.of_nat (accept_budget k) < 2 ^ 64 → ConfigOk (aoi (game_config config)) →
  GameServer_new config seed k = (Returns st, k') →
  rtc server_step ({| service := st_service st; data_service := d; clock := ck |}, (st_server st, k')) w →
  GameInv (service w.1) ∧
  (∀ c, tracked (service w.1) c → ∃ fd cl,
     connection_descriptors_ w.2.1 !! c = Some fd ∧ clients_ w.2.1 !! fd = Some cl ∧
     client_id cl = c ∧ descriptor_ (connection cl) = fd ∧ fd ∈ open_fds w.2.2) ∧
  (∀ p o, online_players_ (service w.1) !! p = Some o → tracked (service w.1) (connection_id o)) ∧
  Z.of_nat (size (clients_ w.2.1)) <= maximum_connections (server_config_ w.2.1) ∧
  marked_for_close_ w.2.1 = ∅ ∧
  ∀ drained events, (server_poll drained (Ready events) w).1
    ∈ [Returns (size_of events); Throws (system_error "accept4")].
Proof.
  intros Hmax Hcount Hb Hok E Hr.
  assert (ServerIdle w) as Hw by (eapply server_steps_idle; [by eapply (GameServer_new_idle config seed k)|done]).
  pose proof Hw as [[Hs [Ht _] Hl] Hm]. split; [done|]. split; [|split; [|split; [by apply ok_count|split; [done|]]]].
  - intros c Hc%Hl. apply (opened_true w) in Hc as [fd Hfd].
    destruct (ok_descriptor _ Ht _ _ Hfd) as (cl & Hcl & Hid). exists fd, cl.
    by destruct (ok_client _ Ht _ _ Hcl) as (_ & ? & _ & ?).
  - intros p o Ho. left. destruct (gi_online _ Hs _ _ Ho) as [_ ->]. by eexists.
  - intros drained events. pose proof (server_poll_spec drained events w Hw) as Hp. unfold wpx in Hp.
    destruct (server_poll drained (Ready events) w) as [[n|x] w']; cbn; [destruct Hp as [-> _]|destruct Hp as [-> _]];
      set_solver.
Qed.

(** C12: An event that reports an error, a hang-up, the end of the peer's stream or
    bytes that break the protocol ends the connection within its own callback: its
    client is closed, no player or pending login keeps it, and no other connection is
    left half-closed. *)
Theorem ended_connection_is_closed
    `{KernelLaws K} `{DataService D PlayerCallback SessionCallback OperationCallback}
    `{SystemClock C} `{Platform} `{Protobuf} fd ev cl (w : World (GameServer * K) D C) :
  ServerIdle w → clients_ w.2.1 !! fd = Some cl → ends_connection ev cl w.2.2 = true →
  ∃ w', ClientReady fd ev w = (Returns tt, w') ∧ ServerIdle w' ∧
    connection_descriptors_ w'.2.1 !! client_id cl = None ∧
    (∀ fd' cl', clients_ w'.2.1 !! fd' = Some cl' → client_id cl' ≠ client_id cl) ∧
    connection_players_ (service w'.1) !! client_id cl = None ∧
    pending_connections_ (service w'.1) !! client_id cl = None.
Proof.
  intros [Hw _] Hcl Hends. pose proof (ClientReady_spec fd ev cl w Hw Hcl) as Hp. unfold wp in Hp.
  destruct (ClientReady fd ev w) as [[[]|x] w']; [|done]. destruct Hp as (Hw' & Hm & Hc).
  specialize (Hc Hends). exists w'. split; [done|]. split; [done|].
  pose proof (closed_untracked w' _ Hw' Hc) as Ht. apply opened_false in Hc. split; [done|]. split.
  - intros fd' cl' Hcl' Hid. destruct (ok_client _ (si_tables _ Hw') _ _ Hcl') as [Hd _]. congruence.
  - unfold tracked in Ht. rewrite !eq_None_not_Some. naive_solver.
Qed.

(** [CloseMarkedConnections] ends: whatever closing a connection marks for
    closing in turn, it leaves no mark, has closed all that were marked, and reopens
    nothing; the rounds it needs are at most the connections open at the start. *)
Theorem close_marked_terminates
    `{KernelLaws K} `{DataService D PlayerCallback SessionCallback OperationCallback}
    `{SystemClock C} `{Platform} `{Protobuf} (w : World (GameServer * K) D C) :
  ServerInv w →
  ∃ w', CloseMarkedConnections w = (Returns tt, w') ∧
    (∀ n, (size (connection_descriptors_ w.2.1) <= n)%nat → close_marked n w = (Returns tt, w')) ∧
    ServerIdle w' ∧
    ∀ c, c ∈ marked_for_close_ w.2.1 ∨ connection_descriptors_ w.2.1 !! c = None →
         connection_descriptors_ w'.2.1 !! c = None.
Proof.
  intros Hw. pose proof (CloseMarkedConnections_spec w Hw) as Hp. unfold wp in Hp.
  destruct (CloseMarkedConnections w) as [[[]|x] w'] eqn:E; [|done]. destruct Hp as (Hw' & Hm & Hc).
  exists w'. split; [done|]. split; [|split; [done|]].
  - intros n Hn. rewrite <- E. unfold CloseMarkedConnections. erewrite (bind_run get_server) by reflexivity.
    apply close_marked_fuel; [done..|lia].
  - intros c Hcl. apply opened_false, Hc. destruct Hcl; [by left|right; by apply opened_false].
Qed.

(** C17: [Send] hands a frame over whole or gives the connection up: on success the
    bytes given to the kernel and those still queued for the client have grown by
    exactly the encoded frame; on failure the connection counts as disconnected. *)
Theorem send_delivers_or_disconnects `{KernelLaws K} `{Protobuf} (g : GameServer) (k : K) c ty m :
  ServerOk (g, k) →
  let '(sent, (g', k')) := server_Send (g, k) c ty m in
  if sent : bool then
    ∃ fd cl cl' bytes, connection_descriptors_ g !! c = Some fd ∧ clients_ g !! fd = Some cl ∧
      clients_ g' !! fd = Some cl' ∧ client_id cl' = c ∧
      EncodeProtobufFrame ty m kDefaultMaxPayloadSize = Returns bytes ∧
      handed k' fd ++ unsent (connection cl') = handed k fd ++ unsent (connection cl) ++ bytes
  else server_IsConnected (g', k') c = false.
Proof.
  intros Hok. unfold server_Send.
  destruct (connection_descriptors_ g !! c) as [fd|] eqn:Hfd; [|by unfold server_IsConnected; cbn; rewrite Hfd].
  destruct (ok_descriptor _ Hok _ _ Hfd) as (cl & Hcl & Hid). cbn in Hcl. rewrite Hcl.
  destruct (EncodeProtobufFrame _ _ _) as [bytes|ex]; [|by apply marked_not_connected].
  destruct (ok_client _ Hok _ _ Hcl) as (_ & Hd & Hi & _).
  destruct (QueueBytes bytes (connection cl)) as [[] conn] eqn:Eq; cbn [negb]; [|by apply marked_not_connected].
  apply QueueBytes_spec in Eq as (Hi1 & Hd1 & _ & _ & Hu1); [|done].
  destruct (Flush conn k) as [[st conn2] k2] eqn:Ef.
  apply Flush_spec in Ef as (_ & _ & _ & _ & _ & Hh & _); [|done].
  destruct (negb _); [by apply marked_not_connected|].
  set (g2 := put_connection fd conn2 _). set (cl2 := {| client_id := client_id cl; connection := conn2 |}).
  destruct (UpdateInterest_same cl2 (g2, k2)) as (Ec & _ & Ek).
  assert (clients_ g2 !! fd = Some cl2) as Hcl2.
  { unfold g2. cbn. by rewrite !lookup_alter_eq, Hcl. }
  destruct (UpdateInterest cl2 (g2, k2)) as [g3 k3]. cbn [fst snd] in Ec, Ek.
  exists fd, cl, cl2, bytes. rewrite Ec, Ek. split; [done|]. split; [done|]. split; [done|]. split; [done|].
  split; [done|]. rewrite Hd1 in Hh. rewrite Hd in Hh. unfold cl2. cbn [fst snd connection] in *. by rewrite Hh, Hu1.
Qed.

(** Shutting the server down closes every connection and leaves no player online
    and no login pending; no exception interrupts it. *)
Theorem shutdown_closes_everything
    `{KernelLaws K} `{DataService D PlayerCallback SessionCallback OperationCallback}
    `{SystemClock C} `{Platform} `{Protobuf} (w : World (GameServer * K) D C) :
  ServerInv w →
  ∃ w', close_all w = (Returns tt, w') ∧
    clients_ w'.2.1 = ∅ ∧ connection_descriptors_ w'.2.1 = ∅ ∧ marked_for_close_ w'.2.1 = ∅ ∧
    online_players_ (service w'.1) = ∅ ∧ connection_players_ (service w'.1) = ∅ ∧
    pending_connections_ (service w'.1) = ∅.
Proof.
  intros Hw. pose proof (close_all_spec w Hw) as Hp. unfold wp in Hp.
  destruct (close_all w) as [[[]|x] w']; [|done]. destruct Hp as [Hw' Hd]. exists w'. split; [done|].
  pose proof Hw' as [Hs [Ht _] Hl].
  assert (∀ c, ¬ tracked (service w'.1) c) as Hno.
  { intros c. apply closed_untracked; [done|]. apply opened_false. by rewrite Hd. }
  assert (connection_players_ (service w'.1) = ∅) as Hcp.
  { apply map_empty. intros c. apply eq_None_not_Some. intros Hc. apply (Hno c). by left. }
  split; [|split; [done|split; [|split; [|split; [done|]]]]].
  - apply map_empty. intros fd. apply eq_None_not_Some. intros [cl Hcl].
    destruct (ok_client _ Ht _ _ Hcl) as [E _]. by rewrite Hd in E.
  - apply elem_of_equiv_empty_L. intros c Hc. destruct (ok_marked _ Ht _ Hc) as [fd E]. by rewrite Hd in E.
  - apply map_empty. intros p. apply eq_None_not_Some. intros [o Ho].
    destruct (gi_online _ Hs _ _ Ho) as [_ E]. by rewrite Hcp in E.
  - apply map_empty. intros c. apply eq_None_not_Some. intros Hc. apply (Hno c). by right.
Qed.

(** Overload: with the configured number of clients connected a new connection is
    accepted and closed at once, and nothing else changes; but an [accept4] that
    fails (no descriptors left, say) throws out of the poll, and with it out of the
    event loop, before the remaining events are handled. *)
Theorem accept_limit_and_failure
    `{Kernel K} `{DataService D PlayerCallback SessionCallback OperationCallback}
    `{SystemClock C} `{Platform} `{Protobuf} (w : World (GameServer * K) D C) (k' : K) :
  (∀ fd, maximum_connections (server_config_ w.2.1) <= Z.of_nat (size (clients_ w.2.1)) →
     add_client fd w = (Returns tt, (w.1, (w.2.1, k_close w.2.2 fd)))) ∧
  (∀ listener ev events drained, callbacks_ w.2.1 !! listener = Some OnListener →
     k_accept w.2.2 = (AcceptError, k') →
     server_poll drained (Ready ((listener, ev) :: events)) w
     = (Throws (system_error "accept4"), (w.1, (w.2.1, k')))).
Proof.
  destruct w as [e [g k]]. cbn [fst snd]. split.
  - intros fd Hlimit. unfold add_client. erewrite bind_run by reflexivity. cbn [fst snd].
    by rewrite (proj2 (Z.leb_le _ _) Hlimit).
  - intros listener ev events drained Hcb Ha.
    assert (AcceptReady (e, (g, k)) = (Throws (system_error "accept4"), (e, (g, k')))) as E.
    { unfold AcceptReady. cbn [accept_loop fst snd]. unfold on_network, mbind, M_bind. cbn [snd fst].
      by rewrite Ha. }
    unfold server_poll, PollOnce. cbn [for_each]. unfold mbind at 1 2, M_bind at 1 2.
    rewrite (dispatch_present _ _ _ _ OnListener) by exact Hcb. cbn [invoke_callback]. by rewrite E.
Qed.

(** ** Concrete runs *)

(** A server whose constructor is given the descriptors 2 to 5, and whose kernel then
    accepts a connection on descriptor 6, receives a login frame from it, fails to send
    to it, and accepts the next connection on the same descriptor. *)
Definition script : NetKernel :=
  {| base :=
       {| recv_script := {[6 := [Received [x00; x00; x00; x01; x00; x00; x00; x01; x01]]]};
          send_script := {[6 := [SendError]]};
          accept_script := [Accepted 6; AcceptEAGAIN; Accepted 6; AcceptEAGAIN];
          handed_ := ∅; open_fds_ := ∅; epoll_set := ∅; epoll_fails := ∅ |};
     history := ∅; next_fds := [Some 2; Some 3; Some 5; Some 4]; sock_faults := []; bound := 0; clock_ns := 0 |}.

(** An address that the quad parser reads. *)
Definition server_config : ServerConfig :=
  {| bind_address := "0.0.0.0"; port := 0; listen_backlog := 128; maximum_connections := 4096;
     maximum_pending_bytes_per_connection := 4 * 1024 * 1024; database_worker_count := 2;
     database_queue_capacity := 1024; game_config := default_game_config |}.

#[export] Instance script_pton : InetPton := quad_pton.

Definition new_server : GameServer :=
  {| server_config_ := server_config;
     callbacks_ := <[5 := OnDatabaseWakeup]> (<[4 := OnListener]> {[3 := OnStopWakeup]});
     clients_ := ∅; connection_descriptors_ := ∅; marked_for_close_ := ∅; next_connection_id_ := 0; requests_ := ∅ |}.

Definition new_started : Started :=
  {| st_epoll := 2; st_stop := 3; st_listener := 4; st_database := 5; st_port := 32768;
     st_workers := {| queue_capacity_ := 1024; tasks_ := []; workers_ := [AtLock; AtLock]; accepting_tasks_ := true;
                      notify_one_pending := 0; notify_all_pending := false; accepted := []; started := []; finished := [] |};
     st_service := new_service; st_server := new_server |}.

Definition script_registered : NetKernel := Eval vm_compute in (GameServer_new server_config 5489 script).2.

Lemma new_server_new : GameServer_new server_config 5489 script = (Returns new_started, script_registered).
Proof. vm_compute. reflexivity. Qed.

Abbreviation ScriptWorld := (World (GameServer * NetKernel) (BoundedThreadPool Task) unit).

Definition server_started : ScriptWorld :=
  ({| service := new_service; data_service := new_pool; clock := tt |}, (new_server, script_registered)).

Definition poll drained (events : list (Z * Z)) (w : ScriptWorld) : ScriptWorld :=
  (server_poll drained (Ready events) w).2.

(** Connection 1 is accepted on descriptor 6 and has asked to log in. *)
Definition client_connected : ScriptWorld := poll [] [(4, EPOLLIN)] server_started.
Definition client_asking : ScriptWorld := poll [] [(6, EPOLLIN)] client_connected.

Definition load_failed : Completion PlayerCallback SessionCallback OperationCallback :=
  PlayerCompletion (OnPlayerLoaded 1 "ada" EmptyString) (result_Failure kUnavailable "connection lost").

(** An event can hit a connection it was not reported for. Connection 1 waits for
    its login; one poll reports the database wake-up, a new connection and the hang-up
    of connection 1. The failed login cannot be answered, so connection 1 is closed;
    the new connection gets its descriptor; and the hang-up, looked up by descriptor,
    closes the new connection, which without that last event would be connected. *)
Theorem stale_event_closes_new_client :
  let batch := [(5, EPOLLIN); (4, EPOLLIN)] in
  let hangup := [(6, EPOLLRDHUP)] in
  connection_descriptors_ client_asking.2.1 = {[1 := 6]} ∧
  pending_connections_ (service client_asking.1) = {[1 := "ada"%string]} ∧
  connection_descriptors_ (poll [load_failed] batch client_asking).2.1 = {[2 := 6]} ∧
  connection_descriptors_ (poll [load_failed] (batch ++ hangup) client_asking).2.1 = ∅ ∧
  next_connection_id_ (poll [load_failed] (batch ++ hangup) client_asking).2.1 = 2.
Proof. vm_compute. repeat split; reflexivity. Qed.

(** ** Witnesses *)

Lemma poll_step drained events w r :
  (server_poll drained (Ready events) w).1 = Returns r → server_step w (poll drained events w).
Proof.
  intros E. apply (step_poll drained events r). unfold poll.
  destruct (server_poll drained (Ready events) w) as [o w']. cbn in *. by subst.
Qed.

Lemma server_started_idle : ServerIdle server_started.
Proof.
  apply (GameServer_new_idle server_config 5489 script script_registered new_started);
    [split; reflexivity|discriminate|reflexivity|exact default_config_ok|exact new_server_new].
Qed.

Lemma client_connected_step : server_step server_started client_connected.
Proof. apply (poll_step _ _ _ 1). vm_compute. reflexivity. Qed.

Lemma client_asking_step : server_step client_connected client_asking.
Proof. apply (poll_step _ _ _ 1). vm_compute. reflexivity. Qed.

Lemma client_connected_idle : ServerIdle client_connected.
Proof. exact (server_step_idle _ _ server_started_idle client_connected_step). Qed.

Lemma client_asking_idle : ServerIdle client_asking.
Proof. exact (server_step_idle _ _ client_connected_idle client_asking_step). Qed.

(** Connection 2 on descriptor 6. *)
Definition second_connected : ScriptWorld := poll [load_failed] [(5, EPOLLIN); (4, EPOLLIN)] client_asking.

Lemma second_connected_idle : ServerIdle second_connected.
Proof.
  apply (server_step_idle client_asking); [exact client_asking_idle|].
  apply (poll_step _ _ _ 2). vm_compute. reflexivity.
Qed.

Lemma server_invariant_witness :
  ∃ fd cl, connection_descriptors_ client_asking.2.1 !! 1 = Some fd ∧
           clients_ client_asking.2.1 !! fd = Some cl ∧ client_id cl = 1.
Proof.
  destruct (server_invariant server_config 5489 script script_registered new_started new_pool tt client_asking)
    as (_ & Hc & _).
  - split; reflexivity.
  - discriminate.
  - reflexivity.
  - exact default_config_ok.
  - exact new_server_new.
  - apply rtc_l with client_connected; [exact client_connected_step|].
    apply rtc_once, client_asking_step.
  - destruct (Hc 1) as (fd & cl & H1 & H2 & H3 & _); [|exists fd, cl; exact (conj H1 (conj H2 H3))].
    right. exists "ada"%string. vm_compute. reflexivity.
Defined.

Lemma ended_connection_is_closed_witness :
  ∃ w', ClientReady 6 EPOLLRDHUP client_asking = (Returns tt, w') ∧
    connection_descriptors_ w'.2.1 !! 1 = None ∧ pending_connections_ (service w'.1) !! 1 = None.
Proof.
  destruct (clients_ client_asking.2.1 !! 6) as [cl|] eqn:Hcl; [|vm_compute in Hcl; discriminate Hcl].
  assert (client_id <$> clients_ client_asking.2.1 !! 6 = Some 1) as Hid by (vm_compute; reflexivity).
  rewrite Hcl in Hid. injection Hid as Hid.
  destruct (ended_connection_is_closed 6 EPOLLRDHUP cl client_asking client_asking_idle Hcl)
    as (w' & E & _ & Hd & _ & _ & Hp).
  - reflexivity.
  - rewrite Hid in Hd, Hp. exists w'. split; [exact E|]. split; [exact Hd|exact Hp].
Defined.

Lemma close_marked_terminates_witness :
  let w := (client_asking.1, (mark_for_close 1 client_asking.2.1, client_asking.2.2)) in
  ∃ w', CloseMarkedConnections w = (Returns tt, w') ∧ connection_descriptors_ w'.2.1 !! 1 = None.
Proof.
  destruct (close_marked_terminates
    (client_asking.1, (mark_for_close 1 client_asking.2.1, client_asking.2.2))) as (w' & E & _ & _ & Hc).
  - apply mark_spec; [apply client_asking_idle|]. vm_compute. reflexivity.
  - exists w'. split; [exact E|]. apply Hc. left. cbn. set_solver.
Defined.

Lemma send_delivers_or_disconnects_witness :
  let r := server_Send (second_connected.2.1, second_connected.2.2) 2 kHeartbeat Heartbeat in
  r.1 = true ∧ ∃ fd, connection_descriptors_ second_connected.2.1 !! 2 = Some fd.
Proof.
  pose proof (send_delivers_or_disconnects second_connected.2.1 second_connected.2.2 2 kHeartbeat Heartbeat) as H.
  assert ((server_Send (second_connected.2.1, second_connected.2.2) 2 kHeartbeat Heartbeat).1 = true) as Hr
    by (vm_compute; reflexivity).
  destruct (server_Send _ _ _ _) as [b [g' k']]. cbn in Hr. subst b.
  destruct H as (fd & cl & cl' & bytes & Hfd & _).
  - rewrite <- surjective_pairing. apply second_connected_idle.
  - split; [reflexivity|]. exists fd. exact Hfd.
Defined.

Lemma shutdown_closes_everything_witness :
  ∃ w', close_all client_asking = (Returns tt, w') ∧ pending_connections_ (service w'.1) = ∅.
Proof.
  destruct (shutdown_closes_everything client_asking) as (w' & E & _ & _ & _ & _ & _ & Hp).
  - apply client_asking_idle.
  - exists w'. split; [exact E|exact Hp].
Defined.

(** The process is out of descriptors. *)
Definition out_of_descriptors : ScriptKernel :=
  {| recv_script := ∅; send_script := ∅; accept_script := [AcceptError]; handed_ := ∅;
     open_fds_ := {[3; 4; 5]}; epoll_set := ∅; epoll_fails := ∅ |}.

Lemma accept_limit_and_failure_witness :
  (server_poll [] (Ready [(4, EPOLLIN)]) (server_started.1, (new_server, out_of_descriptors))).1
  = Throws (system_error "accept4").
Proof.
  destruct (accept_limit_and_failure (server_started.1, (new_server, out_of_descriptors))
    (script_accept out_of_descriptors).2) as [_ H].
  rewrite (H 4 EPOLLIN [] [] eq_refl eq_refl). reflexivity.
Defined.
