(* ===== verification/ServerLife.v ===== *)
(** * The server's life, from its constructor to its destructor

    [GameServer::~GameServer] ([src/server/game_server.cpp]) as one run, the loop of
    [Run] as a sequence of polls, and the part of [main]
    ([apps/mmo_server_main.cpp]) that owns the server: constructed, run until it is
    stopped or a poll throws, and destroyed on both paths. *)

From Stdlib Require Import Strings.Byte.
From S2P Require Import Prelude Double FrameCodec FrameStream AoiWorld DataTypes ThreadPool AsyncData.
From S2P Require Import ProtobufCodec GameTransport Mt19937 GameService GameScenario GameFrame Kernel TcpConnection.
From S2P Require Import EventLoop GameServer GameServerInv GameLogic GameServiceInv GameNotify GameLogin.
From S2P Require Import GameLinked GameServerLoop ServerDescriptors Sockets ServerStart ServerProperties.
From S2P Require Import BlockingClient ClientProperties.

Section life.
Context {K D C : Type} `{!Kernel K} `{!KernelLaws K} `{!SocketApi K} `{!SocketLaws K} `{!InetPton}.
Context `{!DataService D PlayerCallback SessionCallback OperationCallback}.
Context `{!SystemClock C} `{!Platform} `{!Protobuf}.

Abbreviation ServerWorld := (World (GameServer * K) D C).
Abbreviation Answers := (list (Completion PlayerCallback SessionCallback OperationCallback)).
Implicit Types (w : ServerWorld) (st : Started).

(** ** The destructor *)

(** [event_loop_.Remove] of the listener, if there is one, and of the database
    eventfd. *)
Definition remove_own (st : Started) (s : GameServer * K) : unit * (GameServer * K) :=
  let '(g, k) := s in
  let '(cbs, k) :=
    if UniqueFd_valid (st_listener st) then EventLoop_Remove (callbacks_ g) k (st_listener st)
    else (callbacks_ g, k) in
  let '(cbs, k) := EventLoop_Remove cbs k (st_database st) in
  (tt, (set_callbacks cbs g, k)).

(** The members that own descriptors, last declared first: the clients, the database
    eventfd, the listener and the event loop's two. *)
Definition destroy_members (st : Started) (s : GameServer * K) : unit * (GameServer * K) :=
  let '(g, k) := s in
  let k := map_fold (λ _ cl k, k_close k (descriptor_ (connection cl))) k (clients_ g) in
  let k := UniqueFd_destroy (st_listener st) (k_close k (st_database st)) in
  (tt, (g, k_close (k_close k (st_stop st)) (st_epoll st))).

(** [~GameServer] after its call of [Stop], which changes the two atomics and the stop
    eventfd of [RunStop] and nothing here. [shutdown] is what [workers_.Shutdown()] does to the data service,
    [drained] the completions [Drain] then finds. *)
Definition GameServer_destroy (shutdown : D → D) (drained : Answers) (st : Started) : M ServerWorld unit :=
  close_all ;;
  call_data (λ d, (true, shutdown d)) ;;
  for_each drained run_completion ;;
  on_network (remove_own st) ;;
  on_network (destroy_members st).

(** ** [main], from the server's construction *)

(** A turn of [EventLoop::Run]: what happens until [epoll_wait] returns, the
    completions a database wake-up finds, and what [epoll_wait] returns. *)
Record Turn := mkTurn { before : ServerWorld → ServerWorld; answers : Answers; ready : WaitResult }.

(** The loop, until [Stop] makes it end. *)
Fixpoint run_loop (turns : list Turn) : M ServerWorld unit :=
  match turns with
  | [] => mret tt
  | t :: turns => modify (before t) ;; server_poll (answers t) (ready t) ;; run_loop turns
  end.

(** The server of [main]: an exception of [Run] leaves through the destructor, one of
    the destructor would end the program. *)
Definition serve (config : ServerConfig) (seed : Z) (d : D) (ck : C) (turns : list Turn)
    (shutdown : D → D) (drained : Answers) : M K unit := λ k,
  match GameServer_new config seed k with
  | (Throws e, k) => (Throws e, k)
  | (Returns st, k) =>
      let '(r, w) := run_loop turns
        ({| service := st_service st; data_service := d; clock := ck |}, (st_server st, k)) in
      match GameServer_destroy shutdown drained st w with
      | (Returns _, w) => (r, w.2.2)
      | (Throws e, w) => (Throws e, w.2.2)
      end
  end.

(** ** Facts *)

Definition own_fds (st : Started) : gset Z := {[st_epoll st; st_stop st; st_listener st; st_database st]}.

Lemma NetOk_outside others w w' :
  outside w w' → NetOk others w.2 → NetOk (other_fds w'.2) w'.2 ∧ others ⊆ other_fds w'.2.
Proof.
  intros Hout. destruct Hout as [s d d' ck ck' g k k' Ho Hb Hh]. cbn [snd]. intros [Hcl Hot Hlim]. cbn in *. split.
  - split; [|done|done]. intros fd cl E. cbn in *. destruct (Hcl fd cl E) as (? & ? & ?).
    split; [done|]. split; [done|set_solver].
  - rewrite <- Hot. unfold other_fds, client_fds. cbn. set_solver.
Qed.

Lemma NetOk_started config seed (k k' : K) st :
  0 < maximum_pending_bytes_per_connection config < 2 ^ 64 →
  GameServer_new config seed k = (Returns st, k') →
  NetOk (own_fds st ∪ open_fds k) (st_server st, k') ∧ own_fds st ## open_fds k ∧ 0 <= st_listener st.
Proof.
  intros Hmax E. pose proof (GameServer_new_spec config seed k) as Hn. unfold wpx in Hn. rewrite E in Hn.
  destruct Hn as [(Ho & Hd & _) Hnd _ Ht _ _ Hl]. split; [|done].
  rewrite Ht. split; cbn; [done| |lia]. unfold other_fds, client_fds. cbn. rewrite Ho, dom_empty_L. set_solver.
Qed.

(** With no connection open the service can neither send nor close. *)
#[local] Instance no_connection_preserves :
  TransportKeeps (GameServer * K) (λ s, connection_descriptors_ s.1 = ∅).
Proof.
  split.
  - intros [g k] c ty m E. cbn [fst] in E. cbn [tr_Send server_transport fst snd].
    assert (note_request c ty m g = g) as -> by (unfold note_request; by rewrite E).
    unfold server_Send. by rewrite E.
  - intros G cb c [e [g k]] _ E. cbn in *. by rewrite E.
Qed.

Lemma no_connection_no_client w : ServerInv w → connection_descriptors_ w.2.1 = ∅ → clients_ w.2.1 = ∅.
Proof.
  intros Hw Hd. apply map_empty. intros fd. apply eq_None_not_Some. intros [cl Hcl].
  destruct (ok_client _ (si_tables _ Hw) _ _ Hcl) as [E _]. by rewrite Hd in E.
Qed.

(** The last part, when no client is left. *)
Lemma destroy_own st g (k : K) :
  clients_ g = ∅ → 0 <= st_listener st →
  let '(_, s) := remove_own st (g, k) in
  let '(_, (g', k')) := destroy_members st s in
  clients_ g' = ∅ ∧ connection_descriptors_ g' = connection_descriptors_ g ∧ open_fds k' = open_fds k ∖ own_fds st.
Proof.
  intros Hg Hl. unfold remove_own, destroy_members, EventLoop_Remove, UniqueFd_destroy, UniqueFd_Reset, UniqueFd_valid.
  rewrite (proj2 (Z.leb_le _ _)) by done. cbn [fst snd]. cbn. rewrite Hg, map_fold_empty. split; [done|]. split; [done|].
  repeat match goal with |- context [open_fds (k_close ?q ?fd)] => rewrite (proj1 (close_law q fd)) end.
  rewrite !(proj1 (epoll_del_frame _ _)). unfold own_fds. set_solver.
Qed.

Lemma GameServer_destroy_spec others shutdown drained st w :
  ServerInv w → NetOk others w.2 → 0 <= st_listener st →
  wp (GameServer_destroy shutdown drained st) (λ _ w',
    clients_ w'.2.1 = ∅ ∧ connection_descriptors_ w'.2.1 = ∅ ∧ GameInv (service w'.1) ∧
    (∀ c, ¬ tracked (service w'.1) c) ∧ open_fds w'.2.2 = others ∖ own_fds st) w.
Proof.
  intros Hw Hn Hl. unfold GameServer_destroy.
  assert (∀ {A} (m : M ServerWorld A) (P P' : GameServer * K → Prop) w0, preserves P m → preserves P' m → P w0.2 → P' w0.2 →
    wp m (λ _, ServerInv) w0 → wp m (λ _ w', ServerInv w' ∧ P w'.2 ∧ P' w'.2) w0) as Hkeep.
  { intros A m P P' w0 Hk Hk' HP HP' Hm. unfold wp in *. specialize (Hk w0 HP). specialize (Hk' w0 HP').
    by destruct (m w0) as [[a|x] w1]. }
  apply wp_bind. eapply wp_wand.
  { apply wp_and; [by apply close_all_spec|].
    apply (Hkeep _ _ (NetOk others) (λ _, True)); [apply preserves_close_all|by intros ? ?|done|done|].
    eapply wp_wand; [by apply close_all_spec|]. by intros ? ? []. }
  intros [] w1 [[Hw1 Hd1] (_ & Hn1 & _)].
  apply wp_bind. destruct w1 as [e1 s1]. unfold wp at 1, call_data. cbn [fst snd].
  set (w2 := (_, s1) : ServerWorld).
  assert (ServerInv w2) as Hw2 by (destruct Hw1; by split).
  apply wp_bind. eapply wp_wand.
  { apply (Hkeep _ _ (NetOk others) (λ s, connection_descriptors_ s.1 = ∅)); [..|exact Hn1|exact Hd1|].
    1-2: apply preserves_for_each; intros x; by apply preserves_run_completion; apply _.
    apply (wp_for_each ServerInv); [done|]. intros x w' _. apply run_completion_spec. }
  intros [] [e3 [g3 k3]] (Hw3 & Hn3 & Hd3). cbn [fst snd] in *.
  pose proof (no_connection_no_client _ Hw3 Hd3) as Hc3. cbn in Hc3.
  apply wp_bind. unfold on_network at 1, wp at 1. cbn [fst snd].
  pose proof (destroy_own st g3 k3 Hc3 Hl) as Hown. destruct (remove_own st (g3, k3)) as [[] s4].
  unfold on_network, wp. cbn [fst snd]. destruct (destroy_members st s4) as [[] [g5 k5]].
  destruct Hown as (Hc5 & Hd5 & Ho5). cbn [fst snd]. split; [done|]. split; [congruence|].
  split; [apply Hw3|]. split.
  - intros c. apply (closed_untracked (e3, (g3, k3)) c Hw3). apply opened_false. cbn. by rewrite Hd3.
  - rewrite Ho5. pose proof (net_others _ _ Hn3) as E. unfold other_fds, client_fds in E. cbn in E.
    rewrite Hc3, dom_empty_L, difference_empty_L in E. by rewrite E.
Qed.

(** *** Reachable states *)

Lemma server_step_net others w w' :
  server_step w w' → NetOk others w.2 → NetOk (other_fds w'.2) w'.2 ∧ others ⊆ other_fds w'.2.
Proof.
  intros Hstep. destruct Hstep as [drained events r w w' E|w w' Hout]; [|by apply NetOk_outside].
  intros Hn. pose proof (server_poll_preserves others drained (Ready events) w Hn) as Hp. rewrite E in Hp. cbn in Hp.
  rewrite (net_others _ _ Hp). done.
Qed.

Lemma server_steps_net others w w' :
  rtc server_step w w' → NetOk others w.2 → NetOk (other_fds w'.2) w'.2 ∧ others ⊆ other_fds w'.2.
Proof.
  intros Hr. revert others. induction Hr as [w|w w1 w' Hs Hr IH]; intros others Hn; [by rewrite (net_others _ _ Hn)|].
  destruct (server_step_net _ _ _ Hs Hn) as [Hn1 Hsub]. destruct (IH _ Hn1) as [Hn' Hsub']. split; [done|]. by etrans.
Qed.

(** *** The loop *)

(** A turn before which nothing of the process's other descriptors is left changed. *)
Definition quiet (t : Turn) : Prop :=
  ∀ w, outside w (before t w) ∧ open_fds (before t w).2.2 = open_fds w.2.2.

Lemma before_net others t w : quiet t → NetOk others w.2 → NetOk others (before t w).2.
Proof.
  intros Ht Hn. destruct (Ht w) as [Hout E]. destruct (NetOk_outside others w _ Hout Hn) as [Hn' _].
  assert (other_fds (before t w).2 = others) as <-; [|done]. rewrite <- (net_others _ _ Hn).
  destruct Hout. unfold other_fds, client_fds in *. cbn in *. by rewrite E.
Qed.

Definition poll_failure (x : exn) : Prop := x = system_error "accept4" ∨ x = system_error "epoll_wait".

Lemma server_poll_any drained r w :
  ServerIdle w → wpx (server_poll drained r) (λ _, ServerIdle) (λ x w', poll_failure x ∧ ServerIdle w') w.
Proof.
  intros Hw. destruct r as [events| |].
  - eapply wpx_wand; [by apply server_poll_spec| |]; [by intros n w' []|]. intros x w' [-> ?]. split; [by left|done].
  - done.
  - split; [by right|done].
Qed.

Lemma run_loop_spec others turns w :
  Forall quiet turns → ServerIdle w → NetOk others w.2 →
  wpx (run_loop turns) (λ _ w', ServerIdle w' ∧ NetOk others w'.2)
    (λ x w', poll_failure x ∧ ServerIdle w' ∧ NetOk others w'.2) w.
Proof.
  intros Hq. revert w. induction Hq as [|t turns Ht Hq IH]; intros w Hw Hn; cbn [run_loop]; [done|].
  apply wpx_bind. unfold modify, wpx at 1. set (w1 := before t w).
  assert (ServerIdle w1) as Hw1 by (by eapply outside_idle; [|apply Ht]).
  assert (NetOk others w1.2) as Hn1 by (by apply before_net).
  pose proof (server_poll_preserves others (answers t) (ready t) w1 Hn1) as Hn2.
  apply wpx_bind. pose proof (server_poll_any (answers t) (ready t) w1 Hw1) as Hp. unfold wpx in Hp |- * at 1.
  destruct (server_poll (answers t) (ready t) w1) as [[n|x] w2]; cbn [snd] in Hn2; [|naive_solver]. by apply IH.
Qed.
End life.

(** ** Properties *)

(** C4: The server leaks no descriptor and closes no foreign one. In every reachable
    state the descriptors of the process are those of its clients, each open and its
    client's own, and the others, which include the server's four and all that were
    open before it was constructed; a poll, whatever it meets and even if it throws,
    changes only the clients' ones; and the destructor, run from any reachable state,
    returns with exactly the others open but for the server's four, and no client,
    player or pending login left. *)
Theorem server_owns_its_descriptors
    `{SocketLaws K} `{InetPton} `{DataService D PlayerCallback SessionCallback OperationCallback}
    `{SystemClock C} `{Platform} `{Protobuf} config seed (k k' : K) st (d : D) (ck : C) w :
  0 < maximum_pending_bytes_per_connection config < 2 ^ 64 → 0 <= maximum_connections config →
  Z.of_nat (accept_budget k) < 2 ^ 64 → ConfigOk (aoi (game_config config)) →
  GameServer_new config seed k = (Returns st, k') →
  rtc server_step ({| service := st_service st; data_service := d; clock := ck |}, (st_server st, k')) w →
  own_fds st ∪ open_fds k ⊆ other_fds w.2 ∧ own_fds st ## open_fds k ∧
  (∀ fd cl, clients_ w.2.1 !! fd = Some cl → descriptor_ (connection cl) = fd ∧ fd ∈ open_fds w.2.2) ∧
  (∀ drained result, other_fds (server_poll drained result w).2.2 = other_fds w.2) ∧
  ∀ shutdown drained, ∃ w', GameServer_destroy shutdown drained st w = (Returns tt, w') ∧
    open_fds w'.2.2 = other_fds w.2 ∖ own_fds st ∧ clients_ w'.2.1 = ∅ ∧ connection_descriptors_ w'.2.1 = ∅ ∧
    online_players_ (service w'.1) = ∅ ∧ ∀ c, ¬ tracked (service w'.1) c.
Proof.
  intros Hmax Hcount Hb Hok E Hr.
  destruct (NetOk_started config seed k k' st Hmax E) as (Hn & Hdisj & Hl).
  destruct (server_steps_net _ _ _ Hr Hn) as [Hnw Hsub].
  assert (ServerIdle w) as Hw by (eapply server_steps_idle; [by eapply (GameServer_new_idle config seed k)|done]).
  split; [done|]. split; [done|]. split; [|split].
  - intros fd cl Hcl. by destruct (net_client _ _ Hnw fd cl Hcl) as (? & _ & ?).
  - intros drained result. apply (net_others _ _ (server_poll_preserves _ drained result w Hnw)).
  - intros shutdown drained. pose proof (GameServer_destroy_spec _ shutdown drained st w (proj1 Hw) Hnw Hl) as Hd.
    unfold wp in Hd. destruct (GameServer_destroy shutdown drained st w) as [[[]|x] w']; [|done].
    destruct Hd as (Hc & Hcd & Hs & Ht & Ho). exists w'. do 4 (split; [done|]). split; [|done].
    apply map_empty. intros p. apply eq_None_not_Some. intros [o Hon]. destruct (gi_online _ Hs _ _ Hon) as [_ Hco].
    apply (Ht (connection_id o)). left. by eexists.
Qed.

(** C3: What a client of the server receives is what the server was asked to send it.
    In every reachable state the bytes handed to a client's socket followed by those
    pending are exactly the encodings of all messages [Send] has been asked to send on
    its connection, in order, each once and none left out; and a client program at the
    other end of the connection, which has received some prefix of what was handed over,
    has been given the first of these frames, in order and each once, never a protocol
    error, and all of them when nothing is pending or in flight and its last call timed
    out. *)
Theorem server_speaks_to_clients
    `{SocketLaws K} `{InetPton} `{DataService D PlayerCallback SessionCallback OperationCallback}
    `{SystemClock C} `{Platform} `{Protobuf} `{ClientClockLaws K2} config seed (k k' : K) st (d : D) (ck : C) w c fd :
  0 < maximum_pending_bytes_per_connection config < 2 ^ 64 → 0 <= maximum_connections config →
  Z.of_nat (accept_budget k) < 2 ^ 64 → ConfigOk (aoi (game_config config)) →
  GameServer_new config seed k = (Returns st, k') →
  rtc server_step ({| service := st_service st; data_service := d; clock := ck |}, (st_server st, k')) w →
  connection_descriptors_ w.2.1 !! c = Some fd →
  ∃ cl fs, clients_ w.2.1 !! fd = Some cl ∧ client_id cl = c ∧
    Forall2 (λ '(type, message) f,
        EncodeProtobufFrame type message kDefaultMaxPayloadSize = Returns (frame_wire f) ∧
        encodable kDefaultMaxPayloadSize f) (requests_of w.2.1 c) fs ∧
    handed w.2.2 fd ++ unsent (connection cl) = concat (frame_wire <$> fs) ∧
    ∀ ops (b : BlockingClient) (k2 : K2) es b' k2',
      session_start kDefaultMaxPayloadSize b → delivered k2 (bc_descriptor_ b) = [] →
      run_client ops (b, k2) = (Returns es, (b', k2')) →
      delivered k2' (bc_descriptor_ b) `prefix_of` handed w.2.2 fd →
      omap got_frame es `prefix_of` fs ∧ (∀ f, Got (Some rs_kProtocolError) f ∉ es) ∧
      (∀ f, unsent (connection cl) = [] → delivered k2' (bc_descriptor_ b) = handed w.2.2 fd →
         last es = Some (Got (Some rs_kTimeout) f) → omap got_frame es = fs).
Proof.
  intros Hmax Hcount Hb Hok E Hr Hfd.
  assert (ServerIdle w) as [Hw Hm]
    by (eapply server_steps_idle; [by eapply (GameServer_new_idle config seed k)|done]).
  destruct (ok_descriptor _ (si_tables _ Hw) _ _ Hfd) as (cl & Hcl & Hid).
  destruct (so_client _ (no_streams _ (si_network _ Hw)) fd cl Hcl) as (fs & Hfs & Hout).
  { unfold marks in Hm. rewrite Hm. set_solver. }
  rewrite Hid in Hfs. exists cl, fs. split; [done|]. split; [done|]. split.
  { eapply Forall2_impl; [exact Hfs|]. by intros [type message] f. }
  split; [done|]. intros ops b k2 es b' k2' Hstart Hdl Hrun Hpre.
  assert (Forall (encodable kDefaultMaxPayloadSize) fs) as Henc.
  { eapply Forall2_Forall_r; [exact Hfs|]. apply Forall_forall. by intros r _ f []. }
  destruct (session_reads _ fs ops b k2 es b' k2' Hstart Hdl Henc Hrun) as (Hp & Hno & Hall).
  { rewrite <- Hout. etrans; [done|]. by apply prefix_app_r. }
  split; [done|]. split; [done|]. intros f Hu Hd. apply (Hall f). by rewrite Hd, <- Hout, Hu, app_nil_r.
Qed.

(** C5: The program owns nothing at its end. From the construction of the server to its
    destruction, whatever the events, bytes, answers of the storage and failures of any
    system call, as long as nothing else in the process opens or closes descriptors
    between the polls, the only exceptions are those of the constructor and of a poll whose
    [accept4] or [epoll_wait] failed, none leaves the destructor, and the process ends
    with exactly the descriptors it began with. *)
Theorem serve_releases_everything
    `{SocketLaws K} `{InetPton} `{DataService D PlayerCallback SessionCallback OperationCallback}
    `{SystemClock C} `{Platform} `{Protobuf} config seed (k : K) (d : D) (ck : C) turns shutdown drained :
  0 < maximum_pending_bytes_per_connection config < 2 ^ 64 → 0 <= maximum_connections config →
  Z.of_nat (accept_budget k) < 2 ^ 64 → ConfigOk (aoi (game_config config)) → Forall quiet turns →
  let '(r, k') := serve config seed d ck turns shutdown drained k in
  open_fds k' = open_fds k ∧
  match r with
  | Returns _ => ∃ st k1, GameServer_new config seed k = (Returns st, k1)
  | Throws x => (∃ k1, GameServer_new config seed k = (Throws x, k1)) ∨ poll_failure x
  end.
Proof.
  intros Hmax Hcount Hb Hok Hq. unfold serve. pose proof (GameServer_new_spec config seed k) as Hnew. unfold wpx in Hnew.
  destruct (GameServer_new config seed k) as [[st|x] k1] eqn:E.
  2: { destruct Hnew as [Ho _]. split; [done|]. left. by exists k1. }
  destruct (NetOk_started config seed k k1 st Hmax E) as (Hn & Hdisj & Hl).
  pose proof (GameServer_new_idle config seed k k1 st d ck Hmax Hcount Hb Hok E) as Hw.
  pose proof (run_loop_spec _ turns _ Hq Hw Hn) as Hrun. unfold wpx in Hrun.
  destruct (run_loop turns _) as [r w1].
  assert (ServerIdle w1 ∧ NetOk (own_fds st ∪ open_fds k) w1.2) as [Hw1 Hn1] by (destruct r; naive_solver).
  pose proof (GameServer_destroy_spec _ shutdown drained st w1 (proj1 Hw1) Hn1 Hl) as Hd. unfold wp in Hd.
  destruct (GameServer_destroy shutdown drained st w1) as [[[]|x] w2]; [|done].
  destruct Hd as (_ & _ & _ & _ & Ho). split; [rewrite Ho; set_solver|].
  destruct r as [[]|x]; [by exists st, k1|right; by destruct Hrun].
Qed.

(** ** Witnesses *)

Lemma client_asking_reached : rtc server_step server_started client_asking.
Proof. apply rtc_l with client_connected; [exact client_connected_step|apply rtc_once, client_asking_step]. Qed.

Lemma server_owns_its_descriptors_witness :
  clients_ client_asking.2.1 ≠ ∅ ∧
  ∃ w', GameServer_destroy (λ d, d) [load_failed] new_started client_asking = (Returns tt, w') ∧
    clients_ w'.2.1 = ∅ ∧ ∀ c, ¬ tracked (service w'.1) c.
Proof.
  destruct (server_owns_its_descriptors server_config 5489 script script_registered new_started new_pool tt client_asking)
    as (_ & _ & _ & _ & Hd).
  - split; reflexivity.
  - discriminate.
  - reflexivity.
  - exact default_config_ok.
  - exact new_server_new.
  - exact client_asking_reached.
  - split; [vm_compute; discriminate|].
    destruct (Hd (λ d, d) [load_failed]) as (w' & E & _ & Hc & _ & _ & Ht). exists w'. exact (conj E (conj Hc Ht)).
Defined.

(** A client that sends one heartbeat, which is answered. *)
Definition talk : NetKernel :=
  {| base :=
       {| recv_script := {[6 := [Received [x00; x00; x00; x00; x00; x00; x00; x04]]]}; send_script := ∅;
          accept_script := [Accepted 6; AcceptEAGAIN]; handed_ := ∅; open_fds_ := ∅; epoll_set := ∅; epoll_fails := ∅ |};
     history := ∅; next_fds := [Some 2; Some 3; Some 5; Some 4]; sock_faults := []; bound := 0; clock_ns := 0 |}.

Definition talk_registered : NetKernel := Eval vm_compute in (GameServer_new server_config 5489 talk).2.

Lemma talk_new : GameServer_new server_config 5489 talk = (Returns new_started, talk_registered).
Proof. vm_compute. reflexivity. Qed.

Definition talk_started : ScriptWorld :=
  ({| service := new_service; data_service := new_pool; clock := tt |}, (new_server, talk_registered)).

Definition talk_answered : ScriptWorld := poll [] [(6, EPOLLIN)] (poll [] [(4, EPOLLIN)] talk_started).

Lemma talk_answered_reached : rtc server_step talk_started talk_answered.
Proof.
  apply rtc_l with (poll [] [(4, EPOLLIN)] talk_started); [|apply rtc_once];
    apply (poll_step _ _ _ 1); vm_compute; reflexivity.
Qed.

(** Nothing more is received from the server than what it was asked to send. *)
Lemma server_speaks_to_clients_witness :
  ∃ cl f, clients_ talk_answered.2.1 !! 6 = Some cl ∧ client_id cl = 1 ∧
    requests_of talk_answered.2.1 1 = [(kHeartbeat, Heartbeat)] ∧
    EncodeProtobufFrame kHeartbeat Heartbeat kDefaultMaxPayloadSize = Returns (frame_wire f) ∧
    handed talk_answered.2.2 6 ++ unsent (connection cl) = frame_wire f.
Proof.
  assert (requests_of talk_answered.2.1 1 = [(kHeartbeat, Heartbeat)]) as Hrs by (vm_compute; reflexivity).
  destruct (server_speaks_to_clients (K2 := NetKernel) server_config 5489 talk talk_registered new_started new_pool tt
    talk_answered 1 6) as (cl & fs & Hcl & Hid & Hfs & Hout & _).
  - split; reflexivity.
  - discriminate.
  - reflexivity.
  - exact default_config_ok.
  - exact talk_new.
  - exact talk_answered_reached.
  - vm_compute. reflexivity.
  - rewrite Hrs in Hfs. apply Forall2_cons_inv_l in Hfs as (f & fs' & Hf & Hfs' & ->).
    apply Forall2_nil_inv_l in Hfs' as ->. cbv beta iota in Hf. destruct Hf as [Hf _].
    exists cl, f. cbn in Hout. rewrite app_nil_r in Hout.
    exact (conj Hcl (conj Hid (conj Hrs (conj Hf Hout)))).
Defined.

Definition accept_turn : Turn (K := NetKernel) (D := BoundedThreadPool Task) (C := unit) :=
  {| before := λ w, w; answers := []; ready := Ready [(4, EPOLLIN)] |}.

Lemma accept_turn_quiet : quiet accept_turn.
Proof. intros [[s d ck] [g k]]. split; [|done]. by apply outside_step. Qed.

Lemma serve_releases_everything_witness :
  open_fds (serve server_config 5489 new_pool tt [accept_turn] (λ d, d) [] script).2 = ∅.
Proof.
  pose proof (serve_releases_everything server_config 5489 script new_pool tt [accept_turn] (λ d, d) []) as H.
  destruct (serve _ _ _ _ _ _ _ script) as [r k']. refine (proj1 (H _ _ _ _ _)).
  - split; reflexivity.
  - discriminate.
  - reflexivity.
  - exact default_config_ok.
  - apply Forall_singleton, accept_turn_quiet.
Defined.
