(* ===== verification/ServerMain.v ===== *)
(** * The server program

    [apps/mmo_server_main.cpp]: the command line, the environment and the storage the
    program chooses, up to the construction of the server; and the pointer its signal
    handler uses, against the life of the server it points to. *)

From stdpp Require Import pretty.
From S2P Require Import Prelude Double Numbers DataTypes MySqlApi MySqlSim MySqlRepository RedisStore.
From S2P Require Import GameService TcpConnection GameServer.

(** ** The command line *)

Definition usage : exn := invalid_argument "usage: mmo_server [--memory] [--host IPv4] [--port N]".

Definition set_port (p : Z) (c : ServerConfig) : ServerConfig :=
  {| bind_address := bind_address c; port := p; listen_backlog := listen_backlog c;
     maximum_connections := maximum_connections c;
     maximum_pending_bytes_per_connection := maximum_pending_bytes_per_connection c;
     database_worker_count := database_worker_count c; database_queue_capacity := database_queue_capacity c;
     game_config := game_config c |}.
Definition set_host (h : string) (c : ServerConfig) : ServerConfig :=
  {| bind_address := h; port := port c; listen_backlog := listen_backlog c;
     maximum_connections := maximum_connections c;
     maximum_pending_bytes_per_connection := maximum_pending_bytes_per_connection c;
     database_worker_count := database_worker_count c; database_queue_capacity := database_queue_capacity c;
     game_config := game_config c |}.

(** The loop of [main] over the arguments after the program's name. *)
Fixpoint parse_arguments (argv : list string) (use_memory : bool) (config : ServerConfig)
    : Outcome (bool * ServerConfig) :=
  match argv with
  | [] => Returns (use_memory, config)
  | argument :: rest =>
      if decide (argument = "--memory"%string) then parse_arguments rest true config
      else
        match rest with
        | value :: rest =>
            if decide (argument = "--port"%string) then
              n ← stoul "stoul" value;
              parse_arguments rest use_memory (set_port (u16 n.1) config)
            else if decide (argument = "--host"%string) then
              parse_arguments rest use_memory (set_host value config)
            else Throws usage
        | [] => Throws usage
        end
  end.

(** ** The storage *)

(** [std::getenv] *)
Definition Environment (env : string → option string) (name fallback : string) : string :=
  default fallback (env name).

Inductive Storage := InMemory | Databases (mysql : MySqlConfig) (redis : RedisConfig).

Section storage.
Context {Q : Type} `{!MySql Q}.

(** The calls of the repository leave the [once_flag] of its library alone. *)
Definition on_database {A} (f : St Q A) : M (bool * Q) A := λ '(initialized, q),
  let '(a, q) := f q in (Returns a, (initialized, q)).

Definition open_databases (env : string → option string) : M (bool * Q) Storage :=
  let host := Environment env "MMO_MYSQL_HOST" "127.0.0.1" in
  mysql_port ← lift_outcome (stoul "stoul" (Environment env "MMO_MYSQL_PORT" "3306"));
  let mysql :=
    {| mysql_host := host; mysql_port := u32 mysql_port.1;
       mysql_user := Environment env "MMO_MYSQL_USER" EmptyString;
       mysql_password := Environment env "MMO_MYSQL_PASSWORD" EmptyString;
       mysql_database := Environment env "MMO_MYSQL_DATABASE" EmptyString; connect_timeout_seconds := 3 |} in
  if str_empty (mysql_user mysql) || str_empty (mysql_database mysql) then
    lift_outcome (Throws (invalid_argument "set MMO_MYSQL_USER and MMO_MYSQL_DATABASE, or use --memory"))
  else
    EnsureMySqlLibraryInitialized ;;
    schema ← on_database (EnsureSchema mysql);
    if negb (op_Ok schema) then
      lift_outcome (Throws (runtime_error ("MySQL setup failed: " +:+ op_error schema)))
    else
      redis_port ← lift_outcome (stoi (Environment env "MMO_REDIS_PORT" "6379"));
      mret (Databases mysql
        {| redis_host := Environment env "MMO_REDIS_HOST" "127.0.0.1"; redis_port := redis_port;
           key_prefix := key_prefix redis_defaults; connect_timeout := connect_timeout redis_defaults |}).

(** [main] up to the server's constructor; [has_databases] is [MMO_HAS_DATABASES]. *)
Definition server_setup (has_databases : bool) (env : string → option string) (argv : list string)
    : M (bool * Q) (Storage * ServerConfig) :=
  '(use_memory, config) ← lift_outcome (parse_arguments argv false default_server_config);
  storage ← (if use_memory : bool then mret InMemory
             else if has_databases then open_databases env
             else lift_outcome (Throws (invalid_argument "this build has no database adapters; use --memory")));
  mret (storage, config).
End storage.

(** The [try] of [main]: its exit status. *)
Definition exit_status {A} (r : Outcome A) : Z := match r with Returns _ => 0 | Throws _ => 1 end.

(** ** The signal handler's pointer *)

(** Where [main] is, from the server's construction: at the constructor, the stores into
    [g_server], [std::signal], [Run], the destructor (after a return or an exception of
    [Run]) and after it. *)
Inductive MainPoint :=
| AtConstruct | AtStore | AtSignal | AtRun | AtClear | AtDestroy (r : Outcome unit) | AtEnd (r : Outcome unit).

(** [handled]: [std::signal] was called. [pointer]: [g_server] is not null. [alive]: the
    server is constructed and not destroyed. *)
Record MainState := mkMainState { point : MainPoint; handled : bool; pointer : bool; alive : bool }.

Definition main_start : MainState := {| point := AtConstruct; handled := false; pointer := false; alive := false |}.

(** A step of [main]; [constructed] and [run] are the outcomes of the constructor and of
    [Run]. *)
Definition main_next (constructed run : Outcome unit) (s : MainState) : MainState :=
  let '(mkMainState p h g a) := s in
  match p with
  | AtConstruct =>
      match constructed with
      | Returns _ => mkMainState AtStore h g true
      | Throws e => mkMainState (AtEnd (Throws e)) h g a
      end
  | AtStore => mkMainState AtSignal h true a
  | AtSignal => mkMainState AtRun true g a
  | AtRun =>
      match run with
      | Returns _ => mkMainState AtClear h g a
      | Throws e => mkMainState (AtDestroy (Throws e)) h g a
      end
  | AtClear => mkMainState (AtDestroy (Returns tt)) h false a
  | AtDestroy r => mkMainState (AtEnd r) h g false
  | AtEnd r => s
  end.

(** [HandleSignal]: the server it calls [Stop] on, none when the pointer is null; [false]
    for one that is not there any more. *)
Definition HandleSignal (s : MainState) : option bool := if pointer s then Some (alive s) else None.

(** ** Properties *)

(** An option as the usage describes it, and the arguments it is written as. *)
Inductive ServerOption := MemoryOption | PortOption (n : Z) | HostOption (h : string).

Definition render (o : ServerOption) : list string :=
  match o with
  | MemoryOption => ["--memory"%string]
  | PortOption n => ["--port"%string; pretty n]
  | HostOption h => ["--host"%string; h]
  end.

Definition apply_option (s : bool * ServerConfig) (o : ServerOption) : bool * ServerConfig :=
  match o with
  | MemoryOption => (true, s.2)
  | PortOption n => (s.1, set_port (u16 n) s.2)
  | HostOption h => (s.1, set_host h s.2)
  end.

Definition printable (o : ServerOption) : Prop := match o with PortOption n => is_u64 n | _ => True end.

Lemma parse_option o rest use_memory config :
  printable o →
  parse_arguments (render o ++ rest) use_memory config =
  parse_arguments rest (apply_option (use_memory, config) o).1 (apply_option (use_memory, config) o).2.
Proof.
  destruct o as [|n|h]; intros Ho; [done| |done]. cbn [render app parse_arguments]. rewrite !decide_False, decide_True by done.
  rewrite stoul_pretty by done. done.
Qed.

Lemma parse_options opts rest s :
  Forall printable opts →
  parse_arguments (concat (render <$> opts) ++ rest) s.1 s.2 =
  parse_arguments rest (foldl apply_option s opts).1 (foldl apply_option s opts).2.
Proof.
  intros H. revert s. induction H as [|o opts Ho Hopts IH]; intros s; [done|].
  cbn [fmap list_fmap concat foldl]. rewrite <- app_assoc, parse_option by done. rewrite IH.
  by rewrite <- surjective_pairing.
Qed.

Lemma parse_all opts s :
  Forall printable opts →
  parse_arguments (concat (render <$> opts)) s.1 s.2 = Returns (foldl apply_option s opts).
Proof.
  intros H. rewrite <- (app_nil_r (concat _)), parse_options by done. cbn. by rewrite <- surjective_pairing.
Qed.

(** Whether the options choose the memory stores. *)
Lemma memory_chosen opts s : (foldl apply_option s opts).1 = true ↔ s.1 = true ∨ MemoryOption ∈ opts.
Proof.
  revert s. induction opts as [|o opts IH]; intros s; cbn [foldl]; [set_solver|].
  rewrite IH, elem_of_cons. destruct o; cbn; naive_solver.
Qed.

(** The command line is read back: for any options written as the usage describes
    them, in any order and number, the program takes all of them and the last of each
    kind counts. A port is taken modulo 2^16: a number from 65536 on is not refused but
    silently becomes another port. *)
Theorem command_line_roundtrip opts :
  Forall printable opts →
  parse_arguments (concat (render <$> opts)) false default_server_config
    = Returns (foldl apply_option (false, default_server_config) opts) ∧
  ∀ n, last opts = Some (PortOption n) →
    port (foldl apply_option (false, default_server_config) opts).2 = n mod 2 ^ 16.
Proof.
  intros H. split; [by apply (parse_all opts (false, default_server_config))|].
  intros n (opts' & ->)%last_Some. by rewrite foldl_app.
Qed.

(** What the program refuses, before it opens anything: after any options, an
    argument it does not know, an option without its value and a port that is no number
    or does not fit 64 bits; and without [--memory] a build without databases, or an
    environment that names no database. With [--memory] it opens no database. *)
Theorem server_setup_errors `{MySql Q} has_databases env opts rest (s : bool * Q) :
  Forall printable opts →
  let run := server_setup has_databases env (concat (render <$> opts) ++ rest) s in
  (∀ argument, argument ≠ "--memory"%string → rest = [argument] → run = (Throws usage, s)) ∧
  (∀ argument more, argument ∉ ["--memory"; "--port"; "--host"]%string → rest = argument :: more → run = (Throws usage, s)) ∧
  (∀ value more e, stoul "stoul" value = Throws e → rest = "--port"%string :: value :: more → run = (Throws e, s)) ∧
  (rest = [] → MemoryOption ∈ opts →
     run = (Returns (InMemory, (foldl apply_option (false, default_server_config) opts).2), s)) ∧
  (rest = [] → MemoryOption ∉ opts → has_databases = false →
     run = (Throws (invalid_argument "this build has no database adapters; use --memory"), s)) ∧
  (rest = [] → MemoryOption ∉ opts → has_databases = true →
     env "MMO_MYSQL_PORT"%string = None → env "MMO_MYSQL_DATABASE"%string = None →
     run = (Throws (invalid_argument "set MMO_MYSQL_USER and MMO_MYSQL_DATABASE, or use --memory"), s)).
Proof.
  intros Hopts run. unfold run, server_setup.
  pose proof (parse_options opts rest (false, default_server_config) Hopts) as Hp. cbn [fst snd] in Hp. rewrite Hp.
  pose proof (memory_chosen opts (false, default_server_config)) as Hm.
  destruct (foldl apply_option (false, default_server_config) opts) as [b c] eqn:Ef. cbn [fst snd] in *.
  assert (MemoryOption ∉ opts → b = false) as Hb.
  { intros Hn. apply not_true_iff_false. rewrite Hm. naive_solver. }
  split; [|split; [|split; [|split; [|split]]]].
  - intros a Ha ->. cbn [parse_arguments]. by rewrite decide_False.
  - intros a more Ha ->. cbn [parse_arguments]. rewrite decide_False by set_solver. destruct more as [|v more]; [done|].
    by rewrite !decide_False by set_solver.
  - intros v more e E ->. cbn [parse_arguments]. rewrite decide_False, decide_True by done. by rewrite E.
  - intros -> Hin. destruct Hm as [_ Hm]. rewrite Hm by by right. done.
  - intros -> Hn%Hb ->. by subst b.
  - intros -> Hn%Hb -> Hport Hdb. subst b. unfold open_databases, Environment. rewrite Hport, Hdb. cbn.
    by rewrite orb_true_r.
Qed.

(** As long as [Run] returns, a signal at any moment finds the server alive or no server;
    the server itself has its outcome. But after an exception of [Run], a failing
    [accept4] for one, the pointer is left set: a signal after the server's destruction
    calls [Stop] on a destroyed object. *)
Theorem signal_handler_pointer constructed run n :
  let s := Nat.iter n (main_next constructed run) main_start in
  (∀ r, point s = AtEnd r → r = (_ ← constructed; run)) ∧
  (run = Returns tt → HandleSignal s ≠ Some false) ∧
  (∀ e, constructed = Returns tt → run = Throws e → (5 <= n)%nat → handled s = true ∧ HandleSignal s = Some false).
Proof.
  assert (∀ m s, (∃ r, point s = AtEnd r) → Nat.iter m (main_next constructed run) s = s) as Hend.
  { intros m [p h g a] [r E]. cbn in E. subst p. induction m as [|m IH]; [done|]. by rewrite Nat.iter_succ, IH. }
  assert (n = 0 ∨ n = 1 ∨ n = 2 ∨ n = 3 ∨ n = 4 ∨ n = 5 ∨ ∃ m, n = m + 6)%nat as Hn.
  { do 6 (destruct n as [|n]; [tauto|]). do 6 right. exists n. lia. }
  destruct constructed as [[]|e1], run as [[]|e2].
  all: destruct Hn as [->|[->|[->|[->|[->|[->|[m ->]]]]]]].
  all: try rewrite Nat.iter_add, Hend by (eexists; reflexivity).
  all: cbn; naive_solver lia.
Qed.

Lemma EnsureSchema_spec `{MySqlLaws Q} config (q : Q) :
  sp (EnsureSchema config) (λ r q', handles q' = handles q ∧ rows q' = rows q) q.
Proof.
  unfold EnsureSchema. destruct (str_empty _); [done|].
  apply (with_connection_spec config _ _ (λ _ r, r = rows q)); [done|].
  intros c q1 Hq1. apply sp_bind, sp_api. pose proof (query_law q1 c kCreateTable) as [Hh Hr].
  destruct (mysql_query q1 c kCreateTable) as [ok q2]. cbn [snd] in *.
  specialize (Hr eq_refl). rewrite Hq1 in Hr. by destruct ok.
Qed.

(** A server set up with databases has prepared its schema: when the setup chooses
    the databases, the configuration they get is the one of the environment, with its
    defaults, a user and a database that are not empty and a port of 32 bits, the
    client library is initialized, no handle of it was left open and the table is what
    it was. *)
Theorem server_setup_databases `{MySqlLaws Q} env argv (i : bool) (q : Q) mysql redis config i' q' :
  server_setup true env argv (i, q) = (Returns (Databases mysql redis, config), (i', q')) →
  mysql_user mysql = default EmptyString (env "MMO_MYSQL_USER"%string) ∧ mysql_user mysql ≠ EmptyString ∧
  mysql_database mysql = default EmptyString (env "MMO_MYSQL_DATABASE"%string) ∧ mysql_database mysql ≠ EmptyString ∧
  mysql_host mysql = default "127.0.0.1"%string (env "MMO_MYSQL_HOST"%string) ∧ is_u32 (mysql_port mysql) ∧
  redis_host redis = default "127.0.0.1"%string (env "MMO_REDIS_HOST"%string) ∧
  key_prefix redis = "mmo:session:"%string ∧ i' = true ∧ rows q' = rows q ∧ handles q' = handles q.
Proof.
  unfold server_setup, open_databases, Environment. set (host := default _ (env "MMO_MYSQL_HOST"%string)).
  destruct (parse_arguments _ _ _) as [[[] c]|e]; [done| |done].
  unfold lift_outcome, mbind, M_bind. destruct (stoul _ _) as [[n pos]|e] eqn:Ep; [|done]. cbn [fst].
  set (my := {| mysql_host := host |}). destruct (_ || _) eqn:Eempty; [done|].
  assert (str_empty (mysql_user my) = false ∧ str_empty (mysql_database my) = false) as [E1 E2] by (by apply orb_false_iff).
  unfold EnsureMySqlLibraryInitialized.
  destruct (if i then _ else _) as [[[]|e] [i1 q1]] eqn:Ei; [|done].
  assert (i1 = true ∧ rows q1 = rows q ∧ handles q1 = handles q) as (-> & Hr1 & Hh1).
  { destruct i; [by injection Ei as <- <-|]. pose proof (library_init_law q) as [Hh Hr].
    destruct (mysql_library_init q) as [[] q2]; cbn in Ei, Hh, Hr; [|done]. injection Ei as <- <-. done. }
  unfold on_database. pose proof (EnsureSchema_spec my q1) as Hs. unfold sp in Hs.
  destruct (EnsureSchema my q1) as [schema q2]. cbn in Hs. destruct Hs as [Hh2 Hr2].
  destruct (negb (op_Ok schema)); [done|]. destruct (stoi _) as [rp|e]; [|done].
  intros [= <- <- _ <- <-]. unfold my. cbn [mysql_user mysql_database mysql_host mysql_port redis_host key_prefix redis_defaults].
  unfold str_empty, my in E1, E2. apply bool_decide_eq_false in E1, E2. cbn in E1, E2.
  repeat split; try done; try congruence; apply Z.mod_pos_bound; done.
Qed.

(** ** Witnesses *)

Lemma signal_handler_pointer_witness :
  HandleSignal (Nat.iter 6 (main_next (Returns tt) (Throws (system_error "accept4 failed"))) main_start) = Some false.
Proof.
  destruct (signal_handler_pointer (Returns tt) (Throws (system_error "accept4 failed")) 6) as (_ & _ & H).
  apply (H (system_error "accept4 failed")); [reflexivity|reflexivity|lia].
Defined.

Lemma command_line_roundtrip_witness :
  parse_arguments ["--memory"; "--host"; "0.0.0.0"; "--port"; "70000"]%string false default_server_config
    = Returns (true, set_port 4464 (set_host "0.0.0.0" default_server_config)).
Proof.
  destruct (command_line_roundtrip [MemoryOption; HostOption "0.0.0.0"; PortOption 70000]) as [H _].
  - repeat constructor; cbn; lia.
  - exact H.
Defined.

Lemma server_setup_errors_witness :
  (server_setup (Q := SimMySql) true (λ _, None) ["--host"; "0.0.0.0"; "--port"; "many"]%string
     (false, sim_with [] [])).1 = Throws (invalid_argument "stoul").
Proof.
  destruct (server_setup_errors (Q := SimMySql) true (λ _, None) [HostOption "0.0.0.0"] ["--port"; "many"]%string
    (false, sim_with [] [])) as (_ & _ & H & _).
  - by repeat constructor.
  - exact (f_equal fst (H "many"%string [] (invalid_argument "stoul") eq_refl eq_refl)).
Defined.

Definition example_env (name : string) : option string :=
  if decide (name = "MMO_MYSQL_USER"%string) then Some "mmo"%string
  else if decide (name = "MMO_MYSQL_DATABASE"%string) then Some "world"%string
  else if decide (name = "MMO_REDIS_PORT"%string) then Some "6380"%string else None.

Lemma server_setup_databases_witness :
  ∃ mysql redis config s', server_setup (Q := SimMySql) true example_env [] (false, sim_with [player_row 7 "ada"] [])
      = (Returns (Databases mysql redis, config), s') ∧
    mysql_user mysql = "mmo"%string ∧ rows s'.2 = [player_row 7 "ada"].
Proof.
  eexists _, _, _, (_, _). split; [vm_compute; reflexivity|].
  destruct (server_setup_databases (Q := SimMySql) example_env [] false (sim_with [player_row 7 "ada"] [])
    {| mysql_host := "127.0.0.1"; mysql_port := 3306; mysql_user := "mmo"; mysql_password := EmptyString;
       mysql_database := "world"; connect_timeout_seconds := 3 |}
    {| redis_host := "127.0.0.1"; redis_port := 6380; key_prefix := "mmo:session:"; connect_timeout := 1000 |}
    default_server_config true
    (server_setup (Q := SimMySql) true example_env [] (false, sim_with [player_row 7 "ada"] [])).2.2)
    as (H & _ & _ & _ & _ & _ & _ & _ & _ & Hr & _).
  - vm_compute. reflexivity.
  - split; [exact H|exact Hr].
Defined.
