(* ===== verification/Bench.v ===== *)
(** * The benchmark program

    [tools/mmo_bench.cpp]: its options, its JSON escaping and the protocol benchmark,
    which checks itself. The readings of the clock around it, and the rates computed from
    them, are in [BenchAoi] and [BenchReport].
    The random chunk sizes come from a distribution of the standard library whose
    algorithm is the implementation's: a parameter ([UniformInt]). *)

From Stdlib Require Import Strings.Byte.
From stdpp Require Import pretty.
From S2P Require Import Prelude Numbers FrameCodec FrameStream Mt19937.

(** ** Options *)

Record Options := mkOptions {
  opt_players : Z;
  moves_per_player : Z;
  repetitions : Z;
  payload_bytes : Z;
  distribution : string;
  seed : Z;
  output_path : string
}.

Definition default_options : Options :=
  {| opt_players := 1000; moves_per_player := 20; repetitions := 3; payload_bytes := 32;
     distribution := "uniform"; seed := 20260902; output_path := EmptyString |}.

Definition ParseSize (value name : string) : Outcome Z :=
  '(parsed, consumed) ← stoul "stoull" value;
  if negb (consumed =? Z.of_nat (String.length value)) || (parsed =? 0) || (SIZE_MAX <? parsed) then
    Throws (invalid_argument ("invalid " +:+ name))
  else Returns parsed.

Definition ParseSeed (value : string) : Outcome Z :=
  '(parsed, consumed) ← stoul "stoull" value;
  if negb (consumed =? Z.of_nat (String.length value)) then Throws (invalid_argument "invalid seed")
  else Returns parsed.

Definition set_option (o : Options) (argument value : string) : Outcome Options :=
  let put players moves reps bytes dist s path :=
    Returns {| opt_players := players; moves_per_player := moves; repetitions := reps; payload_bytes := bytes;
               distribution := dist; seed := s; output_path := path |} in
  let '(mkOptions players moves reps bytes dist s path) := o in
  if decide (argument = "--players"%string) then
    n ← ParseSize value "player count"; put n moves reps bytes dist s path
  else if decide (argument = "--moves-per-player"%string) then
    n ← ParseSize value "move count"; put players n reps bytes dist s path
  else if decide (argument = "--repetitions"%string) then
    n ← ParseSize value "repetition count"; put players moves n bytes dist s path
  else if decide (argument = "--payload-bytes"%string) then
    n ← ParseSize value "payload size"; put players moves reps n dist s path
  else if decide (argument = "--distribution"%string) then put players moves reps bytes value s path
  else if decide (argument = "--seed"%string) then
    n ← ParseSeed value; put players moves reps bytes dist n path
  else if decide (argument = "--output"%string) then put players moves reps bytes dist s value
  else Throws (invalid_argument ("unknown option: " +:+ argument)).

(** The loop over the arguments; nothing when [--help] ends the program. *)
Fixpoint parse_options_loop (argv : list string) (o : Options) : Outcome (option Options) :=
  match argv with
  | [] => Returns (Some o)
  | argument :: rest =>
      if decide (argument = "--help"%string) then Returns None
      else
        match rest with
        | [] => Throws (invalid_argument ("missing value for " +:+ argument))
        | value :: rest => o ← set_option o argument value; parse_options_loop rest o
        end
  end.

Definition ParseOptions (argv : list string) : Outcome (option Options) :=
  parsed ← parse_options_loop argv default_options;
  match parsed with
  | None => Returns None
  | Some o =>
      if opt_players o <? 2 then Throws (invalid_argument "at least two players are required")
      else if negb (bool_decide (distribution o = "uniform"%string))
              && negb (bool_decide (distribution o = "hotspot"%string)) then
        Throws (invalid_argument "distribution must be uniform or hotspot")
      else if kDefaultMaxPayloadSize <? payload_bytes o then
        Throws (invalid_argument "payload exceeds protocol maximum")
      else Returns (Some o)
  end.

(** ** JSON *)

Definition backslash : ascii := "\"%char.
Definition quote : ascii := Ascii.ascii_of_nat 34.

Definition escape_char (c : ascii) : list ascii :=
  if decide (c = backslash) then [backslash; backslash]
  else if decide (c = quote) then [backslash; quote]
  else if decide (c = Ascii.ascii_of_nat 10) then [backslash; "n"%char]
  else if decide (c = Ascii.ascii_of_nat 13) then [backslash; "r"%char]
  else if decide (c = Ascii.ascii_of_nat 9) then [backslash; "t"%char]
  else [c].

Definition JsonEscape (input : list ascii) : list ascii := concat (escape_char <$> input).

(** ** The protocol benchmark *)

(** [std::uniform_int_distribution<std::size_t>(lo, hi)] on the engine. *)
Class UniformInt := {
  uniform_int : Z → Z → Mt19937 → Z * Mt19937;
  uniform_int_range lo hi g : lo <= hi → lo <= (uniform_int lo hi g).1 <= hi
}.

Section protocol.
Context `{UniformInt}.

(** The encoding loop: [index] counts up to [frames]. *)
Fixpoint encode_loop (n : nat) (index : Z) (payload wire : list byte) : Outcome (list byte) :=
  match n with
  | O => Returns wire
  | S n =>
      let payload := <[Z.to_nat (index mod size_of payload) := byte_of_Z (Z.land index 0xff)]> payload in
      encoded ← EncodeFrame kMoveRequest payload kDefaultMaxPayloadSize;
      encode_loop n (index + 1) payload (wire ++ encoded)
  end.

(** The decoding loop over what is left of [wire]; each round takes at least a byte. *)
Fixpoint decode_loop (fuel : nat) (rest : list byte) (g : Mt19937) (decoder : FrameDecoder) (decoded : Z)
    : Outcome (Z * FrameDecoder) :=
  match fuel, rest with
  | _, [] => Returns (decoded, decoder)
  | O, _ => Returns (decoded, decoder)
  | S fuel, _ =>
      let '(chunk, g) := uniform_int 1 256 g in
      let size := Z.to_nat (Z.min chunk (size_of rest)) in
      decoder ← Append decoder (take size rest);
      let '(frames, status, decoder) := DrainFrames decoder in
      if decide (status = kNeedMoreData) then
        decode_loop fuel (drop size rest) g decoder (decoded + size_of frames)
      else Throws (runtime_error "protocol decoder failed during benchmark")
  end.

(** [RunProtocolBenchmark], up to its measurements: [frames] and [bytes]. A [reserve]
    beyond [max_size()] throws. *)
Definition RunProtocolBenchmark (o : Options) : Outcome (Z * Z) :=
  let frames := u64 (u64 (opt_players o * moves_per_player o) * repetitions o) in
  if 2 ^ 63 - 1 <? u64 (frames * (kFrameHeaderSize + payload_bytes o)) then Throws (length_error "vector::reserve")
  else
    wire ← encode_loop (Z.to_nat frames) 0 (replicate (Z.to_nat (payload_bytes o)) x5a) [];
    decoder ← FrameDecoder_new kDefaultMaxPayloadSize;
    '(decoded, decoder) ← decode_loop (length wire) wire (mt_seed (seed o)) decoder 0;
    if negb (decoded =? frames) || negb (Z.of_nat (BufferedBytes decoder) =? 0) then
      Throws (runtime_error "decoded frame count does not match input")
    else Returns (frames, size_of wire).
End protocol.

(** ** Facts *)

Section facts.
Context `{UniformInt}.

(** The encoding loop appends [n] frames the decoder accepts. *)
Lemma encode_loop_spec n index p wire :
  size_of p <= kDefaultMaxPayloadSize →
  ∃ fs, length fs = n ∧ Forall (encodable kDefaultMaxPayloadSize) fs ∧
    encode_loop n index p wire = Returns (wire ++ concat (frame_wire <$> fs)) ∧
    size_of (concat (frame_wire <$> fs)) = Z.of_nat n * (kFrameHeaderSize + size_of p).
Proof.
  revert index p wire. induction n as [|n IH]; intros index p wire Hp.
  { exists []. split; [done|]. split; [done|]. split; [cbn; by rewrite app_nil_r|done]. }
  cbn [encode_loop]. set (p1 := <[_ := _]> p).
  assert (size_of p1 = size_of p) as Hs by (unfold size_of, p1; by rewrite length_insert).
  assert (size_of p1 <= UINT32_MAX) as Hu by (unfold kDefaultMaxPayloadSize, UINT32_MAX in *; lia).
  set (f := {| message_id := message_id_of kMoveRequest; payload := p1 |}).
  assert (EncodeFrame kMoveRequest p1 kDefaultMaxPayloadSize = Returns (frame_wire f)) as ->.
  { apply EncodeFrame_Returns. split; [lia|done]. }
  cbn [mbind Outcome_bind].
  destruct (IH (index + 1) p1 (wire ++ frame_wire f) ltac:(lia)) as (fs & Hl & Hf & -> & Hsz). exists (f :: fs).
  split; [by cbn; rewrite Hl|]. split; [constructor; [|done]; split; [done|]; split; cbn; lia|].
  split; [by cbn [fmap list_fmap concat]; rewrite <- app_assoc|].
  cbn [fmap list_fmap concat]. unfold size_of in *. rewrite length_app, Nat2Z.inj_add, Hsz.
  pose proof (size_frame_wire f) as Hw. unfold size_of in Hw. rewrite Hw. cbn [payload f]. unfold f. cbn. lia.
Qed.

(** The decoding loop, however the bytes are cut into chunks. *)
Lemma decode_loop_spec fuel rest g d decoded fs max :
  DecoderInv d → (length rest <= fuel)%nat →
  drain_all (stream_of d) = ([], stream_of d) →
  drain_all (stream_append (stream_of d) rest) = (fs, {| limit := max; pending := []; failure := None |}) →
  ∃ d', decode_loop fuel rest g d decoded = Returns (decoded + size_of fs, d') ∧ BufferedBytes d' = 0%nat.
Proof.
  revert rest g d decoded fs. induction fuel as [|fuel IH]; intros rest g d decoded fs Hd Hfuel Hnone Hall.
  all: destruct rest as [|b rest'];
    [assert (stream_append (stream_of d) [] = stream_of d) as E
       by (unfold stream_append; rewrite app_nil_r; by destruct (stream_of d));
     rewrite E, Hnone in Hall; injection Hall as <- _ Eu _; exists d; split;
     [cbn; by rewrite Z.add_0_r|by rewrite BufferedBytes_unread, Eu]|].
  { cbn in Hfuel. lia. }
  set (rest := b :: rest') in *. cbn [decode_loop]. fold rest.
  pose proof (uniform_int_range 1 256 g ltac:(lia)) as Hu. destruct (uniform_int 1 256 g) as [chunk g']. cbn [fst] in Hu.
  set (n := Z.to_nat (Z.min chunk (size_of rest))).
  assert (0 < n <= length rest)%nat as Hn by (unfold n, size_of, rest; cbn [length]; lia).
  destruct (Append d (take n rest)) as [d1|e] eqn:E1; [|by rewrite Append_returns in E1].
  destruct (Append_refines d _ d1 Hd E1) as [Hd1 Hs1]. cbn [mbind Outcome_bind].
  pose proof (DrainFrames_refines d1 Hd1) as H2. destruct (DrainFrames d1) as [[fs1 st] d2] eqn:Ed.
  destruct H2 as [Hd2 Hs2]. rewrite Hs1 in Hs2.
  assert (stream_append (stream_of d) rest = stream_append (stream_append (stream_of d) (take n rest)) (drop n rest))
    as Esplit by (unfold stream_append; cbn [limit pending failure]; by rewrite <- app_assoc, take_drop).
  rewrite Esplit, drain_all_append, Hs2 in Hall.
  destruct (drain_all (stream_append (stream_of d2) (drop n rest))) as [fs2 s2] eqn:Ed2. injection Hall as <- ->.
  assert (¬ stream_failed (stream_of d2)) as Hnf.
  { intros Hf. apply (stream_failed_append _ (drop n rest)) in Hf. unfold stream_failed in Hf. rewrite Ed2 in Hf. by destruct Hf. }
  assert (failed_ d2 = false) as Hf2.
  { destruct (failed_ d2) eqn:Ef; [|done]. destruct Hnf. unfold stream_failed.
    rewrite drain_all_failed; unfold stream_of; cbn; by rewrite Ef. }
  rewrite decide_True by by apply (DrainFrames_status _ _ _ _ Hd1 Ed).
  destruct (IH (drop n rest) g' d2 (decoded + size_of fs1) fs2) as (d' & E & Hb); [done| | |done|].
  - rewrite length_drop. lia.
  - by eapply drain_all_idem.
  - exists d'. split; [|done]. rewrite E. f_equal. f_equal. unfold size_of. rewrite length_app. lia.
Qed.
End facts.

(** What every accepted command line gives. *)
Record OptionsOk (o : Options) : Prop := {
  oo_players : 2 <= opt_players o < 2 ^ 64;
  oo_moves : 1 <= moves_per_player o < 2 ^ 64;
  oo_repetitions : 1 <= repetitions o < 2 ^ 64;
  oo_payload : 1 <= payload_bytes o <= kDefaultMaxPayloadSize;
  oo_distribution : distribution o = "uniform"%string ∨ distribution o = "hotspot"%string;
  oo_seed : is_u64 (seed o)
}.

Lemma scan_digits_nonneg acc n s : 0 <= acc → 0 <= (scan_digits acc n s).1.
Proof.
  revert acc n. induction s as [|c s IH]; intros acc n Ha; [done|]. cbn [scan_digits].
  destruct (digit c) as [d|] eqn:E; [|done]. apply IH. unfold digit in E. destruct (_ && _) eqn:E2; [|done].
  injection E as <-. bool_lia.
Qed.

Lemma stoul_range name s n pos : stoul name s = Returns (n, pos) → is_u64 n.
Proof.
  unfold stoul, scan_number. destruct (skip_space s 0) as [s1 n1]. destruct (scan_sign s1 n1) as [[minus s2] n2].
  pose proof (scan_digits_nonneg 0 n2 s2 ltac:(done)) as Hv. destruct (scan_digits 0 n2 s2) as [v n3]. cbn in Hv.
  destruct (n3 =? n2); [done|]. destruct (SIZE_MAX <? v) eqn:E; [done|]. apply Z.ltb_ge in E. unfold SIZE_MAX in E.
  destruct minus; intros [= <- <-]; [apply u64_range|unfold is_u64; lia].
Qed.

Lemma ParseSize_range value name n : ParseSize value name = Returns n → 1 <= n < 2 ^ 64.
Proof.
  unfold ParseSize. destruct (stoul "stoull" value) as [[v pos]|e] eqn:E; [|done]. cbn.
  apply stoul_range in E. unfold is_u64 in E. destruct (_ || _) eqn:E2; [done|]. intros [= <-]. bool_lia.
Qed.

Lemma ParseSeed_range value n : ParseSeed value = Returns n → is_u64 n.
Proof.
  unfold ParseSeed. destruct (stoul "stoull" value) as [[v pos]|e] eqn:E; [|done]. cbn.
  apply stoul_range in E. destruct (negb _); [done|]. by intros [= <-].
Qed.

(** The numbers in range; the other options are looked at after the loop. *)
Definition numbers_ok (o : Options) : Prop :=
  1 <= opt_players o < 2 ^ 64 ∧ 1 <= moves_per_player o < 2 ^ 64 ∧ 1 <= repetitions o < 2 ^ 64 ∧
  1 <= payload_bytes o < 2 ^ 64 ∧ is_u64 (seed o).

Lemma set_option_ok o argument value o' :
  numbers_ok o → set_option o argument value = Returns o' → numbers_ok o'.
Proof.
  destruct o as [players moves reps bytes dist s path]. unfold numbers_ok, set_option. cbn.
  intros (H1 & H2 & H3 & H4 & H5).
  repeat case_decide; try done;
    try (destruct (ParseSize _ _) as [n|e] eqn:E; [|done]; apply ParseSize_range in E);
    try (destruct (ParseSeed _) as [n|e] eqn:E; [|done]; apply ParseSeed_range in E);
    cbn; intros [= <-]; cbn; auto.
Qed.

Lemma parse_options_loop_ok argv o o' :
  numbers_ok o → parse_options_loop argv o = Returns (Some o') → numbers_ok o'.
Proof.
  remember (length argv) as n eqn:Hn. revert argv Hn o. induction (lt_wf n) as [n _ IH]; intros argv Hn o Ho.
  destruct argv as [|argument rest]; cbn [parse_options_loop]; [by intros [= <-]|].
  destruct (decide (argument = _)); [done|]. destruct rest as [|value rest]; [done|].
  destruct (set_option o argument value) as [o1|e] eqn:E; [|done]. cbn.
  apply (IH (length rest)); [subst n; cbn; lia|done|]. by eapply set_option_ok.
Qed.

Lemma ParseOptions_ok argv o : ParseOptions argv = Returns (Some o) → OptionsOk o.
Proof.
  unfold ParseOptions. destruct (parse_options_loop argv default_options) as [[o1|]|e] eqn:E; [|done..]. cbn.
  apply parse_options_loop_ok in E; [|by repeat split]. destruct E as (H1 & H2 & H3 & H4 & H5).
  destruct (opt_players o1 <? 2) eqn:E1; [done|]. destruct (_ && _) eqn:E2; [done|].
  destruct (_ <? payload_bytes o1) eqn:E3; [done|]. intros [= <-]. apply Z.ltb_ge in E1, E3.
  split; try done; try lia. destruct (bool_decide (distribution o1 = "uniform"%string)) eqn:D1.
  - left. by apply bool_decide_eq_true in D1.
  - destruct (bool_decide (distribution o1 = "hotspot"%string)) eqn:D2; [|done].
    right. by apply bool_decide_eq_true in D2.
Qed.

(** *** Reading a JSON string *)

(** The characters of a string up to its closing quote, as the JSON grammar has them,
    with the escapes the program writes; control characters are refused. *)
Definition unescape (c : ascii) : option ascii :=
  if decide (c = backslash) then Some backslash
  else if decide (c = quote) then Some quote
  else if decide (c = "n"%char) then Some (Ascii.ascii_of_nat 10)
  else if decide (c = "r"%char) then Some (Ascii.ascii_of_nat 13)
  else if decide (c = "t"%char) then Some (Ascii.ascii_of_nat 9)
  else None.

Fixpoint json_string (text : list ascii) : option (list ascii * list ascii) :=
  match text with
  | [] => None
  | c :: text =>
      if decide (c = quote) then Some ([], text)
      else if decide (c = backslash) then
        match text with
        | [] => None
        | e :: text =>
            match unescape e, json_string text with
            | Some c, Some (s, rest) => Some (c :: s, rest)
            | _, _ => None
            end
        end
      else if (Ascii.nat_of_ascii c <? 32)%nat then None
      else
        match json_string text with
        | Some (s, rest) => Some (c :: s, rest)
        | None => None
        end
  end.

(** The control characters that [JsonEscape] has no escape for. *)
Definition unescaped_control (c : ascii) : bool :=
  (Ascii.nat_of_ascii c <? 32)%nat && negb (existsb (Nat.eqb (Ascii.nat_of_ascii c)) [9; 10; 13]%nat).

Lemma json_string_char c rest :
  json_string (escape_char c ++ rest) =
  if unescaped_control c then None
  else match json_string rest with Some (s, r) => Some (c :: s, r) | None => None end.
Proof.
  destruct c as [[] [] [] [] [] [] [] []]; vm_compute (unescaped_control _); vm_compute (escape_char _);
    cbn [app json_string]; try reflexivity; by destruct (json_string rest) as [[s r]|].
Qed.

(** ** Properties *)

(** C40: Every command line the benchmark accepts gives well-formed options: at least two
    players, positive counts of 64 bits, a payload that is not empty and within the
    protocol's maximum, one of the two distributions and a 64-bit seed. *)
Theorem parse_options_well_formed argv o :
  ParseOptions argv = Returns (Some o) →
  2 <= opt_players o < 2 ^ 64 ∧ 1 <= moves_per_player o < 2 ^ 64 ∧ 1 <= repetitions o < 2 ^ 64 ∧
  1 <= payload_bytes o <= kDefaultMaxPayloadSize ∧
  (distribution o = "uniform"%string ∨ distribution o = "hotspot"%string) ∧ is_u64 (seed o).
Proof. intros H%ParseOptions_ok. by destruct H. Qed.

(** The protocol benchmark passes its own checks: with any accepted options whose
    stream can be reserved, whatever the chunk sizes drawn, the decoder gives back every
    frame that was encoded, keeps no byte, and the stream is the frames' size. *)
Theorem protocol_benchmark_passes `{UniformInt} argv o :
  ParseOptions argv = Returns (Some o) →
  let frames := u64 (u64 (opt_players o * moves_per_player o) * repetitions o) in
  frames * (kFrameHeaderSize + payload_bytes o) < 2 ^ 63 →
  RunProtocolBenchmark o = Returns (frames, frames * (kFrameHeaderSize + payload_bytes o)).
Proof.
  intros [_ _ _ Hb _ _]%ParseOptions_ok frames Hsize. unfold RunProtocolBenchmark. fold frames.
  pose proof (u64_range (u64 (opt_players o * moves_per_player o) * repetitions o)) as Hf. fold frames in Hf. unfold is_u64 in Hf.
  change kFrameHeaderSize with 8 in *.
  rewrite u64_small by (unfold is_u64; lia). rewrite (proj2 (Z.ltb_ge _ _)) by lia.
  set (p := replicate (Z.to_nat (payload_bytes o)) x5a).
  assert (size_of p = payload_bytes o) as Hp by (unfold size_of, p; rewrite length_replicate; lia).
  destruct (encode_loop_spec (Z.to_nat frames) 0 p [] ltac:(lia)) as (fs & Hl & Henc & -> & Hsz).
  rewrite Hp in Hsz. cbn [mbind Outcome_bind app]. destruct (FrameDecoder_new kDefaultMaxPayloadSize) as [d|e] eqn:Ed; [|done].
  cbn [mbind Outcome_bind]. destruct (new_decoder_inv _ _ Ed) as [Hd Hs].
  pose proof (drain_all_wire kDefaultMaxPayloadSize fs [] Henc) as Hw. rewrite app_nil_r, drain_all_nil, app_nil_r in Hw.
  set (wire := concat (frame_wire <$> fs)) in *.
  destruct (decode_loop_spec (length wire) wire (mt_seed (seed o)) d 0 fs kDefaultMaxPayloadSize Hd ltac:(lia))
    as (d' & -> & Hb').
  - by rewrite Hs.
  - rewrite Hs. exact Hw.
  - cbn [mbind Outcome_bind]. rewrite Hb', Hsz. unfold size_of. rewrite Hl, Z2Nat.id by lia. rewrite Z.add_0_l, Z.eqb_refl. cbn.
    done.
Qed.

(** What [JsonEscape] writes between quotes is read back as a JSON string with
    exactly the input, whatever follows it, so that no input ends the string early;
    except that a control character other than tab, line feed and carriage return is
    copied as it is, which makes the string no JSON. *)
Theorem json_escape_roundtrip input rest :
  json_string (JsonEscape input ++ quote :: rest) =
  if existsb unescaped_control input then None else Some (input, rest).
Proof.
  unfold JsonEscape. induction input as [|c input IH]; [done|].
  cbn [fmap list_fmap concat existsb]. rewrite <- app_assoc, json_string_char, IH.
  destruct (unescaped_control c); [done|]. by destruct (existsb unescaped_control input).
Qed.

(** ** Witnesses *)

(** A distribution that always gives its upper bound. *)
Definition uniform_hi (lo hi : Z) (g : Mt19937) : Z * Mt19937 := (hi, (mt_next g).2).
Lemma uniform_hi_range lo hi g : lo <= hi → lo <= (uniform_hi lo hi g).1 <= hi.
Proof. cbn. lia. Qed.
Definition hi_uniform : UniformInt := {| uniform_int := uniform_hi; uniform_int_range := uniform_hi_range |}.

Definition bench_args : list string :=
  ["--players"; "3"; "--moves-per-player"; "2"; "--repetitions"; "1"; "--payload-bytes"; "5"]%string.

Definition bench_options : Options :=
  {| opt_players := 3; moves_per_player := 2; repetitions := 1; payload_bytes := 5; distribution := "uniform";
     seed := 20260902; output_path := EmptyString |}.

Lemma bench_options_parsed : ParseOptions bench_args = Returns (Some bench_options).
Proof. vm_compute. reflexivity. Qed.

Lemma parse_options_well_formed_witness : 1 <= payload_bytes bench_options <= kDefaultMaxPayloadSize.
Proof. exact (proj1 (proj2 (proj2 (proj2 (parse_options_well_formed bench_args _ bench_options_parsed))))). Defined.

Lemma protocol_benchmark_passes_witness : @RunProtocolBenchmark hi_uniform bench_options = Returns (6, 78).
Proof. exact (@protocol_benchmark_passes hi_uniform bench_args _ bench_options_parsed eq_refl). Defined.
