(* ===== verification/BenchAoi.v ===== *)
(** * The AOI benchmark

    [RunAoiBenchmark] of [tools/mmo_bench.cpp], with its percentiles and metrics. The
    random positions come from [std::uniform_real_distribution], whose algorithm is the
    library's: a parameter of which only the range is used ([UniformReal]); the wall
    clock and [std::clock] are the parameter [BenchClock]. *)

From Stdlib Require Import SpecFloat.
From stdpp Require Import sorting.
From S2P Require Import Prelude Double DoubleExact Streams AoiWorld GridCells Mt19937 Bench.

(** ** Parameters *)

(** [std::uniform_real_distribution<double>(lo, hi)] on the engine. *)
Class UniformReal := {
  uniform_real : double → double → Mt19937 → double * Mt19937;
  uniform_real_range lo hi g : is_double lo → is_double hi → dlt lo hi = true →
    let d := (uniform_real lo hi g).1 in is_double d ∧ dge d lo = true ∧ dge hi d = true
}.

(** [steady_clock::now()] in nanoseconds and [std::clock()] in ticks. *)
Class BenchClock (C : Type) := { bench_now : C → Z * C; cpu_clock : C → Z * C }.

(** ** Arithmetic *)

Definition dmul (x y : double) : double := SFmul prec emax x y.

(** [std::ceil] *)
Definition dceil (d : double) : double :=
  match d with
  | S754_finite s m e =>
      if e <? 0 then
        let z := - ((if s then Z.pos m else Z.neg m) / 2 ^ (- e)) in
        if z =? 0 then S754_zero s else double_of z
      else d
  | _ => d
  end.

(** [std::max(minimum, std::min(value, maximum))] *)
Definition Clamp (value minimum maximum : double) : double :=
  let m := if dlt maximum value then maximum else value in
  if dlt minimum m then m else minimum.

Section bench.
Context `{Platform} `{UniformReal} {C : Type} `{BenchClock C}.

Definition Percentile (samples : list double) (percentile : double) : double :=
  match samples with
  | [] => dzero
  | _ =>
      let samples := merge_sort (λ x y, Is_true (dge y x)) samples in
      let rank := dmul percentile (double_of (size_of samples)) in
      let index := u64 (to_size_t (dceil rank) - 1) in
      nth (Z.to_nat (Z.min index (size_of samples - 1))) samples dzero
  end.

Definition CpuMilliseconds : M C double := λ ck,
  let '(ticks, ck) := cpu_clock ck in
  (Returns (ddiv (dmul (double_of 1000) (double_of ticks)) (double_of 1000000)), ck).

Definition now_ : M C Z := λ ck, let '(t, ck) := bench_now ck in (Returns t, ck).

(** A duration in nanoseconds as [duration<double, std::milli>] and [std::micro]. *)
Definition Milliseconds (ns : Z) : double := ddiv (double_of ns) (double_of 1000000).
Definition Microseconds (ns : Z) : double := ddiv (double_of ns) (double_of 1000).

(** ** The benchmark *)

Definition kMapWidth : double := double_of 1000.
Definition kMapHeight : double := double_of 2000.
Definition kHotspotMinX : double := double_of 400.
Definition kHotspotMaxX : double := double_of 600.
Definition kHotspotMinY : double := double_of 800.
Definition kHotspotMaxY : double := double_of 1200.
Definition kMoveRadius : double := double_of 75.
Definition kInsideMaximumOffset : double := round_decimal false 1 (-6).

(** The players of a repetition: where they are, and which stay in the hotspot. *)
Record Crowd := mkCrowd {
  cr_world : AoiWorld;
  cr_random : Mt19937;
  cr_positions : list Position;
  cr_hotspot : list bool
}.

Definition draw (lo hi : double) (g : Mt19937) : double * Mt19937 := uniform_real lo hi g.

(** One player's start: whether it is a hotspot player, and its position. *)
Definition start_position (o : Options) (g : Mt19937) : bool * Position * Mt19937 :=
  let '(use_hotspot, g) :=
    if decide (distribution o = "hotspot"%string) then
      let '(p, g) := draw dzero (double_of 1) g in (dlt p (round_decimal false 8 (-1)), g)
    else (false, g) in
  if use_hotspot : bool then
    let '(x, g) := draw kHotspotMinX (dsub kHotspotMaxX kInsideMaximumOffset) g in
    let '(y, g) := draw kHotspotMinY (dsub kHotspotMaxY kInsideMaximumOffset) g in
    (use_hotspot, {| pos_x := x; pos_y := y |}, g)
  else
    let '(x, g) := draw dzero (dsub kMapWidth kInsideMaximumOffset) g in
    let '(y, g) := draw dzero (dsub kMapHeight kInsideMaximumOffset) g in
    (use_hotspot, {| pos_x := x; pos_y := y |}, g).

(** The loop that adds the players, [n] of them from [index]. *)
Fixpoint place_players (n : nat) (index : Z) (o : Options) (c : Crowd) : Outcome Crowd :=
  match n with
  | O => Returns c
  | S n =>
      let '(use_hotspot, position, g) := start_position o (cr_random c) in
      let hotspot := <[Z.to_nat index := use_hotspot]> (cr_hotspot c) in
      let positions := <[Z.to_nat index := position]> (cr_positions c) in
      let '(added, w) := AddPlayer (cr_world c) (index + 1) position in
      if negb added then Throws (runtime_error "failed to initialize AOI player")
      else place_players n (index + 1) o {| cr_world := w; cr_random := g; cr_positions := positions; cr_hotspot := hotspot |}
  end.

(** The position an operation moves its player to. *)
Definition next_position (hotspot : bool) (p : Position) (g : Mt19937) : Position * Mt19937 :=
  let min_x := if hotspot then kHotspotMinX else dzero in
  let max_x := if hotspot then kHotspotMaxX else kMapWidth in
  let min_y := if hotspot then kHotspotMinY else dzero in
  let max_y := if hotspot then kHotspotMaxY else kMapHeight in
  let '(dx, g) := draw (SFopp kMoveRadius) kMoveRadius g in
  let x := Clamp (dadd (pos_x p) dx) min_x (dsub max_x kInsideMaximumOffset) in
  let '(dy, g) := draw (SFopp kMoveRadius) kMoveRadius g in
  let y := Clamp (dadd (pos_y p) dy) min_y (dsub max_y kInsideMaximumOffset) in
  ({| pos_x := x; pos_y := y |}, g).

(** What is measured: the samples and the number of recipients. *)
Record Measured := mkMeasured { latency_samples : list double; total_recipients : Z }.

Definition origin : Position := {| pos_x := dzero; pos_y := dzero |}.

(** One operation. *)
Definition move_once (operation : Z) (c : Crowd) (m : Measured) : M C (Crowd * Measured) :=
  let player_index := operation mod size_of (cr_positions c) in
  let old := nth (Z.to_nat player_index) (cr_positions c) origin in
  let '(next, g) := next_position (nth (Z.to_nat player_index) (cr_hotspot c) false) old (cr_random c) in
  operation_start ← now_;
  '(delta, w) ← lift_outcome (MovePlayer (cr_world c) (player_index + 1) next);
  operation_end ← now_;
  match delta with
  | None => lift_outcome (Throws (runtime_error "valid AOI move was rejected"))
  | Some delta =>
      mret ({| cr_world := w; cr_random := g; cr_positions := <[Z.to_nat player_index := next]> (cr_positions c);
               cr_hotspot := cr_hotspot c |},
            {| latency_samples := latency_samples m ++ [Microseconds (operation_end - operation_start)];
               total_recipients := u64 (total_recipients m + u64 (Z.of_nat (size (entered delta)) + Z.of_nat (size (stayed delta)))) |})
  end.

Fixpoint move_loop (n : nat) (operation : Z) (c : Crowd) (m : Measured) : M C Measured :=
  match n with
  | O => mret m
  | S n => '(c, m) ← move_once operation c m; move_loop n (operation + 1) c m
  end.

(** One repetition: what it measured, and its wall and processor time. *)
Definition aoi_repetition (o : Options) (repetition : Z) (m : Measured) : M C (Measured * double * double) :=
  w ← lift_outcome (AoiWorld_new default_aoi);
  if 2 ^ 59 - 1 <? opt_players o then
    lift_outcome (Throws (length_error "cannot create std::vector larger than max_size()"))
  else
    let n := Z.to_nat (opt_players o) in
    c ← lift_outcome (place_players n 0 o
          {| cr_world := w; cr_random := mt_seed (u64 (seed o + repetition)); cr_positions := replicate n origin;
             cr_hotspot := replicate n false |});
    cpu_start ← CpuMilliseconds;
    wall_start ← now_;
    let operations := u64 (opt_players o * moves_per_player o) in
    m ← move_loop (Z.to_nat operations) 0 c m;
    wall_end ← now_;
    cpu_end ← CpuMilliseconds;
    mret (m, Milliseconds (wall_end - wall_start), dsub cpu_end cpu_start).

Fixpoint aoi_repetitions (n : nat) (repetition : Z) (o : Options) (m : Measured) (wall cpu : double)
    : M C (Measured * double * double) :=
  match n with
  | O => mret (m, wall, cpu)
  | S n =>
      '(m, wall_ms, cpu_ms) ← aoi_repetition o repetition m;
      aoi_repetitions n (repetition + 1) o m (dadd wall wall_ms) (dadd cpu cpu_ms)
  end.

Record AoiMetrics := mkAoiMetrics {
  am_operations : Z;
  am_wall_ms : double;
  am_cpu_ms : double;
  am_operations_per_second : double;
  am_p50_us : double;
  am_p95_us : double;
  am_p99_us : double;
  am_average_aoi_recipients : double;
  am_full_broadcast_recipients : double;
  am_recipient_reduction_percent : double
}.

Definition aoi_metrics (o : Options) (m : Measured) (wall cpu : double) : AoiMetrics :=
  let operations := u64 (u64 (opt_players o * moves_per_player o) * repetitions o) in
  let average := ddiv (double_of (total_recipients m)) (double_of operations) in
  let full := double_of (opt_players o - 1) in
  {| am_operations := operations; am_wall_ms := wall; am_cpu_ms := cpu;
     am_operations_per_second := ddiv (dmul (double_of operations) (double_of 1000)) wall;
     am_p50_us := Percentile (latency_samples m) (round_decimal false 5 (-1));
     am_p95_us := Percentile (latency_samples m) (round_decimal false 95 (-2));
     am_p99_us := Percentile (latency_samples m) (round_decimal false 99 (-2));
     am_average_aoi_recipients := average; am_full_broadcast_recipients := full;
     am_recipient_reduction_percent := dmul (dsub (double_of 1) (ddiv average full)) (double_of 100) |}.

(** The three loops, and the metrics made of what they measured. *)
Definition aoi_measure (o : Options) : M C (Measured * double * double) :=
  let operations := u64 (u64 (opt_players o * moves_per_player o) * repetitions o) in
  if 2 ^ 60 - 1 <? operations then lift_outcome (Throws (length_error "vector::reserve"))
  else aoi_repetitions (Z.to_nat (repetitions o)) 0 o {| latency_samples := []; total_recipients := 0 |} dzero dzero.

Definition RunAoiBenchmark (o : Options) : M C AoiMetrics :=
  '(m, wall, cpu) ← aoi_measure o; mret (aoi_metrics o m wall cpu).
End bench.

(** ** Facts *)

Lemma sandwiched lo d hi :
  is_double lo → is_double hi → finite lo → finite hi → is_double d → dge d lo = true → dge hi d = true →
  finite d ∧ units lo <= units d <= units hi.
Proof.
  intros Dl Dh Fl Fh Dd Hl Hh.
  assert (finite d) as Fd.
  { destruct d as [s|[]| |s m e]; [done| | | |done].
    - by destruct lo as [|[]| |].
    - by destruct hi as [|[]| |[]].
    - by destruct lo as [|[]| |]. }
  split; [done|]. rewrite (dge_units d lo) in Hl by done. rewrite (dge_units hi d) in Hh by done. bool_lia.
Qed.

(** [Clamp] gives a [double] between its bounds, whatever the value is. *)
Lemma Clamp_between v lo hi :
  is_double v → is_double lo → is_double hi → finite lo → finite hi → units lo <= units hi →
  is_double (Clamp v lo hi) ∧ finite (Clamp v lo hi) ∧ units lo <= units (Clamp v lo hi) <= units hi.
Proof.
  intros Dv Dl Dh Fl Fh Hle. unfold Clamp. destruct (dlt hi v) eqn:E1.
  { rewrite dlt_units by done. destruct (units lo <? units hi) eqn:E; [by auto with lia|].
    split; [done|]. split; [done|]. apply Z.ltb_ge in E. lia. }
  destruct (dlt lo v) eqn:E2; [|split; [done|split; [done|lia]]].
  assert (finite v) as Fv.
  { destruct v as [s|[]| |s m e]; [done| | | |done].
    - by destruct lo as [|[]| |].
    - by destruct hi as [|[]| |[]].
    - by destruct lo as [|[]| |]. }
  rewrite (dlt_units hi v) in E1 by done. rewrite (dlt_units lo v) in E2 by done. split; [done|]. split; [done|]. bool_lia.
Qed.

(** The bounds the program uses. *)
Definition bound_ok (lo hi : double) (limit : Z) : Prop :=
  is_double lo ∧ is_double hi ∧ finite lo ∧ finite hi ∧ dlt lo hi = true ∧
  0 <= units lo ∧ units hi < whole limit.

Ltac check_bound :=
  refine (conj _ (conj _ (conj _ (conj _ (conj _ (conj _ _)))))); vm_compute; (reflexivity || discriminate || exact I).

Lemma map_x : bound_ok dzero (dsub kMapWidth kInsideMaximumOffset) 1000. Proof. check_bound. Qed.
Lemma map_y : bound_ok dzero (dsub kMapHeight kInsideMaximumOffset) 2000. Proof. check_bound. Qed.
Lemma hotspot_x : bound_ok kHotspotMinX (dsub kHotspotMaxX kInsideMaximumOffset) 1000. Proof. check_bound. Qed.
Lemma hotspot_y : bound_ok kHotspotMinY (dsub kHotspotMaxY kInsideMaximumOffset) 2000. Proof. check_bound. Qed.

Definition in_range (d : double) (limit : Z) : Prop := is_double d ∧ finite d ∧ 0 <= units d < whole limit.

Section facts.
Context `{Platform} `{UniformReal}.

Lemma draw_range lo hi limit g : bound_ok lo hi limit → in_range (draw lo hi g).1 limit.
Proof.
  intros (Dl & Dh & Fl & Fh & Hlt & H1 & H2). destruct (uniform_real_range lo hi g Dl Dh Hlt) as (D & A & B).
  destruct (sandwiched lo _ hi Dl Dh Fl Fh D A B). unfold draw. split; [done|]. split; [done|]. lia.
Qed.

Lemma Clamp_range v lo hi limit : is_double v → bound_ok lo hi limit → in_range (Clamp v lo hi) limit.
Proof.
  intros Dv (Dl & Dh & Fl & Fh & Hlt & H1 & H2). rewrite dlt_units in Hlt by done. apply Z.ltb_lt in Hlt.
  destruct (Clamp_between v lo hi) as (D & F & B); [done..|lia|]. split; [done|]. split; [done|]. lia.
Qed.

(** A position on the map. *)
Definition on_map (p : Position) : Prop := in_range (pos_x p) 1000 ∧ in_range (pos_y p) 2000.

Lemma on_map_cell w p : default_geometry w → on_map p → is_Some (GridIndexFor w p).
Proof.
  intros Hw [(Dx & Fx & Hx) (Dy & Fy & Hy)]. assert (point p) as Hp by done.
  rewrite GridIndexFor_exact by done. by apply point_inside.
Qed.

Lemma start_on_map o g : on_map (start_position o g).1.2.
Proof.
  unfold start_position. destruct (if decide _ then _ else _) as [hot g1]. destruct hot.
  - pose proof (draw_range _ _ _ g1 hotspot_x) as Hx. destruct (draw _ _ g1) as [x g2].
    pose proof (draw_range _ _ _ g2 hotspot_y) as Hy. by destruct (draw _ _ g2) as [y g3].
  - pose proof (draw_range _ _ _ g1 map_x) as Hx. destruct (draw _ _ g1) as [x g2].
    pose proof (draw_range _ _ _ g2 map_y) as Hy. by destruct (draw _ _ g2) as [y g3].
Qed.

Lemma next_on_map hot p g : on_map p → on_map (next_position hot p g).1.
Proof.
  intros [(Dx & _) (Dy & _)]. unfold next_position.
  assert (dlt (SFopp kMoveRadius) kMoveRadius = true) as Hr by (vm_compute; reflexivity).
  assert (is_double (SFopp kMoveRadius) ∧ is_double kMoveRadius) as [V1 V2] by (split; vm_compute; reflexivity).
  destruct (uniform_real_range _ _ g V1 V2 Hr) as (D1 & _). unfold draw. destruct (uniform_real _ _ g) as [dx g1].
  destruct (uniform_real_range _ _ g1 V1 V2 Hr) as (D2 & _). destruct (uniform_real _ _ g1) as [dy g2]. cbn [fst] in *.
  pose proof (dadd_valid _ _ Dx D1) as Vx. pose proof (dadd_valid _ _ Dy D2) as Vy.
  destruct hot; split; cbn [pos_x pos_y].
  - exact (Clamp_range _ _ _ _ Vx hotspot_x).
  - exact (Clamp_range _ _ _ _ Vy hotspot_y).
  - exact (Clamp_range _ _ _ _ Vx map_x).
  - exact (Clamp_range _ _ _ _ Vy map_y).
Qed.

(** The players of a crowd of [n], the first [k] of them placed. *)
Record CrowdOk (n k : nat) (c : Crowd) : Prop := {
  co_world : AoiInv (cr_world c);
  co_geometry : default_geometry (cr_world c);
  co_players : ∀ id, is_Some (players_ (cr_world c) !! id) ↔ 1 <= id <= Z.of_nat k;
  co_positions : length (cr_positions c) = n;
  co_on_map : Forall on_map (take k (cr_positions c))
}.

Lemma place_players_ok n o : ∀ m k c,
  (k + m = n)%nat → CrowdOk n k c → ∃ c', place_players m (Z.of_nat k) o c = Returns c' ∧ CrowdOk n n c'.
Proof.
  intros m. induction m as [|m IH]; intros k c Hk Hc; cbn [place_players].
  { exists c. replace k with n in Hc by lia. by split. }
  pose proof (start_on_map o (cr_random c)) as Hs. destruct (start_position o (cr_random c)) as [[hot p] g]. cbn [fst snd] in Hs.
  destruct Hc as [Hw Hg Hp Hl Hm]. destruct (on_map_cell _ p Hg Hs) as [i Hi].
  assert (players_ (cr_world c) !! (Z.of_nat k + 1) = None) as Hnone.
  { apply eq_None_not_Some. rewrite Hp. lia. }
  destruct (AddPlayer (cr_world c) (Z.of_nat k + 1) p) as [added w'] eqn:Ea.
  pose proof (AddPlayer_inv (cr_world c) (Z.of_nat k + 1) p Hw) as Hw'. rewrite Ea in Hw'.
  pose proof (add_geometry (cr_world c) (Z.of_nat k + 1) p Hg) as Hg'. rewrite Ea in Hg'. cbn [snd] in *.
  destruct added; cbn [negb].
  2: { apply AddPlayer_false in Ea as [_ [[st E]|E]]; [by rewrite Hnone in E|by rewrite Hi in E]. }
  apply AddPlayer_true in Ea as (_ & i' & _ & Ew).
  replace (Z.of_nat k + 1) with (Z.of_nat (S k)) by lia. apply IH; [lia|]. split; cbn; [done|done| | |].
  - intros id. rewrite Ew. cbn. rewrite lookup_insert_is_Some, Hp. lia.
  - by rewrite length_insert.
  - rewrite Nat2Z.id. rewrite (take_S_r _ k p); [|apply list_lookup_insert_eq; lia].
    rewrite take_insert_ge by lia. apply Forall_app. split; [done|]. by constructor.
Qed.

(** The recipients of a move are other players. *)
Lemma recipients_bound n w id pos d w' :
  AoiInv w → (∀ id, is_Some (players_ w !! id) ↔ 1 <= id <= Z.of_nat n) → 1 <= id <= Z.of_nat n →
  MovePlayer w id pos = Returns (Some d, w') →
  Z.of_nat (size (entered d)) + Z.of_nat (size (stayed d)) <= Z.of_nat n - 1.
Proof.
  intros Hw Hp Hid Hm. rewrite MovePlayer_result in Hm by done. destruct (players_ w !! id) as [st|] eqn:Hst; [|done].
  destruct (GridIndexFor w pos) as [i|] eqn:Hi; [|done].
  destruct (VisiblePlayers_Some (moved w id st pos i) id) as (new & Hnew & Hsees).
  { by apply moved_inv. }
  { rewrite (proj2 (moved_fields w id st pos i)), lookup_insert_eq. by eexists. }
  rewrite Hnew in Hm. cbn [default] in Hm. injection Hm as <- _. cbn [entered stayed].
  set (old := default ∅ (VisiblePlayers w id)).
  assert (size (new ∖ old) + size (old ∩ new) = size new)%nat as Hs.
  { rewrite size_difference_alt, (intersection_comm_L old new). pose proof (subseteq_size (new ∩ old) new ltac:(set_solver)). lia. }
  assert (new ⊆ list_to_set (seqZ 1 (Z.of_nat n)) ∖ {[id]}) as Hsub.
  { intros q Hq%Hsees. destruct Hq as [Hne (a & b & _ & Hcell & _)]. unfold cell_of in Hcell.
    rewrite (proj2 (moved_fields w id st pos i)), lookup_insert_ne in Hcell by done.
    apply elem_of_difference. split; [|set_solver]. apply elem_of_list_to_set, elem_of_seqZ.
    destruct (players_ w !! q) as [stq|] eqn:Eq; [|done]. assert (1 <= q <= Z.of_nat n); [|lia]. apply Hp. by rewrite Eq. }
  apply subseteq_size in Hsub. rewrite size_difference in Hsub.
  2: { apply singleton_subseteq_l, elem_of_list_to_set, elem_of_seqZ. lia. }
  rewrite size_list_to_set, size_singleton, length_seqZ in Hsub by apply NoDup_seqZ. lia.
Qed.
End facts.

Section run.
Context `{Platform} `{UniformReal} {C : Type} `{BenchClock C}.
Implicit Types (ck : C).

Lemma wp_now Q ck : (∀ t ck', Q t ck') → wp now_ Q ck.
Proof. intros HQ. unfold wp, now_. by destruct (bench_now ck). Qed.

Lemma wp_cpu Q ck : (∀ t ck', Q t ck') → wp CpuMilliseconds Q ck.
Proof. intros HQ. unfold wp, CpuMilliseconds. by destruct (cpu_clock ck). Qed.

Lemma wp_lift {S A} (o : Outcome A) a (Q : A → S → Prop) s : o = Returns a → Q a s → wp (lift_outcome o) Q s.
Proof. by intros -> HQ. Qed.

(** What the measurements [m'] add to [m] in [k] operations of [n] players. *)
Definition measured (n k : Z) (m m' : Measured) : Prop :=
  size_of (latency_samples m') = size_of (latency_samples m) + k ∧
  ∃ r, 0 <= r <= k * (n - 1) ∧ (is_u64 (total_recipients m + r) → total_recipients m' = total_recipients m + r).

Lemma measured_trans n k1 k2 m1 m2 m3 : 0 <= total_recipients m1 → measured n k1 m1 m2 → measured n k2 m2 m3 → measured n (k1 + k2) m1 m3.
Proof.
  unfold measured, is_u64. intros Hz (L1 & r1 & R1 & T1) (L2 & r2 & R2 & T2). split; [lia|]. exists (r1 + r2).
  split; [lia|]. intros Hb. rewrite T1 in T2 by lia. lia.
Qed.

Lemma measured_refl n m : measured n 0 m m.
Proof. split; [lia|]. exists 0. split; [lia|]. intros _. lia. Qed.

Lemma move_once_ok n operation c m ck :
  (0 < n)%nat → Z.of_nat n < 2 ^ 59 + 1 → CrowdOk n n c →
  wp (move_once operation c m) (λ r _, CrowdOk n n r.1 ∧ measured (Z.of_nat n) 1 m r.2 ∧ 0 <= total_recipients r.2) ck.
Proof.
  intros Hn Hmax [Hw Hg Hp Hl Hm]. unfold move_once.
  assert (size_of (cr_positions c) = Z.of_nat n) as Hsize by (unfold size_of; by rewrite Hl). rewrite Hsize.
  set (i := operation mod Z.of_nat n). assert (0 <= i < Z.of_nat n) as Hi by (apply Z.mod_pos_bound; lia).
  rewrite take_ge in Hm by lia.
  assert (on_map (nth (Z.to_nat i) (cr_positions c) origin)) as Hold.
  { rewrite Forall_forall in Hm. apply Hm, list_elem_of_In, nth_In. lia. }
  pose proof (next_on_map (nth (Z.to_nat i) (cr_hotspot c) false) _ (cr_random c) Hold) as Hnext.
  destruct (next_position _ _ _) as [next g]. cbn [fst] in Hnext.
  apply wp_bind, wp_now. intros t1 ck1. apply wp_bind.
  destruct (on_map_cell _ next Hg Hnext) as [cell Hcell].
  assert (is_Some (players_ (cr_world c) !! (i + 1))) as [st Hst] by (apply Hp; lia).
  pose proof (MovePlayer_result (cr_world c) (i + 1) next Hw) as Emove. rewrite Hst, Hcell in Emove. cbn zeta in Emove.
  eapply wp_lift; [exact Emove|]. apply wp_bind, wp_now. intros t2 ck2. apply wp_ret. cbn [fst snd].
  pose proof (recipients_bound n (cr_world c) (i + 1) next _ _ Hw Hp ltac:(lia) Emove) as Hr. cbn [entered stayed] in Hr.
  destruct (moved_fields (cr_world c) (i + 1) st next cell) as [_ Hf]. split.
  - split; cbn [cr_world cr_positions].
    + by apply moved_inv.
    + by eapply move_geometry.
    + intros id. rewrite Hf, lookup_insert_is_Some, Hp. lia.
    + by rewrite length_insert.
    + rewrite take_ge by (rewrite length_insert; lia). by apply Forall_insert.
  - split; [split|]; cbn [latency_samples total_recipients].
    + unfold size_of. rewrite length_app. cbn. lia.
    + cbn [entered stayed]. rewrite (u64_small (Z.of_nat _ + Z.of_nat _)) by (unfold is_u64; lia).
      eexists. split; [|by intros Hb; apply u64_small]. lia.
    + apply u64_range.
Qed.

Lemma move_loop_ok n k operation c m ck :
  (0 < n)%nat → Z.of_nat n < 2 ^ 59 + 1 → CrowdOk n n c → 0 <= total_recipients m →
  wp (move_loop k operation c m) (λ m' _, measured (Z.of_nat n) (Z.of_nat k) m m' ∧ 0 <= total_recipients m') ck.
Proof.
  intros Hn Hmax. revert operation c m ck. induction k as [|k IH]; intros operation c m ck Hc Hm; cbn [move_loop].
  { apply wp_ret. split; [|done]. by apply measured_refl. }
  apply wp_bind. eapply wp_wand; [by apply move_once_ok|]. intros [c1 m1] ck1 (Hc1 & Hm1 & H1'). cbn [fst snd] in *.
  eapply wp_wand; [by apply IH|]. intros m2 ck2 [Hm2 H2']. split; [|done]. replace (Z.of_nat (S k)) with (1 + Z.of_nat k) by lia.
  by eapply measured_trans.
Qed.

Lemma aoi_repetition_ok o repetition m ck :
  2 <= opt_players o < 2 ^ 59 → 0 <= total_recipients m →
  wp (aoi_repetition o repetition m) (λ r _,
    measured (opt_players o) (u64 (opt_players o * moves_per_player o)) m r.1.1 ∧ 0 <= total_recipients r.1.1) ck.
Proof.
  intros Hn Hm. unfold aoi_repetition.
  destruct (AoiWorld_new default_aoi) as [w|e] eqn:Ew; [|by vm_compute in Ew]. apply wp_bind.
  eapply wp_lift; [done|]. rewrite (proj2 (Z.ltb_ge _ _)) by lia.
  set (n := Z.to_nat (opt_players o)). assert (opt_players o = Z.of_nat n) as En by (unfold n; lia).
  destruct (AoiWorld_new_inv default_aoi w default_config_ok Ew) as [Hw Hp].
  assert (CrowdOk n 0 {| cr_world := w; cr_random := mt_seed (u64 (seed o + repetition)); cr_positions := replicate n origin;
                         cr_hotspot := replicate n false |}) as Hc0.
  { split; cbn; [done|by apply default_new| |by rewrite length_replicate|constructor].
    intros id. rewrite Hp, lookup_empty. split; [by intros [? [=]]|lia]. }
  destruct (place_players_ok n o n 0 _ eq_refl Hc0) as (c & Ec & Hc). apply wp_bind. eapply wp_lift; [exact Ec|].
  apply wp_bind, wp_cpu. intros t1 ck1. apply wp_bind, wp_now. intros t2 ck2. apply wp_bind.
  eapply wp_wand; [apply (move_loop_ok n); [lia|lia|done|done]|].
  intros m' ck3 [Hm' H0']. apply wp_bind, wp_now. intros t3 ck4. apply wp_bind, wp_cpu. intros t4 ck5. apply wp_ret.
  cbn [fst]. split; [|done]. rewrite En. rewrite Z2Nat.id in Hm' by (apply u64_range). by rewrite <- En in Hm' |- *.
Qed.

Lemma aoi_repetitions_ok o k repetition m wall cpu ck :
  2 <= opt_players o < 2 ^ 59 → 0 <= total_recipients m →
  wp (aoi_repetitions k repetition o m wall cpu) (λ r _,
    measured (opt_players o) (Z.of_nat k * u64 (opt_players o * moves_per_player o)) m r.1.1 ∧ 0 <= total_recipients r.1.1) ck.
Proof.
  intros Hn. revert repetition m wall cpu ck. induction k as [|k IH]; intros repetition m wall cpu ck Hm; cbn [aoi_repetitions].
  { apply wp_ret. split; [by apply measured_refl|done]. }
  apply wp_bind. eapply wp_wand; [by apply aoi_repetition_ok|]. intros [[m1 wall1] cpu1] ck1 [H1' H2']. cbn [fst] in *.
  eapply wp_wand; [by apply IH|]. intros r ck2 [H3' H4']. split; [|done].
  replace (Z.of_nat (S k) * u64 (opt_players o * moves_per_player o))
    with (u64 (opt_players o * moves_per_player o) + Z.of_nat k * u64 (opt_players o * moves_per_player o)) by lia.
  by eapply measured_trans.
Qed.

(** A percentile is one of the samples. *)
Lemma Percentile_elem samples percentile : samples ≠ [] → Percentile samples percentile ∈ samples.
Proof.
  intros Hne. unfold Percentile. destruct samples as [|s0 more] eqn:Es; [done|]. rewrite <- Es in *. clear Es s0 more.
  set (R := λ x y, Is_true (dge y x)). pose proof (merge_sort_Permutation R samples) as Hp.
  set (sorted := merge_sort R samples) in *. rewrite <- Hp.
  assert (0 < size_of sorted) as Hs.
  { unfold size_of. rewrite (Permutation_length Hp). destruct samples; [done|cbn; lia]. }
  set (index := u64 _). assert (is_u64 index) as Hi by apply u64_range.
  apply list_elem_of_In, nth_In. unfold size_of, is_u64 in *. lia.
Qed.
End run.

(** ** Properties *)

(** The AOI benchmark never rejects its own moves. With any accepted options whose
    vectors can be made, whatever the distribution draws and the clocks say, every player
    is placed and every move accepted, none being rounded out of the map: the benchmark
    returns, with one sample per move of every repetition; each move had at most one
    recipient per other player; and each percentile is one of the samples. *)
Theorem aoi_benchmark_completes `{Platform} `{UniformReal} {C} `{BenchClock C} argv o (ck : C) :
  ParseOptions argv = Returns (Some o) →
  opt_players o < 2 ^ 59 → u64 (u64 (opt_players o * moves_per_player o) * repetitions o) < 2 ^ 60 →
  let moves := repetitions o * u64 (opt_players o * moves_per_player o) in
  ∃ m wall cpu ck', aoi_measure o ck = (Returns (m, wall, cpu), ck') ∧
    RunAoiBenchmark o ck = (Returns (aoi_metrics o m wall cpu), ck') ∧
    size_of (latency_samples m) = moves ∧
    (moves * (opt_players o - 1) < 2 ^ 64 → 0 <= total_recipients m <= moves * (opt_players o - 1)) ∧
    (moves ≠ 0 → ∀ p, Percentile (latency_samples m) p ∈ latency_samples m).
Proof.
  intros [Hp _ Hr _ _ _]%ParseOptions_ok Hmax Hops moves.
  pose proof (aoi_repetitions_ok o (Z.to_nat (repetitions o)) 0 {| latency_samples := []; total_recipients := 0 |} dzero dzero ck
    ltac:(lia) ltac:(done)) as Hw.
  unfold aoi_measure, RunAoiBenchmark, aoi_measure. rewrite (proj2 (Z.ltb_ge _ _)) by lia. unfold wp in Hw.
  unfold mbind, M_bind, mret, M_ret.
  destruct (aoi_repetitions _ _ _ _ _ _ ck) as [[[[m wall] cpu]|e] ck']; [|done]. cbn [fst] in Hw.
  destruct Hw as [[Hl (r & Hrb & Hrt)] H0']. cbn [latency_samples total_recipients] in *.
  rewrite Z2Nat.id in * by lia. fold moves in Hl, Hrb. exists m, wall, cpu, ck'. do 2 (split; [done|]).
  assert (size_of (latency_samples m) = moves) as Hsz by (change (size_of (@nil double)) with 0 in Hl; lia).
  split; [done|]. split.
  - intros Hb. rewrite Hrt by (unfold is_u64; lia). lia.
  - intros Hm p. apply Percentile_elem. intros E. rewrite E in Hsz. by destruct Hm.
Qed.

(** ** Concrete runs *)

(** The ranks of the three percentiles are exact up to two thousand samples. *)
Example percentile_ranks :
  forallb (λ n,
    bool_decide (dtrunc (dceil (dmul (round_decimal false 5 (-1)) (double_of n))) = Some ((50 * n + 99) / 100)) &&
    bool_decide (dtrunc (dceil (dmul (round_decimal false 95 (-2)) (double_of n))) = Some ((95 * n + 99) / 100)) &&
    bool_decide (dtrunc (dceil (dmul (round_decimal false 99 (-2)) (double_of n))) = Some ((99 * n + 99) / 100)))
    (seqZ 1 2000) = true.
Proof. vm_compute. reflexivity. Qed.

(** A distribution that always gives its lower bound, and a clock that stands still. *)
Definition uniform_low (lo hi : double) (g : Mt19937) : double * Mt19937 := (lo, (mt_next g).2).
Lemma uniform_low_range lo hi g : is_double lo → is_double hi → dlt lo hi = true →
  let d := (uniform_low lo hi g).1 in is_double d ∧ dge d lo = true ∧ dge hi d = true.
Proof.
  intros Dl Dh Hlt. split; [done|]. unfold dlt, dge, SFltb, SFleb, uniform_low in *. cbn [fst]. split.
  - destruct lo as [|[]| |s m e]; try done. cbn [SFcompare]. rewrite Z.compare_refl.
    change (Pos.compare_cont Eq m m) with (Pos.compare m m). rewrite Pos.compare_refl. by destruct s.
  - by destruct (SFcompare lo hi) as [[]|].
Qed.
#[local] Instance low_uniform : UniformReal := {| uniform_real := uniform_low; uniform_real_range := uniform_low_range |}.
#[local] Instance still_clock : BenchClock unit := {| bench_now ck := (0, ck); cpu_clock ck := (0, ck) |}.
#[local] Instance bench_platform : Platform := x86_64.

Lemma aoi_benchmark_completes_witness :
  ∃ m wall cpu ck', aoi_measure bench_options tt = (Returns (m, wall, cpu), ck') ∧
    size_of (latency_samples m) = 6 ∧ total_recipients m <= 12 ∧ Percentile (latency_samples m) dzero ∈ latency_samples m.
Proof.
  destruct (aoi_benchmark_completes bench_args bench_options tt) as (m & wall & cpu & ck' & E & _ & Hl & Ht & Hp).
  - exact bench_options_parsed.
  - reflexivity.
  - reflexivity.
  - exists m, wall, cpu, ck'. split; [exact E|]. split; [exact Hl|]. split; [by apply Ht|by apply Hp].
Defined.
