(* ===== verification/BenchTimes.v ===== *)
(** * What the benchmark measures

    The readings of the clocks in the order the program takes them, and the metrics as
    functions of them alone: the reference for the measuring code of [BenchAoi] and
    [BenchReport]. The recipients of a move are counted as the players who are around
    the mover where it went. *)

From Stdlib Require Import SpecFloat.
From S2P Require Import Prelude Double Streams AoiWorld GridCells Mt19937 Bench BenchAoi.

(** ** The reference *)

(** One repetition of the AOI benchmark: processor ticks and instants. *)
Record RepetitionTimes := mkRepetitionTimes {
  rt_cpu_start : Z;
  rt_wall_start : Z;
  rt_moves : list (Z * Z);
  rt_wall_end : Z;
  rt_cpu_end : Z
}.

(** Milliseconds of processor time, with [CLOCKS_PER_SEC] a million. *)
Definition cpu_ms (ticks : Z) : double := ddiv (dmul (double_of 1000) (double_of ticks)) (double_of 1000000).

Definition move_samples (rt : RepetitionTimes) : list double := (λ '(s, e), Microseconds (e - s)) <$> rt_moves rt.

Definition sum_of (f : RepetitionTimes → double) (start : double) (rts : list RepetitionTimes) : double :=
  foldl (λ sum rt, dadd sum (f rt)) start rts.

Definition wall_of (rt : RepetitionTimes) : double := Milliseconds (rt_wall_end rt - rt_wall_start rt).
Definition cpu_of (rt : RepetitionTimes) : double := dsub (cpu_ms (rt_cpu_end rt)) (cpu_ms (rt_cpu_start rt)).

Section reference.
Context {C : Type} `{BenchClock C}.

Fixpoint read_moves (n : nat) (ck : C) : list (Z * Z) * C :=
  match n with
  | O => ([], ck)
  | S n =>
      let '(s, ck) := bench_now ck in
      let '(e, ck) := bench_now ck in
      let '(l, ck) := read_moves n ck in ((s, e) :: l, ck)
  end.

Definition read_repetition (n : nat) (ck : C) : RepetitionTimes * C :=
  let '(c1, ck) := cpu_clock ck in
  let '(w1, ck) := bench_now ck in
  let '(l, ck) := read_moves n ck in
  let '(w2, ck) := bench_now ck in
  let '(c2, ck) := cpu_clock ck in
  ({| rt_cpu_start := c1; rt_wall_start := w1; rt_moves := l; rt_wall_end := w2; rt_cpu_end := c2 |}, ck).

Fixpoint read_repetitions (k n : nat) (ck : C) : list RepetitionTimes * C :=
  match k with
  | O => ([], ck)
  | S k =>
      let '(rt, ck) := read_repetition n ck in
      let '(rts, ck) := read_repetitions k n ck in (rt :: rts, ck)
  end.

Context `{Platform} `{UniformReal}.

(** An operation: how many players are around its player afterwards, and the crowd. *)
Definition operation_step (operation : Z) (c : Crowd) : Z * Crowd :=
  let i := operation mod size_of (cr_positions c) in
  let '(next, g) := next_position (nth (Z.to_nat i) (cr_hotspot c) false) (nth (Z.to_nat i) (cr_positions c) origin)
                      (cr_random c) in
  let w := match MovePlayer (cr_world c) (i + 1) next with Returns (_, w) => w | Throws _ => cr_world c end in
  (Z.of_nat (size (default ∅ (VisiblePlayers w (i + 1)))),
   {| cr_world := w; cr_random := g; cr_positions := <[Z.to_nat i := next]> (cr_positions c);
      cr_hotspot := cr_hotspot c |}).

Fixpoint recipients (n : nat) (operation : Z) (c : Crowd) : Z :=
  match n with
  | O => 0
  | S n => let '(r, c) := operation_step operation c in r + recipients n (operation + 1) c
  end.

(** The crowd a repetition starts with. *)
Definition placed (o : Options) (repetition : Z) : Crowd :=
  let n := Z.to_nat (opt_players o) in
  let empty w := {| cr_world := w; cr_random := mt_seed (u64 (seed o + repetition)); cr_positions := replicate n origin;
                    cr_hotspot := replicate n false |} in
  match AoiWorld_new default_aoi with
  | Returns w => match place_players n 0 o (empty w) with Returns c => c | Throws _ => empty w end
  | Throws _ => empty default_world
  end.

Definition operations_of (o : Options) : nat := Z.to_nat (u64 (opt_players o * moves_per_player o)).

Fixpoint all_recipients (k : nat) (repetition : Z) (o : Options) : Z :=
  match k with
  | O => 0
  | S k => recipients (operations_of o) 0 (placed o repetition) + all_recipients k (repetition + 1) o
  end.

(** The metrics of the readings. *)
Definition aoi_of_times (o : Options) (rts : list RepetitionTimes) : AoiMetrics :=
  let operations := u64 (u64 (opt_players o * moves_per_player o) * repetitions o) in
  let samples := concat (move_samples <$> rts) in
  let wall := sum_of wall_of dzero rts in
  let average := ddiv (double_of (u64 (all_recipients (Z.to_nat (repetitions o)) 0 o))) (double_of operations) in
  let others := double_of (opt_players o - 1) in
  {| am_operations := operations;
     am_wall_ms := wall;
     am_cpu_ms := sum_of cpu_of dzero rts;
     am_operations_per_second := ddiv (dmul (double_of operations) (double_of 1000)) wall;
     am_p50_us := Percentile samples (round_decimal false 5 (-1));
     am_p95_us := Percentile samples (round_decimal false 95 (-2));
     am_p99_us := Percentile samples (round_decimal false 99 (-2));
     am_average_aoi_recipients := average;
     am_full_broadcast_recipients := others;
     am_recipient_reduction_percent := dmul (dsub (double_of 1) (ddiv average others)) (double_of 100) |}.

(** ** The measuring code takes these readings *)

Lemma u64_add_l x y : u64 (u64 x + y) = u64 (x + y).
Proof. unfold u64. by rewrite Zplus_mod_idemp_l. Qed.

Lemma CpuMilliseconds_run (ck : C) : CpuMilliseconds ck = (Returns (cpu_ms (cpu_clock ck).1), (cpu_clock ck).2).
Proof. unfold CpuMilliseconds, cpu_ms. by destruct (cpu_clock ck). Qed.

Lemma now_run (ck : C) : now_ ck = (Returns (bench_now ck).1, (bench_now ck).2).
Proof. unfold now_. by destruct (bench_now ck). Qed.

Lemma move_once_times n operation c m (ck : C) :
  (0 < n)%nat → Z.of_nat n < 2 ^ 59 + 1 → CrowdOk n n c →
  let s := bench_now ck in
  let e := bench_now s.2 in
  let r := operation_step operation c in
  move_once operation c m ck =
    (Returns (r.2, {| latency_samples := latency_samples m ++ [Microseconds (e.1 - s.1)];
                      total_recipients := u64 (total_recipients m + r.1) |}), e.2) ∧
  CrowdOk n n r.2.
Proof.
  intros Hn Hmax Hc s e r.
  pose proof (move_once_ok n operation c m ck Hn Hmax Hc) as Hok. unfold wp in Hok.
  destruct Hc as [Hw Hg Hp Hl Hm]. subst r. unfold operation_step, move_once in *.
  assert (size_of (cr_positions c) = Z.of_nat n) as Hsize by (unfold size_of; by rewrite Hl). rewrite Hsize in *.
  set (i := operation mod Z.of_nat n) in *. assert (0 <= i < Z.of_nat n) as Hi by (apply Z.mod_pos_bound; lia).
  rewrite take_ge in Hm by lia.
  assert (on_map (nth (Z.to_nat i) (cr_positions c) origin)) as Hold.
  { rewrite Forall_forall in Hm. apply Hm, list_elem_of_In, nth_In. lia. }
  pose proof (next_on_map (nth (Z.to_nat i) (cr_hotspot c) false) _ (cr_random c) Hold) as Hnext.
  revert Hok Hnext. destruct (next_position _ _ _) as [next g]. cbn [fst]. intros Hok Hnext.
  destruct (on_map_cell _ next Hg Hnext) as [cell Hcell].
  assert (is_Some (players_ (cr_world c) !! (i + 1))) as [st Hst] by (apply Hp; lia).
  pose proof (MovePlayer_result (cr_world c) (i + 1) next Hw) as Emove. rewrite Hst, Hcell in Emove. cbn zeta in Emove.
  pose proof (recipients_bound n (cr_world c) (i + 1) next _ _ Hw Hp ltac:(lia) Emove) as Hr. cbn [entered stayed] in Hr.
  rewrite Emove in *. set (old := default ∅ (VisiblePlayers (cr_world c) (i + 1))) in *.
  set (new := default ∅ (VisiblePlayers (moved _ _ _ _ _) _)) in *.
  assert (size (new ∖ old) + size (old ∩ new) = size new)%nat as Hs.
  { rewrite size_difference_alt, (intersection_comm_L old new). pose proof (subseteq_size (new ∩ old) new ltac:(set_solver)). lia. }
  assert (∀ {A} (f : Z → M C A), (x ← now_; f x) ck = f s.1 s.2) as Es.
  { intros A f. unfold mbind, M_bind. by rewrite now_run. }
  assert (∀ {A} (f : Z → M C A), (x ← now_; f x) s.2 = f e.1 e.2) as Ee.
  { intros A f. unfold mbind, M_bind. by rewrite now_run. }
  rewrite Es in *. unfold mbind at 1, M_bind at 1. unfold mbind at 1, M_bind at 1 in Hok. cbn [lift_outcome] in *.
  rewrite Ee in *. cbn [fst snd mret M_ret] in *. split; [|apply Hok].
  cbn [entered stayed]. rewrite (u64_small (Z.of_nat _ + Z.of_nat _)) by (unfold is_u64; lia).
  by rewrite <- Nat2Z.inj_add, Hs.
Qed.

Lemma move_loop_times n k operation c m (ck : C) :
  (0 < n)%nat → Z.of_nat n < 2 ^ 59 + 1 → CrowdOk n n c → is_u64 (total_recipients m) →
  let '(l, ck') := read_moves k ck in
  move_loop k operation c m ck =
    (Returns {| latency_samples := latency_samples m ++ ((λ '(s, e), Microseconds (e - s)) <$> l);
                total_recipients := u64 (total_recipients m + recipients k operation c) |}, ck').
Proof.
  intros Hn Hmax. revert operation c m ck. induction k as [|k IH]; intros operation c m ck Hc Hm; cbn [move_loop read_moves recipients].
  { cbn. rewrite app_nil_r, Z.add_0_r, u64_small by done. by destruct m. }
  destruct (move_once_times n operation c m ck Hn Hmax Hc) as [E Hc'].
  unfold mbind, M_bind. rewrite E. destruct (bench_now ck) as [s ck1]. cbn [fst snd] in *.
  destruct (bench_now ck1) as [e ck2]. cbn [fst snd] in *. destruct (operation_step operation c) as [r c']. cbn [fst snd] in *.
  specialize (IH (operation + 1) c' {| latency_samples := latency_samples m ++ [Microseconds (e - s)];
                                        total_recipients := u64 (total_recipients m + r) |} ck2 Hc' (u64_range _)).
  destruct (read_moves k ck2) as [l ck3]. rewrite IH. cbn [latency_samples total_recipients fmap list_fmap].
  by rewrite u64_add_l, <- app_assoc, Z.add_assoc.
Qed.

Lemma placed_ok o repetition :
  2 <= opt_players o < 2 ^ 59 →
  let n := Z.to_nat (opt_players o) in
  CrowdOk n n (placed o repetition) ∧ ∃ w, AoiWorld_new default_aoi = Returns w ∧
    place_players n 0 o {| cr_world := w; cr_random := mt_seed (u64 (seed o + repetition));
      cr_positions := replicate n origin; cr_hotspot := replicate n false |} = Returns (placed o repetition).
Proof.
  intros Hn n. unfold placed. destruct (AoiWorld_new default_aoi) as [w|e] eqn:Ew; [|by vm_compute in Ew].
  destruct (AoiWorld_new_inv default_aoi w default_config_ok Ew) as [Hw Hp]. fold n.
  set (c0 := mkCrowd _ _ _ _).
  assert (CrowdOk n 0 c0) as Hc0.
  { split; cbn; [done|by apply default_new| |by rewrite length_replicate|constructor].
    intros id. rewrite Hp, lookup_empty. split; [by intros [? [=]]|lia]. }
  destruct (place_players_ok n o n 0 _ eq_refl Hc0) as (c & Ec & Hc). change (Z.of_nat 0) with 0 in Ec.
  rewrite Ec. split; [done|]. by exists w.
Qed.

Lemma aoi_repetition_times o repetition m (ck : C) :
  2 <= opt_players o < 2 ^ 59 → is_u64 (total_recipients m) →
  let '(rt, ck') := read_repetition (operations_of o) ck in
  aoi_repetition o repetition m ck =
    (Returns ({| latency_samples := latency_samples m ++ move_samples rt;
                 total_recipients := u64 (total_recipients m + recipients (operations_of o) 0 (placed o repetition)) |},
              wall_of rt, cpu_of rt), ck').
Proof.
  intros Hn Hm. destruct (placed_ok o repetition Hn) as (Hc & w & Ew & Ep).
  unfold read_repetition, aoi_repetition. rewrite Ew. unfold mbind, M_bind, lift_outcome.
  rewrite (proj2 (Z.ltb_ge _ _)) by lia. rewrite Ep, CpuMilliseconds_run. destruct (cpu_clock ck) as [c1 ck1]. cbn [fst snd].
  rewrite now_run. destruct (bench_now ck1) as [w1 ck2]. cbn [fst snd].
  pose proof (move_loop_times (Z.to_nat (opt_players o)) (operations_of o) 0 (placed o repetition) m ck2
    ltac:(lia) ltac:(lia) Hc Hm) as Hl. fold (operations_of o).
  destruct (read_moves (operations_of o) ck2) as [l ck3]. rewrite Hl, now_run. destruct (bench_now ck3) as [w2 ck4]. cbn [fst snd].
  rewrite CpuMilliseconds_run. by destruct (cpu_clock ck4) as [c2 ck5].
Qed.

Lemma aoi_repetitions_times o k repetition m wall cpu (ck : C) :
  2 <= opt_players o < 2 ^ 59 → is_u64 (total_recipients m) →
  let '(rts, ck') := read_repetitions k (operations_of o) ck in
  aoi_repetitions k repetition o m wall cpu ck =
    (Returns ({| latency_samples := latency_samples m ++ concat (move_samples <$> rts);
                 total_recipients := u64 (total_recipients m + all_recipients k repetition o) |},
              sum_of wall_of wall rts, sum_of cpu_of cpu rts), ck').
Proof.
  intros Hn. revert repetition m wall cpu ck.
  induction k as [|k IH]; intros repetition m wall cpu ck Hm; cbn [aoi_repetitions read_repetitions all_recipients].
  { cbn. rewrite app_nil_r, Z.add_0_r, u64_small by done. by destruct m. }
  pose proof (aoi_repetition_times o repetition m ck Hn Hm) as E.
  destruct (read_repetition (operations_of o) ck) as [rt ck1]. unfold mbind, M_bind. rewrite E.
  match goal with |- context [aoi_repetitions k _ o ?m1 ?w1 ?c1 ck1] =>
    specialize (IH (repetition + 1) m1 w1 c1 ck1 (u64_range _)) end.
  destruct (read_repetitions k (operations_of o) ck1) as [rts ck2]. rewrite IH.
  cbn [latency_samples total_recipients fmap list_fmap concat sum_of foldl].
  by rewrite u64_add_l, <- app_assoc, Z.add_assoc.
Qed.

(** [RunAoiBenchmark] returns the metrics of its readings. *)
Lemma RunAoiBenchmark_times o (ck : C) :
  2 <= opt_players o < 2 ^ 59 → u64 (u64 (opt_players o * moves_per_player o) * repetitions o) < 2 ^ 60 →
  let '(rts, ck') := read_repetitions (Z.to_nat (repetitions o)) (operations_of o) ck in
  RunAoiBenchmark o ck = (Returns (aoi_of_times o rts), ck').
Proof.
  intros Hn Hops.
  pose proof (aoi_repetitions_times o (Z.to_nat (repetitions o)) 0 {| latency_samples := []; total_recipients := 0 |}
    dzero dzero ck Hn ltac:(done)) as E.
  destruct (read_repetitions _ _ ck) as [rts ck']. unfold RunAoiBenchmark, aoi_measure.
  rewrite (proj2 (Z.ltb_ge _ _)) by lia. unfold mbind, M_bind, mret, M_ret. rewrite E. cbn [latency_samples total_recipients app].
  reflexivity.
Qed.
End reference.
