(* ===== verification/BenchReport.v ===== *)
(** * The benchmark's report

    The rest of [tools/mmo_bench.cpp]: the measured protocol benchmark, [BuildJson],
    [PrintSummary] and [main]. What the program asks the system for is a record of
    parameters ([BenchEnvironment]). A reader of JSON says what the report means. *)

From Stdlib Require Import SpecFloat Strings.Byte.
From stdpp Require Import pretty.
From S2P Require Import Prelude Double DoubleExact Numbers Streams FrameCodec FrameStream Mt19937 Bench BenchAoi BenchTimes.

(** ** Formatted output *)

(** [std::to_string]-like decimal text of an integer. *)
Definition int_text (n : Z) : text := list_ascii_of_string (pretty n).

(** The nearest integer to [n / d], ties to even. *)
Definition nearest (n d : Z) : Z :=
  let q := n / d in
  match Z.compare (2 * (n mod d)) d with
  | Lt => q
  | Eq => if Z.even q then q else q + 1
  | Gt => q + 1
  end.

(** The exact value in thousandths, rounded as [printf] does; the sign apart. *)
Definition thousandths (d : double) : Z := nearest (Z.abs (units d) * 1000) (whole 1).

Definition minus_sign (d : double) : bool :=
  match d with S754_zero s | S754_infinity s | S754_finite s _ _ => s | S754_nan => false end.

Definition digit_char (z : Z) : ascii := Ascii.ascii_of_nat (48 + Z.to_nat z).

(** What [<<] writes of a NaN, which depends on its sign bit. *)
Class NanText := { nan_text : text; nan_text_law : nan_text = list_ascii_of_string "nan" ∨ nan_text = list_ascii_of_string "-nan" }.

(** [std::fixed << std::setprecision(3) << d] *)
Definition fixed3 `{NanText} (d : double) : text :=
  match d with
  | S754_nan => nan_text
  | S754_infinity s => (if s then ["-"%char] else []) ++ list_ascii_of_string "inf"
  | S754_zero _ | S754_finite _ _ _ =>
      let q := thousandths d in
      (if minus_sign d then ["-"%char] else []) ++ int_text (q / 1000) ++ ["."%char] ++
      [digit_char (q / 100 mod 10); digit_char (q / 10 mod 10); digit_char (q mod 10)]
  end.

(** ** The measured protocol benchmark *)

Record ProtocolMetrics := mkProtocolMetrics {
  pm_frames : Z;
  pm_bytes : Z;
  pm_encode_wall_ms : double;
  pm_encode_cpu_ms : double;
  pm_decode_wall_ms : double;
  pm_decode_cpu_ms : double;
  pm_encode_frames_per_second : double;
  pm_decode_frames_per_second : double
}.

Section protocol.
Context `{UniformInt} {C : Type} `{BenchClock C}.

(** [frames * 1000.0 / wall] *)
Definition per_second (frames : Z) (wall_ms : double) : double :=
  ddiv (dmul (double_of frames) (double_of 1000)) wall_ms.

Definition measured_protocol (o : Options) : M C ProtocolMetrics :=
  let frames := u64 (u64 (opt_players o * moves_per_player o) * repetitions o) in
  if 2 ^ 63 - 1 <? u64 (frames * (kFrameHeaderSize + payload_bytes o)) then
    lift_outcome (Throws (length_error "vector::reserve"))
  else
    encode_cpu_start ← CpuMilliseconds;
    encode_start ← now_;
    wire ← lift_outcome (encode_loop (Z.to_nat frames) 0 (replicate (Z.to_nat (payload_bytes o)) x5a) []);
    encode_end ← now_;
    encode_cpu_end ← CpuMilliseconds;
    decoder ← lift_outcome (FrameDecoder_new kDefaultMaxPayloadSize);
    decode_cpu_start ← CpuMilliseconds;
    decode_start ← now_;
    '(decoded, decoder) ← lift_outcome (decode_loop (length wire) wire (mt_seed (seed o)) decoder 0);
    decode_end ← now_;
    decode_cpu_end ← CpuMilliseconds;
    if negb (decoded =? frames) || negb (Z.of_nat (BufferedBytes decoder) =? 0) then
      lift_outcome (Throws (runtime_error "decoded frame count does not match input"))
    else
      let encode_wall := Milliseconds (encode_end - encode_start) in
      let decode_wall := Milliseconds (decode_end - decode_start) in
      mret {| pm_frames := frames; pm_bytes := size_of wire;
              pm_encode_wall_ms := encode_wall; pm_encode_cpu_ms := dsub encode_cpu_end encode_cpu_start;
              pm_decode_wall_ms := decode_wall; pm_decode_cpu_ms := dsub decode_cpu_end decode_cpu_start;
              pm_encode_frames_per_second := per_second frames encode_wall;
              pm_decode_frames_per_second := per_second frames decode_wall |}.
End protocol.

(** ** The report *)

(** [UtcTimestamp], [OperatingSystem], [Compiler], [hardware_concurrency] and
    [PeakResidentMemoryMb]. *)
Record BenchEnvironment := mkBenchEnvironment {
  be_timestamp_utc : text;
  be_operating_system : text;
  be_compiler : text;
  be_hardware_concurrency : Z;
  be_peak_rss_mb : double
}.

Definition str (s : string) : text := list_ascii_of_string s.
Definition nl : text := [Ascii.ascii_of_nat 10].

(** A literal of the source, with its quotes written as apostrophes and its line ends
    as [|]. *)
Definition lit (s : string) : text :=
  (λ c, if decide (c = "'"%char) then quote else if decide (c = "|"%char) then Ascii.ascii_of_nat 10 else c)
    <$> list_ascii_of_string s.

Section report.
Context `{NanText}.

Definition BuildJson (o : Options) (p : ProtocolMetrics) (a : AoiMetrics) (e : BenchEnvironment) : text :=
  concat [
    lit "{|";
    lit "  'schema_version': 1,|";
    lit "  'benchmark_kind': 'in_process_module_benchmark',|";
    lit "  'warning': 'Not an end-to-end epoll server or network latency benchmark',|";
    lit "  'timestamp_utc': '"; be_timestamp_utc e; lit "',|";
    lit "  'environment': {|";
    lit "    'os': '"; JsonEscape (be_operating_system e); lit "',|";
    lit "    'compiler': '"; JsonEscape (be_compiler e); lit "',|";
    lit "    'hardware_concurrency': "; int_text (be_hardware_concurrency e); lit ",|";
    lit "    'peak_rss_mb': "; fixed3 (be_peak_rss_mb e); lit "|";
    lit "  },|";
    lit "  'configuration': {|";
    lit "    'players': "; int_text (opt_players o); lit ",|";
    lit "    'moves_per_player': "; int_text (moves_per_player o); lit ",|";
    lit "    'repetitions': "; int_text (repetitions o); lit ",|";
    lit "    'payload_bytes': "; int_text (payload_bytes o); lit ",|";
    lit "    'distribution': '"; str (distribution o); lit "',|";
    lit "    'seed': "; int_text (seed o); lit "|";
    lit "  },|";
    lit "  'protocol': {|";
    lit "    'frames': "; int_text (pm_frames p); lit ",|";
    lit "    'wire_bytes': "; int_text (pm_bytes p); lit ",|";
    lit "    'encode_wall_ms': "; fixed3 (pm_encode_wall_ms p); lit ",|";
    lit "    'encode_cpu_ms': "; fixed3 (pm_encode_cpu_ms p); lit ",|";
    lit "    'decode_wall_ms': "; fixed3 (pm_decode_wall_ms p); lit ",|";
    lit "    'decode_cpu_ms': "; fixed3 (pm_decode_cpu_ms p); lit ",|";
    lit "    'encode_frames_per_second': "; fixed3 (pm_encode_frames_per_second p); lit ",|";
    lit "    'decode_frames_per_second': "; fixed3 (pm_decode_frames_per_second p); lit "|";
    lit "  },|";
    lit "  'aoi': {|";
    lit "    'operations': "; int_text (am_operations a); lit ",|";
    lit "    'wall_ms': "; fixed3 (am_wall_ms a); lit ",|";
    lit "    'cpu_ms': "; fixed3 (am_cpu_ms a); lit ",|";
    lit "    'operations_per_second': "; fixed3 (am_operations_per_second a); lit ",|";
    lit "    'p50_us': "; fixed3 (am_p50_us a); lit ",|";
    lit "    'p95_us': "; fixed3 (am_p95_us a); lit ",|";
    lit "    'p99_us': "; fixed3 (am_p99_us a); lit ",|";
    lit "    'average_aoi_recipients': "; fixed3 (am_average_aoi_recipients a); lit ",|";
    lit "    'full_broadcast_recipients': "; fixed3 (am_full_broadcast_recipients a); lit ",|";
    lit "    'recipient_reduction_percent': "; fixed3 (am_recipient_reduction_percent a); lit "|";
    lit "  }|";
    lit "}|" ].

Definition PrintSummary (o : Options) (p : ProtocolMetrics) (a : AoiMetrics) (e : BenchEnvironment) : text :=
  concat [
    lit "Benchmark kind: in-process module benchmark|";
    lit "Players: "; int_text (opt_players o); lit ", distribution: "; str (distribution o); nl;
    lit "Protocol encode: "; fixed3 (pm_encode_frames_per_second p); lit " frames/s|";
    lit "Protocol decode: "; fixed3 (pm_decode_frames_per_second p); lit " frames/s|";
    lit "AOI moves: "; fixed3 (am_operations_per_second a); lit " ops/s|";
    lit "AOI p99: "; fixed3 (am_p99_us a); lit " us|";
    lit "Average recipients: "; fixed3 (am_average_aoi_recipients a); lit " vs ";
    fixed3 (am_full_broadcast_recipients a); nl;
    lit "Recipient reduction: "; fixed3 (am_recipient_reduction_percent a); lit "%|";
    lit "Peak RSS: "; fixed3 (be_peak_rss_mb e); lit " MB|" ].

(** [PrintUsage] *)
Definition usage_text : text :=
  concat [
    lit "Usage: mmo_bench [options]|";
    lit "  --players N             Number of simulated players (default 1000)|";
    lit "  --moves-per-player N    Movement operations per player (default 20)|";
    lit "  --repetitions N         Repeated runs (default 3)|";
    lit "  --payload-bytes N       Protocol payload bytes (default 32)|";
    lit "  --distribution NAME     uniform or hotspot (default uniform)|";
    lit "  --seed N                Deterministic random seed|";
    lit "  --output PATH           Write machine-readable JSON|" ].

Context `{Platform} `{UniformInt} `{UniformReal} {C : Type} `{BenchClock C}.

(** What the program leaves: its standard output, and the file it wrote. *)
Record BenchOutput := mkBenchOutput { console : text; file : option (string * text) }.

(** [main]: [can_open] says which paths [std::ofstream] opens. *)
Definition bench_main (e : BenchEnvironment) (can_open : string → bool) (argv : list string) (ck : C)
    : Z * BenchOutput * C :=
  let failed console := (1, {| console := console; file := None |}) in
  match ParseOptions argv with
  | Throws _ => (failed [], ck)
  | Returns None => (0, {| console := usage_text; file := None |}, ck)
  | Returns (Some o) =>
      match (p ← measured_protocol o; a ← RunAoiBenchmark o; mret (p, a)) ck with
      | (Throws _, ck) => (failed [], ck)
      | (Returns (p, a), ck) =>
          let json := BuildJson o p a e in
          let summary := PrintSummary o p a e in
          if decide (output_path o = EmptyString) then (0, {| console := summary; file := None |}, ck)
          else if negb (can_open (output_path o)) then (failed summary, ck)
          else (0, {| console := summary ++ str "JSON: " ++ str (output_path o) ++ nl;
                      file := Some (output_path o, json) |}, ck)
      end
  end.
End report.

(** ** Reading JSON *)

(** Values of JSON, without arrays and the three names: a number is its sign, its
    integer part and the digits of its fraction. *)
Inductive json :=
| JNumber (minus : bool) (whole : Z) (fraction : list Z)
| JString (s : text)
| JObject (members : list (text * json)).

Definition json_space (c : ascii) : bool :=
  existsb (Nat.eqb (Ascii.nat_of_ascii c)) [32; 9; 10; 13]%nat.

Fixpoint skip_json_space (s : text) : text :=
  match s with c :: s' => if json_space c then skip_json_space s' else s | [] => [] end.

(** A number, with no exponent: its integer part has no leading zero, its fraction a
    digit. *)
Definition json_number (s : text) : option (json * text) :=
  let '(minus, s) := match s with "-"%char :: s => (true, s) | _ => (false, s) end in
  let '(ds, s) := span_digits s in
  match ds with
  | [] => None
  | 0 :: _ :: _ => None
  | _ =>
      match s with
      | "."%char :: s =>
          let '(fs, s) := span_digits s in
          match fs with [] => None | _ => Some (JNumber minus (decimal_value ds) fs, s) end
      | _ => Some (JNumber minus (decimal_value ds) [], s)
      end
  end.

Definition expect (c : ascii) (s : text) : option text :=
  match skip_json_space s with
  | x :: s => if decide (x = c) then Some s else None
  | [] => None
  end.

(** A value, and the members of an object after its brace. *)
Fixpoint json_value (fuel : nat) (s : text) : option (json * text) :=
  match fuel with
  | O => None
  | S fuel =>
      match skip_json_space s with
      | [] => None
      | c :: s' =>
          if decide (c = quote) then '(t, s) ← json_string s'; Some (JString t, s)
          else if decide (c = "{"%char) then '(ms, s) ← json_members fuel s'; Some (JObject ms, s)
          else json_number (c :: s')
      end
  end
with json_members (fuel : nat) (s : text) : option (list (text * json) * text) :=
  match fuel with
  | O => None
  | S fuel =>
      s ← expect quote s;
      '(key, s) ← json_string s;
      s ← expect ":"%char s;
      '(v, s) ← json_value fuel s;
      match skip_json_space s with
      | c :: s =>
          if decide (c = ","%char) then '(ms, s) ← json_members fuel s; Some ((key, v) :: ms, s)
          else if decide (c = "}"%char) then Some ([(key, v)], s)
          else None
      | [] => None
      end
  end.

(** A whole text. *)
Definition parse_json (s : text) : option json :=
  '(v, rest) ← json_value (length s) s;
  match skip_json_space rest with [] => Some v | _ => None end.

(** ** What the report says *)

Definition natural (n : Z) : option json := Some (JNumber false n []).

(** A number of three decimals, none of what is not finite. *)
Definition real (d : double) : option json :=
  match d with
  | S754_nan | S754_infinity _ => None
  | _ =>
      let q := thousandths d in
      Some (JNumber (minus_sign d) (q / 1000) [q / 100 mod 10; q / 10 mod 10; q mod 10])
  end.

(** A string, none if it holds a control character [JsonEscape] has no escape for. *)
Definition string_value (s : text) : option json := if existsb unescaped_control s then None else Some (JString s).

Definition member (m : text * option json) : option (text * json) := v ← m.2; Some (m.1, v).
Definition object (ms : list (text * option json)) : option json := JObject <$> mapM member ms.

Definition report_tree (o : Options) (p : ProtocolMetrics) (a : AoiMetrics) (e : BenchEnvironment) : option json :=
  object [
    (str "schema_version", natural 1);
    (str "benchmark_kind", string_value (str "in_process_module_benchmark"));
    (str "warning", string_value (str "Not an end-to-end epoll server or network latency benchmark"));
    (str "timestamp_utc", string_value (be_timestamp_utc e));
    (str "environment", object [
      (str "os", string_value (be_operating_system e));
      (str "compiler", string_value (be_compiler e));
      (str "hardware_concurrency", natural (be_hardware_concurrency e));
      (str "peak_rss_mb", real (be_peak_rss_mb e))]);
    (str "configuration", object [
      (str "players", natural (opt_players o));
      (str "moves_per_player", natural (moves_per_player o));
      (str "repetitions", natural (repetitions o));
      (str "payload_bytes", natural (payload_bytes o));
      (str "distribution", string_value (str (distribution o)));
      (str "seed", natural (seed o))]);
    (str "protocol", object [
      (str "frames", natural (pm_frames p));
      (str "wire_bytes", natural (pm_bytes p));
      (str "encode_wall_ms", real (pm_encode_wall_ms p));
      (str "encode_cpu_ms", real (pm_encode_cpu_ms p));
      (str "decode_wall_ms", real (pm_decode_wall_ms p));
      (str "decode_cpu_ms", real (pm_decode_cpu_ms p));
      (str "encode_frames_per_second", real (pm_encode_frames_per_second p));
      (str "decode_frames_per_second", real (pm_decode_frames_per_second p))]);
    (str "aoi", object [
      (str "operations", natural (am_operations a));
      (str "wall_ms", real (am_wall_ms a));
      (str "cpu_ms", real (am_cpu_ms a));
      (str "operations_per_second", real (am_operations_per_second a));
      (str "p50_us", real (am_p50_us a));
      (str "p95_us", real (am_p95_us a));
      (str "p99_us", real (am_p99_us a));
      (str "average_aoi_recipients", real (am_average_aoi_recipients a));
      (str "full_broadcast_recipients", real (am_full_broadcast_recipients a));
      (str "recipient_reduction_percent", real (am_recipient_reduction_percent a))])].

(** ** Facts *)

(** What may follow a value of the report. *)
Definition ends_value (s : text) : Prop := match s with c :: _ => c = ","%char ∨ c = Ascii.ascii_of_nat 10 | [] => True end.

(** [vtext] is read as [o], or refused, whatever follows. *)
Definition reads (vtext : text) (o : option json) : Prop :=
  ∀ fuel rest, (length vtext < fuel)%nat → ends_value rest →
    json_value fuel (vtext ++ rest) = (λ v, (v, rest)) <$> o.

Definition plain (s : text) : bool := forallb (λ c, bool_decide (escape_char c = [c]) && negb (unescaped_control c)) s.

Lemma plain_escape s : plain s = true → JsonEscape s = s ∧ existsb unescaped_control s = false.
Proof.
  unfold JsonEscape. induction s as [|c s IH]; [done|]. cbn [plain forallb]. intros [[E1 E2]%andb_true_iff Hs]%andb_true_iff.
  destruct (IH Hs) as [H1 H2]. apply bool_decide_eq_true in E1. apply negb_true_iff in E2.
  cbn [fmap list_fmap concat existsb]. by rewrite E1, E2, H1, H2.
Qed.

Lemma json_string_plain s rest : plain s = true → json_string (s ++ quote :: rest) = Some (s, rest).
Proof. intros [E Hc]%plain_escape. pose proof (json_escape_roundtrip s rest) as H. by rewrite E, Hc in H. Qed.

(** Strings. *)
Lemma reads_string s : reads (quote :: JsonEscape s ++ [quote]) (string_value s).
Proof.
  intros fuel rest Hf _. destruct fuel as [|fuel]; [cbn in Hf; lia|]. cbn [app json_value].
  change (skip_json_space (quote :: ?s)) with (quote :: s). cbv iota beta. rewrite decide_True by done.
  rewrite <- app_assoc. cbn [app]. rewrite json_escape_roundtrip. unfold string_value.
  by destruct (existsb unescaped_control s).
Qed.

Lemma reads_plain s : plain s = true → reads (quote :: s ++ [quote]) (string_value s).
Proof. intros Hs. destruct (plain_escape s Hs) as [E _]. rewrite <- E at 1. apply reads_string. Qed.

(** Numbers. *)
Lemma int_text_digits n :
  0 <= n → ∃ c cs ds, int_text n = c :: cs ∧ mapM digit (c :: cs) = Some ds ∧ decimal_value ds = n ∧ is_Some (digit c) ∧
    (ds = [0] ∨ ∃ d ds', ds = d :: ds' ∧ d ≠ 0).
Proof.
  destruct n as [|p|p]; intros Hn; [|unfold int_text; change (list_ascii_of_string (pretty (Z.pos p))) with (magnitude_text p)|lia].
  { exists "0"%char, [], [0]. repeat split; [by eexists|by left]. }
  destruct (magnitude_digits p) as (c & cs & ds & -> & Hl & Hc & Hm & Hv). exists c, cs, ds.
  do 4 (split; [done|]). right. destruct ds as [|d ds]; [done|]. exists d, ds. by destruct Hl.
Qed.

Lemma digit_plain c : is_Some (digit c) → json_space c = false ∧ c ≠ quote ∧ c ≠ "{"%char ∧ c ≠ "-"%char.
Proof. destruct c as [[] [] [] [] [] [] [] []]; intros [d Hd]; try discriminate Hd; done. Qed.

Lemma ends_value_no_digit s : ends_value s → no_digit s ∧ ∀ (A : Type) (f : text → A) (a : A),
  match s with "."%char :: s' => f s' | _ => a end = a.
Proof. destruct s as [|c s]; [done|]. by intros [->| ->]. Qed.

(** A number's text, once a value is expected. *)
Lemma json_value_number fuel c s : json_space c = false → c ≠ quote → c ≠ "{"%char →
  json_value (S fuel) (c :: s) = json_number (c :: s).
Proof. intros H1 H2 H3. cbn [json_value skip_json_space]. rewrite H1. by rewrite !decide_False by done. Qed.

Definition sign_text (minus : bool) : text := if minus then ["-"%char] else [].

(** What follows the sign of a number. *)
Definition unsigned_number (minus : bool) (s : text) : option (json * text) :=
  let '(ds, s) := span_digits s in
  match ds with
  | [] => None
  | 0 :: _ :: _ => None
  | _ =>
      match s with
      | "."%char :: s =>
          let '(fs, s) := span_digits s in
          match fs with [] => None | _ => Some (JNumber minus (decimal_value ds) fs, s) end
      | _ => Some (JNumber minus (decimal_value ds) [], s)
      end
  end.

Lemma json_number_minus s : json_number ("-"%char :: s) = unsigned_number true s.
Proof. done. Qed.

Lemma json_number_plus c s : c ≠ "-"%char → json_number (c :: s) = unsigned_number false (c :: s).
Proof. intros Hc. unfold json_number, unsigned_number. by destruct c as [[] [] [] [] [] [] [] []]. Qed.

Lemma unsigned_int minus n s : 0 <= n → no_digit s →
  unsigned_number minus (int_text n ++ s) =
  match s with
  | "."%char :: s =>
      let '(fs, s) := span_digits s in
      match fs with [] => None | _ => Some (JNumber minus n fs, s) end
  | _ => Some (JNumber minus n [], s)
  end.
Proof.
  intros Hn Hs. destruct (int_text_digits n Hn) as (c & cs & ds & -> & Hm & Hv & _ & Hl). unfold unsigned_number.
  rewrite (span_digits_app _ ds) by done. destruct Hl as [->|(d & ds' & -> & Hd)]; rewrite Hv; [done|].
  by destruct d.
Qed.

Lemma json_value_sign fuel minus n s : 0 <= n →
  json_value (S fuel) (sign_text minus ++ int_text n ++ s) = unsigned_number minus (int_text n ++ s).
Proof.
  intros Hn. destruct minus; cbn [sign_text app].
  - rewrite json_value_number by done. apply json_number_minus.
  - destruct (int_text_digits n Hn) as (c & cs & ds & -> & _ & _ & Hc & _). cbn [app].
    destruct (digit_plain c Hc) as (H1 & H2 & H3 & H4). rewrite json_value_number by done. by apply json_number_plus.
Qed.

Lemma reads_int n : 0 <= n → reads (int_text n) (natural n).
Proof.
  intros Hn fuel rest Hf Hrest. destruct fuel as [|fuel]; [lia|]. destruct (ends_value_no_digit rest Hrest) as [Hd Hp].
  change (int_text n ++ rest) with (sign_text false ++ int_text n ++ rest). rewrite json_value_sign, unsigned_int by done.
  by rewrite (Hp _ (λ s, let '(fs, s) := span_digits s in match fs with [] => None | _ => Some (JNumber false n fs, s) end)).
Qed.

Lemma digit_char_digit z : 0 <= z < 10 → digit (digit_char z) = Some z.
Proof.
  intros Hz. assert (z = 0 ∨ z = 1 ∨ z = 2 ∨ z = 3 ∨ z = 4 ∨ z = 5 ∨ z = 6 ∨ z = 7 ∨ z = 8 ∨ z = 9) as H by lia.
  by repeat destruct H as [->|H]; subst.
Qed.

Lemma thousandths_nonneg d : 0 <= thousandths d.
Proof.
  unfold thousandths, nearest. assert (0 <= Z.abs (units d) * 1000 / whole 1) as H by (apply Z.div_pos; [lia|done]).
  repeat case_match; lia.
Qed.

Lemma reads_double `{NanText} d : reads (fixed3 d) (real d).
Proof.
  intros fuel rest Hf Hrest. destruct fuel as [|fuel]; [lia|].
  assert (∀ minus q, 0 <= q →
    json_value (S fuel) ((sign_text minus ++ int_text (q / 1000) ++ ["."%char] ++
        [digit_char (q / 100 mod 10); digit_char (q / 10 mod 10); digit_char (q mod 10)]) ++ rest)
    = Some (JNumber minus (q / 1000) [q / 100 mod 10; q / 10 mod 10; q mod 10], rest)) as Hfin.
  { intros minus q Hq. rewrite <- !app_assoc, json_value_sign, unsigned_int by (done || by apply Z.div_pos). cbn [app].
    destruct (ends_value_no_digit rest Hrest) as [Hd _].
    change (digit_char ?a :: digit_char ?b :: digit_char ?c :: rest) with ([digit_char a; digit_char b; digit_char c] ++ rest).
    rewrite (span_digits_app _ [q / 100 mod 10; q / 10 mod 10; q mod 10]); [done| |done].
    cbn [mapM]. rewrite !digit_char_digit by (by apply Z.mod_pos_bound). done. }
  pose proof (thousandths_nonneg d) as Hq. destruct d as [s|[]| |s m e].
  - exact (Hfin s _ Hq).
  - done.
  - done.
  - cbn [fixed3 real]. by destruct nan_text_law as [->| ->].
  - exact (Hfin s _ Hq).
Qed.

(** *** Objects *)

Definition key_text (k : text) : text := quote :: k ++ [quote] ++ str ": ".

(** The members of an object and its end, each on its line after [pad]. *)
Fixpoint members_text (pad : text) (ms : list (text * text)) (tail : text) : text :=
  match ms with
  | [] => tail
  | [(k, v)] => nl ++ pad ++ key_text k ++ v ++ tail
  | (k, v) :: ms => nl ++ pad ++ key_text k ++ v ++ str "," ++ members_text pad ms tail
  end.

Definition object_text (pad outer : text) (ms : list (text * text)) : text :=
  str "{" ++ members_text pad ms (nl ++ outer ++ str "}").

Definition blank (pad : text) : Prop := Forall (λ c, json_space c = true) pad.

Lemma skip_blank pad s : blank pad → skip_json_space (pad ++ s) = skip_json_space s.
Proof. induction 1 as [|c pad Hc _ IH]; [done|]. cbn [app skip_json_space]. by rewrite Hc. Qed.

Lemma members_tail pad ms t s : members_text pad ms t ++ s = members_text pad ms (t ++ s).
Proof.
  induction ms as [|[k v] ms IH]; [done|]. cbn [members_text]. destruct ms as [|m ms].
  - by rewrite <- !app_assoc.
  - rewrite <- !app_assoc. by rewrite IH.
Qed.

Lemma members_length pad ms t : length (members_text pad ms t) = (length (members_text pad ms []) + length t)%nat.
Proof. by rewrite <- length_app, members_tail. Qed.

Lemma json_members_first fuel pad k v o s :
  blank pad → plain k = true → reads v o → (length v < fuel)%nat → ends_value s →
  json_members (S fuel) (nl ++ pad ++ key_text k ++ v ++ s) =
  '(w, s) ← (λ w, (w, s)) <$> o;
  match skip_json_space s with
  | c :: s =>
      if decide (c = ","%char) then '(ms, s) ← json_members fuel s; Some ((k, w) :: ms, s)
      else if decide (c = "}"%char) then Some ([(k, w)], s)
      else None
  | [] => None
  end.
Proof.
  intros Hpad Hk Hv Hf Hs. cbn [json_members]. unfold expect.
  rewrite (skip_blank nl) by (by repeat constructor). rewrite (skip_blank pad) by done. unfold key_text.
  cbn [app]. change (skip_json_space (quote :: ?s)) with (quote :: s). cbv iota beta. rewrite decide_True by done.
  cbn [mbind option_bind]. rewrite <- !app_assoc. cbn [app]. rewrite json_string_plain by done. cbn [mbind option_bind].
  change (skip_json_space (str ": " ++ ?s)) with (":"%char :: " "%char :: s). cbv iota beta. rewrite decide_True by done.
  cbn [mbind option_bind]. destruct fuel as [|fuel]; [lia|].
  change (json_value (S fuel) (" "%char :: v ++ s)) with (json_value (S fuel) (v ++ s)).
  rewrite Hv by done. by destruct o.
Qed.

Definition triple_member (m : text * text * option json) : option (text * json) := member (m.1.1, m.2).

Lemma json_members_read pad outer ms : blank pad → blank outer → ms ≠ [] →
  Forall (λ m, plain m.1.1 = true ∧ reads m.1.2 m.2) ms →
  ∀ fuel rest, (length (members_text pad (fst <$> ms) []) < fuel)%nat →
  json_members fuel (members_text pad (fst <$> ms) (nl ++ outer ++ str "}" ++ rest)) =
  (λ l, (l, rest)) <$> mapM triple_member ms.
Proof.
  intros Hpad Houter Hne Hms. induction Hms as [|[[k v] o] ms [Hk Hv] Hms IH]; [done|]. clear Hne.
  intros fuel rest Hf. cbn [fst snd] in *. destruct ms as [|m ms].
  - cbn [fmap list_fmap members_text fst] in *. destruct fuel as [|fuel]; [lia|].
    rewrite (json_members_first fuel pad k v o); [|done..| |by right].
    2: { revert Hf. rewrite !length_app. cbn. lia. }
    cbn [mapM]. unfold triple_member, member. cbn [fst snd]. destruct o as [w|]; [|done].
    cbn [fmap option_fmap option_map mbind option_bind].
    rewrite (skip_blank nl) by (by repeat constructor). rewrite (skip_blank outer) by done. done.
  - change (members_text pad (fst <$> (k, v, o) :: m :: ms) ?t)
      with (nl ++ pad ++ key_text k ++ v ++ str "," ++ members_text pad (fst <$> m :: ms) t) in Hf |- *.
    destruct fuel as [|fuel]; [lia|]. rewrite !length_app in Hf. cbn [length nl] in Hf.
    rewrite (json_members_first fuel pad k v o); [|done..| |by left].
    2: { lia. }
    change (mapM triple_member ((k, v, o) :: m :: ms)) with
      (y ← triple_member (k, v, o); l ← mapM triple_member (m :: ms); Some (y :: l)).
    assert (triple_member (k, v, o) = (λ w, (k, w)) <$> o) as -> by (by destruct o). destruct o as [w|]; [|done].
    cbn [fmap option_fmap option_map mbind option_bind].
    change (skip_json_space (str "," ++ ?s)) with (","%char :: s). cbv iota beta. rewrite decide_True by done.
    rewrite IH; [|done|lia]. by destruct (mapM triple_member (m :: ms)).
Qed.

Lemma reads_object pad outer ms : blank pad → blank outer → ms ≠ [] →
  Forall (λ m, plain m.1.1 = true ∧ reads m.1.2 m.2) ms →
  reads (object_text pad outer (fst <$> ms)) (object ((λ m, (m.1.1, m.2)) <$> ms)).
Proof.
  intros Hpad Houter Hne Hms fuel rest Hf _. unfold object_text, object in *. destruct fuel as [|fuel]; [lia|].
  rewrite <- app_assoc, members_tail, <- !app_assoc. change (str "{" ++ ?s) with ("{"%char :: s). cbn [json_value].
  change (skip_json_space ("{"%char :: ?s)) with ("{"%char :: s). cbv iota beta. rewrite decide_False, decide_True by done.
  rewrite length_app, members_length in Hf. cbn [length str list_ascii_of_string] in Hf.
  rewrite (json_members_read pad outer ms) by (done || lia).
  assert (mapM member ((λ m : text * text * option json, (m.1.1, m.2)) <$> ms) = mapM triple_member ms) as ->.
  { clear. induction ms as [|m ms IH]; [done|]. cbn [fmap list_fmap mapM]. by rewrite IH. }
  by destruct (mapM triple_member ms).
Qed.

(** The report as nested objects. *)
Definition quoted (s : text) : text := quote :: s ++ [quote].
Definition two : text := str "  ".
Definition four : text := str "    ".

Definition environment_members `{NanText} (e : BenchEnvironment) : list (text * text * option json) :=
  [(str "os", quoted (JsonEscape (be_operating_system e)), string_value (be_operating_system e));
   (str "compiler", quoted (JsonEscape (be_compiler e)), string_value (be_compiler e));
   (str "hardware_concurrency", int_text (be_hardware_concurrency e), natural (be_hardware_concurrency e));
   (str "peak_rss_mb", fixed3 (be_peak_rss_mb e), real (be_peak_rss_mb e))].

Definition configuration_members (o : Options) : list (text * text * option json) :=
  [(str "players", int_text (opt_players o), natural (opt_players o));
   (str "moves_per_player", int_text (moves_per_player o), natural (moves_per_player o));
   (str "repetitions", int_text (repetitions o), natural (repetitions o));
   (str "payload_bytes", int_text (payload_bytes o), natural (payload_bytes o));
   (str "distribution", quoted (str (distribution o)), string_value (str (distribution o)));
   (str "seed", int_text (seed o), natural (seed o))].

Definition protocol_members `{NanText} (p : ProtocolMetrics) : list (text * text * option json) :=
  [(str "frames", int_text (pm_frames p), natural (pm_frames p));
   (str "wire_bytes", int_text (pm_bytes p), natural (pm_bytes p));
   (str "encode_wall_ms", fixed3 (pm_encode_wall_ms p), real (pm_encode_wall_ms p));
   (str "encode_cpu_ms", fixed3 (pm_encode_cpu_ms p), real (pm_encode_cpu_ms p));
   (str "decode_wall_ms", fixed3 (pm_decode_wall_ms p), real (pm_decode_wall_ms p));
   (str "decode_cpu_ms", fixed3 (pm_decode_cpu_ms p), real (pm_decode_cpu_ms p));
   (str "encode_frames_per_second", fixed3 (pm_encode_frames_per_second p), real (pm_encode_frames_per_second p));
   (str "decode_frames_per_second", fixed3 (pm_decode_frames_per_second p), real (pm_decode_frames_per_second p))].

Definition aoi_members `{NanText} (a : AoiMetrics) : list (text * text * option json) :=
  [(str "operations", int_text (am_operations a), natural (am_operations a));
   (str "wall_ms", fixed3 (am_wall_ms a), real (am_wall_ms a));
   (str "cpu_ms", fixed3 (am_cpu_ms a), real (am_cpu_ms a));
   (str "operations_per_second", fixed3 (am_operations_per_second a), real (am_operations_per_second a));
   (str "p50_us", fixed3 (am_p50_us a), real (am_p50_us a));
   (str "p95_us", fixed3 (am_p95_us a), real (am_p95_us a));
   (str "p99_us", fixed3 (am_p99_us a), real (am_p99_us a));
   (str "average_aoi_recipients", fixed3 (am_average_aoi_recipients a), real (am_average_aoi_recipients a));
   (str "full_broadcast_recipients", fixed3 (am_full_broadcast_recipients a), real (am_full_broadcast_recipients a));
   (str "recipient_reduction_percent", fixed3 (am_recipient_reduction_percent a), real (am_recipient_reduction_percent a))].

Definition nested (k : text) (ms : list (text * text * option json)) : text * text * option json :=
  (k, object_text four two (fst <$> ms), object ((λ m, (m.1.1, m.2)) <$> ms)).

Definition report_members `{NanText} (o : Options) (p : ProtocolMetrics) (a : AoiMetrics) (e : BenchEnvironment)
    : list (text * text * option json) :=
  [(str "schema_version", int_text 1, natural 1);
   (str "benchmark_kind", quoted (str "in_process_module_benchmark"), string_value (str "in_process_module_benchmark"));
   (str "warning", quoted (str "Not an end-to-end epoll server or network latency benchmark"),
      string_value (str "Not an end-to-end epoll server or network latency benchmark"));
   (str "timestamp_utc", quoted (be_timestamp_utc e), string_value (be_timestamp_utc e));
   nested (str "environment") (environment_members e);
   nested (str "configuration") (configuration_members o);
   nested (str "protocol") (protocol_members p);
   nested (str "aoi") (aoi_members a)].

Lemma BuildJson_object `{NanText} o p a e :
  BuildJson o p a e = object_text two [] (fst <$> report_members o p a e) ++ nl.
Proof.
  unfold BuildJson, object_text, report_members, nested, environment_members, configuration_members, protocol_members,
    aoi_members, quoted, key_text, object_text.
  cbn [fmap list_fmap fst members_text concat app].
  repeat (rewrite <- app_assoc || rewrite <- app_comm_cons). reflexivity.
Qed.

Lemma reads_quoted s : reads (quoted (JsonEscape s)) (string_value s).
Proof. apply reads_string. Qed.

Lemma reads_quoted_plain s : plain s = true → reads (quoted s) (string_value s).
Proof. apply reads_plain. Qed.

Lemma blank_two : blank two ∧ blank four ∧ blank [].
Proof. by repeat constructor. Qed.

Lemma reads_nested k ms : plain k = true → ms ≠ [] → Forall (λ m, plain m.1.1 = true ∧ reads m.1.2 m.2) ms →
  plain (nested k ms).1.1 = true ∧ reads (nested k ms).1.2 (nested k ms).2.
Proof. intros Hk Hne Hms. split; [done|]. destruct blank_two as (B1 & B2 & _). by apply reads_object. Qed.

(** What the numbers of a report need. *)
Record ReportOk (o : Options) (p : ProtocolMetrics) (a : AoiMetrics) (e : BenchEnvironment) : Prop := {
  ro_options : OptionsOk o;
  ro_timestamp : plain (be_timestamp_utc e) = true;
  ro_threads : 0 <= be_hardware_concurrency e;
  ro_frames : 0 <= pm_frames p;
  ro_bytes : 0 <= pm_bytes p;
  ro_operations : 0 <= am_operations a
}.

Lemma plain_distribution o : OptionsOk o → plain (str (distribution o)) = true.
Proof. intros H. by destruct (oo_distribution o H) as [-> | ->]; vm_compute. Qed.

Ltac read_members :=
  repeat (apply Forall_cons; split; [split; [vm_compute; reflexivity|]|]); [..|apply Forall_nil; exact I].

Lemma report_is_read `{NanText} o p a e : ReportOk o p a e → parse_json (BuildJson o p a e) = report_tree o p a e.
Proof.
  intros [Ho Ht Hh Hf Hb Hop]. pose proof (plain_distribution o Ho) as Hd. destruct Ho as [O1 O2 O3 O4 _ O6].
  assert (reads (object_text two [] (fst <$> report_members o p a e)) (report_tree o p a e)) as Hr.
  { change (report_tree o p a e) with (object ((λ m, (m.1.1, m.2)) <$> report_members o p a e)).
    destruct blank_two as (B1 & B2 & B3). apply reads_object; [done|done|done|].
    apply Forall_cons; split; [split; [vm_compute; reflexivity|by apply reads_int]|].
    apply Forall_cons; split; [split; [vm_compute; reflexivity|by apply reads_quoted_plain; vm_compute]|].
    apply Forall_cons; split; [split; [vm_compute; reflexivity|by apply reads_quoted_plain; vm_compute]|].
    apply Forall_cons; split; [split; [vm_compute; reflexivity|by apply reads_quoted_plain]|].
    apply Forall_cons; split.
    { apply reads_nested; [vm_compute; reflexivity|done|]. unfold environment_members.
      read_members; [apply reads_quoted|apply reads_quoted|by apply reads_int|apply reads_double]. }
    apply Forall_cons; split.
    { apply reads_nested; [vm_compute; reflexivity|done|]. unfold configuration_members. unfold is_u64 in O6.
      read_members; [apply reads_int; cbn; lia..|by apply reads_quoted_plain|apply reads_int; cbn; lia]. }
    apply Forall_cons; split.
    { apply reads_nested; [vm_compute; reflexivity|done|]. unfold protocol_members.
      read_members; [by apply reads_int|by apply reads_int|apply reads_double..]. }
    apply Forall_cons; split; [|apply Forall_nil; exact I].
    apply reads_nested; [vm_compute; reflexivity|done|]. unfold aoi_members.
    read_members; [by apply reads_int|apply reads_double..]. }
  unfold parse_json. rewrite BuildJson_object. rewrite Hr; [|rewrite length_app; cbn; lia|by right].
  by destruct (report_tree o p a e).
Qed.

(** The reference of the protocol part: its readings, processor ticks and instants, and
    the metrics as a function of them. *)
Record ProtocolTimes := mkProtocolTimes {
  pt_encode_cpu_start : Z;
  pt_encode_start : Z;
  pt_encode_end : Z;
  pt_encode_cpu_end : Z;
  pt_decode_cpu_start : Z;
  pt_decode_start : Z;
  pt_decode_end : Z;
  pt_decode_cpu_end : Z
}.

Definition read_protocol {C} `{BenchClock C} (ck : C) : ProtocolTimes * C :=
  let '(c1, ck) := cpu_clock ck in
  let '(w1, ck) := bench_now ck in
  let '(w2, ck) := bench_now ck in
  let '(c2, ck) := cpu_clock ck in
  let '(c3, ck) := cpu_clock ck in
  let '(w3, ck) := bench_now ck in
  let '(w4, ck) := bench_now ck in
  let '(c4, ck) := cpu_clock ck in
  ({| pt_encode_cpu_start := c1; pt_encode_start := w1; pt_encode_end := w2; pt_encode_cpu_end := c2;
      pt_decode_cpu_start := c3; pt_decode_start := w3; pt_decode_end := w4; pt_decode_cpu_end := c4 |}, ck).

Definition protocol_of_times (frames bytes : Z) (pt : ProtocolTimes) : ProtocolMetrics :=
  let encode := Milliseconds (pt_encode_end pt - pt_encode_start pt) in
  let decode := Milliseconds (pt_decode_end pt - pt_decode_start pt) in
  {| pm_frames := frames;
     pm_bytes := bytes;
     pm_encode_wall_ms := encode;
     pm_encode_cpu_ms := dsub (cpu_ms (pt_encode_cpu_end pt)) (cpu_ms (pt_encode_cpu_start pt));
     pm_decode_wall_ms := decode;
     pm_decode_cpu_ms := dsub (cpu_ms (pt_decode_cpu_end pt)) (cpu_ms (pt_decode_cpu_start pt));
     pm_encode_frames_per_second := ddiv (dmul (double_of frames) (double_of 1000)) encode;
     pm_decode_frames_per_second := ddiv (dmul (double_of frames) (double_of 1000)) decode |}.

(** Reads the clocks as far as the program gets to. *)
Ltac read_clocks :=
  repeat match goal with
  | |- context [CpuMilliseconds ?k] => rewrite (CpuMilliseconds_run k); destruct (cpu_clock k) as [? ?]; cbn [fst snd]
  | |- context [now_ ?k] => rewrite (now_run k); destruct (bench_now k) as [? ?]; cbn [fst snd]
  end.

(** The measured benchmark is the one without measurements, and measures its readings. *)
Lemma measured_protocol_times `{UniformInt} {C} `{BenchClock C} o frames bytes (ck : C) :
  RunProtocolBenchmark o = Returns (frames, bytes) →
  let '(pt, ck') := read_protocol ck in
  measured_protocol o ck = (Returns (protocol_of_times frames bytes pt), ck').
Proof.
  unfold RunProtocolBenchmark, measured_protocol, read_protocol. generalize (u64 (u64 (opt_players o * moves_per_player o) * repetitions o)) as n. intros n.
  destruct (2 ^ 63 - 1 <? _); [done|].
  destruct (encode_loop _ _ _ _) as [wire|x] eqn:E1; [|done]. cbn [mbind Outcome_bind].
  destruct (FrameDecoder_new _) as [decoder|x] eqn:E2; [|done]. cbn [mbind Outcome_bind].
  destruct (decode_loop _ _ _ _ _) as [[decoded d]|x] eqn:E3; [|done]. cbn [mbind Outcome_bind].
  destruct (_ || _) eqn:E4; [done|]. intros [= <- <-]. unfold mbind, M_bind, lift_outcome.
  read_clocks. rewrite E3. read_clocks. by rewrite E4.
Qed.

Lemma division_by_zero_infinite x s : real (ddiv x (S754_zero s)) = None.
Proof. by destruct x. Qed.

Lemma no_rate_no_report o p a e : real (am_operations_per_second a) = None → report_tree o p a e = None.
Proof.
  intros E. unfold report_tree.
  assert (object [(str "operations", natural (am_operations a)); (str "wall_ms", real (am_wall_ms a));
      (str "cpu_ms", real (am_cpu_ms a)); (str "operations_per_second", real (am_operations_per_second a));
      (str "p50_us", real (am_p50_us a)); (str "p95_us", real (am_p95_us a)); (str "p99_us", real (am_p99_us a));
      (str "average_aoi_recipients", real (am_average_aoi_recipients a));
      (str "full_broadcast_recipients", real (am_full_broadcast_recipients a));
      (str "recipient_reduction_percent", real (am_recipient_reduction_percent a))] = None) as ->.
  { rewrite E. unfold object, member. cbn [mapM mbind option_bind fst snd natural].
    by destruct (real (am_wall_ms a)), (real (am_cpu_ms a)). }
  assert (∀ k ms, mapM member (ms ++ [(k, None)]) = None) as Hlast.
  { intros k ms. induction ms as [|m ms IH]; [done|]. cbn [app mapM]. rewrite IH. by destruct (member m). }
  unfold object at 1.
  match goal with |- context [mapM member [?x1; ?x2; ?x3; ?x4; ?x5; ?x6; ?x7; (?k, None)]] =>
    exact (f_equal (fmap JObject) (Hlast k [x1; x2; x3; x4; x5; x6; x7])) end.
Qed.

(** ** Properties *)

(** C29: The benchmark, from the command line to its report. With any accepted options of
    less than 2^59 players whose frames take less than 2^63 bytes, whatever is drawn and
    whatever the clocks say, the program checks itself and completes; its exit status is
    0, or 1 when the output cannot be opened. Its metrics are those of the clock readings
    in the order it takes them: the encoding and decoding times, a sample for each move
    with none rejected, of which the percentiles are three, the times of the repetitions, and the players around each mover,
    at most all the others. The text it writes is read as JSON with exactly these
    numbers, to three decimals, and the strings, unless one of them has no JSON form: a
    control character in the system's name, or a number that is not finite, as the rates
    are when a clock did not move. *)
Theorem bench_program_reports `{NanText} `{Platform} `{UniformInt} `{UniformReal} {C} `{BenchClock C} argv o e can_open (ck : C) :
  ParseOptions argv = Returns (Some o) →
  opt_players o < 2 ^ 59 →
  let frames := u64 (u64 (opt_players o * moves_per_player o) * repetitions o) in
  let moves := repetitions o * u64 (opt_players o * moves_per_player o) in
  frames * (kFrameHeaderSize + payload_bytes o) < 2 ^ 63 →
  plain (be_timestamp_utc e) = true → 0 <= be_hardware_concurrency e →
  let times := read_protocol ck in
  let repeated := read_repetitions (Z.to_nat (repetitions o)) (operations_of o) times.2 in
  let p := protocol_of_times frames (frames * (kFrameHeaderSize + payload_bytes o)) times.1 in
  let a := aoi_of_times o repeated.1 in
  let json := BuildJson o p a e in
  let summary := PrintSummary o p a e in
  let path := output_path o in
  bench_main e can_open argv ck =
    (if decide (path = EmptyString) then (0, {| console := summary; file := None |}, repeated.2)
     else if can_open path then
       (0, {| console := summary ++ str "JSON: " ++ str path ++ nl; file := Some (path, json) |}, repeated.2)
     else (1, {| console := summary; file := None |}, repeated.2)) ∧
  size_of (concat (move_samples <$> repeated.1)) = moves ∧
  (moves ≠ 0 → ∀ q, Percentile (concat (move_samples <$> repeated.1)) q ∈ concat (move_samples <$> repeated.1)) ∧
  (moves * (opt_players o - 1) < 2 ^ 64 →
     0 <= u64 (all_recipients (Z.to_nat (repetitions o)) 0 o) <= moves * (opt_players o - 1)) ∧
  parse_json json = report_tree o p a e ∧
  (∀ s, am_wall_ms a = S754_zero s → parse_json json = None).
Proof.
  intros Hp Hmax frames moves Hsize Ht Hh times repeated p a json summary path. pose proof (ParseOptions_ok _ _ Hp) as Ho.
  pose proof (protocol_benchmark_passes argv o Hp Hsize) as Hprot. fold frames in Hprot.
  assert (0 <= frames) as Hf0 by apply u64_range. pose proof (oo_payload o Ho) as Hpay.
  assert (frames < 2 ^ 60) as Hf60 by (change kFrameHeaderSize with 8 in Hsize; nia).
  pose proof (oo_players o Ho) as Hpl.
  pose proof (measured_protocol_times o _ _ ck Hprot) as Em.
  pose proof (RunAoiBenchmark_times o times.2 ltac:(lia) Hf60) as Ea.
  pose proof (aoi_repetitions_times o (Z.to_nat (repetitions o)) 0 {| latency_samples := []; total_recipients := 0 |}
    dzero dzero times.2 ltac:(lia) ltac:(done)) as Er.
  destruct (aoi_benchmark_completes argv o times.2 Hp Hmax Hf60) as (m & wall & cpu & ck' & Em' & _ & Hl & Hr & Hq).
  unfold aoi_measure in Em'. rewrite (proj2 (Z.ltb_ge _ _)) in Em' by (unfold frames in Hf60; lia).
  fold times in Em. unfold p, a, json, summary. unfold repeated in *. fold times. clearbody times.
  destruct times as [pt ck1]. cbn [fst snd] in *.
  destruct (read_repetitions _ _ ck1) as [rts ck2]. cbn [fst snd] in *.
  rewrite Er in Em'. injection Em' as Em1 _ _ _. rewrite <- Em1 in Hl, Hr, Hq. cbn [latency_samples total_recipients app] in Hl, Hr, Hq.
  split; [|split; [exact Hl|split; [exact Hq|split; [exact Hr|]]]].
  - unfold bench_main. rewrite Hp. unfold mbind, M_bind, mret, M_ret. rewrite Em, Ea. fold path.
    destruct (decide _); [done|]. by destruct (can_open _).
  - match goal with |- parse_json (BuildJson o ?p1 ?a1 e) = _ ∧ _ =>
      assert (parse_json (BuildJson o p1 a1 e) = report_tree o p1 a1 e) as ->
    end.
    { apply report_is_read. split; [done|done|done|done| |apply u64_range].
      cbn [pm_bytes protocol_of_times]. apply Z.mul_nonneg_nonneg; [done|]. change kFrameHeaderSize with 8. lia. }
    split; [done|]. intros s E. apply no_rate_no_report.
    pose proof (division_by_zero_infinite (dmul (double_of frames) (double_of 1000)) s) as Hz.
    rewrite <- E in Hz. exact Hz.
Qed.

(** ** Concrete runs *)

Example fixed_tenths : fixed3 (H := {| nan_text := _; nan_text_law := or_introl eq_refl |}) (ddiv (double_of (-1)) (double_of 16))
  = str "-0.062".
Proof. vm_compute. reflexivity. Qed.
Example fixed_large : fixed3 (H := {| nan_text := _; nan_text_law := or_introl eq_refl |}) (ddiv (double_of 1000000) (double_of 3))
  = str "333333.333".
Proof. vm_compute. reflexivity. Qed.

Definition bench_environment : BenchEnvironment :=
  {| be_timestamp_utc := str "2026-01-02T03:04:05Z"; be_operating_system := str "Linux"; be_compiler := str "GCC";
     be_hardware_concurrency := 8; be_peak_rss_mb := double_of 3 |}.

(** A clock on which a millisecond passes between two readings, and one that stands still. *)
Definition moving_clock : BenchClock Z := {| bench_now t := (t, t + 1000000); cpu_clock t := (t, t) |}.
Definition plus_nan : NanText := {| nan_text := _; nan_text_law := or_introl eq_refl |}.

Definition report_args : list string := bench_args ++ ["--output"; "out.json"]%string.
Definition report_options : Options :=
  {| opt_players := 3; moves_per_player := 2; repetitions := 1; payload_bytes := 5; distribution := "uniform";
     seed := 20260902; output_path := "out.json" |}.

(** The report is JSON when the clock moves, and none when it stands still. *)
Definition reported {C} `{BenchClock C} (ck : C) : option (option json) :=
  (λ f, parse_json f.2) <$>
  file (bench_main (H := plus_nan) (H0 := x86_64) (H1 := hi_uniform) (H2 := low_uniform) (H3 := _)
    bench_environment (λ _, true) report_args ck).1.2.

Example moving_report : (λ r, bool_decide (is_Some r)) <$> reported (H := moving_clock) 0 = Some true.
Proof. vm_compute. reflexivity. Qed.
Example still_report : reported (H := still_clock) tt = Some None.
Proof. vm_compute. reflexivity. Qed.

Lemma bench_program_reports_witness :
  let times := read_protocol (H := moving_clock) 0 in
  let repeated := read_repetitions (H := moving_clock) 1 6 times.2 in
  let p := protocol_of_times 6 78 times.1 in
  let a := aoi_of_times (H0 := x86_64) (H1 := low_uniform) report_options repeated.1 in
  bench_main (H := plus_nan) (H0 := x86_64) (H1 := hi_uniform) (H2 := low_uniform) (H3 := moving_clock)
    bench_environment (λ _, false) report_args 0
    = (1, {| console := PrintSummary (H := plus_nan) report_options p a bench_environment; file := None |}, repeated.2) ∧
  size_of (concat (move_samples <$> repeated.1)) = 6.
Proof.
  destruct (bench_program_reports (H := plus_nan) (H0 := x86_64) (H1 := hi_uniform) (H2 := low_uniform) (H3 := moving_clock)
    report_args report_options bench_environment (λ _, false) 0) as (Erun & Hl & _).
  - vm_compute. reflexivity.
  - reflexivity.
  - reflexivity.
  - vm_compute. reflexivity.
  - cbn. lia.
  - split; [exact Erun|exact Hl].
Defined.
